(* ===== verification/_CoqProject ===== *)
-Q . S2P
Prelude.v
Lists.v
ListChains.v
ListSpecs.v
ListSort.v
ListTheorems.v
Mem.v
Riscv.v
CString.v
Kalloc.v
Vm.v
VmSpecs.v
VmUser.v
VmCopy.v
VmIO.v
VmTheorems.v
Spinlock.v
Threads.v
Ring.v
Sleeplock.v
Pipe.v
Printf.v
Uart.v
Console.v
ConsoleSpecs.v
Bio.v
BioSpecs.v
BioOps.v
BioTheorems.v
Virtio.v
VirtioSpec.v
VirtioOps.v
VirtioTheorems.v
Log.v
LogSpecs.v
LogSteps.v
LogCrash.v
LogWrite.v
LogTheorems.v
Fs.v
FsTx.v
FsAlloc.v
FsData.v
FsFile.v
FsIO.v
FsWrite.v
FsDemo.v
FsTheorems.v
FsNames.v
File.v
Queues.v
Proc.v
Sched.v
ProcSpecs.v
SchedSpecs.v
ProcAlloc.v
ProcDemo.v
ProcTheorems.v
ProcWait.v
Syscall.v
Sysfile.v
SysfileTheorems.v
Exec.v
ExecTheorems.v
Trap.v
Boot.v
Ulib.v
Grep.v
Umalloc.v
Sh.v
ShText.v
ShRun.v
ShJobs.v
ShEnds.v
ShLine.v
ShMain.v
Wc.v
Cat.v
