(* ===== verification/Prelude.v ===== *)
(** A verification development for the xv6 kernel with containers
    (src/project05-zwang203-main/xv6).

    ** The program

    xv6 is a small Unix for RISC-V; this tree adds containers (groups of
    processes with their own process ids, run list, root directory and limits),
    several consoles on one serial line, and a doubly linked list library.  The
    parts modelled here, from the bottom up, with the file that models each:

    - list.c (and user/list.c, the same file byte for byte): [Lists]; chains of
      cells in [ListChains], what each routine does to the sequence of elements in
      [ListSpecs] and [ListSort], the contract in [ListTheorems].
    - string.c over byte memory ([Mem]): [CString].
    - param.h, memlayout.h, the page-table macros of riscv.h: [Riscv].
    - kalloc.c, the free list threaded through the free pages: [Kalloc].
    - vm.c, page tables in that memory: [Vm]; its invariant in [VmSpecs], address
      spaces in [VmUser] and [VmCopy], user copies in [VmIO], the contract in
      [VmTheorems].
    - spinlock.c, one step per memory access on several CPUs: [Spinlock].
    - sleep, wakeup and killed of proc.c as the rest of the kernel uses them:
      [Threads], with the interleavings of several threads ([pool]).
    - sleeplock.c: [Sleeplock]; pipe.c: [Pipe]; both printfs: [Printf]; uart.c:
      [Uart]; console.c: [Console] and [ConsoleSpecs]; [Ring] has the ring buffers
      these share.
    - bio.c: [Bio]; the cache invariant in [BioSpecs] and [BioOps], the contract in
      [BioTheorems].
    - virtio_disk.c with its device: [Virtio]; its invariant in [VirtioSpec], the
      steps of the driver, the device and the interrupt handler in [VirtioOps], the
      contract in [VirtioTheorems].
    - log.c: [Log]; its steps in [LogSpecs], [LogSteps] and [LogWrite], sequences
      of disk writes and crashes in [LogCrash], the contract in [LogTheorems].
    - fs.c: its code in [Fs]; transactions in [FsTx], blocks and inodes in [FsAlloc],
      contents in [FsData], [FsFile], [FsIO] and [FsWrite], the contract in
      [FsTheorems]; directories, the inode table and path names in [FsNames]; a small
      file system in [FsDemo].
    - file.c and the pipealloc of pipe.c: [File].
    - proc.c: several lists over one memory in [Queues]; processes and containers in
      [Proc], sleep, exit, wait, kill and the scheduler in [Sched]; the invariant and
      what each routine does to it in [ProcSpecs], [SchedSpecs] and [ProcAlloc], a
      small system in [ProcDemo], the contract in [ProcTheorems] and [ProcWait].
    - syscall.c and sysproc.c: [Syscall]; sysfile.c: [Sysfile], [SysfileTheorems];
      exec.c: [Exec], [ExecTheorems]; trap.c and the system call table: [Trap].
    - start.c, main.c, plic.c: [Boot].
    - user programs: ulib.c and the calls the programs are written against in
      [Ulib]; grep.c: [Grep]; wc.c: [Wc]; cat.c: [Cat]; umalloc.c: [Umalloc]; sh.c:
      its parser in [Sh], the grammar it inverts in [ShText], the processes it runs a
      command with in [ShRun], what a command means and the refinement in [ShJobs],
      that it ends in [ShEnds], from the line to the processes in [ShLine], the loop
      over the lines in [ShMain].

    ** How the components fit

    Every routine is a function in one monad, [M S A] below: it returns, panics,
    faults on a bad pointer or index, goes to sleep with the rest of the routine
    as a continuation, or runs out of fuel.  A component's state is a record, and
    [zoom] runs a component's routine inside a larger state: the log's state holds
    the buffer cache's, and so on.  What a component needs of the process that
    runs it is the class [HasThread], of user memory the class [UserMem] with the
    laws [UserMemLaws], of sleep locks [HasSleeplocks].  The clients' definitions are
    over every instance, and so are their theorems as far as they use the laws only;
    those about bytes copied to and from a user program are for [flat_user], user
    memory as a map from addresses to bytes.

    [wp E m Q s] says that [m] from [s] neither panics nor faults nor runs out of
    fuel and ends in [Q], whatever other threads do while it sleeps, as far as
    the environment [E] allows; [returns] is the case of a routine that does not
    sleep at all.  So a theorem that says [returns] also says that the code
    terminates.

    Locks: the CPU that runs a routine owns the set [held] of the spinlocks it
    holds; acquiring one twice, releasing one not held and sleeping with one held
    are panics, as in the code.  [Spinlock] shows separately that the lock
    operations themselves exclude each other, interrupts included.

    ** Bounds and fuel

    Integers are [Z] with the width written out where the code can wrap ([u32],
    [s32], [u64]); array indices out of range are [Fault].  Loops over data take
    their bound from the data.  Loops that wait take the number of wakeups the run
    is given ([wakeups], [w]): the theorems hold for every number, and a run that
    has used them up ends in [Blocked], still asleep.  Searches along the buffer
    list take [NBUF] steps, the length of the list.

    ** What the groups of theorems show

    - Lists: every routine does to the sequence of elements what its comment says,
      and terminates (sorting included).
    - Memory: no page is handed out twice; page tables map what they were told to
      and nothing else changes; copies between the kernel and user memory agree
      with the mapping, across page boundaries.
    - Locks: mutual exclusion over all interleavings, the exact panics.
    - Pipes and consoles: the bytes that come out are the bytes that went in, in
      order, for any interleaving of readers and writers; line editing refines an
      editor on two byte sequences.
    - Buffers and the log: a buffer holds the block's current contents; a
      transaction is atomic with respect to crashes, and so is recovery.
    - The disk: the requests of any number of processes are never confused, whatever
      the device does in the order it is allowed; a process that comes gets its
      descriptors or sleeps until there are some, and each request can be completed
      and its process woken.
    - The file system: what is written is read back, across block and indirect
      boundaries; a fresh block is the first free one; the inode table has one entry
      for an inode.
    - Processes: the run list of a container is served in turn; the lists, states and
      counters of processes and containers stay consistent; wait, kill and wakeup do
      what they say to one process and leave the others; what is freed is free again.
    - System calls: argument strings of exec on the new stack, dup, pipe creation
      with nothing left behind when it fails.
    - Starting: every CPU ends in supervisor mode with its timer set; no CPU runs
      ahead of the initialisation of the first.
    - User programs: the matcher of grep is the language of its patterns; grep, wc
      and cat are functions of the text however the reads cut it up; malloc and free;
      the shell parses back what the grammar writes, and runs a line as the job it
      stands for, in every order its processes can take, with exactly the descriptors
      that are meant, in a bounded number of steps; no end of a pipe is left open
      where a reader would wait for it.

    ** Not modelled

    Assembly (entry.S, swtch.S, trampoline.S, kernelvec.S, initcode.S; a context switch
    is the point where other threads run, and initcode is its bytes), the accessors of
    the control registers in riscv.h, and the hardware but for the device of the
    virtio specification.  The buffer cache is modelled over a disk that reads or
    writes a block at once; that the driver makes its device one is a theorem of its
    own.  ramdisk.c is not linked in.  The test programs under user/ (usertests,
    grind, forktest, stressfs, listtest, busy, busymany, ctest, memalloc) exercise the
    system and hold no logic of it; smemtest, kdirs, udirs, kpages and kpagestest call
    system calls this kernel does not have.  The remaining commands (echo, init, kill,
    ln, ls, mkdir, rm, ps, uproc, cinfo, cstart, consexec, zombie) hand their arguments
    to system calls that are modelled. *)

From Stdlib Require Export ZArith Lia.
From stdpp Require Export base tactics numbers strings gmap list.

Declare Scope xv6_scope.
Delimit Scope xv6_scope with xv6.

(** * Machine-width integers

    C's unsigned arithmetic is reduction modulo [2^w]; a signed [int] is the
    representative of the residue class in [-2^31, 2^31). *)

Definition u8 (x : Z) : Z := (x `mod` 2 ^ 8)%Z.
Definition u16 (x : Z) : Z := (x `mod` 2 ^ 16)%Z.
Definition u32 (x : Z) : Z := (x `mod` 2 ^ 32)%Z.
Definition u64 (x : Z) : Z := (x `mod` 2 ^ 64)%Z.
Definition s32 (x : Z) : Z := ((x + 2 ^ 31) `mod` 2 ^ 32 - 2 ^ 31)%Z.
Definition s16 (x : Z) : Z := ((x + 2 ^ 15) `mod` 2 ^ 16 - 2 ^ 15)%Z.

Lemma u32_small x : (0 ≤ x < 2 ^ 32)%Z → u32 x = x.
Proof. apply Z.mod_small. Qed.

Lemma u64_small x : (0 ≤ x < 2 ^ 64)%Z → u64 x = x.
Proof. apply Z.mod_small. Qed.

Lemma u32_range x : (0 ≤ u32 x < 2 ^ 32)%Z.
Proof. apply Z.mod_pos_bound; lia. Qed.

Lemma u64_range x : (0 ≤ u64 x < 2 ^ 64)%Z.
Proof. apply Z.mod_pos_bound; lia. Qed.

Lemma s32_small x : (- 2 ^ 31 ≤ x < 2 ^ 31)%Z → s32 x = x.
Proof. intros ?. unfold s32. rewrite Z.mod_small; lia. Qed.

(** [u32 (a - b)] is the distance of two counters that differ by less than
    [2^32], whatever wrapped in between. *)
Lemma u32_sub_counters a b d :
  (0 ≤ d < 2 ^ 32)%Z → u32 a = u32 (b + d) → u32 (a - b) = d.
Proof.
  unfold u32. intros Hd Heq.
  rewrite <- Zminus_mod_idemp_l, Heq, Zminus_mod_idemp_l.
  rewrite Z.mod_small; lia.
Qed.

(** * The kernel monad

    A kernel routine is a function from the state of its component to one of
    the ways a thread can leave it:
    - [Ok a s]: it returns [a] with the state [s];
    - [Panic msg]: it calls [panic(msg)], which freezes the machine;
    - [Fault]: it dereferences a null or unmapped pointer or indexes an array
      out of its bounds;
    - [Sleep ch s k]: it calls [sleep(ch, lk)] in state [s]; other threads run,
      and [k] is what it does in the state in which it is woken;
    - [Blocked ch s]: it is still asleep on [ch] after the number of wakeups the
      run was given;
    - [OutOfFuel]: a loop used up the iterations it was given. *)

Inductive res (S A : Type) : Type :=
| Ok (a : A) (s : S)
| Panic (msg : string)
| Fault
| Sleep (ch : Z) (s : S) (k : S → res S A)
| Blocked (ch : Z) (s : S)
| OutOfFuel.
Arguments Ok {S A} a s.
Arguments Panic {S A} msg.
Arguments Fault {S A}.
Arguments Sleep {S A} ch s k.
Arguments Blocked {S A} ch s.
Arguments OutOfFuel {S A}.

Definition M (S A : Type) : Type := S → res S A.

Fixpoint bind_res {S A B} (r : res S A) (f : A → M S B) : res S B :=
  match r with
  | Ok a s => f a s
  | Panic msg => Panic msg
  | Fault => Fault
  | Sleep ch s k => Sleep ch s (λ s', bind_res (k s') f)
  | Blocked ch s => Blocked ch s
  | OutOfFuel => OutOfFuel
  end.

Definition ret {S A} (a : A) : M S A := λ s, Ok a s.
Definition bind {S A B} (m : M S A) (f : A → M S B) : M S B :=
  λ s, bind_res (m s) f.
Definition panic {S A} (msg : string) : M S A := λ _, Panic msg.
Definition fault {S A} : M S A := λ _, Fault.
Definition out_of_fuel {S A} : M S A := λ _, OutOfFuel.
Definition gets {S A} (f : S → A) : M S A := λ s, Ok (f s) s.
Definition modify {S} (f : S → S) : M S unit := λ s, Ok tt (f s).
Definition when {S} (b : bool) (m : M S unit) : M S unit :=
  if b then m else ret tt.
(** [ASSERT(c)] of assert.h: prints the condition and calls [panic("list")]. *)
Definition ASSERT {S} (b : bool) : M S unit :=
  if b then ret tt else panic "list".
(** A partial read: the pointer or index has to denote an object. *)
Definition get_some {S A} (f : S → option A) : M S A :=
  λ s, match f s with Some a => Ok a s | None => Fault end.

Notation "'let!' x := m 'in' k" := (bind m (λ x, k))
  (at level 10, x binder, m at level 100, k at level 200,
   format "'[v' 'let!'  x  :=  m  'in' '/' k ']'") : xv6_scope.
Notation "m ;;; k" := (bind m (λ _ : unit, k))
  (at level 100, k at level 200, right associativity,
   format "'[v' m ;;; '/' k ']'") : xv6_scope.
Open Scope xv6_scope.

(** Runs [f] on the elements of a list in order and collects the results. *)
Fixpoint traverse {S A B} (f : A → M S B) (xs : list A) : M S (list B) :=
  match xs with
  | [] => ret []
  | x :: xs => let! y := f x in let! ys := traverse f xs in ret (y :: ys)
  end.

(** ** Running a component inside a larger state

    [zoom get put m] runs the routine [m] of a component whose state is the
    field [get s] of the larger state [s]. *)
Fixpoint zoom_res {S T A} (put : T → S → S) (get : S → T) (s : S)
    (r : res T A) : res S A :=
  match r with
  | Ok a t => Ok a (put t s)
  | Panic msg => Panic msg
  | Fault => Fault
  | Sleep ch t k => Sleep ch (put t s) (λ s', zoom_res put get s' (k (get s')))
  | Blocked ch t => Blocked ch (put t s)
  | OutOfFuel => OutOfFuel
  end.
Definition zoom {S T A} (get : S → T) (put : T → S → S) (m : M T A) : M S A :=
  λ s, zoom_res put get s (m (get s)).

(** ** Weakest preconditions

    [env] is what a sleeping thread assumes of the other threads and promises
    them: the state satisfies [e_inv] whenever it goes to sleep and whenever it
    is woken, and what happens in between is in [e_rely]. *)
Record env (S : Type) : Type := Env {
  e_inv : S → Prop;
  e_rely : S → S → Prop;
}.
Arguments Env {S} _ _.
Arguments e_inv {S} _ _.
Arguments e_rely {S} _ _ _.

(** The environment of a routine that must not sleep. *)
Definition no_sleep {S} : env S := Env (λ _, False) (λ _ _, False).

Section wp.
Context {S : Type} (E : env S).

Fixpoint safe {A} (Q : A → S → Prop) (r : res S A) : Prop :=
  match r with
  | Ok a s => Q a s
  | Panic _ | Fault | OutOfFuel => False
  | Sleep _ s k =>
      e_inv E s ∧ ∀ s', e_rely E s s' → e_inv E s' → safe Q (k s')
  | Blocked _ s => e_inv E s
  end.

Definition wp {A} (m : M S A) (Q : A → S → Prop) (s : S) : Prop :=
  safe Q (m s).

Lemma safe_mono {A} (P Q : A → S → Prop) (r : res S A) :
  (∀ a s, P a s → Q a s) → safe P r → safe Q r.
Proof.
  intros HPQ. induction r as [| | |ch s k IH| |]; simpl; eauto.
  intros [Hi Hk]. split; [done|]. intros s' HR HI. eauto.
Qed.

Lemma safe_bind {A B} (r : res S A) (f : A → M S B) Q :
  safe (λ a s, safe Q (f a s)) r → safe Q (bind_res r f).
Proof.
  induction r as [| | |ch s k IH| |]; simpl; eauto.
  intros [Hi Hk]. split; [done|]. intros s' HR HI. eauto.
Qed.

Lemma wp_mono {A} (m : M S A) (P Q : A → S → Prop) s :
  wp m P s → (∀ a s', P a s' → Q a s') → wp m Q s.
Proof. intros ??. by eapply safe_mono. Qed.

Lemma wp_bind {A B} (m : M S A) (f : A → M S B) Q s :
  wp m (λ a s', wp (f a) Q s') s → wp (bind m f) Q s.
Proof. apply safe_bind. Qed.

(** The bind rule with the specification of the first routine. *)
Lemma wp_call {A B} (m : M S A) (f : A → M S B) (P : A → S → Prop) Q s :
  wp m P s → (∀ a s', P a s' → wp (f a) Q s') → wp (bind m f) Q s.
Proof. intros Hm Hf. apply wp_bind. by eapply wp_mono. Qed.

Lemma wp_ok {A} (m : M S A) Q s a s' : m s = Ok a s' → Q a s' → wp m Q s.
Proof. unfold wp. by intros ->. Qed.

Lemma wp_ret {A} (a : A) Q s : Q a s → wp (ret a) Q s.
Proof. done. Qed.

Lemma wp_gets {A} (f : S → A) Q s : Q (f s) s → wp (gets f) Q s.
Proof. done. Qed.

Lemma wp_modify (f : S → S) Q s : Q tt (f s) → wp (modify f) Q s.
Proof. done. Qed.

Lemma wp_get_some {A} (f : S → option A) Q s a :
  f s = Some a → Q a s → wp (get_some f) Q s.
Proof. unfold wp, get_some. by intros ->. Qed.

Lemma wp_when (b : bool) (m : M S unit) Q s :
  (b = true → wp m Q s) → (b = false → Q tt s) → wp (when b m) Q s.
Proof. destruct b; intros Ht Hf; [by apply Ht|by apply wp_ret, Hf]. Qed.
End wp.

(** For a routine that does not sleep, the weakest precondition says that it
    returns, and what. *)
Abbreviation returns m Q s := (wp no_sleep m Q s) (only parsing).

Lemma wp_no_sleep {S A} (m : M S A) (Q : A → S → Prop) (s : S) :
  wp no_sleep m Q s ↔ ∃ a s', m s = Ok a s' ∧ Q a s'.
Proof.
  unfold wp. split.
  - destruct (m s) as [a s'| | |ch s' k| |]; simpl; try tauto. eauto.
  - intros (a & s' & -> & HQ). done.
Qed.

(** A routine that returns without sleeping does so under any environment. *)
Lemma wp_any_env {S A} (E : env S) (m : M S A) (Q : A → S → Prop) (s : S) :
  wp no_sleep m Q s → wp E m Q s.
Proof. rewrite wp_no_sleep. intros (a & s' & He & HQ). by eapply wp_ok. Qed.

(** A component's routine inside a larger state: [R] is what the caller knows of
    the rest of the state, and keeps knowing while the routine sleeps. *)
Lemma wp_zoom {S T A} (Es : env S) (Et : env T) (get : S → T) (put : T → S → S) (m : M T A)
    (P : A → T → Prop) (Q : A → S → Prop) (R : S → Prop) (s : S) :
  wp Et m P (get s) → R s →
  (∀ t s, R s → e_inv Et t → e_inv Es (put t s)) →
  (∀ t s s', R s → e_rely Es (put t s) s' → e_inv Es s' →
     R s' ∧ e_rely Et t (get s') ∧ e_inv Et (get s')) →
  (∀ a t s, R s → P a t → Q a (put t s)) →
  wp Es (zoom get put m) Q s.
Proof.
  unfold wp, zoom. intros Hm HR Hinv Hrely HQ.
  revert HR Hm. generalize (m (get s)). intros r. revert s. induction r as [| | |ch t k IH| |];
    intros s0 HR Hm; simpl in *; try done; eauto.
  destruct Hm as [Hi Hk]. split; [by apply Hinv|]. intros s' Hr Hi'.
  destruct (Hrely t s0 s' HR Hr Hi') as (? & ? & ?). apply IH; auto.
Qed.

(** The common case: the routine does not sleep. *)
Lemma wp_zoom_returns {S T A} (Es : env S) (get : S → T) (put : T → S → S) (m : M T A)
    (P : A → T → Prop) (Q : A → S → Prop) (s : S) :
  wp no_sleep m P (get s) → (∀ a t, P a t → Q a (put t s)) → wp Es (zoom get put m) Q s.
Proof.
  rewrite wp_no_sleep. intros (a & t & Hm & HP) HQ. unfold wp, zoom. rewrite Hm. by apply HQ.
Qed.

Lemma bind_Ok {S A B} (m : M S A) (f : A → M S B) s a s' :
  m s = Ok a s' → bind m f s = f a s'.
Proof. unfold bind. by intros ->. Qed.

Create HintDb xv6.
#[export] Hint Resolve wp_ret wp_gets wp_modify : xv6.

(** [wp_step] runs the next primitive of a routine; [wp_apply] uses the
    specification of a called routine. *)
Ltac wp_step :=
  match goal with
  | |- wp _ (bind _ _) _ _ => apply wp_bind
  | |- wp _ (ret _) _ _ => apply wp_ret; cbn beta
  | |- wp _ (gets _) _ _ => apply wp_gets; cbn beta
  | |- wp _ (modify _) _ _ => apply wp_modify; cbn beta
  end.
Ltac wp_steps := repeat (wp_step; simpl).
Ltac wp_apply L :=
  lazymatch goal with
  | |- wp _ (bind _ _) _ _ => eapply wp_call; [eapply L|cbn beta]
  | |- wp _ _ _ _ => eapply wp_mono; [eapply L|cbn beta]
  end.

(** Proves a decidable statement about concrete data by evaluating it. *)
Ltac by_compute :=
  lazymatch goal with |- ?P =>
    let d := constr:(_ : Decision P) in
    refine (@bool_decide_unpack P d _); vm_compute; exact I
  end.

(** * Spinlocks of the running CPU

    The bodies of the kernel's critical sections are run by one CPU; what they
    need of the locks is which ones this CPU holds.  [acquire] panics on a lock
    the CPU already holds, [release] on one it does not hold (spinlock.c, lines
    25 and 49); waiting for another CPU to release the lock is not visible to
    the routine.  The spinning itself and the mutual exclusion it gives are
    modelled in [Spinlock]. *)
Class HasLocks (S : Type) := {
  held : S → gset Z;
  set_held : gset Z → S → S;
  held_set : ∀ h s, held (set_held h s) = h;
  set_held_held : ∀ s, set_held (held s) s = s;
  set_held_set : ∀ h h' s, set_held h (set_held h' s) = set_held h s;
}.

Definition acquire `{HasLocks St} (lk : Z) : M St unit := λ s,
  if decide (lk ∈ held s) then Panic "acquire"
  else Ok tt (set_held ({[lk]} ∪ held s) s).

Definition release `{HasLocks St} (lk : Z) : M St unit := λ s,
  if decide (lk ∈ held s) then Ok tt (set_held (held s ∖ {[lk]}) s)
  else Panic "release".

Section locks.
Context `{HasLocks St}.

Lemma wp_acquire E lk Q s :
  lk ∉ held s → Q tt (set_held ({[lk]} ∪ held s) s) → wp E (acquire lk) Q s.
Proof. unfold wp, acquire. intros. by rewrite decide_False. Qed.

Lemma wp_release E lk Q s :
  lk ∈ held s → Q tt (set_held (held s ∖ {[lk]}) s) → wp E (release lk) Q s.
Proof. unfold wp, release. intros. by rewrite decide_True. Qed.
Lemma lock_in (lk : Z) (h : gset Z) : lk ∈ {[lk]} ∪ h.
Proof. set_solver. Qed.

Lemma lock_released (lk : Z) (h : gset Z) : lk ∉ h → ({[lk]} ∪ h) ∖ {[lk]} = h.
Proof. set_solver. Qed.
End locks.

(** * Lists *)

Section list_facts.
Context {A : Type}.
Implicit Types (x y : A) (xs ys : list A).

Lemma NoDup_app_comm xs ys : NoDup (xs ++ ys) → NoDup (ys ++ xs).
Proof. by rewrite (Permutation_app_comm xs ys). Qed.

Lemma NoDup_middle xs x ys :
  NoDup (xs ++ x :: ys) ↔ (x ∉ xs ++ ys) ∧ NoDup (xs ++ ys).
Proof. rewrite !NoDup_app, NoDup_cons. set_solver. Qed.
End list_facts.
