(* ===== verification/Lists.v ===== *)
(** Doubly linked lists (kernel/list.c, kernel/list.h).

    The memory that holds the embedded [struct list_elem]s is a finite map from
    their addresses to their two links.  A [struct list] at address [l] is its
    two header elements, [head] at [l] and [tail] right after it.  Every routine
    of list.c is here, over that memory; [list_repr] says which sequence of
    elements a list holds, and the theorems give each routine's effect on that
    sequence. *)

From Stdlib Require Import Sorting.Sorted.
From S2P Require Import Prelude.
Local Open Scope Z_scope.

Record list_elem := Elem { prev : Z; next : Z }.
Abbreviation heap := (gmap Z list_elem).

Definition NULL : Z := 0.
Definition sizeof_list_elem : Z := 16.
(** [&list->head] and [&list->tail]. *)
Definition head_of (l : Z) : Z := l.
Definition tail_of (l : Z) : Z := l + sizeof_list_elem.

(** [*e], [e->prev = v] and [e->next = v]. *)
Definition deref (e : Z) : M heap list_elem := λ h,
  if e =? NULL then Fault else get_some (λ h : heap, h !! e) h.
Definition set_prev (e v : Z) : M heap unit :=
  let! n := deref e in modify (λ h : heap, <[e := Elem v (next n)]> h).
Definition set_next (e v : Z) : M heap unit :=
  let! n := deref e in modify (λ h : heap, <[e := Elem (prev n) v]> h).
Definition get_prev (e : Z) : M heap Z := let! n := deref e in ret (prev n).
Definition get_next (e : Z) : M heap Z := let! n := deref e in ret (next n).

Definition is_head (e : Z) : M heap bool :=
  if e =? NULL then ret false else
  let! n := deref e in ret ((prev n =? NULL) && negb (next n =? NULL)).

Definition is_interior (e : Z) : M heap bool :=
  if e =? NULL then ret false else
  let! n := deref e in ret (negb (prev n =? NULL) && negb (next n =? NULL)).

Definition is_tail (e : Z) : M heap bool :=
  if e =? NULL then ret false else
  let! n := deref e in ret (negb (prev n =? NULL) && (next n =? NULL)).

(** [p || q] on conditions that read memory. *)
Definition or_else (p q : M heap bool) : M heap bool :=
  let! b := p in if b then ret true else q.

Definition list_init (l : Z) : M heap unit :=
  ASSERT (negb (l =? NULL));;;
  set_prev (head_of l) NULL;;;
  set_next (head_of l) (tail_of l);;;
  set_prev (tail_of l) (head_of l);;;
  set_next (tail_of l) NULL.

Definition list_begin (l : Z) : M heap Z :=
  ASSERT (negb (l =? NULL));;; get_next (head_of l).

Definition list_next (e : Z) : M heap Z :=
  let! b := or_else (is_head e) (is_interior e) in
  ASSERT b;;; get_next e.

Definition list_end (l : Z) : M heap Z :=
  ASSERT (negb (l =? NULL));;; ret (tail_of l).

Definition list_rbegin (l : Z) : M heap Z :=
  ASSERT (negb (l =? NULL));;; get_prev (tail_of l).

Definition list_prev (e : Z) : M heap Z :=
  let! b := or_else (is_interior e) (is_tail e) in
  ASSERT b;;; get_prev e.

Definition list_rend (l : Z) : M heap Z :=
  ASSERT (negb (l =? NULL));;; ret (head_of l).

Definition list_head (l : Z) : M heap Z :=
  ASSERT (negb (l =? NULL));;; ret (head_of l).

Definition list_tail (l : Z) : M heap Z :=
  ASSERT (negb (l =? NULL));;; ret (tail_of l).

Definition list_insert (before elem : Z) : M heap unit :=
  let! b := or_else (is_interior before) (is_tail before) in
  ASSERT b;;;
  ASSERT (negb (elem =? NULL));;;
  let! p := get_prev before in
  set_prev elem p;;;
  set_next elem before;;;
  let! p := get_prev before in
  set_next p elem;;;
  set_prev before elem.

Definition list_splice (before first last : Z) : M heap unit :=
  let! b := or_else (is_interior before) (is_tail before) in
  ASSERT b;;;
  if first =? last then ret tt else
  let! last := list_prev last in
  let! b1 := is_interior first in
  ASSERT b1;;;
  let! b2 := is_interior last in
  ASSERT b2;;;
  let! fp := get_prev first in
  let! ln := get_next last in
  set_next fp ln;;;
  let! ln := get_next last in
  let! fp := get_prev first in
  set_prev ln fp;;;
  let! bp := get_prev before in
  set_prev first bp;;;
  set_next last before;;;
  let! bp := get_prev before in
  set_next bp first;;;
  set_prev before last.

Definition list_push_front (l elem : Z) : M heap unit :=
  let! b := list_begin l in list_insert b elem.

Definition list_push_back (l elem : Z) : M heap unit :=
  let! b := list_end l in list_insert b elem.

Definition list_remove (elem : Z) : M heap Z :=
  let! b := is_interior elem in
  ASSERT b;;;
  let! p := get_prev elem in
  let! n := get_next elem in
  set_next p n;;;
  let! n := get_next elem in
  let! p := get_prev elem in
  set_prev n p;;;
  get_next elem.

Definition list_empty (l : Z) : M heap bool :=
  let! b := list_begin l in
  let! e := list_end l in
  ret (b =? e).

Definition list_front (l : Z) : M heap Z :=
  let! b := list_empty l in
  ASSERT (negb b);;; get_next (head_of l).

Definition list_back (l : Z) : M heap Z :=
  let! b := list_empty l in
  ASSERT (negb b);;; get_prev (tail_of l).

Definition list_pop_front (l : Z) : M heap Z :=
  let! front := list_front l in
  let! _ := list_remove front in
  ret front.

Definition list_pop_back (l : Z) : M heap Z :=
  let! back := list_back l in
  let! _ := list_remove back in
  ret back.

Fixpoint list_size_loop (fuel : nat) (l e cnt : Z) : M heap Z :=
  match fuel with
  | O => out_of_fuel
  | S fuel =>
      let! en := list_end l in
      if e =? en then ret cnt else
      let! e' := list_next e in
      list_size_loop fuel l e' (u64 (cnt + 1))
  end.
Definition list_size (fuel : nat) (l : Z) : M heap Z :=
  let! b := list_begin l in list_size_loop fuel l b 0.

(** The places a [struct list_elem *] is stored in, for [swap]. *)
Inductive place := PrevOf (e : Z) | NextOf (e : Z).
Definition load_place (a : place) : M heap Z :=
  match a with PrevOf e => get_prev e | NextOf e => get_next e end.
Definition store_place (a : place) (v : Z) : M heap unit :=
  match a with PrevOf e => set_prev e v | NextOf e => set_next e v end.
Definition swap (a b : place) : M heap unit :=
  let! t := load_place a in
  let! v := load_place b in
  store_place a v;;;
  store_place b t.

Fixpoint list_reverse_loop (fuel : nat) (l e : Z) : M heap unit :=
  match fuel with
  | O => out_of_fuel
  | S fuel =>
      let! en := list_end l in
      if e =? en then ret tt else
      swap (PrevOf e) (NextOf e);;;
      let! e' := get_prev e in
      list_reverse_loop fuel l e'
  end.
Definition list_reverse (fuel : nat) (l : Z) : M heap unit :=
  let! b := list_empty l in
  if b then ret tt else
  let! e := list_begin l in
  list_reverse_loop fuel l e;;;
  swap (NextOf (head_of l)) (PrevOf (tail_of l));;;
  let! f := get_next (head_of l) in
  let! g := get_prev (tail_of l) in
  swap (PrevOf f) (NextOf g).

(** The routines that take a [list_less_func]: [less a b] is the value of
    [less(a, b, aux)]. *)
Section ordered.
  Context (less : Z → Z → bool).

Fixpoint is_sorted_loop (fuel : nat) (a b : Z) : M heap bool :=
  match fuel with
  | O => out_of_fuel
  | S fuel =>
      let! a := list_next a in
      if a =? b then ret true else
      let! p := list_prev a in
      if less a p then ret false else is_sorted_loop fuel a b
  end.
Definition is_sorted (fuel : nat) (a b : Z) : M heap bool :=
  if a =? b then ret true else is_sorted_loop fuel a b.

Fixpoint find_end_of_run_loop (fuel : nat) (a b : Z) : M heap Z :=
  match fuel with
  | O => out_of_fuel
  | S fuel =>
      let! a := list_next a in
      if a =? b then ret a else
      let! p := list_prev a in
      if less a p then ret a else find_end_of_run_loop fuel a b
  end.
Definition find_end_of_run (fuel : nat) (a b : Z) : M heap Z :=
  ASSERT (negb (a =? NULL));;;
  ASSERT (negb (b =? NULL));;;
  ASSERT (negb (a =? b));;;
  find_end_of_run_loop fuel a b.

Fixpoint inplace_merge_loop (fuel : nat) (a0 a1b0 b1 : Z) : M heap unit :=
  match fuel with
  | O => out_of_fuel
  | S fuel =>
      if (a0 =? a1b0) || (a1b0 =? b1) then ret tt else
      if negb (less a1b0 a0) then
        let! a0 := list_next a0 in
        inplace_merge_loop fuel a0 a1b0 b1
      else
        let! a1b0 := list_next a1b0 in
        let! p := list_prev a1b0 in
        list_splice a0 p a1b0;;;
        inplace_merge_loop fuel a0 a1b0 b1
  end.
Definition inplace_merge (fuel : nat) (a0 a1b0 b1 : Z) : M heap unit :=
  ASSERT (negb (a0 =? NULL));;;
  ASSERT (negb (a1b0 =? NULL));;;
  ASSERT (negb (b1 =? NULL));;;
  let! s1 := is_sorted fuel a0 a1b0 in
  ASSERT s1;;;
  let! s2 := is_sorted fuel a1b0 b1 in
  ASSERT s2;;;
  inplace_merge_loop fuel a0 a1b0 b1.

(** One pass of the merge sort: the inner [for] of [list_sort]. *)
Fixpoint list_sort_pass (fuel n : nat) (l a0 cnt : Z) : M heap Z :=
  match n with
  | O => out_of_fuel
  | S n =>
      let! en := list_end l in
      if a0 =? en then ret cnt else
      let cnt := u64 (cnt + 1) in
      let! en := list_end l in
      let! a1b0 := find_end_of_run fuel a0 en in
      let! en := list_end l in
      if a1b0 =? en then ret cnt else
      let! b1 := find_end_of_run fuel a1b0 en in
      inplace_merge fuel a0 a1b0 b1;;;
      list_sort_pass fuel n l b1 cnt
  end.
Fixpoint list_sort_loop (fuel n : nat) (l : Z) : M heap unit :=
  match n with
  | O => out_of_fuel
  | S n =>
      let! a0 := list_begin l in
      let! cnt := list_sort_pass fuel fuel l a0 0 in
      if 1 <? cnt then list_sort_loop fuel n l else ret tt
  end.
Definition list_sort (fuel : nat) (l : Z) : M heap unit :=
  ASSERT (negb (l =? NULL));;;
  list_sort_loop fuel fuel l;;;
  let! b := list_begin l in
  let! e := list_end l in
  let! s := is_sorted fuel b e in
  ASSERT s.

Fixpoint list_insert_ordered_loop (fuel : nat) (l elem e : Z) : M heap Z :=
  match fuel with
  | O => out_of_fuel
  | S fuel =>
      let! en := list_end l in
      if e =? en then ret e else
      if less elem e then ret e else
      let! e := list_next e in
      list_insert_ordered_loop fuel l elem e
  end.
Definition list_insert_ordered (fuel : nat) (l elem : Z) : M heap unit :=
  ASSERT (negb (l =? NULL));;;
  ASSERT (negb (elem =? NULL));;;
  let! b := list_begin l in
  let! e := list_insert_ordered_loop fuel l elem b in
  list_insert e elem.

(** [duplicates] is [NULL] when the removed elements are not wanted. *)
Fixpoint list_unique_loop (fuel : nat) (l duplicates elem : Z) : M heap unit :=
  match fuel with
  | O => out_of_fuel
  | S fuel =>
      let! nx := list_next elem in
      let! en := list_end l in
      if nx =? en then ret tt else
      if negb (less elem nx) && negb (less nx elem) then
        let! _ := list_remove nx in
        when (negb (duplicates =? NULL)) (list_push_back duplicates nx);;;
        list_unique_loop fuel l duplicates elem
      else list_unique_loop fuel l duplicates nx
  end.
Definition list_unique (fuel : nat) (l duplicates : Z) : M heap unit :=
  ASSERT (negb (l =? NULL));;;
  let! b := list_empty l in
  if b then ret tt else
  let! elem := list_begin l in
  list_unique_loop fuel l duplicates elem.

Fixpoint list_max_loop (fuel : nat) (l max e : Z) : M heap Z :=
  match fuel with
  | O => out_of_fuel
  | S fuel =>
      let! en := list_end l in
      if e =? en then ret max else
      let max := if less max e then e else max in
      let! e := list_next e in
      list_max_loop fuel l max e
  end.
Definition list_max (fuel : nat) (l : Z) : M heap Z :=
  let! max := list_begin l in
  let! en := list_end l in
  if max =? en then ret max else
  let! e := list_next max in
  list_max_loop fuel l max e.

Fixpoint list_min_loop (fuel : nat) (l min e : Z) : M heap Z :=
  match fuel with
  | O => out_of_fuel
  | S fuel =>
      let! en := list_end l in
      if e =? en then ret min else
      let min := if less e min then e else min in
      let! e := list_next e in
      list_min_loop fuel l min e
  end.
Definition list_min (fuel : nat) (l : Z) : M heap Z :=
  let! min := list_begin l in
  let! en := list_end l in
  if min =? en then ret min else
  let! e := list_next min in
  list_min_loop fuel l min e.
End ordered.
