(* ===== verification/ListChains.v ===== *)
(** Chains of list elements.

    [dseg] describes a doubly linked segment of the list memory; the lemmas of
    this file run the primitive accesses of kernel/list.c on such segments, and
    the three routines that relink elements (insert, remove, splice). *)

From Stdlib Require Import Sorting.Sorted.
From S2P Require Import Prelude Lists.
Local Open Scope Z_scope.

(** * Chains of elements

    [dseg h p xs n]: in [h] the elements [xs] are linked to each other in this
    order, the first one's [prev] being [p] and the last one's [next] being
    [n]. *)

Definition hd_or (n : Z) (xs : list Z) : Z :=
  match xs with [] => n | x :: _ => x end.
Fixpoint last_or (p : Z) (xs : list Z) : Z :=
  match xs with [] => p | x :: xs => last_or x xs end.

Fixpoint dseg (h : heap) (p : Z) (xs : list Z) (n : Z) : Prop :=
  match xs with
  | [] => True
  | x :: xs' => h !! x = Some (Elem p (hd_or n xs')) ∧ dseg h x xs' n
  end.

(** A list at [l] holding the elements [xs]: the chain from its head through
    [xs] to its tail, the head's [prev] and the tail's [next] being null. *)
Definition chain (l : Z) (xs : list Z) : list Z :=
  head_of l :: xs ++ [tail_of l].
Definition list_repr (h : heap) (l : Z) (xs : list Z) : Prop :=
  dseg h NULL (chain l xs) NULL ∧ NoDup (chain l xs) ∧ NULL ∉ chain l xs.

(** The heap updates [set_prev] and [set_next] perform. *)
Definition upd_prev (e v : Z) (h : heap) : heap :=
  alter (λ n, Elem v (next n)) e h.
Definition upd_next (e v : Z) (h : heap) : heap :=
  alter (λ n, Elem (prev n) v) e h.

Section chain_facts.
Implicit Types (h : heap) (xs ys : list Z) (p n x v : Z).

Lemma last_or_app p xs ys : last_or p (xs ++ ys) = last_or (last_or p xs) ys.
Proof. revert p. induction xs; simpl; auto. Qed.

Lemma hd_or_app n xs ys : hd_or n (xs ++ ys) = hd_or (hd_or n ys) xs.
Proof. by destruct xs. Qed.

Lemma last_or_in x xs : last_or x xs ∈ x :: xs.
Proof.
  revert x. induction xs as [|y xs IH]; intros x; simpl; [set_solver|].
  apply list_elem_of_further, IH.
Qed.

Lemma last_or_nonempty p q xs : xs ≠ [] → last_or p xs = last_or q xs.
Proof. by destruct xs. Qed.

Lemma last_or_in' p xs : xs ≠ [] → last_or p xs ∈ xs.
Proof. destruct xs as [|x xs]; [done|]. intros _. exact (last_or_in x xs). Qed.

Lemma dseg_app h p xs ys n :
  dseg h p (xs ++ ys) n ↔
  dseg h p xs (hd_or n ys) ∧ dseg h (last_or p xs) ys n.
Proof.
  revert p. induction xs as [|x xs IH]; intros p; simpl; [tauto|].
  rewrite IH, hd_or_app. tauto.
Qed.

Lemma dseg_ext h h' p xs n :
  (∀ x, x ∈ xs → h' !! x = h !! x) → dseg h p xs n → dseg h' p xs n.
Proof.
  revert p. induction xs as [|x xs IH]; intros p Hext; simpl; [done|].
  intros [Hx Hxs]. split.
  - rewrite Hext; [done|set_solver].
  - apply IH; [|done]. intros y ?. apply Hext. set_solver.
Qed.

(** The links of an element in the middle of a chain. *)
Lemma dseg_lookup h p xs x ys n :
  dseg h p (xs ++ x :: ys) n →
  h !! x = Some (Elem (last_or p xs) (hd_or n ys)).
Proof. rewrite dseg_app. simpl. tauto. Qed.

Lemma upd_prev_ne e v h x : x ≠ e → upd_prev e v h !! x = h !! x.
Proof. intros. by apply lookup_alter_ne. Qed.

Lemma upd_next_ne e v h x : x ≠ e → upd_next e v h !! x = h !! x.
Proof. intros. by apply lookup_alter_ne. Qed.

Lemma dseg_upd_prev_notin h e v p xs n :
  e ∉ xs → dseg h p xs n → dseg (upd_prev e v h) p xs n.
Proof. intros He. apply dseg_ext. intros x Hx. apply upd_prev_ne. set_solver. Qed.

Lemma dseg_upd_next_notin h e v p xs n :
  e ∉ xs → dseg h p xs n → dseg (upd_next e v h) p xs n.
Proof. intros He. apply dseg_ext. intros x Hx. apply upd_next_ne. set_solver. Qed.

Lemma dseg_upd_prev_head h p x xs n v :
  x ∉ xs → dseg h p (x :: xs) n → dseg (upd_prev x v h) v (x :: xs) n.
Proof.
  simpl. intros Hx [Hl Hs]. split; [|by apply dseg_upd_prev_notin].
  unfold upd_prev. by rewrite lookup_alter_eq, Hl.
Qed.

Lemma dseg_upd_next_last h p xs n v :
  NoDup xs → dseg h p xs n → dseg (upd_next (last_or p xs) v h) p xs v.
Proof.
  destruct xs as [|x xs]; [done|]. simpl.
  revert x p. induction xs as [|y xs IH]; intros x p Hnd [Hx Hs]; simpl in *.
  - split; [|done]. unfold upd_next. by rewrite lookup_alter_eq, Hx.
  - apply NoDup_cons in Hnd as [Hnx Hnd]. split; [|by apply IH].
    rewrite upd_next_ne; [done|]. intros ->. apply Hnx. exact (last_or_in y xs).
Qed.

(** ** Running the accessors *)

Lemma wp_deref E h e (n : list_elem) Q :
  e ≠ NULL → h !! e = Some n → Q n h → wp E (deref e) Q h.
Proof.
  intros He Hn HQ. unfold wp, deref. rewrite (proj2 (Z.eqb_neq _ _) He).
  unfold get_some. by rewrite Hn.
Qed.

Lemma wp_get_prev E h e p n Q :
  e ≠ NULL → h !! e = Some (Elem p n) → Q p h → wp E (get_prev e) Q h.
Proof. intros. apply wp_bind. by eapply wp_deref. Qed.

Lemma wp_get_next E h e p n Q :
  e ≠ NULL → h !! e = Some (Elem p n) → Q n h → wp E (get_next e) Q h.
Proof. intros. apply wp_bind. by eapply wp_deref. Qed.

Lemma wp_set_prev E h e v Q :
  e ≠ NULL → is_Some (h !! e) → Q tt (upd_prev e v h) → wp E (set_prev e v) Q h.
Proof.
  intros He [n Hn] HQ. apply wp_bind. eapply wp_deref; [done..|].
  apply wp_modify. replace (<[e:=_]> h) with (upd_prev e v h); [done|].
  apply map_eq. intros x. unfold upd_prev. rewrite lookup_alter, lookup_insert.
  case_decide; subst; [by rewrite Hn|done].
Qed.

Lemma wp_set_next E h e v Q :
  e ≠ NULL → is_Some (h !! e) → Q tt (upd_next e v h) → wp E (set_next e v) Q h.
Proof.
  intros He [n Hn] HQ. apply wp_bind. eapply wp_deref; [done..|].
  apply wp_modify. replace (<[e:=_]> h) with (upd_next e v h); [done|].
  apply map_eq. intros x. unfold upd_next. rewrite lookup_alter, lookup_insert.
  case_decide; subst; [by rewrite Hn|done].
Qed.

Lemma wp_ASSERT E (b : bool) (Q : unit → heap → Prop) h :
  b = true → Q tt h → wp E (ASSERT b) Q h.
Proof. by intros ->. Qed.

Lemma wp_is_head E h e p n Q :
  e ≠ NULL → h !! e = Some (Elem p n) →
  Q (bool_decide (p = NULL ∧ n ≠ NULL)) h → wp E (is_head e) Q h.
Proof.
  intros He Hn HQ. unfold is_head. rewrite (proj2 (Z.eqb_neq _ _) He).
  apply wp_bind. eapply wp_deref; [done..|]. apply wp_ret. simpl.
  replace (_ && _) with (bool_decide (p = NULL ∧ n ≠ NULL)); [done|].
  case_bool_decide; unfold NULL in *; lia.
Qed.

Lemma wp_is_interior E h e p n Q :
  e ≠ NULL → h !! e = Some (Elem p n) →
  Q (bool_decide (p ≠ NULL ∧ n ≠ NULL)) h → wp E (is_interior e) Q h.
Proof.
  intros He Hn HQ. unfold is_interior. rewrite (proj2 (Z.eqb_neq _ _) He).
  apply wp_bind. eapply wp_deref; [done..|]. apply wp_ret. simpl.
  replace (_ && _) with (bool_decide (p ≠ NULL ∧ n ≠ NULL)); [done|].
  case_bool_decide; unfold NULL in *; lia.
Qed.

Lemma wp_is_tail E h e p n Q :
  e ≠ NULL → h !! e = Some (Elem p n) →
  Q (bool_decide (p ≠ NULL ∧ n = NULL)) h → wp E (is_tail e) Q h.
Proof.
  intros He Hn HQ. unfold is_tail. rewrite (proj2 (Z.eqb_neq _ _) He).
  apply wp_bind. eapply wp_deref; [done..|]. apply wp_ret. simpl.
  replace (_ && _) with (bool_decide (p ≠ NULL ∧ n = NULL)); [done|].
  case_bool_decide; unfold NULL in *; lia.
Qed.

(** [is_interior (e) || is_tail (e)]: the element has a predecessor. *)
Lemma wp_interior_or_tail E h e p n Q :
  e ≠ NULL → h !! e = Some (Elem p n) → p ≠ NULL →
  Q true h → wp E (or_else (is_interior e) (is_tail e)) Q h.
Proof.
  intros He Hn Hp HQ. apply wp_bind. eapply wp_is_interior; [done..|].
  case_bool_decide; [done|]. eapply wp_is_tail; [done..|].
  rewrite bool_decide_true; [done|]. destruct (decide (n = NULL)); tauto.
Qed.

(** [is_head (e) || is_interior (e)]: the element has a successor. *)
Lemma wp_head_or_interior E h e p n Q :
  e ≠ NULL → h !! e = Some (Elem p n) → n ≠ NULL →
  Q true h → wp E (or_else (is_head e) (is_interior e)) Q h.
Proof.
  intros He Hn Hp HQ. apply wp_bind. eapply wp_is_head; [done..|].
  case_bool_decide; [done|]. eapply wp_is_interior; [done..|].
  rewrite bool_decide_true; [done|]. destruct (decide (p = NULL)); tauto.
Qed.

Lemma wp_list_next E h e p n Q :
  e ≠ NULL → h !! e = Some (Elem p n) → n ≠ NULL →
  Q n h → wp E (list_next e) Q h.
Proof.
  intros. apply wp_bind. eapply wp_head_or_interior; [done..|].
  apply wp_bind, wp_ASSERT; [done|]. by eapply wp_get_next.
Qed.

Lemma wp_list_prev E h e p n Q :
  e ≠ NULL → h !! e = Some (Elem p n) → p ≠ NULL →
  Q p h → wp E (list_prev e) Q h.
Proof.
  intros. apply wp_bind. eapply wp_interior_or_tail; [done..|].
  apply wp_bind, wp_ASSERT; [done|]. by eapply wp_get_prev.
Qed.
End chain_facts.

(** [simpl_nodup] splits a [NoDup] hypothesis of a concatenation into the
    pairwise disjointness facts; [notin] proves non-membership from them. *)
Ltac split_nodup :=
  repeat match goal with
  | H : NoDup (_ ++ _) |- _ => apply NoDup_app in H as (?&?&?)
  | H : NoDup (_ :: _) |- _ => apply NoDup_cons in H as [? ?]
  | H : ∀ x, x ∈ [] → _ |- _ => clear H
  end.
Ltac notin := set_solver.
(** Frames a segment past updates of elements outside it. *)
Ltac seg_frame :=
  repeat first
    [ apply dseg_upd_prev_notin; [first [done | notin]|]
    | apply dseg_upd_next_notin; [first [done | notin]|] ].

Section splicing.
Implicit Types (h : heap) (xs ys X B C P : list Z) (p n x v : Z).

Lemma dseg_head_lookup h p x xs n :
  dseg h p (x :: xs) n → h !! x = Some (Elem p (hd_or n xs)).
Proof. simpl. tauto. Qed.

Lemma dseg_last_lookup h p xs n :
  xs ≠ [] → dseg h p xs n → ∃ q, h !! last_or p xs = Some (Elem q n).
Proof.
  destruct xs as [|x xs] using rev_ind; [done|]. intros _ [_ Hx]%dseg_app.
  rewrite last_or_app. simpl in *. destruct Hx. eauto.
Qed.

Lemma last_or_not_null p xs : xs ≠ [] → NULL ∉ xs → last_or p xs ≠ NULL.
Proof. intros Hne Hn Heq. apply Hn. rewrite <- Heq. by apply last_or_in'. Qed.

Lemma upd_next_is_Some e v h x : is_Some (h !! x) → is_Some (upd_next e v h !! x).
Proof. unfold upd_next. by rewrite lookup_alter_is_Some. Qed.
Lemma upd_prev_is_Some e v h x : is_Some (h !! x) → is_Some (upd_prev e v h !! x).
Proof. unfold upd_prev. by rewrite lookup_alter_is_Some. Qed.

Lemma dseg_in_is_Some h p xs n x : dseg h p xs n → x ∈ xs → is_Some (h !! x).
Proof.
  intros Hs (xs1 & xs2 & ->)%list_elem_of_split. apply dseg_lookup in Hs. eauto.
Qed.

(** Inserting [e] between the two parts of a chain. *)
Lemma list_insert_seg E h p X b B n e :
  X ≠ [] → dseg h p (X ++ b :: B) n → NoDup (e :: X ++ b :: B) →
  NULL ∉ e :: X ++ b :: B → is_Some (h !! e) →
  wp E (list_insert b e)
     (λ _ h', dseg h' p (X ++ e :: b :: B) n ∧
              (∀ y, y ∉ e :: X ++ b :: B → h' !! y = h !! y) ∧
              (∀ y, is_Some (h !! y) → is_Some (h' !! y))) h.
Proof.
  intros HX Hs Hnd Hnull He.
  apply dseg_app in Hs as [HsX HsB].
  assert (last_or p X ≠ NULL) as Ha by (apply last_or_not_null; [done|notin]).
  assert (last_or p X ∈ X) as HaX by by apply last_or_in'.
  assert (b ≠ NULL ∧ e ≠ NULL) as [Hb0 He0] by (split; intros ->; set_solver).
  assert (∀ x, x ∈ X → x ≠ b ∧ x ∉ B ∧ x ≠ e) as HXB.
  { apply NoDup_cons in Hnd as [HnX Hnd]. apply NoDup_app in Hnd as (_ & Hd & _).
    intros x Hx. specialize (Hd x Hx). split_and!; [set_solver..|]. intros ->. set_solver. }
  assert (e ≠ b ∧ e ∉ B ∧ b ∉ B ∧ NoDup X) as (Heb & HeB & HbB & HndX).
  { split_nodup. split_and!; [set_solver..|done]. }
  pose proof (dseg_head_lookup _ _ _ _ _ HsB) as Hb.
  destruct (HXB _ HaX) as (Hab & HaB & Hae).
  apply wp_bind. eapply wp_interior_or_tail; [done..|].
  apply wp_bind, wp_ASSERT; [done|].
  apply wp_bind, wp_ASSERT; [by apply negb_true_iff, Z.eqb_neq|].
  apply wp_bind. eapply wp_get_prev; [done..|].
  apply wp_bind, wp_set_prev; [done..|].
  apply wp_bind, wp_set_next; [done|by apply upd_prev_is_Some|].
  apply wp_bind. eapply wp_get_prev; [done|by rewrite upd_next_ne, upd_prev_ne|].
  apply wp_bind, wp_set_next; [done| |].
  { apply upd_next_is_Some, upd_prev_is_Some.
    by destruct (dseg_last_lookup _ _ _ _ HX HsX) as [? ->]. }
  apply wp_set_prev; [done| |].
  { do 2 apply upd_next_is_Some. apply upd_prev_is_Some. by rewrite Hb. }
  split_and!.
  - apply dseg_app. simpl. split_and!.
    + apply dseg_upd_prev_notin; [intros Hin; by destruct (HXB _ Hin)|].
      eapply dseg_upd_next_last; [done|].
      apply dseg_upd_next_notin, dseg_upd_prev_notin;
        [intros Hin; by destruct (HXB _ Hin) as (_&_&?)..|done].
    + rewrite upd_prev_ne, upd_next_ne by done.
      unfold upd_next, upd_prev. rewrite !lookup_alter_eq.
      by destruct He as [? ->].
    + unfold upd_prev at 1. rewrite lookup_alter_eq.
      by rewrite !upd_next_ne, upd_prev_ne, Hb by done.
    + seg_frame. by destruct HsB.
  - intros y Hy. rewrite upd_prev_ne, !upd_next_ne, upd_prev_ne; set_solver.
  - intros y Hy. by apply upd_prev_is_Some, upd_next_is_Some, upd_next_is_Some, upd_prev_is_Some.
Qed.

(** Unlinking [e] from a chain. *)
Lemma list_remove_seg E h p X e b B n :
  X ≠ [] → dseg h p (X ++ e :: b :: B) n → NoDup (X ++ e :: b :: B) →
  NULL ∉ X ++ e :: b :: B →
  wp E (list_remove e)
     (λ r h', r = b ∧ dseg h' p (X ++ b :: B) n ∧
              (∀ y, y ∉ X ++ b :: B → h' !! y = h !! y) ∧
              (∀ y, is_Some (h !! y) → is_Some (h' !! y))) h.
Proof.
  intros HX Hs Hnd Hnull.
  pose proof (dseg_lookup _ _ _ _ _ _ Hs) as He. simpl in He.
  apply dseg_app in Hs as [HsX HsB].
  assert (last_or p X ≠ NULL) as Ha by (apply last_or_not_null; [done|notin]).
  assert (last_or p X ∈ X) as HaX by by apply last_or_in'.
  assert (b ≠ NULL ∧ e ≠ NULL) as [Hb0 He0] by (split; intros ->; set_solver).
  apply NoDup_app in Hnd as (HndX & Hd & Hnd2).
  assert (∀ x, x ∈ X → x ≠ b ∧ x ∉ B ∧ x ≠ e) as HXB by set_solver.
  assert (e ≠ b ∧ e ∉ B ∧ b ∉ B) as (Heb & HeB & HbB)
    by (split_nodup; set_solver).
  destruct (HXB _ HaX) as (Hab & HaB & Hae).
  apply wp_bind. eapply wp_is_interior; [done..|].
  rewrite bool_decide_true by done.
  apply wp_bind, wp_ASSERT; [done|].
  apply wp_bind. eapply wp_get_prev; [done..|].
  apply wp_bind. eapply wp_get_next; [done..|].
  apply wp_bind, wp_set_next; [done| |].
  { by destruct (dseg_last_lookup _ _ _ _ HX HsX) as [? ->]. }
  apply wp_bind. eapply wp_get_next; [done|by rewrite upd_next_ne|].
  apply wp_bind. eapply wp_get_prev; [done|by rewrite upd_next_ne|].
  destruct HsB as [_ HsB]. pose proof (dseg_head_lookup _ _ _ _ _ HsB) as Hb.
  apply wp_bind, wp_set_prev; [done| |].
  { apply upd_next_is_Some. by rewrite Hb. }
  eapply wp_get_next; [done|by rewrite upd_prev_ne, upd_next_ne|].
  split_and!; [done|..].
  - apply dseg_app. split.
    + apply dseg_upd_prev_notin; [intros Hin; by destruct (HXB _ Hin)|].
      by eapply dseg_upd_next_last.
    + eapply dseg_upd_prev_head; [done|].
      by apply dseg_upd_next_notin; [set_solver|].
  - intros y Hy. rewrite upd_prev_ne, upd_next_ne; set_solver.
  - intros y Hy. by apply upd_prev_is_Some, upd_next_is_Some.
Qed.
End splicing.

Section splice.
Implicit Types (h : heap) (X B C P Q : list Z) (p n x v : Z).

Lemma set_last_seg E h p X n v (R : unit → heap → Prop) :
  X ≠ [] → NoDup X → NULL ∉ X → dseg h p X n →
  (dseg (upd_next (last_or p X) v h) p X v → R tt (upd_next (last_or p X) v h)) →
  wp E (set_next (last_or p X) v) R h.
Proof.
  intros HX Hnd Hnull Hs HR.
  apply wp_set_next; [by apply last_or_not_null| |].
  - destruct (dseg_last_lookup _ _ _ _ HX Hs) as [? ->]. eauto.
  - apply HR. by eapply dseg_upd_next_last.
Qed.

Lemma set_head_seg E h p x X n v (R : unit → heap → Prop) :
  NoDup (x :: X) → x ≠ NULL → dseg h p (x :: X) n →
  (dseg (upd_prev x v h) v (x :: X) n → R tt (upd_prev x v h)) →
  wp E (set_prev x v) R h.
Proof.
  intros [Hx _]%NoDup_cons Hx0 Hs HR. apply wp_set_prev; [done| |].
  - rewrite (dseg_head_lookup _ _ _ _ _ Hs). eauto.
  - apply HR. by eapply dseg_upd_prev_head.
Qed.

(** The check [is_interior (first) && is_interior (last)] of [list_splice]
    for a segment that has a neighbour on each side. *)
Lemma wp_interior_seg E h p s S n e (R : bool → heap → Prop) :
  dseg h p (s :: S) n → e ∈ s :: S → p ≠ NULL → n ≠ NULL → NULL ∉ s :: S →
  R true h → wp E (is_interior e) R h.
Proof.
  intros Hs (S1 & S2 & HS)%list_elem_of_split Hp Hn Hnull HR.
  rewrite HS in Hs, Hnull. apply dseg_lookup in Hs.
  eapply wp_is_interior; [|done|].
  { intros ->. set_solver. }
  rewrite bool_decide_true; [done|]. split.
  - destruct S1; [done|]. apply last_or_not_null; [done|set_solver].
  - destruct S2; [done|]. simpl. intros ->. set_solver.
Qed.

(** Moving the segment [s :: S] in front of [b], which stands earlier in the
    same chain. *)
Lemma list_splice_back_seg E h p X b B s S q Q n :
  let c := X ++ (b :: B) ++ (s :: S) ++ q :: Q in
  X ≠ [] → dseg h p c n → NoDup c → NULL ∉ c →
  wp E (list_splice b s q)
     (λ _ h', dseg h' p (X ++ (s :: S) ++ (b :: B) ++ q :: Q) n ∧
              (∀ y, y ∉ c → h' !! y = h !! y) ∧
              (∀ y, is_Some (h !! y) → is_Some (h' !! y))) h.
Proof.
  intros c HX Hs Hnd Hnull. subst c.
  apply dseg_app in Hs as [HsX Hs]. apply dseg_app in Hs as [HsB Hs].
  apply dseg_app in Hs as [HsS HsQ].
  set (a := last_or p X) in *. set (fp := last_or a (b :: B)) in *.
  set (sl := last_or fp (s :: S)) in *.
  rewrite !not_elem_of_app in Hnull. destruct Hnull as (HnX & HnB & HnS & HnQ).
  apply NoDup_app in Hnd as (NX & DX & Hnd). apply NoDup_app in Hnd as (NB & DB & Hnd).
  apply NoDup_app in Hnd as (NS & DS & NQ).
  assert (a ∈ X) as aX by by apply last_or_in'.
  assert (fp ∈ b :: B) as fB by by apply last_or_in'.
  assert (sl ∈ s :: S) as lS by by apply last_or_in'.
  assert (a ≠ NULL ∧ fp ≠ NULL ∧ sl ≠ NULL) as (a0 & f0 & l0)
    by (split_and!; intros Heq; [by rewrite Heq in aX|by rewrite Heq in fB|by rewrite Heq in lS]).
  assert (b ≠ NULL ∧ s ≠ NULL ∧ q ≠ NULL) as (b0 & s0 & q0)
    by (split_and!; intros ->; set_solver).
  assert (b ∈ b :: B ∧ s ∈ s :: S ∧ q ∈ q :: Q) as (bB & sS & qQ) by set_solver.
  assert (∀ x, x ∈ X → x ∉ b :: B ∧ x ∉ s :: S ∧ x ∉ q :: Q) as FX.
  { intros x Hx. specialize (DX x Hx). rewrite !not_elem_of_app in DX. tauto. }
  assert (∀ x, x ∈ b :: B → x ∉ X ∧ x ∉ s :: S ∧ x ∉ q :: Q) as FB.
  { intros x Hx. specialize (DB x Hx). rewrite not_elem_of_app in DB.
    split; [|tauto]. intros Hx'. by destruct (FX x Hx'). }
  assert (∀ x, x ∈ s :: S → x ∉ X ∧ x ∉ b :: B ∧ x ∉ q :: Q) as FS.
  { intros x Hx. split_and!; [| |by apply DS].
    - intros Hx'. by destruct (FX x Hx') as (_&?&_).
    - intros Hx'. by destruct (FB x Hx') as (_&?&_). }
  assert (∀ x, x ∈ q :: Q → x ∉ X ∧ x ∉ b :: B ∧ x ∉ s :: S) as FQ.
  { intros x Hx. split_and!; intros Hx'.
    - by destruct (FX x Hx') as (_&_&?).
    - by destruct (FB x Hx') as (_&_&?).
    - by destruct (FS x Hx') as (_&_&?). }
  destruct (FX _ aX) as (? & ? & ?), (FB _ fB) as (? & ? & ?), (FB _ bB) as (? & ? & ?),
    (FS _ lS) as (? & ? & ?), (FS _ sS) as (? & ? & ?), (FQ _ qQ) as (? & ? & ?).
  apply wp_bind. eapply wp_interior_or_tail; [done|by eapply dseg_head_lookup|done|].
  apply wp_bind, wp_ASSERT; [done|].
  rewrite (proj2 (Z.eqb_neq s q)) by (intros ->; tauto).
  apply wp_bind. eapply wp_list_prev; [done|by eapply dseg_head_lookup|done|]. cbn beta.
  apply wp_bind. eapply (wp_interior_seg _ _ fp s S q); [done..|].
  apply wp_bind, wp_ASSERT; [done|].
  apply wp_bind. eapply (wp_interior_seg _ _ fp s S q); [done..|].
  apply wp_bind, wp_ASSERT; [done|].
  apply wp_bind. eapply wp_get_prev; [done|by eapply dseg_head_lookup|].
  destruct (dseg_last_lookup h fp (s :: S) q) as [? Hsl]; [done..|]. fold sl in Hsl.
  apply wp_bind. eapply wp_get_next; [done..|].
  apply wp_bind. eapply (set_last_seg _ _ a (b :: B)); [done..|]. intros HB1.
  set (h1 := upd_next _ _ h) in *.
  assert (dseg h1 p X b ∧ dseg h1 fp (s :: S) q ∧ dseg h1 sl (q :: Q) n)
    as (HX1 & HS1 & HQ1) by (split_and!; by apply dseg_upd_next_notin).
  apply wp_bind. eapply wp_get_next; [done| |].
  { unfold h1. rewrite upd_next_ne; [done|]. intros Heq. fold fp in Heq. by rewrite Heq in lS. }
  apply wp_bind. eapply wp_get_prev; [done|by eapply dseg_head_lookup|].
  apply wp_bind. eapply set_head_seg; [done..|]. intros HQ2.
  set (h2 := upd_prev _ _ h1) in *.
  assert (dseg h2 p X b ∧ dseg h2 a (b :: B) q ∧ dseg h2 fp (s :: S) q)
    as (HX2 & HB2 & HS2) by (split_and!; by apply dseg_upd_prev_notin).
  apply wp_bind. eapply wp_get_prev; [done|by eapply dseg_head_lookup|].
  apply wp_bind. eapply set_head_seg; [done..|]. intros HS3.
  set (h3 := upd_prev _ _ h2) in *.
  assert (dseg h3 p X b ∧ dseg h3 a (b :: B) q ∧ dseg h3 fp (q :: Q) n)
    as (HX3 & HB3 & HQ3) by (split_and!; by apply dseg_upd_prev_notin).
  apply wp_bind. eapply (set_last_seg _ _ a (s :: S)); [done..|]. intros HS4.
  set (h4 := upd_next _ _ h3) in *.
  assert (dseg h4 p X b ∧ dseg h4 a (b :: B) q ∧ dseg h4 fp (q :: Q) n)
    as (HX4 & HB4 & HQ4) by (split_and!; by apply dseg_upd_next_notin).
  apply wp_bind. eapply wp_get_prev; [done|by eapply dseg_head_lookup|].
  apply wp_bind. eapply (set_last_seg _ _ p X); [done..|]. intros HX5.
  set (h5 := upd_next _ _ h4) in *.
  assert (dseg h5 a (s :: S) b ∧ dseg h5 a (b :: B) q ∧ dseg h5 fp (q :: Q) n)
    as (HS5 & HB5 & HQ5) by (split_and!; by apply dseg_upd_next_notin).
  eapply set_head_seg; [done..|]. intros HB6.
  set (h6 := upd_prev _ _ h5) in *.
  assert (dseg h6 p X s ∧ dseg h6 a (s :: S) b ∧ dseg h6 fp (q :: Q) n)
    as (HX6 & HS6 & HQ6) by (split_and!; by apply dseg_upd_prev_notin).
  split_and!.
  - rewrite !dseg_app. split_and!; done.
  - intros y Hy. rewrite !not_elem_of_app in Hy. destruct Hy as (? & ? & ? & ?).
    unfold h6, h5, h4, h3, h2, h1.
    rewrite upd_prev_ne, !upd_next_ne, !upd_prev_ne, upd_next_ne; [done|..];
      intros ->; tauto.
  - intros y Hy. unfold h6, h5, h4, h3, h2, h1.
    repeat first [apply upd_prev_is_Some | apply upd_next_is_Some]. done.
Qed.
End splice.
