(* ===== verification/ListSpecs.v ===== *)
(** What the list routines do to the sequence of elements a list holds
    (kernel/list.c): every routine refines the obvious operation on sequences,
    the in-place merge sort included. *)

From Stdlib Require Import Sorting.Sorted.
From stdpp Require Import sorting.
From S2P Require Import Prelude Lists ListChains.
Local Open Scope Z_scope.

(** * Lists *)

(** A linked, duplicate-free chain of non-null elements. *)
Definition chain_ok (h : heap) (c : list Z) : Prop :=
  dseg h NULL c NULL ∧ NoDup c ∧ NULL ∉ c.

(** What a routine may change: only the links of the elements in [c]. *)
Definition only (c : list Z) (h h' : heap) : Prop :=
  (∀ y, y ∉ c → h' !! y = h !! y) ∧ (∀ y, is_Some (h !! y) → is_Some (h' !! y)).

Section lists.
Implicit Types (h : heap) (l e : Z) (xs ys X Y : list Z).

Lemma only_refl c h : only c h h.
Proof. by split. Qed.

Lemma only_trans c h1 h2 h3 : only c h1 h2 → only c h2 h3 → only c h1 h3.
Proof.
  intros [F1 S1] [F2 S2]. split; [|by auto].
  intros y Hy. by rewrite F2, F1.
Qed.

Lemma only_weaken c c' h h' : only c h h' → (∀ x, x ∈ c → x ∈ c') → only c' h h'.
Proof. intros [F Sm] Hc. split; [|done]. intros y Hy. apply F. naive_solver. Qed.

Lemma only_perm c c' h h' : c ≡ₚ c' → only c h h' → only c' h h'.
Proof. intros Hp. intros. eapply only_weaken; [done|]. intros x. by rewrite Hp. Qed.

(** A list none of whose elements is touched is unchanged. *)
Lemma list_repr_only h h' c l xs :
  list_repr h l xs → only c h h' → (∀ x, x ∈ chain l xs → x ∉ c) →
  list_repr h' l xs.
Proof.
  intros (Hs & Hnd & Hnull) [F _] Hd. split; [|done].
  eapply dseg_ext; [|done]. intros x Hx. apply F. by apply Hd.
Qed.

Lemma chain_ok_lookup h X x Y :
  chain_ok h (X ++ x :: Y) → h !! x = Some (Elem (last_or NULL X) (hd_or NULL Y)).
Proof. intros [Hs _]. by eapply dseg_lookup. Qed.

Lemma chain_ok_not_null h X x Y : chain_ok h (X ++ x :: Y) → x ≠ NULL.
Proof. intros (_ & _ & Hn) ->. apply Hn. set_solver. Qed.

Lemma chain_ok_NoDup h X x Y : chain_ok h (X ++ x :: Y) → x ∉ X ++ Y.
Proof. intros (_ & Hnd & _). by apply NoDup_middle in Hnd as [? _]. Qed.

Lemma chain_next h X x y Y :
  chain_ok h (X ++ x :: y :: Y) →
  x ≠ NULL ∧ y ≠ NULL ∧ h !! x = Some (Elem (last_or NULL X) y).
Proof.
  intros Hc. split_and!; [by eapply chain_ok_not_null| |by eapply chain_ok_lookup in Hc].
  eapply (chain_ok_not_null h (X ++ [x]) y Y). by rewrite <- app_assoc.
Qed.

Lemma chain_prev h X w x Y :
  chain_ok h (X ++ w :: x :: Y) →
  x ≠ NULL ∧ w ≠ NULL ∧ h !! x = Some (Elem w (hd_or NULL Y)).
Proof.
  intros Hc. split_and!; [|by eapply chain_ok_not_null|].
  - eapply (chain_ok_not_null h (X ++ [w]) x Y). by rewrite <- app_assoc.
  - rewrite (chain_ok_lookup h (X ++ [w]) x Y) by by rewrite <- app_assoc.
    by rewrite last_or_app.
Qed.

(** Walking a chain. *)
Lemma wp_chain_next E h X x y Y Q :
  chain_ok h (X ++ x :: y :: Y) → Q y h → wp E (list_next x) Q h.
Proof. intros (?&?&?)%chain_next HQ. by eapply wp_list_next. Qed.

Lemma wp_chain_prev E h X w x Y Q :
  chain_ok h (X ++ w :: x :: Y) → Q w h → wp E (list_prev x) Q h.
Proof. intros (?&?&?)%chain_prev HQ. by eapply wp_list_prev. Qed.

Lemma wp_list_begin E h l xs Q :
  list_repr h l xs → Q (hd_or (tail_of l) xs) h → wp E (list_begin l) Q h.
Proof.
  intros Hr HQ. destruct Hr as (Hs & _ & Hn). assert (l ≠ NULL) as Hl.
  { intros ->. apply Hn. set_solver. }
  apply wp_bind, wp_ASSERT; [by apply negb_true_iff, Z.eqb_neq|].
  destruct Hs as [Hh _]. eapply wp_get_next; [done..|]. by destruct xs.
Qed.

Lemma wp_list_end E h l xs Q :
  list_repr h l xs → Q (tail_of l) h → wp E (list_end l) Q h.
Proof.
  intros (_ & _ & Hn) HQ. apply wp_bind, wp_ASSERT; [|done].
  apply negb_true_iff, Z.eqb_neq. intros ->. apply Hn. set_solver.
Qed.

(** Only an exhausted walk reaches the tail. *)
Lemma repr_hd_eqb h l xs ys :
  list_repr h l (xs ++ ys) →
  (hd_or (tail_of l) ys =? tail_of l) = bool_decide (ys = []).
Proof.
  intros (_ & Hnd & _). case_bool_decide as Hys; [subst; apply Z.eqb_refl|].
  destruct ys as [|y ys]; [done|]. apply Z.eqb_neq. simpl. intros ->.
  unfold chain in Hnd. apply NoDup_cons in Hnd as [_ Hnd].
  apply NoDup_app in Hnd as (_ & Hd & _). apply (Hd (tail_of l)); set_solver.
Qed.

Lemma wp_list_empty E h l xs Q :
  list_repr h l xs → Q (bool_decide (xs = [])) h → wp E (list_empty l) Q h.
Proof.
  intros Hr HQ. apply wp_bind. eapply wp_list_begin; [done|].
  apply wp_bind. eapply wp_list_end; [done|]. apply wp_ret.
  by rewrite (repr_hd_eqb h l [] xs).
Qed.

Lemma repr_chain_ok h l xs : list_repr h l xs ↔ chain_ok h (chain l xs).
Proof. done. Qed.

(** The chain around a position of the list: [x] is followed by the first
    element of [ys], or by the tail. *)
Lemma wp_repr_next E h l xs x ys Q :
  list_repr h l (xs ++ x :: ys) → Q (hd_or (tail_of l) ys) h →
  wp E (list_next x) Q h.
Proof.
  intros Hr HQ. destruct (ys ++ [tail_of l]) as [|y Y] eqn:E1.
  { by destruct ys. }
  eapply (wp_chain_next _ _ (head_of l :: xs) x y Y).
  - change (chain_ok h (chain l (xs ++ x :: ys))) in Hr. unfold chain in Hr.
    rewrite <- app_assoc in Hr. simpl in *. by rewrite E1 in Hr.
  - by destruct ys; simplify_eq/=.
Qed.

(** [list_insert] at any position of a list. *)
Lemma list_insert_repr E h l xs ys e :
  list_repr h l (xs ++ ys) → e ∉ chain l (xs ++ ys) → e ≠ NULL →
  is_Some (h !! e) →
  wp E (list_insert (hd_or (tail_of l) ys) e)
    (λ _ h', list_repr h' l (xs ++ e :: ys) ∧ only (e :: chain l (xs ++ ys)) h h') h.
Proof.
  intros (Hs & Hnd & Hn) He He0 Hin. unfold chain in *.
  set (b := hd_or (tail_of l) ys).
  assert (∃ B, ys ++ [tail_of l] = b :: B) as [B HB]
    by (destruct ys; eauto).
  assert (head_of l :: (xs ++ ys) ++ [tail_of l] = (head_of l :: xs) ++ b :: B) as Hc.
  { by rewrite <- app_assoc, HB. }
  assert (head_of l :: (xs ++ e :: ys) ++ [tail_of l] = (head_of l :: xs) ++ e :: b :: B) as Hc'.
  { rewrite <- app_assoc. simpl. by rewrite HB. }
  rewrite Hc in *. eapply wp_mono; [eapply (list_insert_seg E h NULL (head_of l :: xs))|].
  - done.
  - done.
  - by apply NoDup_cons.
  - set_solver.
  - done.
  - intros _ h' (Hs' & F & Sm). split; [|by split].
    unfold list_repr, chain. rewrite Hc'. split; [done|]. split; [|set_solver].
    apply NoDup_middle. by split.
Qed.

(** [list_remove] at any position of a list. *)
Lemma list_remove_repr E h l xs e ys :
  list_repr h l (xs ++ e :: ys) →
  wp E (list_remove e)
    (λ r h', r = hd_or (tail_of l) ys ∧ list_repr h' l (xs ++ ys) ∧
             only (chain l (xs ++ ys)) h h') h.
Proof.
  intros (Hs & Hnd & Hn). unfold chain in *.
  set (b := hd_or (tail_of l) ys).
  assert (∃ B, ys ++ [tail_of l] = b :: B) as [B HB]
    by (destruct ys; eauto).
  assert (head_of l :: (xs ++ ys) ++ [tail_of l] = (head_of l :: xs) ++ b :: B) as Hc.
  { by rewrite <- app_assoc, HB. }
  assert (head_of l :: (xs ++ e :: ys) ++ [tail_of l] = (head_of l :: xs) ++ e :: b :: B) as Hc'.
  { rewrite <- app_assoc. simpl. by rewrite HB. }
  rewrite Hc' in *.
  eapply wp_mono; [eapply (list_remove_seg E h NULL (head_of l :: xs)); done|].
  intros r h' (-> & Hs' & F & Sm). split; [done|]. unfold list_repr, chain.
  rewrite Hc. split; [|by split]. split; [done|]. split; [|set_solver].
  by apply NoDup_middle in Hnd as [_ Hnd].
Qed.
End lists.

(** * The walking loops *)

Section loops.
Implicit Types (h : heap) (l e : Z) (xs ys X Y : list Z).

Lemma list_size_loop_spec E h l xs ys cnt fuel :
  list_repr h l (xs ++ ys) → (length ys < fuel)%nat →
  0 ≤ cnt → cnt + Z.of_nat (length ys) < 2 ^ 64 →
  wp E (list_size_loop fuel l (hd_or (tail_of l) ys) cnt)
    (λ r h', h' = h ∧ r = cnt + Z.of_nat (length ys)) h.
Proof.
  revert xs cnt fuel. induction ys as [|y ys IH];
    intros xs cnt [|fuel] Hr Hf Hc Hb; simpl in Hf; try lia; simpl.
  - apply wp_bind. eapply wp_list_end; [done|]. rewrite Z.eqb_refl.
    apply wp_ret. split; [done|]. lia.
  - apply wp_bind. eapply wp_list_end; [done|].
    pose proof (repr_hd_eqb _ _ _ _ Hr) as Heq. simpl in Heq. rewrite Heq.
    apply wp_bind. eapply wp_repr_next; [done|].
    simpl in Hb. rewrite u64_small by lia.
    eapply wp_mono; [apply (IH (xs ++ [y]))|]; [|lia..|].
    + by rewrite <- app_assoc.
    + intros r h' [-> ->]. split; [done|]. lia.
Qed.

(** Reversing: [ds] are the elements whose links are already swapped. *)
Lemma list_reverse_loop_spec E h l ds ys fuel :
  let t := tail_of l in
  NoDup (head_of l :: (ds ++ ys) ++ [t]) → NULL ∉ head_of l :: (ds ++ ys) ++ [t] →
  dseg h (hd_or t ys) (reverse ds) (head_of l) →
  dseg h (last_or (head_of l) ds) ys t →
  (length ys < fuel)%nat →
  wp E (list_reverse_loop fuel l (hd_or t ys))
    (λ _ h', dseg h' t (reverse (ds ++ ys)) (head_of l) ∧ only ys h h') h.
Proof.
  intros t. revert h ds fuel. induction ys as [|y ys IH];
    intros h ds [|fuel] Hnd Hn Hds Hys Hf; simpl in Hf; try lia; simpl.
  - assert (l ≠ NULL) by (intros ->; set_solver).
    apply wp_bind, wp_bind, wp_ASSERT; [by apply negb_true_iff, Z.eqb_neq|].
    apply wp_ret. fold t. rewrite Z.eqb_refl. apply wp_ret. rewrite app_nil_r.
    split; [done|]. apply only_refl.
  - assert (l ≠ NULL) by (intros ->; set_solver).
    assert (y ≠ NULL) by (intros ->; set_solver).
    assert (y ≠ t ∧ y ∉ ds ∧ y ∉ ys) as (Hyt & Hyd & Hyy).
    { apply NoDup_cons in Hnd as [_ Hnd]. rewrite <- app_assoc in Hnd.
      apply NoDup_middle in Hnd as [Hy _]. set_solver. }
    apply wp_bind, wp_bind, wp_ASSERT; [by apply negb_true_iff, Z.eqb_neq|].
    apply wp_ret. fold t. rewrite (proj2 (Z.eqb_neq y t)) by done.
    destruct Hys as [Hy Hys].
    apply wp_bind, wp_bind. eapply wp_get_prev; [done..|].
    apply wp_bind. eapply wp_get_next; [done..|].
    apply wp_bind, wp_set_prev; [done|by rewrite Hy|].
    apply wp_set_next; [done|apply upd_prev_is_Some; by rewrite Hy|].
    set (h1 := upd_next _ _ _).
    assert (h1 !! y = Some (Elem (hd_or t ys) (last_or (head_of l) ds))) as Hy1.
    { unfold h1, upd_next, upd_prev. by rewrite !lookup_alter_eq, Hy. }
    assert (∀ x, x ≠ y → h1 !! x = h !! x) as Hne.
    { intros x ?. unfold h1. by rewrite upd_next_ne, upd_prev_ne. }
    apply wp_bind. eapply wp_get_prev; [done..|].
    eapply wp_mono; [apply (IH h1 (ds ++ [y]) fuel)|].
    + by rewrite <- (app_assoc ds).
    + by rewrite <- (app_assoc ds).
    + rewrite reverse_snoc. simpl. split.
      * rewrite Hy1. f_equal. f_equal.
        destruct ds as [|d ds _] using rev_ind; [done|].
        by rewrite reverse_snoc, last_or_app.
      * eapply dseg_ext; [|done]. intros x Hx. apply Hne. intros ->.
        by apply Hyd, elem_of_reverse.
    + rewrite last_or_app. simpl. eapply dseg_ext; [|done].
      intros x Hx. apply Hne. by intros ->.
    + lia.
    + intros _ h' [Hs' [F Sm]]. rewrite <- (app_assoc ds) in Hs'. split; [done|]. split.
      * intros x Hx. rewrite F, Hne; set_solver.
      * intros x Hx. apply Sm. destruct (decide (x = y)) as [->|]; [by rewrite Hy1|].
        by rewrite Hne.
Qed.
End loops.

Lemma list_reverse_repr E (h : heap) l xs fuel :
  list_repr h l xs → (length xs < fuel)%nat →
  wp E (list_reverse fuel l)
    (λ _ h', list_repr h' l (reverse xs) ∧ only (chain l xs) h h') h.
Proof.
  intros Hr Hf. apply wp_bind. eapply wp_list_empty; [done|].
  case_bool_decide as Hne; [subst; apply wp_ret; split; [done|apply only_refl]|].
  apply wp_bind. eapply wp_list_begin; [done|].
  destruct Hr as (Hs & Hnd & Hn).
  pose proof Hs as [Hhd Hs']%(dseg_app _ _ [_]). simpl in Hhd, Hs'.
  destruct Hhd as [Hhd _]. apply dseg_app in Hs' as [Hxs Htl]. simpl in Hxs, Htl.
  destruct Htl as [Htl _].
  apply wp_bind. eapply wp_mono.
  { apply (list_reverse_loop_spec E h l [] xs); done. }
  intros _ h1 [Hrev Ho]. simpl in Hrev, Ho.
  set (t := tail_of l) in *. set (hd := head_of l) in *.
  assert (hd ∉ xs ∧ t ∉ xs ∧ hd ≠ t ∧ NoDup xs) as (Hhx & Htx & Hht & Hndx).
  { unfold chain in Hnd. fold t hd in Hnd. apply NoDup_cons in Hnd as [? Hnd].
    apply NoDup_app in Hnd as (? & Hd & _). split_and!; try done; set_solver. }
  assert (hd ≠ NULL ∧ t ≠ NULL) as [Hh0 Ht0].
  { unfold chain in Hn. fold t hd in Hn. set_solver. }
  rewrite <- (proj1 Ho _ Hhx) in Hhd. rewrite <- (proj1 Ho _ Htx) in Htl.
  assert (last_or hd xs ∈ xs) as Hlx by by apply last_or_in'.
  assert (hd_or t xs ∈ xs) as Hfx by (destruct xs; [done|set_solver]).
  assert (last_or hd xs ≠ hd ∧ last_or hd xs ≠ t ∧ hd_or t xs ≠ hd ∧ hd_or t xs ≠ t)
    as (? & ? & ? & ?) by (split_and!; intros Heq; rewrite Heq in *; done).
  assert (last_or hd xs ≠ NULL ∧ hd_or t xs ≠ NULL) as [? ?].
  { unfold chain in Hn. split; intros Heq; rewrite Heq in *; set_solver. }
  (* swap (&list->head.next, &list->tail.prev) *)
  apply wp_bind, wp_bind. eapply wp_get_next; [done..|].
  apply wp_bind. eapply wp_get_prev; [done..|].
  apply wp_bind, wp_set_next; [done|by rewrite Hhd|].
  apply wp_set_prev; [done|by rewrite upd_next_ne, Htl|].
  set (h2 := upd_prev _ _ _).
  assert (h2 !! hd = Some (Elem NULL (last_or hd xs))) as Hhd2.
  { unfold h2. rewrite upd_prev_ne by done. unfold upd_next.
    by rewrite lookup_alter_eq, Hhd. }
  assert (h2 !! t = Some (Elem (hd_or t xs) NULL)) as Htl2.
  { unfold h2, upd_prev. rewrite lookup_alter_eq, upd_next_ne, Htl by done.
    simpl. do 2 f_equal. by destruct xs. }
  assert (dseg h2 t (reverse xs) hd) as Hrev2.
  { unfold h2. apply dseg_upd_prev_notin, dseg_upd_next_notin;
      [by rewrite elem_of_reverse..|done]. }
  apply wp_bind. eapply wp_get_next; [done..|].
  apply wp_bind. eapply wp_get_prev; [done..|].
  (* swap (&list->head.next->prev, &list->tail.prev->next) *)
  destruct (reverse xs) as [|z zs] eqn:Hz.
  { apply (f_equal reverse) in Hz. by rewrite reverse_involutive in Hz. }
  assert (last_or hd xs = z) as Ez.
  { apply (f_equal reverse) in Hz. rewrite reverse_involutive in Hz.
    by rewrite Hz, reverse_cons, last_or_app. }
  assert (hd_or t xs = last_or t (z :: zs)) as Ef.
  { rewrite <- Hz. destruct xs; [done|]. by rewrite reverse_cons, last_or_app. }
  assert (NoDup (z :: zs)) as Hndz by (by rewrite <- Hz, reverse_Permutation).
  rewrite Ez, Ef in *.
  destruct (dseg_last_lookup h2 t (z :: zs) hd) as [q Hq]; [done..|].
  apply wp_bind. eapply wp_get_prev; [done|by eapply dseg_head_lookup|].
  apply wp_bind. eapply wp_get_next; [done..|].
  apply wp_bind. eapply set_head_seg; [done..|]. intros Hrev3.
  set (h3 := upd_prev _ _ h2) in *.
  rewrite (last_or_nonempty t hd) by done.
  eapply set_last_seg; [done|done| |done|].
  { unfold chain in Hn. rewrite <- Hz, elem_of_reverse. set_solver. }
  intros Hrev4. set (h4 := upd_next _ _ h3) in *.
  assert (∀ x, x ∉ z :: zs → h4 !! x = h2 !! x) as Hout.
  { intros x Hx. unfold h4, h3. rewrite upd_next_ne, upd_prev_ne; [done|..].
    - intros ->. set_solver.
    - intros ->. apply Hx. by apply last_or_in'. }
  assert (∀ x, x ∈ z :: zs ↔ x ∈ xs) as Hmem.
  { intros x. by rewrite <- Hz, elem_of_reverse. }
  split.
  - split; [|split].
    + unfold chain. fold t hd. simpl. rewrite Hout, Hhd2 by by rewrite Hmem.
      split; [done|]. apply (dseg_app h4 hd (z :: zs) [t] NULL). split; [done|].
      simpl. rewrite Hout, Htl2 by by rewrite Hmem.
      split; [|done]. do 2 f_equal.
    + unfold chain. rewrite <- Hz, (reverse_Permutation xs). done.
    + unfold chain. rewrite <- Hz, (reverse_Permutation xs). done.
  - apply (only_trans _ h h1).
    + eapply only_weaken; [done|]. unfold chain. set_solver.
    + split.
      * intros x Hx. unfold chain in Hx. fold t hd in Hx.
        rewrite Hout by (rewrite Hmem; set_solver). unfold h2.
        rewrite upd_prev_ne, upd_next_ne; [done|set_solver..].
      * intros x Hx. unfold h4, h3, h2.
        repeat first [apply upd_prev_is_Some|apply upd_next_is_Some]. done.
Qed.

(** * Ends of a list *)

Section ends.
Implicit Types (h : heap) (l e : Z) (xs ys : list Z).

Lemma repr_not_null h l xs : list_repr h l xs → l ≠ NULL.
Proof. intros (_ & _ & Hn) ->. set_solver. Qed.

Lemma repr_chain_is_Some h l xs x :
  list_repr h l xs → x ∈ chain l xs → is_Some (h !! x).
Proof. intros (Hs & _ & _) Hx. by eapply dseg_in_is_Some. Qed.

Lemma repr_elem_not_null h l xs x : list_repr h l xs → x ∈ xs → x ≠ NULL.
Proof. intros (_ & _ & Hn) Hx ->. set_solver. Qed.

Lemma repr_NoDup h l xs : list_repr h l xs → NoDup xs.
Proof. intros (_ & Hnd & _). unfold chain in Hnd. by apply NoDup_cons in Hnd as [_ [? _]%NoDup_app]. Qed.

Lemma chain_app_perm l xs ys x :
  chain l (xs ++ x :: ys) ≡ₚ x :: chain l (xs ++ ys).
Proof. unfold chain. rewrite <- (Permutation_middle xs ys x). apply perm_swap. Qed.

Lemma list_init_repr E h l :
  l ≠ NULL → tail_of l ≠ NULL →
  is_Some (h !! head_of l) → is_Some (h !! tail_of l) →
  wp E (list_init l) (λ _ h', list_repr h' l [] ∧ only (chain l []) h h') h.
Proof.
  intros Hl Ht [n1 H1] [n2 H2].
  assert (head_of l ≠ tail_of l) as Hne by (unfold head_of, tail_of, sizeof_list_elem; lia).
  apply wp_bind, wp_ASSERT; [by apply negb_true_iff, Z.eqb_neq|].
  apply wp_bind, wp_set_prev; [done|by rewrite H1|].
  apply wp_bind, wp_set_next; [done|apply upd_prev_is_Some; by rewrite H1|].
  apply wp_bind, wp_set_prev; [done|by apply upd_next_is_Some, upd_prev_is_Some; rewrite H2|].
  apply wp_set_next; [done|by apply upd_prev_is_Some, upd_next_is_Some, upd_prev_is_Some; rewrite H2|].
  split.
  - split; [|split].
    + unfold chain. simpl. split_and!; [| |done].
      * rewrite upd_next_ne, upd_prev_ne by done. unfold upd_next, upd_prev.
        by rewrite !lookup_alter_eq, H1.
      * unfold upd_next, upd_prev.
        rewrite !lookup_alter_eq, !lookup_alter_ne by done. by rewrite H2.
    + apply NoDup_cons. split; [set_solver|apply NoDup_singleton].
    + unfold chain, head_of in *. set_solver.
  - unfold chain. split.
    + intros y Hy. rewrite upd_next_ne, upd_prev_ne, upd_next_ne, upd_prev_ne; set_solver.
    + intros y Hy. by repeat first [apply upd_prev_is_Some|apply upd_next_is_Some].
Qed.

Lemma list_push_back_repr E h l xs e :
  list_repr h l xs → e ∉ chain l xs → e ≠ NULL → is_Some (h !! e) →
  wp E (list_push_back l e)
    (λ _ h', list_repr h' l (xs ++ [e]) ∧ only (e :: chain l xs) h h') h.
Proof.
  intros Hr He He0 Hin. apply wp_bind. eapply wp_list_end; [done|].
  pose proof (list_insert_repr E h l xs [] e) as Hi. rewrite app_nil_r in Hi.
  by apply Hi.
Qed.

Lemma list_push_front_repr E h l xs e :
  list_repr h l xs → e ∉ chain l xs → e ≠ NULL → is_Some (h !! e) →
  wp E (list_push_front l e)
    (λ _ h', list_repr h' l (e :: xs) ∧ only (e :: chain l xs) h h') h.
Proof.
  intros Hr He He0 Hin. apply wp_bind. eapply wp_list_begin; [done|].
  by apply (list_insert_repr E h l [] xs e).
Qed.

Lemma wp_list_front E h l x xs Q :
  list_repr h l (x :: xs) → Q x h → wp E (list_front l) Q h.
Proof.
  intros Hr HQ. apply wp_bind. eapply wp_list_empty; [done|].
  rewrite bool_decide_false by done. apply wp_bind, wp_ASSERT; [done|].
  pose proof (repr_not_null _ _ _ Hr). destruct Hr as [[Hh _] _].
  by eapply wp_get_next.
Qed.

Lemma list_pop_front_repr E h l x xs :
  list_repr h l (x :: xs) →
  wp E (list_pop_front l)
    (λ r h', r = x ∧ list_repr h' l xs ∧ only (chain l xs) h h') h.
Proof.
  intros Hr. apply wp_bind. eapply wp_list_front; [done|].
  apply wp_bind. eapply wp_mono; [by apply (list_remove_repr E h l [] x xs)|].
  intros r h' (_ & Hr' & O). by apply wp_ret.
Qed.

Lemma wp_list_back E h l x xs Q :
  list_repr h l (xs ++ [x]) → Q x h → wp E (list_back l) Q h.
Proof.
  intros Hr HQ. apply wp_bind. eapply wp_list_empty; [done|].
  rewrite bool_decide_false by (by destruct xs).
  apply wp_bind, wp_ASSERT; [done|]. pose proof Hr as (_ & _ & Hn).
  change (chain_ok h (chain l (xs ++ [x]))) in Hr. unfold chain in Hr.
  replace (head_of l :: (xs ++ [x]) ++ [tail_of l])
    with ((head_of l :: xs) ++ x :: tail_of l :: []) in Hr
    by (simpl; by rewrite <- app_assoc).
  apply chain_prev in Hr as (? & _ & Hl). by eapply wp_get_prev.
Qed.

Lemma list_pop_back_repr E h l x xs :
  list_repr h l (xs ++ [x]) →
  wp E (list_pop_back l)
    (λ r h', r = x ∧ list_repr h' l xs ∧ only (chain l xs) h h') h.
Proof.
  intros Hr. apply wp_bind. eapply wp_list_back; [done|].
  apply wp_bind. eapply wp_mono; [by apply (list_remove_repr E h l xs x [])|].
  rewrite app_nil_r. intros r h' (_ & Hr' & O). by apply wp_ret.
Qed.

Lemma list_size_repr E h l xs fuel :
  list_repr h l xs → (length xs < fuel)%nat → Z.of_nat (length xs) < 2 ^ 64 →
  wp E (list_size fuel l) (λ r h', h' = h ∧ r = Z.of_nat (length xs)) h.
Proof.
  intros Hr Hf Hb. apply wp_bind. eapply wp_list_begin; [done|].
  eapply wp_mono; [by apply (list_size_loop_spec E h l [] xs 0)|].
  intros r h' [-> ->]. done.
Qed.
End ends.

(** Whether a list holds a given sequence is decidable on concrete memory. *)
#[export] Instance list_elem_eq_dec : EqDecision list_elem.
Proof. solve_decision. Defined.
#[export] Instance dseg_dec h p xs n : Decision (dseg h p xs n).
Proof. revert p. induction xs; intros p; simpl; apply _. Defined.
#[export] Instance list_repr_dec h l xs : Decision (list_repr h l xs).
Proof. unfold list_repr. apply _. Defined.
