(* ===== verification/ListSort.v ===== *)
(** The routines of kernel/list.c that take a comparison: the in-place merge
    sort, ordered insertion, removal of duplicates, minimum and maximum. *)

From Stdlib Require Import Sorting.Sorted.
From stdpp Require Import sorting.
From S2P Require Import Prelude Lists ListChains ListSpecs.
Local Open Scope Z_scope.


(** * The ordered routines

    [less] is the caller's comparison; what list.h asks of it is that it is a
    strict order, and the routines need no more than its asymmetry.  [leq x y]
    says that [x] may stand before [y]. *)

Class LessFunc (less : Z → Z → bool) : Prop :=
  less_asym : ∀ x y, less x y = true → less y x = false.

Definition leq (less : Z → Z → bool) (x y : Z) : Prop := less y x = false.
#[export] Instance leq_dec less x y : Decision (leq less x y).
Proof. unfold leq. apply _. Defined.
#[export] Instance leq_total less `{!LessFunc less} : Total (leq less).
Proof.
  intros x y. unfold leq. destruct (less y x) eqn:E1; [right|by left].
  by apply less_asym.
Qed.

(** The longest sorted run that starts at [x] and continues in [ys], and what
    follows it. *)
Fixpoint run_from (less : Z → Z → bool) (x : Z) (ys : list Z) : list Z * list Z :=
  match ys with
  | [] => ([], [])
  | y :: ys' =>
      if less y x then ([], ys)
      else let '(r, t) := run_from less y ys' in (y :: r, t)
  end.

(** [l] is the concatenation of [k] sorted runs. *)
Inductive runs (R : relation Z) : nat → list Z → Prop :=
| runs_nil : runs R 0 []
| runs_app k s l : Sorted R s → runs R k l → runs R (S k) (s ++ l).

(** Uses [H : chain_ok h c] for a chain that is [c] up to associativity. *)
Ltac chain_of H :=
  lazymatch type of H with chain_ok _ ?c =>
    lazymatch goal with |- chain_ok _ ?c' =>
      replace c' with c; [exact H|by repeat (rewrite <- ?app_assoc; simpl)]
    end
  end.

Section sorting.
Context (less : Z → Z → bool) `{!LessFunc less}.
Implicit Types (h : heap) (e a b : Z) (xs ys X Y : list Z).
Notation R := (leq less).

Lemma run_from_app x ys r t : run_from less x ys = (r, t) → ys = r ++ t.
Proof.
  revert x r t. induction ys as [|y ys IH]; intros x r t; simpl.
  - by intros [= <- <-].
  - destruct (less y x); [by intros [= <- <-]|].
    destruct (run_from less y ys) as [r' t'] eqn:E1. intros [= <- <-].
    simpl. f_equal. by eapply IH.
Qed.

Lemma run_from_sorted x ys r t : run_from less x ys = (r, t) → Sorted R (x :: r).
Proof.
  revert x r t. induction ys as [|y ys IH]; intros x r t; simpl.
  - intros [= <- <-]. by repeat constructor.
  - destruct (less y x) eqn:Hl; [intros [= <- <-]; by repeat constructor|].
    destruct (run_from less y ys) as [r' t'] eqn:E1. intros [= <- <-].
    constructor; [by eapply IH|]. by constructor.
Qed.

(** A sorted prefix lies inside the first run. *)
Lemma run_from_prefix x s l r t :
  Sorted R (x :: s) → run_from less x (s ++ l) = (r, t) → ∃ l1, l = l1 ++ t.
Proof.
  revert x r. induction s as [|y s IH]; intros x r Hs; simpl.
  - intros Hr%run_from_app. by exists r.
  - inversion_clear Hs as [|?? Hs' Hd]. inversion_clear Hd as [|?? Hxy].
    unfold leq in Hxy. rewrite Hxy.
    destruct (run_from less y (s ++ l)) as [r' t'] eqn:E1. intros [= <- <-]. by eapply IH.
Qed.

Lemma Sorted_suffix xs ys : Sorted R (xs ++ ys) → Sorted R ys.
Proof. induction xs; [done|]. simpl. inversion 1; auto. Qed.

Lemma runs_suffix k xs ys : runs R k (xs ++ ys) → runs R k ys.
Proof.
  intros Hr. remember (xs ++ ys) as zs eqn:Hz. revert xs ys Hz.
  induction Hr as [|k s l Hs Hr IH]; intros xs ys Hz.
  - symmetry in Hz. apply app_eq_nil in Hz as [_ ->]. constructor.
  - apply app_eq_inv in Hz as [(m & -> & ->)|(m & -> & ->)].
    + constructor; [by eapply Sorted_suffix|done].
    + replace ys with ([] ++ ys) by done. constructor; [constructor|]. by eapply IH.
Qed.

Lemma runs_S k ys : runs R k ys → runs R (S k) ys.
Proof. intros. replace ys with ([] ++ ys) by done. constructor; [constructor|done]. Qed.

(** Taking the first maximal run off leaves one run less. *)
Lemma runs_run_from k x ys r t :
  runs R k (x :: ys) → run_from less x ys = (r, t) → ∃ k', k = S k' ∧ runs R k' t.
Proof.
  intros Hr. remember (x :: ys) as zs eqn:Hz.
  induction Hr as [|k s l Hs Hr IH]; [done|]. intros Hrun. exists k. split; [done|].
  destruct s as [|x' s]; simplify_eq/=.
  - destruct (IH eq_refl Hrun) as (k' & -> & Hk). by apply runs_S.
  - destruct (run_from_prefix _ _ _ _ _ Hs Hrun) as [l1 ->]. by eapply runs_suffix.
Qed.

Lemma runs_length ys : runs R (length ys) ys.
Proof.
  induction ys as [|y ys IH]; [constructor|].
  simpl. change (y :: ys) with ([y] ++ ys). constructor; [by repeat constructor|done].
Qed.

Lemma runs_1_sorted k ys : runs R k ys → (k ≤ 1)%nat → Sorted R ys.
Proof.
  intros Hr Hk. destruct Hr as [|k s l Hs Hr]; [constructor|].
  destruct k; [|lia]. inversion Hr; subst. by rewrite app_nil_r.
Qed.

(** ** The loops of the sort *)

Lemma wp_list_end_nn E h l Q : l ≠ NULL → Q (tail_of l) h → wp E (list_end l) Q h.
Proof. intros Hl HQ. apply wp_bind, wp_ASSERT; [by apply negb_true_iff, Z.eqb_neq|done]. Qed.

Lemma chain_ok_ne h X a ys b Y y :
  chain_ok h (X ++ a :: ys ++ b :: Y) → y ∈ a :: ys → y ≠ b.
Proof.
  intros (_ & Hnd & _) Hy ->. apply NoDup_app in Hnd as (_ & _ & Hnd).
  change (NoDup ((a :: ys) ++ b :: Y)) in Hnd.
  apply NoDup_middle in Hnd as [Hb _]. set_solver.
Qed.

Lemma is_sorted_loop_spec E h X a ys b Y fuel :
  chain_ok h (X ++ a :: ys ++ b :: Y) → Sorted R (a :: ys) →
  (length ys < fuel)%nat →
  wp E (is_sorted_loop less fuel a b) (λ r h', h' = h ∧ r = true) h.
Proof.
  revert X a fuel. induction ys as [|y ys IH]; intros X a [|fuel] Hc Hs Hf; simpl in Hf; try lia; simpl.
  - apply wp_bind. eapply (wp_chain_next _ _ X a b Y); [done|].
    rewrite Z.eqb_refl. by apply wp_ret.
  - apply wp_bind. eapply (wp_chain_next _ _ X a y); [done|].
    rewrite (proj2 (Z.eqb_neq y b)) by (eapply chain_ok_ne; [done|set_solver]).
    apply wp_bind. eapply (wp_chain_prev _ _ X a y); [done|].
    inversion_clear Hs as [|?? Hs' Hd]. inversion_clear Hd as [|?? Hxy].
    unfold leq in Hxy. rewrite Hxy. apply (IH (X ++ [a])); [|done|lia].
    by rewrite <- app_assoc.
Qed.

Lemma is_sorted_spec E h X ys b Y fuel :
  chain_ok h (X ++ ys ++ b :: Y) → Sorted R ys → (length ys < fuel)%nat →
  wp E (is_sorted less fuel (hd_or b ys) b) (λ r h', h' = h ∧ r = true) h.
Proof.
  intros Hc Hs Hf. unfold is_sorted. destruct ys as [|a ys]; simpl.
  { rewrite Z.eqb_refl. by apply wp_ret. }
  rewrite (proj2 (Z.eqb_neq a b)) by (eapply chain_ok_ne; [done|set_solver]).
  eapply is_sorted_loop_spec; [done..|]. simpl in Hf. lia.
Qed.

Lemma find_end_of_run_loop_spec E h X a ys b Y fuel :
  chain_ok h (X ++ a :: ys ++ b :: Y) → (length ys < fuel)%nat →
  wp E (find_end_of_run_loop less fuel a b)
    (λ r h', h' = h ∧ r = hd_or b (run_from less a ys).2) h.
Proof.
  revert X a fuel. induction ys as [|y ys IH]; intros X a [|fuel] Hc Hf; simpl in Hf; try lia; simpl.
  - apply wp_bind. eapply (wp_chain_next _ _ X a b Y); [done|].
    rewrite Z.eqb_refl. by apply wp_ret.
  - apply wp_bind. eapply (wp_chain_next _ _ X a y); [done|].
    rewrite (proj2 (Z.eqb_neq y b)) by (eapply chain_ok_ne; [done|set_solver]).
    apply wp_bind. eapply (wp_chain_prev _ _ X a y); [done|].
    destruct (less y a); [by apply wp_ret|].
    eapply wp_mono; [apply (IH (X ++ [a])); [by rewrite <- app_assoc|lia]|].
    intros r h' [-> ->]. split; [done|]. by destruct (run_from less y ys).
Qed.

Lemma find_end_of_run_spec E h X a ys b Y fuel :
  chain_ok h (X ++ a :: ys ++ b :: Y) → (length ys < fuel)%nat →
  wp E (find_end_of_run less fuel a b)
    (λ r h', h' = h ∧ r = hd_or b (run_from less a ys).2) h.
Proof.
  intros Hc Hf.
  apply wp_bind, wp_ASSERT.
  { apply negb_true_iff, Z.eqb_neq. by eapply chain_ok_not_null. }
  apply wp_bind, wp_ASSERT.
  { apply negb_true_iff, Z.eqb_neq. eapply (chain_ok_not_null _ (X ++ a :: ys)).
    by rewrite <- app_assoc. }
  apply wp_bind, wp_ASSERT.
  { apply negb_true_iff, Z.eqb_neq. eapply chain_ok_ne; [done|set_solver]. }
  by eapply find_end_of_run_loop_spec.
Qed.

Lemma inplace_merge_loop_spec E h X xs ys b Y fuel :
  X ≠ [] → chain_ok h (X ++ xs ++ ys ++ b :: Y) →
  (length xs + length ys < fuel)%nat →
  wp E (inplace_merge_loop less fuel (hd_or (hd_or b ys) xs) (hd_or b ys) b)
    (λ _ h', chain_ok h' (X ++ list_merge R xs ys ++ b :: Y) ∧
             only (X ++ xs ++ ys ++ b :: Y) h h') h.
Proof.
  revert h X xs ys. induction fuel as [|fuel IH]; intros h X xs ys HX Hc Hf; [lia|].
  simpl. destruct xs as [|x xs]; simpl.
  { rewrite Z.eqb_refl. simpl. apply wp_ret. rewrite list_merge_nil_l.
    split; [done|]. apply only_refl. }
  destruct ys as [|y ys]; simpl.
  { rewrite Z.eqb_refl, orb_true_r. apply wp_ret. split; [done|]. apply only_refl. }
  rewrite (proj2 (Z.eqb_neq x y))
    by (eapply (chain_ok_ne h X x xs y); [done|set_solver]).
  rewrite (proj2 (Z.eqb_neq y b))
    by (eapply (chain_ok_ne h (X ++ x :: xs) y ys b);
        [by rewrite <- app_assoc|set_solver]).
  simpl. rewrite decide_bool_decide. simpl in Hf.
  destruct (less y x) eqn:Hl; simpl.
  - (* the element of the second run goes first *)
    rewrite bool_decide_false by (unfold leq; congruence).
    assert (∃ q Q, ys ++ b :: Y = q :: Q ∧ q = hd_or b ys) as (q & Q & HQ & Hq)
      by (destruct ys; eauto).
    apply wp_bind. eapply (wp_chain_next _ _ (X ++ x :: xs) y q Q).
    { rewrite <- app_assoc. simpl. by rewrite <- HQ. }
    apply wp_bind. eapply (wp_chain_prev _ _ (X ++ x :: xs) y q Q).
    { rewrite <- app_assoc. simpl. by rewrite <- HQ. }
    destruct Hc as (Hs & Hnd & Hn). simpl in *. rewrite HQ in Hs, Hnd, Hn.
    apply wp_bind. eapply wp_mono.
    { apply (list_splice_back_seg E h NULL X x xs y [] q Q NULL); done. }
    intros _ h1 (Hs1 & F1 & S1).
    assert (X ++ x :: xs ++ y :: q :: Q ≡ₚ X ++ [y] ++ (x :: xs) ++ q :: Q) as Hperm.
    { f_equiv. simpl. by rewrite <- Permutation_middle, Permutation_swap. }
    rewrite Hq. change x with (hd_or (hd_or b ys) (x :: xs)).
    eapply wp_mono; [apply (IH h1 (X ++ [y]) (x :: xs) ys)|].
    + by destruct X.
    + rewrite <- app_assoc. simpl. rewrite HQ. split; [done|].
      rewrite <- Hperm. done.
    + simpl. lia.
    + intros _ h2 [Hc2 O2]. rewrite <- app_assoc in Hc2. split; [done|].
      apply (only_trans _ h h1); [rewrite HQ; by split|].
      eapply only_perm; [|exact O2]. rewrite <- (app_assoc X [y]), HQ.
      symmetry. exact Hperm.
  - rewrite bool_decide_true by done.
    assert (∃ q Q, xs ++ y :: ys ++ b :: Y = q :: Q ∧ q = hd_or y xs) as (q & Q & HQ & Hq)
      by (destruct xs; eauto).
    apply wp_bind. eapply (wp_chain_next _ _ X x q Q).
    { simpl in Hc. by rewrite HQ in Hc. }
    rewrite Hq. change (hd_or y xs) with (hd_or (hd_or b (y :: ys)) xs).
    change y with (hd_or b (y :: ys)) at 2.
    eapply wp_mono; [apply (IH h (X ++ [x]) xs (y :: ys))|].
    + by destruct X.
    + by rewrite <- app_assoc.
    + simpl. lia.
    + intros _ h2 [Hc2 O2]. rewrite <- app_assoc in Hc2. split; [done|].
      by rewrite <- app_assoc in O2.
Qed.

Lemma inplace_merge_spec E h X x xs y ys b Y fuel :
  X ≠ [] → chain_ok h (X ++ (x :: xs) ++ (y :: ys) ++ b :: Y) →
  Sorted R (x :: xs) → Sorted R (y :: ys) →
  (length (x :: xs) + length (y :: ys) < fuel)%nat →
  wp E (inplace_merge less fuel x y b)
    (λ _ h', chain_ok h' (X ++ list_merge R (x :: xs) (y :: ys) ++ b :: Y) ∧
             only (X ++ (x :: xs) ++ (y :: ys) ++ b :: Y) h h') h.
Proof.
  intros HX Hc Hsx Hsy Hf.
  apply wp_bind, wp_ASSERT.
  { apply negb_true_iff, Z.eqb_neq. by eapply chain_ok_not_null. }
  apply wp_bind, wp_ASSERT.
  { apply negb_true_iff, Z.eqb_neq. eapply (chain_ok_not_null h (X ++ x :: xs)).
    by rewrite <- app_assoc. }
  apply wp_bind, wp_ASSERT.
  { apply negb_true_iff, Z.eqb_neq.
    eapply (chain_ok_not_null h (X ++ (x :: xs) ++ (y :: ys))).
    by rewrite <- app_assoc, <- app_assoc. }
  apply wp_bind. eapply wp_mono.
  { apply (is_sorted_spec E h X (x :: xs) y (ys ++ b :: Y)); [done..|]. simpl in *; lia. }
  intros r h' [-> ->]. apply wp_bind, wp_ASSERT; [done|].
  apply wp_bind. eapply wp_mono.
  { apply (is_sorted_spec E h (X ++ x :: xs) (y :: ys) b Y);
      [by rewrite <- app_assoc|done|]. simpl in *; lia. }
  intros r h' [-> ->]. apply wp_bind, wp_ASSERT; [done|].
  by apply (inplace_merge_loop_spec E h X (x :: xs) (y :: ys)).
Qed.

(** One pass halves the number of runs, rounding up. *)
Lemma list_sort_pass_spec E h l X ys cnt fuel n :
  l ≠ NULL → X ≠ [] → chain_ok h (X ++ ys ++ [tail_of l]) →
  (length ys < fuel)%nat → (length ys < n)%nat →
  0 ≤ cnt → cnt + Z.of_nat (length ys) < 2 ^ 64 →
  wp E (list_sort_pass less fuel n l (hd_or (tail_of l) ys) cnt)
    (λ r h', ∃ zs k, chain_ok h' (X ++ zs ++ [tail_of l]) ∧
       only (X ++ ys ++ [tail_of l]) h h' ∧ zs ≡ₚ ys ∧ runs R k zs ∧
       r = cnt + Z.of_nat k ∧ ∀ m, runs R m ys → (2 * k ≤ m + 1)%nat) h.
Proof.
  intros Hl. set (t := tail_of l).
  revert h X ys cnt. induction n as [|n IH]; intros h X ys cnt HX Hc Hf Hn Hc0 Hb; [lia|].
  cbn [list_sort_pass]. apply wp_bind, wp_list_end_nn; [done|]. fold t.
  destruct ys as [|y ys]; simpl.
  { rewrite Z.eqb_refl. apply wp_ret. exists [], 0%nat.
    split_and!; [done|apply only_refl|done|constructor|lia|lia]. }
  rewrite (proj2 (Z.eqb_neq y t)) by (eapply chain_ok_ne; [done|set_solver]).
  simpl in Hf, Hn, Hb. rewrite u64_small by lia.
  apply wp_bind, wp_list_end_nn; [done|]. fold t.
  apply wp_bind. eapply wp_mono; [apply (find_end_of_run_spec E h X y ys t []); [done|lia]|].
  intros a1b0 h' [-> ->]. destruct (run_from less y ys) as [r1 t1] eqn:E1.
  pose proof (run_from_app _ _ _ _ E1) as ->. pose proof (run_from_sorted _ _ _ _ E1) as Hs1.
  apply wp_bind, wp_list_end_nn; [done|]. fold t. simpl.
  destruct t1 as [|z t1]; simpl.
  { rewrite Z.eqb_refl. apply wp_ret. rewrite app_nil_r in *. exists (y :: r1), 1%nat.
    split_and!; [done|apply only_refl|done| |lia|].
    - rewrite <- (app_nil_r (y :: r1)). constructor; [done|constructor].
    - intros m Hm. destruct (runs_run_from _ _ _ _ _ Hm E1) as (? & -> & _). lia. }
  rewrite (proj2 (Z.eqb_neq z t)).
  2:{ eapply (chain_ok_ne h (X ++ y :: r1) z t1 t []); [chain_of Hc|set_solver]. }
  rewrite length_app in Hf, Hn, Hb. simpl in Hf, Hn, Hb.
  apply wp_bind. eapply wp_mono.
  { apply (find_end_of_run_spec E h (X ++ y :: r1) z t1 t []); [chain_of Hc|lia]. }
  intros b1 h' [-> ->]. destruct (run_from less z t1) as [r2 t2] eqn:E2.
  pose proof (run_from_app _ _ _ _ E2) as ->. pose proof (run_from_sorted _ _ _ _ E2) as Hs2.
  rewrite length_app in Hf, Hn, Hb. simpl.
  apply wp_bind. destruct (t2 ++ [t]) as [|b Y] eqn:HB; [by destruct t2|].
  assert (b = hd_or t t2) as -> by (by destruct t2; simplify_eq/=).
  assert ((y :: r1 ++ z :: r2 ++ t2) ++ [t] = (y :: r1) ++ (z :: r2) ++ hd_or t t2 :: Y) as Hc1.
  { rewrite <- HB. simpl. by rewrite <- !app_assoc; simpl; rewrite <- app_assoc. }
  change (y :: (r1 ++ z :: r2 ++ t2) ++ [t])
    with ((y :: r1 ++ z :: r2 ++ t2) ++ [t]) in *. rewrite Hc1 in *.
  eapply wp_mono; [apply (inplace_merge_spec E h X y r1 z r2 _ Y); try done; simpl; lia|].
  intros _ h1 [Hc2 O1]. rewrite <- HB in Hc2.
  pose proof (merge_Permutation R (y :: r1) (z :: r2)) as Hperm.
  set (mg := list_merge R (y :: r1) (z :: r2)) in *.
  eapply wp_mono; [apply (IH h1 (X ++ mg) t2); try lia|].
  - by destruct X.
  - by rewrite <- app_assoc.
  - intros r h2 (zs & k & Hc3 & O2 & Hp & Hr & -> & Hk). exists (mg ++ zs), (S k).
    split_and!.
    + rewrite <- (app_assoc X mg) in Hc3. by rewrite <- (app_assoc mg).
    + apply (only_trans _ h h1); [done|]. eapply only_perm; [|exact O2].
      by rewrite <- (app_assoc X mg), Hperm, <- HB, <- !app_assoc.
    + rewrite Hp, Hperm. by rewrite <- (app_assoc (y :: r1)).
    + constructor; [|done]. by apply (Sorted_list_merge R).
    + lia.
    + intros m Hm. destruct (runs_run_from _ _ _ _ _ Hm E1) as (m1 & -> & Hm1).
      destruct (runs_run_from _ _ _ _ _ Hm1 E2) as (m2 & -> & Hm2).
      specialize (Hk _ Hm2). lia.
Qed.

Lemma list_sort_loop_spec E h l ys fuel n m :
  list_repr h l ys → runs R m ys → (length ys < fuel)%nat → (m < n)%nat →
  Z.of_nat (length ys) < 2 ^ 64 →
  wp E (list_sort_loop less fuel n l)
    (λ _ h', ∃ zs, list_repr h' l zs ∧ Sorted R zs ∧ zs ≡ₚ ys ∧
             only (chain l ys) h h') h.
Proof.
  revert h ys m. induction n as [|n IH]; intros h ys m Hr Hm Hf Hn Hb; [lia|].
  cbn [list_sort_loop]. apply wp_bind. eapply wp_list_begin; [done|].
  assert (l ≠ NULL) as Hl by (intros ->; destruct Hr as (_ & _ & Hn0); set_solver).
  apply wp_bind. eapply wp_mono.
  { apply (list_sort_pass_spec E h l [head_of l] ys 0 fuel fuel); done || lia. }
  intros r h1 (zs & k & Hc & O1 & Hp & Hk & -> & Hm'). simpl in Hc.
  specialize (Hm' m Hm). destruct (1 <? 0 + Z.of_nat k) eqn:Hlt.
  - apply Z.ltb_lt in Hlt.
    eapply wp_mono; [apply (IH h1 zs k); [done|done|rewrite Hp; done|lia|rewrite Hp; done]|].
    intros _ h2 (zs' & Hr2 & Hs2 & Hp2 & O2). exists zs'. split_and!; [done..|by rewrite Hp2|].
    apply (only_trans _ h h1); [done|]. eapply only_perm; [|exact O2].
    unfold chain. by rewrite Hp.
  - apply Z.ltb_ge in Hlt. apply wp_ret. exists zs. split_and!; [done| |done|done].
    eapply runs_1_sorted; [done|lia].
Qed.

(** [list_sort] refines sorting: it terminates, the list holds a sorted
    permutation of its elements, and no other memory changes. *)
Lemma list_sort_repr E h l ys fuel :
  list_repr h l ys → (length ys < fuel)%nat → Z.of_nat (length ys) < 2 ^ 64 →
  wp E (list_sort less fuel l)
    (λ _ h', ∃ zs, list_repr h' l zs ∧ Sorted R zs ∧ zs ≡ₚ ys ∧
             only (chain l ys) h h') h.
Proof.
  intros Hr Hf Hb.
  assert (l ≠ NULL) as Hl by (intros ->; destruct Hr as (_ & _ & Hn0); set_solver).
  apply wp_bind, wp_ASSERT; [by apply negb_true_iff, Z.eqb_neq|].
  apply wp_bind. eapply wp_mono.
  { eapply list_sort_loop_spec; [done|apply runs_length|done..]. }
  intros _ h1 (zs & Hr1 & Hs & Hp & O).
  apply wp_bind. eapply wp_list_begin; [done|].
  apply wp_bind. eapply wp_list_end; [done|].
  apply wp_bind. eapply wp_mono.
  { apply (is_sorted_spec E h1 [head_of l] zs (tail_of l) []); [done..|by rewrite Hp]. }
  intros r h' [-> ->]. apply wp_ASSERT; [done|]. by exists zs.
Qed.

(** ** Ordered insertion, duplicates, extrema *)

(** Where [list_insert_ordered] puts the element: before the first element
    it is less than. *)
Fixpoint insert_ordered (x : Z) (ys : list Z) : list Z :=
  match ys with
  | [] => [x]
  | y :: ys' => if less x y then x :: ys else y :: insert_ordered x ys'
  end.

Lemma insert_ordered_perm x ys : insert_ordered x ys ≡ₚ x :: ys.
Proof.
  induction ys as [|y ys IH]; simpl; [done|]. destruct (less x y); [done|].
  by rewrite IH, Permutation_swap.
Qed.

Lemma insert_ordered_sorted x ys : Sorted R ys → Sorted R (insert_ordered x ys).
Proof.
  induction ys as [|y ys IH]; simpl; intros Hs; [by repeat constructor|].
  destruct (less x y) eqn:Hl.
  - constructor; [done|]. constructor. by apply less_asym.
  - inversion_clear Hs as [|?? Hs' Hd]. constructor; [by apply IH|].
    destruct ys as [|z ys]; simpl; [by constructor|].
    inversion_clear Hd. destruct (less x z); by constructor.
Qed.

Lemma list_insert_ordered_loop_spec E h l xs ys e fuel :
  list_repr h l (xs ++ ys) → (length ys < fuel)%nat →
  wp E (list_insert_ordered_loop less fuel l e (hd_or (tail_of l) ys))
    (λ r h', h' = h ∧ ∃ ys1 ys2, ys = ys1 ++ ys2 ∧ r = hd_or (tail_of l) ys2 ∧
             insert_ordered e ys = ys1 ++ e :: ys2) h.
Proof.
  revert xs fuel. induction ys as [|y ys IH]; intros xs [|fuel] Hr Hf;
    simpl in Hf; try lia; simpl; apply wp_bind; (eapply wp_list_end; [done|]).
  - rewrite Z.eqb_refl. apply wp_ret. split; [done|]. by exists [], [].
  - pose proof (repr_hd_eqb _ _ _ _ Hr) as Heq. simpl in Heq. rewrite Heq. simpl.
    destruct (less e y) eqn:Hl; [apply wp_ret; split; [done|]; by exists [], (y :: ys)|].
    apply wp_bind. eapply wp_repr_next; [done|].
    eapply wp_mono; [apply (IH (xs ++ [y])); [by rewrite <- app_assoc|lia]|].
    intros r h' [-> (ys1 & ys2 & -> & -> & Hi)]. split; [done|].
    exists (y :: ys1), ys2. split_and!; [done..|]. simpl. by rewrite Hi.
Qed.

Lemma list_insert_ordered_repr E h l ys e fuel :
  list_repr h l ys → e ∉ chain l ys → e ≠ NULL → is_Some (h !! e) →
  (length ys < fuel)%nat →
  wp E (list_insert_ordered less fuel l e)
    (λ _ h', list_repr h' l (insert_ordered e ys) ∧ only (e :: chain l ys) h h') h.
Proof.
  intros Hr He He0 Hin Hf.
  assert (l ≠ NULL) as Hl by (intros ->; destruct Hr as (_ & _ & Hn0); set_solver).
  apply wp_bind, wp_ASSERT; [by apply negb_true_iff, Z.eqb_neq|].
  apply wp_bind, wp_ASSERT; [by apply negb_true_iff, Z.eqb_neq|].
  apply wp_bind. eapply wp_list_begin; [done|].
  apply wp_bind. eapply wp_mono; [by apply (list_insert_ordered_loop_spec E h l [] ys)|].
  intros r h' [-> (ys1 & ys2 & -> & -> & ->)]. by apply list_insert_repr.
Qed.

End sorting.

(** The routines below compare elements without asking anything of [less]. *)
Section comparing.
Context (less : Z → Z → bool).
Implicit Types (h : heap) (e a b : Z) (xs ys X Y : list Z).

(** What [list_unique] keeps, and what it hands to [duplicates]. *)
Fixpoint unique_from (x : Z) (ys : list Z) : list Z * list Z :=
  match ys with
  | [] => ([], [])
  | y :: ys' =>
      if negb (less x y) && negb (less y x)
      then let '(k, d) := unique_from x ys' in (k, y :: d)
      else let '(k, d) := unique_from y ys' in (y :: k, d)
  end.

Definition unique (ys : list Z) : list Z * list Z :=
  match ys with
  | [] => ([], [])
  | y :: ys' => let '(k, d) := unique_from y ys' in (y :: k, d)
  end.

(** [duplicates] may be null; otherwise it is another list. *)
Definition dup_list h (l : Z) xs (d : Z) ds : Prop :=
  d = NULL ∨
  (list_repr h d ds ∧ ∀ x, x ∈ chain l xs → x ∉ chain d ds).

Lemma dup_list_null h d ds l xs : dup_list h l xs d ds → d ≠ NULL →
  list_repr h d ds ∧ ∀ x, x ∈ chain l xs → x ∉ chain d ds.
Proof. intros [->|?]; [done|by intros]. Qed.

(** Moving an element from the list to [duplicates]. *)
Lemma list_unique_move h l xs y ys d ds :
  list_repr h l (xs ++ y :: ys) → dup_list h l (xs ++ y :: ys) d ds →
  wp no_sleep (let! _ := list_remove y in
        when (negb (d =? NULL)) (list_push_back d y))
    (λ _ h', list_repr h' l (xs ++ ys) ∧ dup_list h' l (xs ++ ys) d (ds ++ [y]) ∧
       only (chain l (xs ++ y :: ys) ++ (if d =? NULL then [] else chain d ds)) h h') h.
Proof.
  intros Hr Hd. apply wp_bind. eapply wp_mono; [by apply list_remove_repr|].
  intros _ h1 (_ & Hr1 & O1).
  assert (chain l (xs ++ y :: ys) ≡ₚ y :: chain l (xs ++ ys)) as Hpc.
  { unfold chain. rewrite <- (Permutation_middle xs ys y). apply perm_swap. }
  assert (only (chain l (xs ++ y :: ys)) h h1) as O1'.
  { eapply only_weaken; [done|]. intros x Hx. rewrite Hpc. by right. }
  destruct (Z.eqb_spec d NULL) as [->|Hd0]; simpl.
  { apply wp_ret. split; [done|]. split; [by left|]. by rewrite app_nil_r. }
  destruct (dup_list_null _ _ _ _ _ Hd Hd0) as [Hrd Hdis].
  assert (list_repr h1 d ds) as Hrd1.
  { eapply list_repr_only; [done|exact O1'|]. intros x Hx Hx'. by apply (Hdis x). }
  assert (y ∈ chain l (xs ++ y :: ys)) as Hy by (unfold chain; set_solver).
  unfold list_push_back. apply wp_bind. eapply wp_list_end; [done|].
  change (tail_of d) with (hd_or (tail_of d) []). rewrite <- (app_nil_r ds) in Hrd1.
  destruct Hr as (Hs & Hnd & Hn0).
  eapply wp_mono; [apply (list_insert_repr _ h1 d ds [] y Hrd1)|].
  - rewrite app_nil_r. by apply Hdis.
  - by intros ->.
  - apply O1'. by eapply dseg_in_is_Some.
  - intros _ h2 [Hr2 O2]. rewrite app_nil_r in O2.
    assert (y ∉ chain l (xs ++ ys)) as Hyn.
    { revert Hnd. fold (chain l (xs ++ y :: ys)). rewrite Hpc.
      by intros [? _]%NoDup_cons. }
    split; [|split].
    + eapply list_repr_only; [done|exact O2|].
      intros x Hx [->|Hx']%elem_of_cons; [done|]. apply (Hdis x); [|done].
      rewrite Hpc. by right.
    + right. split; [done|]. intros x Hx Hx'. unfold chain in Hx'.
      apply (Hdis x); [rewrite Hpc; by right|]. unfold chain.
      assert (x ≠ y) by (by intros ->). set_solver.
    + eapply (only_trans _ h h1).
      * eapply only_weaken; [exact O1'|]. set_solver.
      * eapply only_weaken; [exact O2|]. set_solver.
Qed.

Lemma wp_bind_assoc {A B C} E (m : M heap A) (f : A → M heap B) (k : B → M heap C) Q h :
  wp E (bind (bind m f) k) Q h → wp E (let! x := m in let! y := f x in k y) Q h.
Proof.
  unfold wp, bind. generalize (m h). intros r.
  assert (∀ r : res heap A, safe E Q (bind_res (bind_res r f) k) →
    safe E Q (bind_res r (λ v s, bind_res (f v s) k))) as Ha; [|apply Ha].
  clear r. intros r. induction r as [| | |ch s k' IH| |]; simpl; eauto.
  intros [? Hk]. split; [done|]. intros. apply IH. by apply Hk.
Qed.

Lemma list_unique_loop_spec h l xs x ys d ds fuel :
  list_repr h l (xs ++ x :: ys) → dup_list h l (xs ++ x :: ys) d ds →
  (length ys < fuel)%nat →
  wp no_sleep (list_unique_loop less fuel l d x)
    (λ _ h', let '(k, dd) := unique_from x ys in
       list_repr h' l (xs ++ x :: k) ∧ dup_list h' l (xs ++ x :: k) d (ds ++ dd) ∧
       only (chain l (xs ++ x :: ys) ++ (if d =? NULL then [] else chain d ds)) h h') h.
Proof.
  revert h xs x ys ds. induction fuel as [|fuel IH]; intros h xs x ys ds Hr Hd Hf; [lia|].
  cbn [list_unique_loop]. apply wp_bind. eapply wp_repr_next; [done|].
  apply wp_bind. eapply wp_list_end; [done|].
  pose proof (repr_hd_eqb h l (xs ++ [x]) ys) as Heq.
  rewrite <- (app_assoc xs) in Heq. rewrite Heq by done.
  destruct ys as [|y ys]; simpl in *.
  { apply wp_ret. rewrite app_nil_r. split_and!; [done..|apply only_refl]. }
  assert (xs ++ x :: y :: ys = (xs ++ [x]) ++ y :: ys) as Hx by by rewrite <- app_assoc.
  destruct (negb (less x y) && negb (less y x)) eqn:Hu.
  - apply wp_bind_assoc. rewrite Hx in Hr, Hd.
    eapply wp_call; [by apply (list_unique_move h l (xs ++ [x]) y ys d ds)|].
    intros _ h1 (Hr1 & Hd1 & O1). rewrite <- (app_assoc xs) in Hr1, Hd1.
    eapply wp_mono; [apply (IH h1 xs x ys (ds ++ [y])); [done..|lia]|].
    intros u h2. destruct (unique_from x ys) as [k dd]. rewrite <- (app_assoc ds).
    intros (Hr2 & Hd2 & O2). split_and!; [done..|]. rewrite Hx.
    eapply (only_trans _ h h1); [done|]. eapply only_weaken; [exact O2|].
    intros z. unfold chain. destruct (d =? NULL); set_solver.
  - rewrite Hx in Hr, Hd.
    eapply wp_mono; [apply (IH h (xs ++ [x]) y ys ds); [done..|lia]|].
    intros u h2. destruct (unique_from y ys) as [k dd]. rewrite <- !(app_assoc xs). done.
Qed.

(** [list_unique] keeps the first element of every block of equal neighbours
    and appends the others to [duplicates]. *)
Lemma list_unique_repr h l ys d ds fuel :
  list_repr h l ys → dup_list h l ys d ds → (length ys < fuel)%nat →
  wp no_sleep (list_unique less fuel l d)
    (λ _ h', list_repr h' l (unique ys).1 ∧
       dup_list h' l (unique ys).1 d (ds ++ (unique ys).2) ∧
       only (chain l ys ++ (if d =? NULL then [] else chain d ds)) h h') h.
Proof.
  intros Hr Hd Hf.
  assert (l ≠ NULL) as Hl by (intros ->; destruct Hr as (_ & _ & Hn0); set_solver).
  apply wp_bind, wp_ASSERT; [by apply negb_true_iff, Z.eqb_neq|].
  apply wp_bind. eapply wp_list_empty; [done|].
  destruct ys as [|y ys]; simpl.
  { apply wp_ret. rewrite app_nil_r. split_and!; [done..|apply only_refl]. }
  apply wp_bind. eapply wp_list_begin; [done|]. simpl in *.
  eapply wp_mono; [apply (list_unique_loop_spec h l [] y ys d ds); [done..|lia]|].
  intros u h'. by destruct (unique_from y ys).
Qed.

Definition max_of (x : Z) (ys : list Z) : Z :=
  foldl (λ m y, if less m y then y else m) x ys.
Definition min_of (x : Z) (ys : list Z) : Z :=
  foldl (λ m y, if less y m then y else m) x ys.

Lemma list_max_loop_spec E h l xs ys m fuel :
  list_repr h l (xs ++ ys) → (length ys < fuel)%nat →
  wp E (list_max_loop less fuel l m (hd_or (tail_of l) ys))
    (λ r h', h' = h ∧ r = max_of m ys) h.
Proof.
  revert xs m fuel. induction ys as [|y ys IH]; intros xs m [|fuel] Hr Hf;
    simpl in Hf; try lia; simpl; apply wp_bind; (eapply wp_list_end; [done|]).
  - rewrite Z.eqb_refl. by apply wp_ret.
  - pose proof (repr_hd_eqb _ _ _ _ Hr) as Heq. simpl in Heq. rewrite Heq. simpl.
    apply wp_bind. eapply wp_repr_next; [done|].
    apply (IH (xs ++ [y])); [by rewrite <- app_assoc|lia].
Qed.

Lemma list_min_loop_spec E h l xs ys m fuel :
  list_repr h l (xs ++ ys) → (length ys < fuel)%nat →
  wp E (list_min_loop less fuel l m (hd_or (tail_of l) ys))
    (λ r h', h' = h ∧ r = min_of m ys) h.
Proof.
  revert xs m fuel. induction ys as [|y ys IH]; intros xs m [|fuel] Hr Hf;
    simpl in Hf; try lia; simpl; apply wp_bind; (eapply wp_list_end; [done|]).
  - rewrite Z.eqb_refl. by apply wp_ret.
  - pose proof (repr_hd_eqb _ _ _ _ Hr) as Heq. simpl in Heq. rewrite Heq. simpl.
    apply wp_bind. eapply wp_repr_next; [done|].
    apply (IH (xs ++ [y])); [by rewrite <- app_assoc|lia].
Qed.

(** Of an empty list, [list_max] and [list_min] return the tail. *)
Lemma list_max_repr E h l ys fuel :
  list_repr h l ys → (length ys < fuel)%nat →
  wp E (list_max less fuel l)
    (λ r h', h' = h ∧
       r = match ys with [] => tail_of l | y :: ys' => max_of y ys' end) h.
Proof.
  intros Hr Hf. apply wp_bind. eapply wp_list_begin; [done|].
  apply wp_bind. eapply wp_list_end; [done|]. rewrite (repr_hd_eqb h l [] ys) by done.
  destruct ys as [|y ys]; simpl; [by apply wp_ret|].
  apply wp_bind. eapply (wp_repr_next _ _ _ [] y ys); [done|].
  apply (list_max_loop_spec E h l [y] ys); [done|]. simpl in Hf. lia.
Qed.

Lemma list_min_repr E h l ys fuel :
  list_repr h l ys → (length ys < fuel)%nat →
  wp E (list_min less fuel l)
    (λ r h', h' = h ∧
       r = match ys with [] => tail_of l | y :: ys' => min_of y ys' end) h.
Proof.
  intros Hr Hf. apply wp_bind. eapply wp_list_begin; [done|].
  apply wp_bind. eapply wp_list_end; [done|]. rewrite (repr_hd_eqb h l [] ys) by done.
  destruct ys as [|y ys]; simpl; [by apply wp_ret|].
  apply wp_bind. eapply (wp_repr_next _ _ _ [] y ys); [done|].
  apply (list_min_loop_spec E h l [y] ys); [done|]. simpl in Hf. lia.
Qed.
End comparing.
