(* ===== verification/ListTheorems.v ===== *)
(** The contract of kernel/list.c: each routine of the list library refines an
    operation on the sequence of elements the list holds, terminates, and
    leaves every other object in memory alone. *)

From Stdlib Require Import Sorting.Sorted.
From S2P Require Import Prelude Lists ListChains ListSpecs ListSort.
Local Open Scope Z_scope.

(** * Concrete lists *)

(** The memory in which the list at [l] holds [xs]. *)
Fixpoint link (p : Z) (xs : list Z) : heap :=
  match xs with
  | [] => ∅
  | x :: xs' => <[x := Elem p (hd_or NULL xs')]> (link x xs')
  end.
Definition demo_heap (l : Z) (xs : list Z) : heap := link NULL (chain l xs).
(** Elements ordered by their last decimal digit. *)
Definition demo_less (x y : Z) : bool := x `mod` 10 <? y `mod` 10.

#[export] Instance demo_less_func : LessFunc demo_less.
Proof. intros x y Hl. unfold demo_less in *. lia. Qed.

(** * The contract *)

(** [list_insert] puts the element right before [before], wherever that
    is in the list, the tail included; the other elements keep their order, and
    no memory outside the list and the new element changes. *)
Theorem list_insert_refines (h : heap) (l e : Z) (xs ys : list Z) :
  list_repr h l (xs ++ ys) → e ∉ chain l (xs ++ ys) → e ≠ NULL → is_Some (h !! e) →
  returns (list_insert (hd_or (tail_of l) ys) e)
    (λ _ h', list_repr h' l (xs ++ e :: ys) ∧ only (e :: chain l (xs ++ ys)) h h') h.
Proof. apply list_insert_repr. Qed.

Lemma list_insert_refines_witness :
  returns (list_insert 31 25)
    (λ _ h', list_repr h' 100 [11; 25; 31] ∧
       only (25 :: chain 100 [11; 31]) (<[25 := Elem 0 0]> (demo_heap 100 [11; 31])) h')
    (<[25 := Elem 0 0]> (demo_heap 100 [11; 31])).
Proof.
  apply (list_insert_refines (<[25 := Elem 0 0]> (demo_heap 100 [11; 31])) 100 25 [11] [31]).
  - by_compute.
  - by_compute.
  - discriminate.
  - by exists (Elem 0 0).
Defined.

(** [list_remove] takes an element out from anywhere in a list and returns
    the one that followed it, the tail for the last; only links of the remaining
    chain change, so the removed element keeps its own. *)
Theorem list_remove_refines (h : heap) (l e : Z) (xs ys : list Z) :
  list_repr h l (xs ++ e :: ys) →
  returns (list_remove e)
    (λ r h', r = hd_or (tail_of l) ys ∧ list_repr h' l (xs ++ ys) ∧
             only (chain l (xs ++ ys)) h h') h.
Proof. apply list_remove_repr. Qed.

Lemma list_remove_refines_witness :
  returns (list_remove 25)
    (λ r h', r = 31 ∧ list_repr h' 100 [11; 31] ∧
             only (chain 100 [11; 31]) (demo_heap 100 [11; 25; 31]) h')
    (demo_heap 100 [11; 25; 31]).
Proof.
  apply (list_remove_refines _ 100 25 [11] [31]).
  by_compute.
Defined.

(** [list_reverse] terminates within as many steps as the list has
    elements and reverses their order in place. *)
Theorem list_reverse_refines (h : heap) (l : Z) (xs : list Z) (fuel : nat) :
  list_repr h l xs → (length xs < fuel)%nat →
  returns (list_reverse fuel l)
    (λ _ h', list_repr h' l (reverse xs) ∧ only (chain l xs) h h') h.
Proof. apply list_reverse_repr. Qed.

Lemma list_reverse_refines_witness :
  returns (list_reverse 4 100)
    (λ _ h', list_repr h' 100 [31; 25; 11] ∧
             only (chain 100 [11; 25; 31]) (demo_heap 100 [11; 25; 31]) h')
    (demo_heap 100 [11; 25; 31]).
Proof.
  apply (list_reverse_refines _ 100 [11; 25; 31]); [|simpl; lia].
  by_compute.
Defined.

(** C12: [list_sort], the natural in-place merge sort, terminates, passes all of its
    assertions, and leaves the list holding a sorted permutation of its elements,
    for any comparison that is asymmetric; no memory outside the list changes. *)
Theorem list_sort_refines (less : Z → Z → bool) `{!LessFunc less}
    (h : heap) (l : Z) (xs : list Z) (fuel : nat) :
  list_repr h l xs → (length xs < fuel)%nat → Z.of_nat (length xs) < 2 ^ 64 →
  returns (list_sort less fuel l)
    (λ _ h', ∃ ys, list_repr h' l ys ∧ Sorted (leq less) ys ∧ ys ≡ₚ xs ∧
                   only (chain l xs) h h') h.
Proof. by apply list_sort_repr. Qed.

Lemma list_sort_refines_witness :
  returns (list_sort demo_less 6 100)
    (λ _ h', ∃ ys, list_repr h' 100 ys ∧ Sorted (leq demo_less) ys ∧
       ys ≡ₚ [35; 21; 44; 13; 52] ∧
       only (chain 100 [35; 21; 44; 13; 52]) (demo_heap 100 [35; 21; 44; 13; 52]) h')
    (demo_heap 100 [35; 21; 44; 13; 52]).
Proof.
  apply (list_sort_refines demo_less); [by_compute|simpl; lia..].
Defined.

(** [list_insert_ordered] adds the element in front of the first one it is
    less than, so that a sorted list stays sorted. *)
Theorem list_insert_ordered_refines (less : Z → Z → bool) `{!LessFunc less}
    (h : heap) (l e : Z) (xs : list Z) (fuel : nat) :
  list_repr h l xs → Sorted (leq less) xs →
  e ∉ chain l xs → e ≠ NULL → is_Some (h !! e) → (length xs < fuel)%nat →
  returns (list_insert_ordered less fuel l e)
    (λ _ h', ∃ ys, list_repr h' l ys ∧ Sorted (leq less) ys ∧ ys ≡ₚ e :: xs ∧
                   only (e :: chain l xs) h h') h.
Proof.
  intros Hr Hs He He0 Hin Hf.
  eapply wp_mono; [by apply list_insert_ordered_repr|]. intros _ h' [Hr' O].
  exists (insert_ordered less e xs). split_and!; [done|by apply insert_ordered_sorted| |done].
  apply insert_ordered_perm.
Qed.

Lemma list_insert_ordered_refines_witness :
  let h := <[24 := Elem 0 0]> (demo_heap 100 [11; 23; 35]) in
  returns (list_insert_ordered demo_less 4 100 24)
    (λ _ h', ∃ ys, list_repr h' 100 ys ∧ Sorted (leq demo_less) ys ∧
       ys ≡ₚ [24; 11; 23; 35] ∧ only (24 :: chain 100 [11; 23; 35]) h h') h.
Proof.
  apply (list_insert_ordered_refines demo_less _ 100 24 [11; 23; 35]).
  - by_compute.
  - repeat constructor.
  - by_compute.
  - discriminate.
  - by exists (Elem 0 0).
  - simpl; lia.
Defined.

(** [list_unique] keeps the first element of every block of neighbours
    that compare equal and, when it is given a second list, appends the others
    to it in their order. *)
Theorem list_unique_refines (less : Z → Z → bool) (h : heap) (l d : Z)
    (xs ds : list Z) (fuel : nat) :
  list_repr h l xs → dup_list h l xs d ds → (length xs < fuel)%nat →
  returns (list_unique less fuel l d)
    (λ _ h', list_repr h' l (unique less xs).1 ∧
       dup_list h' l (unique less xs).1 d (ds ++ (unique less xs).2) ∧
       only (chain l xs ++ (if d =? NULL then [] else chain d ds)) h h') h.
Proof. by apply list_unique_repr. Qed.

Lemma list_unique_refines_witness :
  let h := demo_heap 100 [11; 21; 23; 33; 41] ∪ demo_heap 200 [] in
  returns (list_unique demo_less 6 100 200)
    (λ _ h', list_repr h' 100 [11; 23; 41] ∧
       dup_list h' 100 [11; 23; 41] 200 [21; 33] ∧
       only (chain 100 [11; 21; 23; 33; 41] ++ chain 200 []) h h') h.
Proof.
  apply (list_unique_refines demo_less _ 100 200 [11; 21; 23; 33; 41] []).
  - by_compute.
  - right. split; [by_compute|]. apply Forall_forall. by_compute.
  - simpl; lia.
Defined.

(** [list_max] and [list_min] return the extremum that comes first, and
    the tail of an empty list. *)
Theorem list_max_min_refines (less : Z → Z → bool) (h : heap) (l : Z)
    (xs : list Z) (fuel : nat) :
  list_repr h l xs → (length xs < fuel)%nat →
  returns (list_max less fuel l)
    (λ r h', h' = h ∧
       r = match xs with [] => tail_of l | x :: ys => max_of less x ys end) h ∧
  returns (list_min less fuel l)
    (λ r h', h' = h ∧
       r = match xs with [] => tail_of l | x :: ys => min_of less x ys end) h.
Proof. intros Hr Hf. split; [by apply list_max_repr|by apply list_min_repr]. Qed.

Lemma list_max_min_refines_witness :
  let h := demo_heap 100 [15; 21; 39; 49; 51] in
  returns (list_max demo_less 6 100) (λ r h', h' = h ∧ r = 39) h ∧
  returns (list_min demo_less 6 100) (λ r h', h' = h ∧ r = 21) h.
Proof.
  apply (list_max_min_refines demo_less _ 100 [15; 21; 39; 49; 51]); [|simpl; lia].
  by_compute.
Defined.

(** ** A list as a queue *)

Lemma push_all_repr (h : heap) (l : Z) (ys xs : list Z) :
  list_repr h l ys → NoDup xs →
  (∀ x, x ∈ xs → x ∉ chain l ys ∧ x ≠ NULL ∧ is_Some (h !! x)) →
  returns (traverse (list_push_back l) xs) (λ _ h', list_repr h' l (ys ++ xs)) h.
Proof.
  revert h ys. induction xs as [|x xs IH]; intros h ys Hr Hnd Hx; simpl.
  { apply wp_ret. by rewrite app_nil_r. }
  apply NoDup_cons in Hnd as [Hxx Hnd].
  destruct (Hx x) as (? & ? & ?); [set_solver|].
  eapply wp_call; [by apply list_push_back_repr|]. intros r h1 [Hr1 [_ S1]].
  eapply wp_call; [apply (IH h1 (ys ++ [x]) Hr1 Hnd)|].
  - intros y Hy. destruct (Hx y) as (? & ? & ?); [set_solver|].
    split_and!; [|done|by apply S1]. assert (y ≠ x) by (by intros ->).
    rewrite chain_app_perm, app_nil_r. set_solver.
  - intros r2 h2 Hr2. apply wp_ret. by rewrite <- app_assoc in Hr2.
Qed.

Lemma pop_all_repr (h : heap) (l : Z) (xs : list Z) :
  list_repr h l xs →
  returns (traverse (λ _, list_pop_front l) xs) (λ r h', r = xs ∧ list_repr h' l []) h.
Proof.
  revert h. induction xs as [|x xs IH]; intros h Hr; simpl; [by apply wp_ret|].
  eapply wp_call; [by apply list_pop_front_repr|]. intros r h1 (-> & Hr1 & _).
  eapply wp_call; [by apply IH|]. intros r h2 [-> Hr2]. by apply wp_ret.
Qed.

(** An initialised list is a queue: the elements pushed at its back are
    popped from its front in the same order, and then it is empty. *)
Theorem list_fifo (h : heap) (l : Z) (xs : list Z) :
  l ≠ NULL → tail_of l ≠ NULL →
  is_Some (h !! head_of l) → is_Some (h !! tail_of l) →
  NoDup xs → (∀ x, x ∈ xs → x ∉ chain l [] ∧ x ≠ NULL ∧ is_Some (h !! x)) →
  returns (list_init l;;;
           let! _ := traverse (list_push_back l) xs in
           let! ys := traverse (λ _, list_pop_front l) xs in
           let! b := list_empty l in ret (ys, b))
    (λ r _, r = (xs, true)) h.
Proof.
  intros Hl Ht H1 H2 Hnd Hx. eapply wp_call; [by apply list_init_repr|].
  intros _ h1 [Hr1 [_ S1]]. eapply wp_call; [apply (push_all_repr h1 l [] xs Hr1 Hnd)|].
  { intros x Hxx. destruct (Hx x Hxx) as (? & ? & ?). by auto. }
  intros r h2 Hr2. eapply wp_call; [by apply pop_all_repr|]. intros ys h3 [-> Hr3].
  apply wp_bind. eapply wp_list_empty; [done|]. by apply wp_ret.
Qed.

Lemma list_fifo_witness :
  let h := <[100 := Elem 7 7]> (<[116 := Elem 7 7]> (link 0 [3; 1; 2])) in
  returns (list_init 100;;;
           let! _ := traverse (list_push_back 100) [3; 1; 2] in
           let! ys := traverse (λ _, list_pop_front 100) [3; 1; 2] in
           let! b := list_empty 100 in ret (ys, b))
    (λ r _, r = ([3; 1; 2], true)) h.
Proof.
  apply list_fifo.
  - discriminate.
  - discriminate.
  - by exists (Elem 7 7).
  - by exists (Elem 7 7).
  - by_compute.
  - apply Forall_forall. by_compute.
Defined.
