(* ===== verification/Mem.v ===== *)
(** Byte-addressed memory, for the components whose data lives at raw
    addresses: string.c, kalloc.c, vm.c and the user library.  An address that
    is not in the map is not mapped, and touching it is a fault. *)

From S2P Require Import Prelude.
Local Open Scope Z_scope.

Abbreviation mem := (gmap Z Z).

Definition load8 (a : Z) : M mem Z := get_some (λ m : mem, m !! a).
Definition store8 (a v : Z) : M mem unit := λ m,
  match m !! a with Some _ => Ok tt (<[a := u8 v]> m) | None => Fault end.

(** Little-endian loads and stores of [n] bytes. *)
Fixpoint load_le (n : nat) (a : Z) : M mem Z :=
  match n with
  | O => ret 0
  | S n => let! b := load8 a in let! r := load_le n (a + 1) in ret (b + 256 * r)
  end.
Fixpoint store_le (n : nat) (a v : Z) : M mem unit :=
  match n with
  | O => ret tt
  | S n => store8 a (v `mod` 256);;; store_le n (a + 1) (v `div` 256)
  end.
Definition load64 (a : Z) : M mem Z := load_le 8 a.
Definition store64 (a v : Z) : M mem unit := store_le 8 a v.

(** * Regions and their contents *)

Definition mapped (m : mem) (a n : Z) : Prop := ∀ x, a ≤ x < a + n → is_Some (m !! x).
(** The bytes [bs] at [a]. *)
Fixpoint write (a : Z) (bs : list Z) (m : mem) : mem :=
  match bs with
  | [] => m
  | b :: bs => write (a + 1) bs (<[a := b]> m)
  end.
Definition byte (m : mem) (a : Z) : Z := default 0 (m !! a).
Definition read (m : mem) (a : Z) (n : nat) : list Z :=
  (λ i, byte m (a + Z.of_nat i)) <$> seq 0 n.
Definition is_byte (b : Z) : Prop := 0 ≤ b < 256.
(** Memory holds bytes. *)
Definition mem_ok (m : mem) : Prop := ∀ a b, m !! a = Some b → is_byte b.

Fixpoint le_decode (bs : list Z) : Z :=
  match bs with [] => 0 | b :: bs => b + 256 * le_decode bs end.
Fixpoint le_encode (n : nat) (v : Z) : list Z :=
  match n with O => [] | S n => v `mod` 256 :: le_encode n (v `div` 256) end.

Definition get64 (m : mem) (a : Z) : Z := le_decode (read m a 8).
Definition put64 (a v : Z) (m : mem) : mem := write a (le_encode 8 v) m.

Section mem.
Implicit Types (m : mem) (a b v x : Z) (bs cs : list Z).

Lemma u8_mod v : u8 v = v `mod` 256.
Proof. done. Qed.

Lemma u8_byte v : is_byte (u8 v).
Proof. unfold is_byte. rewrite u8_mod. apply Z.mod_pos_bound. lia. Qed.

Lemma u8_small v : is_byte v → u8 v = v.
Proof. unfold is_byte. intros ?. rewrite u8_mod. by apply Z.mod_small. Qed.

Lemma byte_Some m a b : m !! a = Some b → byte m a = b.
Proof. unfold byte. by intros ->. Qed.

Lemma mapped_byte m a : is_Some (m !! a) → m !! a = Some (byte m a).
Proof. unfold byte. by intros [b ->]. Qed.

Lemma lookup_write a bs m x :
  write a bs m !! x =
    if decide (a ≤ x < a + Z.of_nat (length bs))
    then bs !! Z.to_nat (x - a) else m !! x.
Proof.
  revert a m. induction bs as [|c bs IH]; intros a m; simpl.
  { rewrite decide_False by lia. done. }
  rewrite IH. destruct (decide (x = a)) as [->|Hne].
  - rewrite decide_False by lia. rewrite decide_True by lia.
    rewrite lookup_insert_eq. by rewrite Z.sub_diag.
  - rewrite lookup_insert_ne by done. repeat case_decide; try lia; [|done].
    replace (Z.to_nat (x - a)) with (S (Z.to_nat (x - (a + 1)))) by lia. done.
Qed.

Lemma lookup_write_ne a bs m x :
  ¬ (a ≤ x < a + Z.of_nat (length bs)) → write a bs m !! x = m !! x.
Proof. intros. rewrite lookup_write. by rewrite decide_False. Qed.

Lemma lookup_write_in a bs m i b :
  bs !! i = Some b → write a bs m !! (a + Z.of_nat i) = Some b.
Proof.
  intros Hi. pose proof (lookup_lt_Some _ _ _ Hi). rewrite lookup_write, decide_True by lia.
  by replace (Z.to_nat (a + Z.of_nat i - a)) with i by lia.
Qed.

Lemma write_app a bs cs m :
  write a (bs ++ cs) m = write (a + Z.of_nat (length bs)) cs (write a bs m).
Proof.
  revert a m. induction bs as [|b bs IH]; intros a m; simpl; [by rewrite Z.add_0_r|].
  rewrite IH. f_equal. lia.
Qed.

Lemma is_Some_write a bs m x : is_Some (m !! x) → is_Some (write a bs m !! x).
Proof.
  intros ?. rewrite lookup_write. case_decide; [|done].
  apply lookup_lt_is_Some. lia.
Qed.

Lemma mapped_write m a n c bs : mapped m a n → mapped (write c bs m) a n.
Proof. intros Hm x Hx. by apply is_Some_write, Hm. Qed.

Lemma mapped_mono m a n a' n' :
  mapped m a n → a ≤ a' → a' + n' ≤ a + n → mapped m a' n'.
Proof. intros Hm ?? x Hx. apply Hm. lia. Qed.

Lemma read_length m a n : length (read m a n) = n.
Proof. unfold read. by rewrite length_fmap, length_seq. Qed.

Lemma lookup_read m a n i :
  (i < n)%nat → read m a n !! i = Some (byte m (a + Z.of_nat i)).
Proof. intros. unfold read. rewrite list_lookup_fmap, lookup_seq_lt by done. done. Qed.

Lemma read_S m a n : read m a (S n) = byte m a :: read m (a + 1) n.
Proof.
  unfold read. simpl. rewrite Z.add_0_r. f_equal. rewrite <- fmap_S_seq, <- list_fmap_compose.
  apply list_fmap_ext. intros i k _. simpl. f_equal. lia.
Qed.

Lemma read_ext m m' a n :
  (∀ x, a ≤ x < a + Z.of_nat n → m' !! x = m !! x) → read m' a n = read m a n.
Proof.
  intros He. apply list_eq. intros i. destruct (decide (i < n)%nat).
  - rewrite !lookup_read by done. unfold byte. rewrite He; [done|lia].
  - by rewrite !lookup_ge_None_2 by (rewrite read_length; lia).
Qed.

Lemma read_write_eq m a bs : read (write a bs m) a (length bs) = bs.
Proof.
  apply list_eq. intros i. destruct (decide (i < length bs)%nat) as [Hi|].
  - rewrite lookup_read by done. destruct (lookup_lt_is_Some_2 _ _ Hi) as [b Hb].
    rewrite Hb. by rewrite (byte_Some _ _ b) by by apply lookup_write_in.
  - rewrite !lookup_ge_None_2; [done|lia|rewrite read_length; lia].
Qed.

Lemma read_write_replicate m a n b : read (write a (replicate n b) m) a n = replicate n b.
Proof.
  pose proof (read_write_eq m a (replicate n b)) as Hr. by rewrite length_replicate in Hr.
Qed.

Lemma read_write_ne m a bs c n :
  a + Z.of_nat (length bs) ≤ c ∨ c + Z.of_nat n ≤ a →
  read (write a bs m) c n = read m c n.
Proof. intros Hd. apply read_ext. intros x Hx. apply lookup_write_ne. lia. Qed.

(** Writing back what is there changes nothing. *)
Lemma write_read m a n : mapped m a (Z.of_nat n) → write a (read m a n) m = m.
Proof.
  intros Hm. apply map_eq. intros x. rewrite lookup_write, read_length. case_decide; [|done].
  rewrite lookup_read by lia. rewrite Z2Nat.id by lia.
  replace (a + (x - a)) with x by lia. symmetry. apply mapped_byte, Hm. lia.
Qed.

(** ** Words *)

Lemma le_encode_length n v : length (le_encode n v) = n.
Proof. revert v. induction n; intros v; simpl; auto. Qed.

Lemma le_decode_encode n v :
  0 ≤ v < 256 ^ Z.of_nat n → le_decode (le_encode n v) = v.
Proof.
  revert v. induction n as [|n IH]; intros v Hv; simpl; [simpl in Hv; lia|].
  rewrite Nat2Z.inj_succ, Z.pow_succ_r in Hv by lia. rewrite IH.
  - pose proof (Z.div_mod v 256). lia.
  - split; [apply Z.div_pos; lia|]. apply Z.div_lt_upper_bound; lia.
Qed.

Lemma le_decode_range bs :
  Forall is_byte bs → 0 ≤ le_decode bs < 256 ^ Z.of_nat (length bs).
Proof.
  unfold is_byte. induction 1 as [|b bs Hb Hbs IH]; simpl; [lia|].
  rewrite Nat2Z.inj_succ, Z.pow_succ_r by lia. lia.
Qed.

Lemma get64_range m a : mem_ok m → 0 ≤ get64 m a < 2 ^ 64.
Proof.
  intros Hok. unfold get64. pose proof (le_decode_range (read m a 8)) as Hr.
  rewrite read_length in Hr. apply Hr. unfold read. apply Forall_forall.
  intros b (i & -> & _)%list_elem_of_fmap. unfold byte.
  destruct (m !! _) eqn:E; simpl; [by eapply Hok|]. unfold is_byte. lia.
Qed.

Lemma get64_put64_eq m a v : 0 ≤ v < 2 ^ 64 → get64 (put64 a v m) a = v.
Proof.
  intros Hv. unfold get64, put64.
  pose proof (read_write_eq m a (le_encode 8 v)) as Hr.
  rewrite le_encode_length in Hr. rewrite Hr. by apply le_decode_encode.
Qed.

Lemma get64_put64_ne m a c v :
  a + 8 ≤ c ∨ c + 8 ≤ a → get64 (put64 a v m) c = get64 m c.
Proof.
  intros Hd. unfold get64, put64. f_equal. apply read_write_ne.
  rewrite le_encode_length. lia.
Qed.

Lemma get64_write_ne m a bs c :
  a + Z.of_nat (length bs) ≤ c ∨ c + 8 ≤ a → get64 (write a bs m) c = get64 m c.
Proof. intros Hd. unfold get64. f_equal. by apply read_write_ne. Qed.

Lemma lookup_put64_ne m a v x : ¬ (a ≤ x < a + 8) → put64 a v m !! x = m !! x.
Proof. intros. apply lookup_write_ne. by rewrite le_encode_length. Qed.

Lemma le_encode_bytes n v : Forall is_byte (le_encode n v).
Proof.
  revert v. induction n; intros v; simpl; constructor; auto.
  apply Z.mod_pos_bound. lia.
Qed.

Lemma mem_ok_write m a bs : mem_ok m → Forall is_byte bs → mem_ok (write a bs m).
Proof.
  intros Hok Hbs x c. rewrite lookup_write. case_decide; [|by apply Hok].
  intros Hc. by eapply (Forall_lookup_1 _ bs).
Qed.

Lemma mem_ok_put64 m a v : mem_ok m → mem_ok (put64 a v m).
Proof. intros. apply mem_ok_write; [done|]. apply le_encode_bytes. Qed.

(** ** The access rules *)

Lemma wp_load8 E a Q m : is_Some (m !! a) → Q (byte m a) m → wp E (load8 a) Q m.
Proof. intros Hm HQ. eapply wp_get_some; [by apply mapped_byte|done]. Qed.

Lemma wp_store8 E a v Q m :
  is_Some (m !! a) → Q tt (<[a := u8 v]> m) → wp E (store8 a v) Q m.
Proof. unfold wp, store8. by intros [c ->]. Qed.

Lemma wp_load_le E n a Q m :
  mapped m a (Z.of_nat n) → Q (le_decode (read m a n)) m → wp E (load_le n a) Q m.
Proof.
  revert a Q. induction n as [|n IH]; intros a Q Hm HQ; cbn [load_le]; [by apply wp_ret|].
  apply wp_bind, wp_load8; [apply Hm; lia|]. apply wp_bind, IH.
  { eapply mapped_mono; [done|lia..]. }
  apply wp_ret. by rewrite read_S in HQ.
Qed.

Lemma wp_store_le E n a v Q m :
  mapped m a (Z.of_nat n) → Q tt (write a (le_encode n v) m) → wp E (store_le n a v) Q m.
Proof.
  revert a v m. induction n as [|n IH]; intros a v m Hm HQ; cbn [store_le]; [by apply wp_ret|].
  apply wp_bind, wp_store8; [apply Hm; lia|]. rewrite u8_mod, Zmod_mod.
  apply IH; [|done]. intros x Hx. destruct (decide (x = a)) as [->|].
  - by rewrite lookup_insert_eq.
  - rewrite lookup_insert_ne by done. apply Hm. lia.
Qed.

Lemma wp_load64 E a Q m : mapped m a 8 → Q (get64 m a) m → wp E (load64 a) Q m.
Proof. apply (wp_load_le E 8). Qed.

Lemma wp_store64 E a v Q m :
  mapped m a 8 → Q tt (put64 a v m) → wp E (store64 a v) Q m.
Proof. apply (wp_store_le E 8). Qed.
End mem.

#[export] Hint Resolve mapped_write mem_ok_write mem_ok_put64 is_Some_write : xv6.

#[global] Arguments get64 : simpl never.
#[global] Arguments put64 : simpl never.
#[global] Arguments load64 : simpl never.
#[global] Arguments store64 : simpl never.
