(* ===== verification/Riscv.v ===== *)
(** The constants of kernel/param.h and kernel/memlayout.h and the page
    arithmetic of kernel/riscv.h, with the laws the other components use. *)

From S2P Require Import Prelude.
Local Open Scope Z_scope.

(** * param.h *)

Definition NPROC : Z := 64.
Definition NCONT : Z := 4.
Definition NCPU : Z := 8.
Definition NOFILE : Z := 16.
Definition NFILE : Z := 100.
Definition NINODE : Z := 50.
Definition NDEV : Z := 10.
Definition ROOTDEV : Z := 1.
Definition MAXARG : Z := 64.
Definition MAXOPBLOCKS : Z := 10.
Definition LOGSIZE : Z := MAXOPBLOCKS * 3.
Definition NBUF : Z := MAXOPBLOCKS * 3.
Definition FSSIZE : Z := 2000.
Definition MAXPATH : Z := 128.
Definition NCONS : Z := 4.

(** * riscv.h *)

Definition PGSIZE : Z := 4096.
Definition PGSHIFT : Z := 12.
Definition PGROUNDUP (sz : Z) : Z := Z.land (u64 (sz + PGSIZE - 1)) (Z.lnot (PGSIZE - 1)).
Definition PGROUNDDOWN (a : Z) : Z := Z.land a (Z.lnot (PGSIZE - 1)).

Definition PTE_V : Z := Z.shiftl 1 0.
Definition PTE_R : Z := Z.shiftl 1 1.
Definition PTE_W : Z := Z.shiftl 1 2.
Definition PTE_X : Z := Z.shiftl 1 3.
Definition PTE_U : Z := Z.shiftl 1 4.

Definition PA2PTE (pa : Z) : Z := u64 (Z.shiftl (Z.shiftr pa 12) 10).
Definition PTE2PA (pte : Z) : Z := u64 (Z.shiftl (Z.shiftr pte 10) 12).
Definition PTE_FLAGS (pte : Z) : Z := Z.land pte 1023.
Definition PXMASK : Z := 511.
Definition PXSHIFT (level : Z) : Z := PGSHIFT + 9 * level.
Definition PX (level va : Z) : Z := Z.land (Z.shiftr va (PXSHIFT level)) PXMASK.
Definition MAXVA : Z := Z.shiftl 1 (9 + 9 + 9 + 12 - 1).

Definition SATP_SV39 : Z := Z.shiftl 8 60.
Definition MAKE_SATP (pagetable : Z) : Z := Z.lor SATP_SV39 (Z.shiftr pagetable 12).

(** * memlayout.h *)

Definition UART0 : Z := 0x10000000.
Definition VIRTIO0 : Z := 0x10001000.
Definition UART0_IRQ : Z := 10.
Definition VIRTIO0_IRQ : Z := 1.
Definition PLIC : Z := 0x0c000000.
Definition KERNBASE : Z := 0x80000000.
Definition PHYSTOP : Z := KERNBASE + 128 * 1024 * 1024.
Definition TRAMPOLINE : Z := MAXVA - PGSIZE.
Definition KSTACK (p : Z) : Z := TRAMPOLINE - (p + 1) * 2 * PGSIZE.
Definition TRAPFRAME : Z := TRAMPOLINE - PGSIZE.

#[global] Arguments PGSIZE : simpl never.

(** * Laws *)

Lemma PGROUNDDOWN_eq a : PGROUNDDOWN a = a `div` 4096 * 4096.
Proof.
  unfold PGROUNDDOWN. change (PGSIZE - 1) with (Z.ones 12).
  rewrite <- Z.ldiff_land, Z.ldiff_ones_r by lia.
  by rewrite Z.shiftl_mul_pow2, Z.shiftr_div_pow2 by lia.
Qed.

Lemma PGROUNDUP_eq sz :
  0 ≤ sz → sz + 4095 < 2 ^ 64 → PGROUNDUP sz = (sz + 4095) `div` 4096 * 4096.
Proof.
  intros. unfold PGROUNDUP. rewrite u64_small by (unfold PGSIZE; lia).
  replace (sz + PGSIZE - 1) with (sz + 4095) by (unfold PGSIZE; lia).
  apply PGROUNDDOWN_eq.
Qed.

Lemma PGROUNDDOWN_bounds a : PGROUNDDOWN a ≤ a < PGROUNDDOWN a + 4096.
Proof. rewrite PGROUNDDOWN_eq. pose proof (Z.div_mod a 4096). pose proof (Z.mod_pos_bound a 4096). lia. Qed.

Lemma PGROUNDDOWN_aligned a : PGROUNDDOWN a `mod` 4096 = 0.
Proof. rewrite PGROUNDDOWN_eq. apply Z.mod_mul. lia. Qed.

Lemma PGROUNDUP_bounds sz :
  0 ≤ sz → sz + 4095 < 2 ^ 64 → sz ≤ PGROUNDUP sz < sz + 4096.
Proof.
  intros. rewrite PGROUNDUP_eq by done.
  pose proof (Z.div_mod (sz + 4095) 4096). pose proof (Z.mod_pos_bound (sz + 4095) 4096). lia.
Qed.

Lemma PGROUNDUP_aligned sz : 0 ≤ sz → sz + 4095 < 2 ^ 64 → PGROUNDUP sz `mod` 4096 = 0.
Proof. intros. rewrite PGROUNDUP_eq by done. apply Z.mod_mul. lia. Qed.

Lemma PGROUNDUP_id a : 0 ≤ a → a + 4095 < 2 ^ 64 → a `mod` 4096 = 0 → PGROUNDUP a = a.
Proof.
  intros ?? Ha. pose proof (PGROUNDUP_bounds a). pose proof (PGROUNDUP_aligned a).
  pose proof (Z.div_mod a 4096). pose proof (Z.div_mod (PGROUNDUP a) 4096). lia.
Qed.

Lemma PX_range l va : 0 ≤ PX l va < 512.
Proof.
  unfold PX, PXMASK. change 511 with (Z.ones 9). rewrite Z.land_ones by lia.
  apply Z.mod_pos_bound. lia.
Qed.

Lemma PX_eq l va : 0 ≤ l → PX l va = (va `div` 2 ^ (12 + 9 * l)) `mod` 512.
Proof.
  intros. unfold PX, PXMASK, PXSHIFT, PGSHIFT. change 511 with (Z.ones 9).
  by rewrite Z.land_ones, Z.shiftr_div_pow2 by lia.
Qed.

(** ** Page-table entries *)

(** A physical page address that fits a PTE. *)
Definition pa_ok (pa : Z) : Prop := 0 ≤ pa < 2 ^ 56 ∧ pa `mod` 4096 = 0.

Lemma lor_add a f k : 0 ≤ k → 0 ≤ f < 2 ^ k → Z.lor (a * 2 ^ k) f = a * 2 ^ k + f.
Proof.
  intros Hk Hf. symmetry. rewrite Z.add_comm, Z.lor_comm. apply Z.add_nocarry_lor.
  apply Z.bits_inj'. intros i Hi. rewrite Z.land_spec, Z.bits_0.
  destruct (Z.lt_ge_cases i k).
  - rewrite (Z.mul_pow2_bits_low a k i) by done. apply andb_false_r.
  - rewrite <- (Z.mod_small f (2 ^ k)) by done.
    by rewrite Z.mod_pow2_bits_high by lia.
Qed.

Lemma PA2PTE_eq pa : pa_ok pa → PA2PTE pa = pa `div` 4096 * 2 ^ 10.
Proof.
  intros [Hr Hm]. unfold PA2PTE. rewrite Z.shiftl_mul_pow2, Z.shiftr_div_pow2 by lia.
  change (2 ^ 12) with 4096. apply u64_small. pose proof (Z.div_mod pa 4096). lia.
Qed.

Lemma pte_eq pa f : pa_ok pa → 0 ≤ f < 1024 → Z.lor (PA2PTE pa) f = pa `div` 4096 * 1024 + f.
Proof. intros. rewrite PA2PTE_eq by done. by apply (lor_add _ f 10). Qed.

Lemma pte_range pa f : pa_ok pa → 0 ≤ f < 1024 → 0 ≤ Z.lor (PA2PTE pa) f < 2 ^ 64.
Proof.
  intros Hp Hf. rewrite pte_eq by done. destruct Hp as [? ?].
  pose proof (Z.div_mod pa 4096). lia.
Qed.

Lemma pte_pa pa f : pa_ok pa → 0 ≤ f < 1024 → PTE2PA (Z.lor (PA2PTE pa) f) = pa.
Proof.
  intros Hp Hf. rewrite pte_eq by done. destruct Hp as [? ?]. unfold PTE2PA.
  rewrite Z.shiftl_mul_pow2, Z.shiftr_div_pow2 by lia. change (2 ^ 10) with 1024.
  rewrite Z.div_add_l, (Z.div_small f), Z.add_0_r by lia.
  pose proof (Z.div_mod pa 4096). change (2 ^ 12) with 4096. rewrite u64_small; lia.
Qed.

Lemma pte_flags pa f : pa_ok pa → 0 ≤ f < 1024 → PTE_FLAGS (Z.lor (PA2PTE pa) f) = f.
Proof.
  intros Hp Hf. rewrite pte_eq by done. unfold PTE_FLAGS. change 1023 with (Z.ones 10).
  rewrite Z.land_ones by lia. change (2 ^ 10) with 1024.
  rewrite Z.add_comm, Z.mod_add by lia. by apply Z.mod_small.
Qed.

(** A mask below bit 10 only sees the flags. *)
Lemma land_flags pte mask :
  Z.land 1023 mask = mask → Z.land pte mask = Z.land (PTE_FLAGS pte) mask.
Proof. intros Hm. unfold PTE_FLAGS. by rewrite <- Z.land_assoc, Hm. Qed.

Lemma lor_range a b k : 0 ≤ k → 0 ≤ a < 2 ^ k → 0 ≤ b < 2 ^ k → 0 ≤ Z.lor a b < 2 ^ k.
Proof.
  intros Hk Ha Hb. split; [apply Z.lor_nonneg; lia|].
  destruct (decide (a = 0)) as [->|]; [rewrite Z.lor_0_l; lia|].
  destruct (decide (b = 0)) as [->|]; [rewrite Z.lor_0_r; lia|].
  apply Z.log2_lt_pow2; [|rewrite Z.log2_lor by lia].
  - enough (Z.lor a b ≠ 0); [|by rewrite Z.lor_eq_0_iff; lia].
    pose proof (Z.lor_nonneg a b). lia.
  - apply Z.max_lub_lt; apply Z.log2_lt_pow2; lia.
Qed.

(** The entry [mappages] writes. *)
Definition leaf_pte (pa perm : Z) : Z := Z.lor (Z.lor (PA2PTE pa) perm) PTE_V.

Lemma leaf_pte_facts pa perm :
  pa_ok pa → 0 ≤ perm < 1024 →
  0 ≤ leaf_pte pa perm < 2 ^ 64 ∧ PTE2PA (leaf_pte pa perm) = pa ∧
  PTE_FLAGS (leaf_pte pa perm) = Z.lor perm PTE_V ∧
  Z.land (leaf_pte pa perm) PTE_V ≠ 0 ∧
  Z.land (leaf_pte pa perm) PTE_U = Z.land perm PTE_U.
Proof.
  intros Hpa Hperm. unfold leaf_pte. rewrite <- Z.lor_assoc.
  pose proof (lor_range perm PTE_V 10 ltac:(lia) Hperm ltac:(done)) as Hf.
  pose proof (pte_flags pa _ Hpa Hf) as Hfl. split_and!.
  - by apply pte_range.
  - by apply pte_range.
  - by apply pte_pa.
  - done.
  - rewrite land_flags, Hfl by done. rewrite Z.land_comm, Z.land_lor_distr_r.
    rewrite Z.lor_eq_0_iff. intros [_ [=]].
  - rewrite land_flags, Hfl by done. rewrite Z.land_comm, Z.land_lor_distr_r.
    change (Z.land PTE_U PTE_V) with 0. by rewrite Z.lor_0_r, Z.land_comm.
Qed.
