(* ===== verification/CString.v ===== *)
(** The kernel's string routines (kernel/string.c) over byte memory. *)

From S2P Require Import Prelude Mem.
Local Open Scope Z_scope.

(** A [while(n-- > 0)] loop is recursion on [n]; [memset] counts up with an
    [int], so its loop has the comparison and the increment written out. *)

Fixpoint memset_loop (fuel : nat) (cdst c n i : Z) : M mem unit :=
  match fuel with
  | O => out_of_fuel
  | S fuel =>
      if u32 i <? n then
        store8 (cdst + i) c;;;
        memset_loop fuel cdst c n (s32 (i + 1))
      else ret tt
  end.
Definition memset (dst c n : Z) : M mem Z :=
  memset_loop (S (Z.to_nat n)) dst c n 0;;; ret dst.

Fixpoint memcmp_loop (n : nat) (s1 s2 : Z) : M mem Z :=
  match n with
  | O => ret 0
  | S n =>
      let! a := load8 s1 in
      let! b := load8 s2 in
      if negb (a =? b) then ret (a - b) else memcmp_loop n (s1 + 1) (s2 + 1)
  end.
Definition memcmp (v1 v2 n : Z) : M mem Z := memcmp_loop (Z.to_nat n) v1 v2.

(** [*--d = *--s] and [*d++ = *s++], [n] times. *)
Fixpoint memmove_down (n : nat) (d s : Z) : M mem unit :=
  match n with
  | O => ret tt
  | S n => let! b := load8 (s - 1) in store8 (d - 1) b;;; memmove_down n (d - 1) (s - 1)
  end.
Fixpoint memmove_up (n : nat) (d s : Z) : M mem unit :=
  match n with
  | O => ret tt
  | S n => let! b := load8 s in store8 d b;;; memmove_up n (d + 1) (s + 1)
  end.
Definition memmove (dst src n : Z) : M mem Z :=
  if n =? 0 then ret dst else
  (if (src <? dst) && (dst <? src + n)
   then memmove_down (Z.to_nat n) (dst + n) (src + n)
   else memmove_up (Z.to_nat n) dst src);;;
  ret dst.

Definition memcpy (dst src n : Z) : M mem Z := memmove dst src n.

Fixpoint strncmp_loop (n : nat) (p q : Z) : M mem Z :=
  match n with
  | O => ret 0
  | S n =>
      let! a := load8 p in
      if a =? 0 then let! b := load8 q in ret (a - b) else
      let! b := load8 q in
      if a =? b then strncmp_loop n (p + 1) (q + 1) else ret (a - b)
  end.
Definition strncmp (p q n : Z) : M mem Z := strncmp_loop (Z.to_nat n) p q.

Fixpoint strncpy_pad (n : nat) (s : Z) : M mem unit :=
  match n with
  | O => ret tt
  | S n => store8 s 0;;; strncpy_pad n (s + 1)
  end.
Fixpoint strncpy_loop (n : nat) (s t : Z) : M mem unit :=
  match n with
  | O => ret tt
  | S n =>
      let! b := load8 t in
      store8 s b;;;
      if b =? 0 then strncpy_pad n (s + 1) else strncpy_loop n (s + 1) (t + 1)
  end.
Definition strncpy (s t n : Z) : M mem Z :=
  strncpy_loop (Z.to_nat n) s t;;; ret s.

(** Returns where the final NUL goes. *)
Fixpoint safestrcpy_loop (n : nat) (s t : Z) : M mem Z :=
  match n with
  | O => ret s
  | S n =>
      let! b := load8 t in
      store8 s b;;;
      if b =? 0 then ret (s + 1) else safestrcpy_loop n (s + 1) (t + 1)
  end.
Definition safestrcpy (s t n : Z) : M mem Z :=
  if n <=? 0 then ret s else
  let! e := safestrcpy_loop (Z.to_nat (n - 1)) s t in
  store8 e 0;;;
  ret s.

Fixpoint strlen_loop (fuel : nat) (s n : Z) : M mem Z :=
  match fuel with
  | O => out_of_fuel
  | S fuel =>
      let! b := load8 (s + n) in
      if b =? 0 then ret n else strlen_loop fuel s (s32 (n + 1))
  end.
Definition strlen (fuel : nat) (s : Z) : M mem Z := strlen_loop fuel s 0.

#[global] Arguments memset : simpl never.
#[global] Arguments memmove : simpl never.

(** * Specifications *)

(** The characters of a NUL-terminated string, the NUL excluded. *)
Fixpoint cstr (bs : list Z) : list Z :=
  match bs with
  | [] => []
  | b :: bs => if b =? 0 then [] else b :: cstr bs
  end.

(** [strncmp] on the bytes of two buffers; a buffer continues with NULs. *)
Fixpoint strncmp_bytes (n : nat) (p q : list Z) : Z :=
  match n with
  | O => 0
  | S n =>
      let a := hd 0 p in let b := hd 0 q in
      if a =? 0 then a - b else
      if a =? b then strncmp_bytes n (tl p) (tl q) else a - b
  end.

(** The bytes [strncmp(p, q, n)] looks at are mapped: all of them up to the
    first difference or NUL. *)
Definition comparable (m : mem) (p q : Z) (n : nat) : Prop :=
  ∀ i, (i < n)%nat →
    (∀ j, (j < i)%nat → byte m (p + Z.of_nat j) ≠ 0 ∧
                        byte m (p + Z.of_nat j) = byte m (q + Z.of_nat j)) →
    is_Some (m !! (p + Z.of_nat i)) ∧ is_Some (m !! (q + Z.of_nat i)).

Section specs.
Implicit Types (m : mem) (a b v x p q s t : Z) (bs cs : list Z).

Lemma memset_loop_spec E m d c n i k fuel :
  0 ≤ i → i + Z.of_nat k = n → n < 2 ^ 31 → (k < fuel)%nat → mapped m (d + i) (Z.of_nat k) →
  wp E (memset_loop fuel d c n i) (λ _ m', m' = write (d + i) (replicate k (u8 c)) m) m.
Proof.
  revert m i fuel. induction k as [|k IH]; intros m i [|fuel] Hi Hn Hb Hf Hm; try lia;
    cbn [memset_loop]; rewrite u32_small by lia.
  - rewrite (proj2 (Z.ltb_ge i n)) by lia. by apply wp_ret.
  - rewrite (proj2 (Z.ltb_lt i n)) by lia. apply wp_bind, wp_store8; [apply Hm; lia|].
    rewrite s32_small by lia. simpl. rewrite <- Z.add_assoc. apply IH; try lia.
    intros x Hx. destruct (decide (x = d + i)) as [->|].
    + by rewrite lookup_insert_eq.
    + rewrite lookup_insert_ne by done. apply Hm. lia.
Qed.

Lemma memset_spec E m d c n Q :
  0 ≤ n < 2 ^ 31 → mapped m d n →
  Q d (write d (replicate (Z.to_nat n) (u8 c)) m) → wp E (memset d c n) Q m.
Proof.
  intros Hn Hm HQ. eapply wp_call.
  { apply (memset_loop_spec E m d c n 0 (Z.to_nat n)); try lia.
    rewrite Z2Nat.id by lia. by rewrite Z.add_0_r. }
  intros _ m' ->. apply wp_ret. by rewrite Z.add_0_r.
Qed.

Lemma memmove_up_spec E m d s n :
  d ≤ s ∨ s + Z.of_nat n ≤ d →
  mapped m d (Z.of_nat n) → mapped m s (Z.of_nat n) → mem_ok m →
  wp E (memmove_up n d s) (λ _ m', m' = write d (read m s n) m) m.
Proof.
  revert m d s. induction n as [|n IH]; intros m d s Hd Hmd Hms Hok; [by apply wp_ret|].
  cbn [memmove_up]. apply wp_bind, wp_load8; [apply Hms; lia|].
  apply wp_bind, wp_store8; [apply Hmd; lia|].
  assert (is_byte (byte m s)) as Hb by (apply (Hok s), mapped_byte, Hms; lia).
  rewrite (u8_small _ Hb). set (m1 := <[d := byte m s]> m).
  assert (m1 = write d [byte m s] m) as Hm1 by done.
  eapply wp_mono; [apply (IH m1)|].
  - lia.
  - rewrite Hm1. apply mapped_write. eapply mapped_mono; [exact Hmd|lia..].
  - rewrite Hm1. apply mapped_write. eapply mapped_mono; [exact Hms|lia..].
  - rewrite Hm1. apply mem_ok_write; [done|]. by constructor.
  - intros _ m2 ->. rewrite read_S. simpl. f_equal. rewrite Hm1.
    apply read_ext. intros x Hx. apply lookup_write_ne. simpl. lia.
Qed.

Lemma read_snoc m a n : read m a (S n) = read m a n ++ [byte m (a + Z.of_nat n)].
Proof. unfold read. by rewrite seq_S, fmap_app. Qed.

Lemma memmove_down_spec E m d s n :
  s ≤ d ∨ d + Z.of_nat n ≤ s →
  mapped m d (Z.of_nat n) → mapped m s (Z.of_nat n) → mem_ok m →
  wp E (memmove_down n (d + Z.of_nat n) (s + Z.of_nat n))
    (λ _ m', m' = write d (read m s n) m) m.
Proof.
  revert m. induction n as [|n IH]; intros m Hd Hmd Hms Hok; [by apply wp_ret|].
  cbn [memmove_down].
  replace (s + Z.of_nat (S n) - 1) with (s + Z.of_nat n) by lia.
  replace (d + Z.of_nat (S n) - 1) with (d + Z.of_nat n) by lia.
  apply wp_bind, wp_load8; [apply Hms; lia|].
  apply wp_bind, wp_store8; [apply Hmd; lia|].
  set (c := byte m (s + Z.of_nat n)).
  assert (is_byte c) as Hb by (apply (Hok (s + Z.of_nat n)), mapped_byte, Hms; lia).
  rewrite (u8_small _ Hb). set (m1 := <[d + Z.of_nat n := c]> m).
  assert (m1 = write (d + Z.of_nat n) [c] m) as Hm1 by done.
  eapply wp_mono; [apply (IH m1)|].
  - lia.
  - rewrite Hm1. apply mapped_write. eapply mapped_mono; [exact Hmd|lia..].
  - rewrite Hm1. apply mapped_write. eapply mapped_mono; [exact Hms|lia..].
  - rewrite Hm1. apply mem_ok_write; [done|]. by constructor.
  - intros _ m2 ->. rewrite read_snoc. fold c. rewrite write_app, read_length.
    assert (read m1 s n = read m s n) as ->.
    { rewrite Hm1. apply read_write_ne. simpl. lia. }
    apply map_eq. intros x. rewrite Hm1, !lookup_write, read_length. simpl.
    repeat case_decide; try lia; try done.
Qed.

Lemma memmove_spec E m d s n Q :
  0 ≤ n → mapped m d n → mapped m s n → mem_ok m →
  Q d (write d (read m s (Z.to_nat n)) m) → wp E (memmove d s n) Q m.
Proof.
  intros Hn Hmd Hms Hok HQ. unfold memmove.
  destruct (Z.eqb_spec n 0) as [->|Hn0]; [by apply wp_ret|].
  assert (Hn' : Z.of_nat (Z.to_nat n) = n) by lia.
  eapply (wp_call _ _ _ (λ _ m', m' = write d (read m s (Z.to_nat n)) m));
    [|by intros _ m' ->; apply wp_ret].
  destruct ((s <? d) && (d <? s + n)) eqn:Hc.
  - rewrite <- Hn' at 2 3. apply memmove_down_spec; rewrite ?Hn'; try done. left. lia.
  - apply memmove_up_spec; rewrite ?Hn'; try done. lia.
Qed.

Lemma strncmp_loop_spec E m p q n Q :
  comparable m p q n → Q (strncmp_bytes n (read m p n) (read m q n)) m →
  wp E (strncmp_loop n p q) Q m.
Proof.
  revert p q Q. induction n as [|n IH]; intros p q Q Hc HQ; [by apply wp_ret|].
  rewrite !read_S in HQ. cbn [strncmp_loop]. simpl in HQ.
  destruct (Hc 0%nat) as [Hp Hq]; [lia|intros; lia|].
  rewrite Z.add_0_r in Hp, Hq. apply wp_bind, wp_load8; [done|].
  destruct (Z.eqb_spec (byte m p) 0) as [Hz|Hz].
  { apply wp_bind, wp_load8; [done|]. by apply wp_ret. }
  apply wp_bind, wp_load8; [done|].
  destruct (Z.eqb_spec (byte m p) (byte m q)) as [Hpq|]; [|by apply wp_ret].
  apply IH; [|done]. intros i Hi Hj.
  replace (p + 1 + Z.of_nat i) with (p + Z.of_nat (S i)) by lia.
  replace (q + 1 + Z.of_nat i) with (q + Z.of_nat (S i)) by lia.
  apply Hc; [lia|]. intros [|j] ?; [by rewrite !Z.add_0_r|].
  destruct (Hj j) as [H1 H2]; [lia|].
  replace (p + Z.of_nat (S j)) with (p + 1 + Z.of_nat j) by lia.
  by replace (q + Z.of_nat (S j)) with (q + 1 + Z.of_nat j) by lia.
Qed.

(** [strncmp] decides whether two buffers hold the same string. *)
Lemma strncmp_bytes_eq n bs cs :
  Forall is_byte bs → Forall is_byte cs →
  strncmp_bytes n bs cs = 0 ↔ cstr (take n bs) = cstr (take n cs).
Proof.
  revert bs cs. induction n as [|n IH]; intros bs cs Hb Hc; simpl; [done|].
  destruct bs as [|b bs], cs as [|c cs]; simpl.
  - done.
  - inversion_clear Hc. destruct (Z.eqb_spec c 0) as [->|]; simpl; [done|].
    split; [lia|done].
  - inversion_clear Hb. destruct (Z.eqb_spec b 0) as [->|]; simpl; [done|].
    split; [lia|done].
  - inversion_clear Hb. inversion_clear Hc.
    destruct (Z.eqb_spec b 0) as [->|Hb0].
    + destruct (Z.eqb_spec c 0) as [->|]; [done|]. split; [lia|done].
    + destruct (Z.eqb_spec b c) as [->|Hbc].
      * rewrite (proj2 (Z.eqb_neq c 0)) by done. rewrite IH by done.
        split; [by intros ->|by intros [= ?]].
      * destruct (Z.eqb_spec c 0); split; try lia; try done. by intros [= ? ?].
Qed.

Lemma strncpy_pad_spec E m s n :
  mapped m s (Z.of_nat n) →
  wp E (strncpy_pad n s) (λ _ m', m' = write s (replicate n 0) m) m.
Proof.
  revert m s. induction n as [|n IH]; intros m s Hm; [by apply wp_ret|].
  cbn [strncpy_pad]. apply wp_bind, wp_store8; [apply Hm; lia|]. simpl.
  apply IH. change (<[s := u8 0]> m) with (write s [0] m). apply mapped_write.
  eapply mapped_mono; [done|lia..].
Qed.

(** The buffer [strncpy] leaves: the string, then NULs up to its end. *)
Definition strncpy_bytes (n : nat) bs : list Z :=
  let c := cstr (take n bs) in c ++ replicate (n - length c) 0.

Lemma cstr_length bs : (length (cstr bs) ≤ length bs)%nat.
Proof. induction bs as [|b bs IH]; simpl; [lia|]. destruct (b =? 0); simpl; lia. Qed.

Lemma strncpy_loop_spec E m s t n :
  s + Z.of_nat n ≤ t ∨ t + Z.of_nat n ≤ s →
  mapped m s (Z.of_nat n) → mapped m t (Z.of_nat n) → mem_ok m →
  wp E (strncpy_loop n s t) (λ _ m', m' = write s (strncpy_bytes n (read m t n)) m) m.
Proof.
  revert m s t. induction n as [|n IH]; intros m s t Hd Hs Ht Hok; [by apply wp_ret|].
  cbn [strncpy_loop]. apply wp_bind, wp_load8; [apply Ht; lia|].
  apply wp_bind, wp_store8; [apply Hs; lia|].
  assert (is_byte (byte m t)) as Hb by (apply (Hok t), mapped_byte, Ht; lia).
  rewrite (u8_small _ Hb), read_S. set (m1 := <[s := byte m t]> m).
  assert (m1 = write s [byte m t] m) as Hm1 by done.
  assert (mapped m1 (s + 1) (Z.of_nat n)) as Hs1.
  { rewrite Hm1. apply mapped_write. eapply mapped_mono; [exact Hs|lia..]. }
  unfold strncpy_bytes. simpl. destruct (byte m t =? 0) eqn:Hz.
  - eapply wp_mono; [by apply strncpy_pad_spec|]. intros _ m2 ->. simpl.
    apply Z.eqb_eq in Hz. unfold m1. by rewrite Hz.
  - eapply wp_mono; [apply (IH m1 (s + 1) (t + 1)); try done|].
    + lia.
    + rewrite Hm1. apply mapped_write. eapply mapped_mono; [exact Ht|lia..].
    + rewrite Hm1. apply mem_ok_write; [done|]. by constructor.
    + intros _ m2 ->. simpl. unfold strncpy_bytes. rewrite Hm1 at 1 2.
      rewrite read_write_ne by (simpl; lia). done.
Qed.

(** What the copying loop of [safestrcpy] leaves, and where it stops. *)
Lemma safestrcpy_loop_spec E m s t n :
  s + Z.of_nat n ≤ t ∨ t + Z.of_nat n ≤ s →
  mapped m s (Z.of_nat n) → mapped m t (Z.of_nat n) → mem_ok m →
  wp E (safestrcpy_loop n s t)
    (λ e m', let c := cstr (read m t n) in
       let b := if decide (length c < n)%nat then c ++ [0] else c in
       e = s + Z.of_nat (length b) ∧ m' = write s b m) m.
Proof.
  revert m s t. induction n as [|n IH]; intros m s t Hd Hs Ht Hok.
  { apply wp_ret. split; [by rewrite Z.add_0_r|done]. }
  cbn [safestrcpy_loop]. apply wp_bind, wp_load8; [apply Ht; lia|].
  apply wp_bind, wp_store8; [apply Hs; lia|].
  assert (is_byte (byte m t)) as Hb by (apply (Hok t), mapped_byte, Ht; lia).
  rewrite (u8_small _ Hb), read_S. set (m1 := <[s := byte m t]> m).
  assert (m1 = write s [byte m t] m) as Hm1 by done. simpl.
  destruct (byte m t =? 0) eqn:Hz.
  - apply wp_ret. simpl. apply Z.eqb_eq in Hz. unfold m1. by rewrite Hz.
  - eapply wp_mono; [apply (IH m1 (s + 1) (t + 1))|].
    + lia.
    + rewrite Hm1. apply mapped_write. eapply mapped_mono; [exact Hs|lia..].
    + rewrite Hm1. apply mapped_write. eapply mapped_mono; [exact Ht|lia..].
    + rewrite Hm1. apply mem_ok_write; [done|]. by constructor.
    + assert (read m1 (t + 1) n = read m (t + 1) n) as ->.
      { rewrite Hm1. apply read_write_ne. simpl. lia. }
      intros e m2 [-> ->]. simpl. repeat case_decide; try lia; simpl; (split; [lia|done]).
Qed.

(** The buffer [safestrcpy] leaves: the string cut to [n - 1] characters, its
    NUL, and one more NUL when the string was not cut. *)
Definition safestrcpy_bytes (n : nat) bs : list Z :=
  let c := cstr (take (n - 1) bs) in
  c ++ [0] ++ (if decide (length c < n - 1)%nat then [0] else []).

Lemma safestrcpy_bytes_length n bs :
  (0 < n)%nat → (length bs = n - 1)%nat → (length (safestrcpy_bytes n bs) ≤ n)%nat.
Proof.
  intros Hn Hb. unfold safestrcpy_bytes. rewrite !length_app. simpl.
  pose proof (cstr_length (take (n - 1) bs)) as Hl. rewrite length_take in Hl.
  case_decide; simpl; lia.
Qed.

Lemma safestrcpy_spec E m s t (n : nat) Q :
  (0 < n)%nat → s + Z.of_nat n ≤ t ∨ t + Z.of_nat n ≤ s →
  mapped m s (Z.of_nat n) → mapped m t (Z.of_nat n - 1) → mem_ok m →
  Q s (write s (safestrcpy_bytes n (read m t (n - 1))) m) →
  wp E (safestrcpy s t (Z.of_nat n)) Q m.
Proof.
  intros Hn Hd Hs Ht Hok HQ. unfold safestrcpy.
  rewrite (proj2 (Z.leb_gt _ 0)) by lia.
  replace (Z.to_nat (Z.of_nat n - 1)) with (n - 1)%nat by lia.
  eapply wp_call; [apply (safestrcpy_loop_spec E m s t (n - 1))|].
  - lia.
  - eapply mapped_mono; [exact Hs|lia..].
  - eapply mapped_mono; [exact Ht|lia..].
  - done.
  - unfold safestrcpy_bytes in HQ. rewrite take_ge in HQ by (rewrite read_length; lia).
    set (c := cstr (read m t (n - 1))) in *.
    assert (length c ≤ n - 1)%nat as Hc.
    { pose proof (cstr_length (read m t (n - 1))) as Hl. by rewrite read_length in Hl. }
    intros e m1 [-> ->]. apply wp_bind, wp_store8.
    + apply is_Some_write, Hs. case_decide; rewrite ?length_app; simpl; lia.
    + apply wp_ret. change (u8 0) with 0.
      match goal with |- Q s ?m' => replace m' with (write s (c ++ [0] ++
        (if decide (length c < n - 1)%nat then [0] else [])) m); [done|] end.
      case_decide; [by rewrite app_assoc, write_app|]. by rewrite app_nil_r, write_app.
Qed.

(** A NUL-terminated string in memory. *)
Definition str_at m s bs : Prop :=
  mapped m s (Z.of_nat (S (length bs))) ∧ read m s (S (length bs)) = bs ++ [0] ∧ 0 ∉ bs.

Lemma str_at_cons m s b bs : str_at m s (b :: bs) → byte m s = b ∧ b ≠ 0 ∧ str_at m (s + 1) bs.
Proof.
  intros (Hm & Hr & H0). simpl in Hr. rewrite read_S in Hr. injection Hr as Hb Hr.
  split_and!; [done|set_solver|].
  split; [eapply mapped_mono; [exact Hm|simpl; lia..]|]. split; [done|set_solver].
Qed.

Lemma strlen_loop_spec E m s bs fuel i :
  str_at m (s + i) bs → (length bs < fuel)%nat → 0 ≤ i →
  i + Z.of_nat (length bs) < 2 ^ 31 →
  wp E (strlen_loop fuel s i) (λ r m', m' = m ∧ r = i + Z.of_nat (length bs)) m.
Proof.
  revert fuel i. induction bs as [|b bs IH]; intros [|fuel] i Hs Hf Hi Hb;
    simpl in Hf, Hb; try lia; cbn [strlen_loop]; (apply wp_bind, wp_load8;
    [destruct Hs as [Hm _]; apply Hm; simpl; lia|]).
  - destruct Hs as (_ & Hr & _). rewrite read_S in Hr. injection Hr as ->.
    apply wp_ret. split; [done|]. simpl. lia.
  - apply str_at_cons in Hs as (-> & Hb0 & Hs). rewrite (proj2 (Z.eqb_neq b 0)) by done.
    rewrite s32_small by lia. eapply wp_mono; [apply IH; try lia|].
    + by replace (s + (i + 1)) with (s + i + 1) by lia.
    + intros r m' [-> ->]. split; [done|]. simpl. lia.
Qed.

Lemma memcmp_loop_spec E m p q n :
  mapped m p (Z.of_nat n) → mapped m q (Z.of_nat n) →
  wp E (memcmp_loop n p q)
    (λ r m', m' = m ∧ (r = 0 ↔ read m p n = read m q n)) m.
Proof.
  revert p q. induction n as [|n IH]; intros p q Hp Hq; [by apply wp_ret|].
  cbn [memcmp_loop]. apply wp_bind, wp_load8; [apply Hp; lia|].
  apply wp_bind, wp_load8; [apply Hq; lia|]. rewrite !read_S.
  destruct (Z.eqb_spec (byte m p) (byte m q)) as [Heq|Hne]; simpl.
  - eapply wp_mono; [apply IH|].
    + eapply mapped_mono; [exact Hp|lia..].
    + eapply mapped_mono; [exact Hq|lia..].
    + intros r m' [-> ->]. split; [done|]. rewrite Heq. split; [by intros ->|congruence].
  - apply wp_ret. split; [done|]. split; [lia|congruence].
Qed.
End specs.

(** * The contract of string.c *)

Section facts.
Implicit Types (m : mem) (s : Z) (bs cs : list Z).

Lemma read_bytes m s n : mem_ok m → Forall is_byte (read m s n).
Proof.
  intros Hok. apply Forall_forall. intros b (i & -> & _)%list_elem_of_fmap.
  unfold byte. destruct (m !! _) eqn:Hb; simpl; [by eapply Hok|]. unfold is_byte. lia.
Qed.

Lemma read_app m s n k : read m s (n + k) = read m s n ++ read m (s + Z.of_nat n) k.
Proof.
  revert s. induction n as [|n IH]; intros s; [by rewrite Z.add_0_r|].
  rewrite Nat.add_succ_l, !read_S, IH.
  by replace (s + Z.of_nat (S n)) with (s + 1 + Z.of_nat n) by lia.
Qed.

Lemma read_write_prefix m s bs n :
  (length bs ≤ n)%nat → ∃ tl, read (write s bs m) s n = bs ++ tl.
Proof.
  intros Hl. replace n with (length bs + (n - length bs))%nat by lia.
  rewrite read_app, read_write_eq. eauto.
Qed.

(** Everything up to its first NUL is a string. *)
Lemma cstr_app_nul bs cs : cstr (cstr bs ++ 0 :: cs) = cstr bs.
Proof.
  induction bs as [|b bs IH]; simpl; [done|].
  destruct (b =? 0) eqn:Hb; simpl; [done|]. by rewrite Hb, IH.
Qed.
End facts.

(** Decidable forms of the memory predicates, for concrete memories. *)
Definition mem_okb (m : mem) : bool :=
  forallb (λ kv, (0 <=? kv.2) && (kv.2 <? 256)) (map_to_list m).
Definition mappedb (m : mem) (a n : Z) : bool :=
  forallb (λ i, bool_decide (is_Some (m !! (a + Z.of_nat i)))) (seq 0 (Z.to_nat n)).

Lemma mem_okb_ok m : mem_okb m = true → mem_ok m.
Proof.
  unfold mem_okb. rewrite forallb_forall. intros Hf a b Hm.
  assert (In (a, b) (map_to_list m)) as Hin.
  { by apply list_elem_of_In, elem_of_map_to_list. }
  specialize (Hf _ Hin). unfold is_byte. simpl in Hf. lia.
Qed.

Lemma mappedb_ok m a n : mappedb m a n = true → mapped m a n.
Proof.
  unfold mappedb. rewrite forallb_forall. intros Hf x Hx.
  specialize (Hf (Z.to_nat (x - a))). rewrite bool_decide_eq_true in Hf.
  replace (a + Z.of_nat (Z.to_nat (x - a))) with x in Hf by lia. apply Hf.
  apply in_seq. lia.
Qed.

(** The memory whose only mapped bytes are [bs] at [a]. *)
Definition mem_of (a : Z) (bs : list Z) : mem := write a bs ∅.

(** [memmove] leaves in the destination what the source held before the
    call, also when the two overlap in either direction, changes no other byte,
    and returns the destination. *)
Theorem memmove_copies (m : mem) (dst src n : Z) :
  0 ≤ n → mapped m dst n → mapped m src n → mem_ok m →
  returns (memmove dst src n)
    (λ r m', r = dst ∧ read m' dst (Z.to_nat n) = read m src (Z.to_nat n) ∧
             ∀ x, ¬ (dst ≤ x < dst + n) → m' !! x = m !! x) m.
Proof.
  intros Hn Hd Hs Hok. apply memmove_spec; try done.
  pose proof (read_length m src (Z.to_nat n)) as Hl. split_and!; [done| |].
  - pose proof (read_write_eq m dst (read m src (Z.to_nat n))) as Hr. by rewrite Hl in Hr.
  - intros x Hx. apply lookup_write_ne. rewrite Hl. lia.
Qed.

Lemma memmove_copies_witness :
  let m := mem_of 100 [1; 2; 3; 4; 5; 6; 7; 8] in
  returns (memmove 102 100 5)
    (λ r m', r = 102 ∧ read m' 102 5 = [1; 2; 3; 4; 5] ∧
             ∀ x, ¬ (102 ≤ x < 102 + 5) → m' !! x = m !! x) m.
Proof.
  intros m. apply (memmove_copies m 102 100 5); [lia| | |].
  - by apply mappedb_ok.
  - by apply mappedb_ok.
  - by apply mem_okb_ok.
Defined.

(** [strncmp] looks only at bytes up to the first difference, the first NUL
    or the [n]-th byte, and returns zero exactly when the two buffers hold the
    same string cut to [n] characters. *)
Theorem strncmp_equal (m : mem) (p q : Z) (n : nat) :
  comparable m p q n → mem_ok m →
  returns (strncmp p q (Z.of_nat n))
    (λ r m', m' = m ∧ (r = 0 ↔ cstr (read m p n) = cstr (read m q n))) m.
Proof.
  intros Hc Hok. unfold strncmp. rewrite Nat2Z.id. apply strncmp_loop_spec; [done|].
  split; [done|]. rewrite strncmp_bytes_eq by by apply read_bytes.
  by rewrite !take_ge by by rewrite read_length.
Qed.

Lemma strncmp_equal_witness :
  let m := mem_of 100 [114; 111; 111; 116; 0] ∪ mem_of 200 [114; 111; 111; 116; 50; 0] in
  returns (strncmp 100 200 (Z.of_nat 4))
    (λ r m', m' = m ∧ (r = 0 ↔ cstr (read m 100 4) = cstr (read m 200 4))) m.
Proof.
  intros m. apply (strncmp_equal m 100 200 4); [|by apply mem_okb_ok].
  intros i Hi _.
  split; [apply (mappedb_ok m 100 4)|apply (mappedb_ok m 200 4)]; (reflexivity || lia).
Defined.

(** [safestrcpy] leaves the longest prefix of the source that fits in the
    [n]-byte buffer together with its NUL, always terminates it, and writes
    nothing outside the buffer. *)
Theorem safestrcpy_terminates (m : mem) (s t : Z) (n : nat) :
  (0 < n)%nat → s + Z.of_nat n ≤ t ∨ t + Z.of_nat n ≤ s →
  mapped m s (Z.of_nat n) → mapped m t (Z.of_nat n - 1) → mem_ok m →
  returns (safestrcpy s t (Z.of_nat n))
    (λ r m', r = s ∧ cstr (read m' s n) = cstr (read m t (n - 1)) ∧
             0 ∈ read m' s n ∧
             ∀ x, ¬ (s ≤ x < s + Z.of_nat n) → m' !! x = m !! x) m.
Proof.
  intros Hn Hd Hs Ht Hok. apply safestrcpy_spec; try done.
  set (bs := safestrcpy_bytes n (read m t (n - 1))).
  assert (length bs ≤ n)%nat as Hl by (apply safestrcpy_bytes_length; rewrite ?read_length; lia).
  pose proof (read_write_prefix m s bs n Hl) as [tl Htl].
  split_and!; [done|..].
  - rewrite Htl. unfold bs, safestrcpy_bytes. rewrite take_ge by (rewrite read_length; lia).
    rewrite <- !app_assoc. simpl. by rewrite cstr_app_nul.
  - rewrite Htl. unfold bs, safestrcpy_bytes. set_solver.
  - intros x Hx. apply lookup_write_ne. lia.
Qed.

Lemma safestrcpy_terminates_witness :
  let m := mem_of 100 (replicate 4 255) ∪ mem_of 200 [97; 98; 99; 100; 101; 0] in
  returns (safestrcpy 100 200 (Z.of_nat 4))
    (λ r m', r = 100 ∧ cstr (read m' 100 4) = [97; 98; 99] ∧
             0 ∈ read m' 100 4 ∧
             ∀ x, ¬ (100 ≤ x < 100 + Z.of_nat 4) → m' !! x = m !! x) m.
Proof.
  intros m. apply (safestrcpy_terminates m 100 200 4); [lia|lia| | |].
  - by apply mappedb_ok.
  - by apply mappedb_ok.
  - by apply mem_okb_ok.
Defined.
