(* ===== verification/Kalloc.v ===== *)
(** The physical page allocator (kernel/kalloc.c).

    The free pages form a singly linked list through their own first words, in
    the byte memory of [Mem]; [freelist_ok] says which pages are free. *)

From S2P Require Import Prelude Mem CString Riscv.
Local Open Scope Z_scope.

(** RAM, [kmem.freelist] and the locks this CPU holds. *)
Record kmem := Kmem {
  ram : mem;
  freelist : Z;
  kmem_held : gset Z;
}.
Definition set_ram (m : mem) (s : kmem) : kmem := Kmem m (freelist s) (kmem_held s).
Definition set_freelist (r : Z) (s : kmem) : kmem := Kmem (ram s) r (kmem_held s).
Definition set_kmem_held (h : gset Z) (s : kmem) : kmem := Kmem (ram s) (freelist s) h.

#[export] Program Instance kmem_locks : HasLocks kmem :=
  {| held := kmem_held; set_held := set_kmem_held |}.
Next Obligation. done. Qed.
Next Obligation. by intros []. Qed.
Next Obligation. done. Qed.

(** Running a memory routine on RAM. *)
Definition on_ram {A} (m : M mem A) : M kmem A := zoom ram set_ram m.

(** [&kmem.lock]. *)
Definition kmem_lock : Z := 1.

(** [end] is the first address after the kernel, which the linker defines. *)
Section kalloc.
Context (end_ : Z).

Definition kfree (pa : Z) : M kmem unit :=
  if negb (pa `mod` PGSIZE =? 0) || (pa <? end_) || (PHYSTOP <=? pa)
  then panic "kfree" else
  let! _ := on_ram (memset pa 1 PGSIZE) in
  let r := pa in
  acquire kmem_lock;;;
  let! fl := gets freelist in
  on_ram (store64 r fl);;;
  modify (set_freelist r);;;
  release kmem_lock.

Definition kalloc : M kmem Z :=
  acquire kmem_lock;;;
  let! r := gets freelist in
  when (negb (r =? 0)) (
    let! nx := on_ram (load64 r) in
    modify (set_freelist nx));;;
  release kmem_lock;;;
  (if negb (r =? 0) then let! _ := on_ram (memset r 5 PGSIZE) in ret tt else ret tt);;;
  ret r.

Fixpoint freerange_loop (fuel : nat) (p pa_end : Z) : M kmem unit :=
  match fuel with
  | O => out_of_fuel
  | S fuel =>
      if p + PGSIZE <=? pa_end then
        kfree p;;; freerange_loop fuel (p + PGSIZE) pa_end
      else ret tt
  end.
Definition freerange (pa_start pa_end : Z) : M kmem unit :=
  freerange_loop (S (Z.to_nat ((pa_end - pa_start) `div` PGSIZE)))
    (PGROUNDUP pa_start) pa_end.

Definition kinit : M kmem unit := freerange end_ PHYSTOP.
End kalloc.

(** * The free list *)

(** The free list starts at [r] and links the pages [ps]. *)
Fixpoint linked (m : mem) (r : Z) (ps : list Z) : Prop :=
  match ps with
  | [] => r = 0
  | p :: ps => r = p ∧ linked m (get64 m p) ps
  end.

(** A page the allocator manages. *)
Definition page_ok (end_ : Z) (m : mem) (p : Z) : Prop :=
  p `mod` 4096 = 0 ∧ end_ ≤ p < PHYSTOP ∧ mapped m p 4096.

Record freelist_ok (end_ : Z) (s : kmem) (ps : list Z) : Prop := {
  fl_linked : linked (ram s) (freelist s) ps;
  fl_nodup : NoDup ps;
  fl_pages : Forall (page_ok end_ (ram s)) ps;
  fl_mem : mem_ok (ram s);
  fl_lock : kmem_lock ∉ kmem_held s;
}.

(** Nothing but the bytes of the page [p] changed. *)
Definition only_page (p : Z) (m m' : mem) : Prop :=
  (∀ x, ¬ (p ≤ x < p + 4096) → m' !! x = m !! x) ∧
  (∀ x, is_Some (m !! x) → is_Some (m' !! x)).

Section facts.
Context (end_ : Z).
Implicit Types (m : mem) (p q r : Z) (ps : list Z) (s : kmem).

Lemma page_disjoint p q :
  p `mod` 4096 = 0 → q `mod` 4096 = 0 → p ≠ q → p + 4096 ≤ q ∨ q + 4096 ≤ p.
Proof.
  intros Hp Hq Hne. pose proof (Z.div_mod p 4096). pose proof (Z.div_mod q 4096). lia.
Qed.

Lemma page_ok_mono m m' p :
  page_ok end_ m p → (∀ x, is_Some (m !! x) → is_Some (m' !! x)) → page_ok end_ m' p.
Proof. intros (? & ? & Hm) Hs. split; [done|]. split; [done|]. intros x Hx. by apply Hs, Hm. Qed.

Lemma linked_ext m m' r ps :
  (∀ p, p ∈ ps → get64 m' p = get64 m p) → linked m r ps → linked m' r ps.
Proof.
  revert r. induction ps as [|p ps IH]; intros r He; simpl; [done|].
  intros [-> Hl]. split; [done|]. rewrite He by set_solver. apply IH; [|done].
  intros q Hq. apply He. set_solver.
Qed.

Lemma only_page_refl p m : only_page p m m.
Proof. by split. Qed.

Lemma only_page_trans p m1 m2 m3 :
  only_page p m1 m2 → only_page p m2 m3 → only_page p m1 m3.
Proof.
  intros [F1 S1] [F2 S2]. split; [|by auto]. intros x Hx. by rewrite F2, F1.
Qed.

Lemma only_page_write p m a bs :
  p ≤ a → a + Z.of_nat (length bs) ≤ p + 4096 → only_page p m (write a bs m).
Proof.
  intros. split; [|intros; by apply is_Some_write].
  intros x Hx. apply lookup_write_ne. lia.
Qed.

Lemma only_page_get64 p m m' q :
  only_page p m m' → p + 4096 ≤ q ∨ q + 8 ≤ p → get64 m' q = get64 m q.
Proof.
  intros [F _] Hd. unfold get64. f_equal. apply read_ext. intros x Hx. apply F. lia.
Qed.

Lemma wp_on_ram {A} E (f : M mem A) (Q : A → kmem → Prop) s :
  returns f (λ a m', Q a (set_ram m' s)) (ram s) → wp E (on_ram f) Q s.
Proof.
  rewrite wp_no_sleep. intros (a & m' & Hf & HQ).
  unfold wp, on_ram, zoom. by rewrite Hf.
Qed.

Context (Hend : 0 < end_).

Lemma page_nonzero m p : page_ok end_ m p → p ≠ 0.
Proof. intros (_ & ? & _). lia. Qed.

(** [kfree] of a page that is not free puts it at the front of the list, its
    bytes overwritten. *)
Lemma kfree_spec E s ps p Q :
  freelist_ok end_ s ps → page_ok end_ (ram s) p → p ∉ ps →
  (∀ s', freelist_ok end_ s' (p :: ps) → only_page p (ram s) (ram s') →
         kmem_held s' = kmem_held s → Q tt s') →
  wp E (kfree end_ p) Q s.
Proof.
  intros [Hl Hnd Hps Hok Hlk] (Ha & Hb & Hm) Hp HQ. unfold kfree.
  rewrite (proj2 (Z.eqb_eq (p `mod` PGSIZE) 0)) by done.
  rewrite (proj2 (Z.ltb_ge p end_)), (proj2 (Z.leb_gt PHYSTOP p)) by lia. simpl.
  apply wp_bind, wp_on_ram, memset_spec; [unfold PGSIZE; lia|done|].
  set (m1 := write p _ (ram s)).
  assert (mapped m1 p 4096) as Hm1 by by apply mapped_write.
  assert (only_page p (ram s) m1) as O1.
  { apply only_page_write; [lia|]. rewrite length_replicate. unfold PGSIZE. lia. }
  assert (mem_ok m1) as Hok1.
  { apply mem_ok_write; [done|]. apply Forall_replicate, u8_byte. }
  apply wp_bind, wp_acquire; [done|]. apply wp_bind, wp_gets. simpl.
  apply wp_bind, wp_on_ram, wp_store64; [eapply mapped_mono; [done|lia..]|].
  apply wp_bind, wp_modify. clearbody m1. apply wp_release; [apply lock_in|].
  cbn -[put64]. rewrite lock_released by done.
  set (m2 := put64 p (freelist s) m1).
  assert (only_page p (ram s) m2) as O2.
  { eapply only_page_trans; [done|]. apply only_page_write; [lia|].
    rewrite le_encode_length. lia. }
  assert (0 ≤ freelist s < 2 ^ 64) as Hfl.
  { destruct ps as [|q ps]; simpl in Hl; [lia|]. destruct Hl as [-> _].
    apply Forall_cons in Hps as [(_ & ? & _) _]. unfold PHYSTOP, KERNBASE in *. lia. }
  assert (get64 m2 p = freelist s) as Hg by by apply get64_put64_eq.
  assert (mem_ok m2) as Hok2 by by apply mem_ok_put64. clearbody m2.
  apply HQ; [|done|done].
  split; cbn.
  - split; [done|]. rewrite Hg. eapply linked_ext; [|done]. intros q Hq. apply (only_page_get64 p _ _ q); [done|].
    rewrite Forall_forall in Hps. destruct (Hps q Hq) as [Hqa _].
    destruct (page_disjoint p q); try lia; try done. by intros ->.
  - by apply NoDup_cons.
  - apply Forall_cons. split.
    + eapply page_ok_mono; [exact (conj Ha (conj Hb Hm))|]. apply O2.
    + eapply Forall_impl; [done|]. intros q Hq. eapply page_ok_mono; [done|]. apply O2.
  - done.
  - done.
Qed.

(** [kalloc] takes the first page off the list and fills it with junk. *)
Lemma kalloc_spec E s ps (Q : Z → kmem → Prop) :
  freelist_ok end_ s ps →
  (ps = [] → Q 0 s) →
  (∀ p ps' s', ps = p :: ps' → freelist_ok end_ s' ps' → page_ok end_ (ram s') p →
     only_page p (ram s) (ram s') → read (ram s') p (Z.to_nat PGSIZE) = replicate (Z.to_nat PGSIZE) 5 →
     kmem_held s' = kmem_held s → Q p s') →
  wp E kalloc Q s.
Proof.
  intros [Hl Hnd Hps Hok Hlk] H0 H1. unfold kalloc.
  apply wp_bind, wp_acquire; [done|]. apply wp_bind, wp_gets. simpl.
  destruct ps as [|p ps]; simpl in Hl.
  { rewrite Hl. simpl. apply wp_bind, wp_ret, wp_bind, wp_release; [apply lock_in|].
    apply wp_bind, wp_ret, wp_ret. cbn. rewrite lock_released by done.
    destruct s. by apply H0. }
  destruct Hl as [-> Hl]. apply NoDup_cons in Hnd as [Hp Hnd].
  apply Forall_cons in Hps as [Hpp Hps]. pose proof Hpp as (Ha & Hb & Hm).
  rewrite (proj2 (Z.eqb_neq p 0)) by lia. simpl.
  apply wp_bind, wp_bind, wp_on_ram, wp_load64; [eapply mapped_mono; [done|lia..]|].
  apply wp_modify, wp_bind, wp_release; [apply lock_in|].
  cbn. rewrite lock_released by done.
  apply wp_bind, wp_bind, wp_on_ram, memset_spec; [unfold PGSIZE; lia|done|].
  apply wp_ret, wp_ret. cbn -[write replicate]. set (m1 := write p _ (ram s)).
  assert (only_page p (ram s) m1) as O1.
  { apply only_page_write; [lia|]. rewrite length_replicate. unfold PGSIZE. lia. }
  pose proof (read_write_replicate (ram s) p (Z.to_nat PGSIZE) (u8 5)) as Hr.
  fold m1 in Hr.
  assert (mem_ok m1) as Hok1.
  { apply mem_ok_write; [done|]. apply Forall_replicate, u8_byte. }
  clearbody m1.
  apply (H1 p ps); [done| |by eapply page_ok_mono; [|apply O1]|done|done|done].
  - split; cbn; [|done| |done|done].
    + eapply linked_ext; [|done]. intros q Hq. apply (only_page_get64 p _ _ q); [done|].
      rewrite Forall_forall in Hps. destruct (Hps q Hq) as [Hqa _].
      destruct (page_disjoint p q) as [Hpq|Hpq]; [done|done|congruence|lia|lia].
    + eapply Forall_impl; [done|]. intros q Hq. eapply page_ok_mono; [done|]. apply O1.
Qed.

(** ** Initialisation *)

Definition pages (a : Z) (k : nat) : list Z := (λ i, a + Z.of_nat i * 4096) <$> seq 0 k.

Lemma pages_S a k : pages a (S k) = a :: pages (a + 4096) k.
Proof.
  unfold pages. rewrite <- cons_seq, fmap_cons, <- fmap_S_seq, <- list_fmap_compose.
  f_equal; [lia|]. apply list_fmap_ext. intros i j _. simpl. lia.
Qed.

Lemma freerange_loop_spec E s ps p pa_end k fuel :
  freelist_ok end_ s ps → p `mod` 4096 = 0 → end_ ≤ p → pa_end ≤ PHYSTOP →
  p + Z.of_nat k * 4096 ≤ pa_end < p + (Z.of_nat k + 1) * 4096 →
  mapped (ram s) p (Z.of_nat k * 4096) → Forall (λ q, q < p) ps → (k < fuel)%nat →
  wp E (freerange_loop end_ fuel p pa_end)
    (λ _ s', freelist_ok end_ s' (reverse (pages p k) ++ ps)) s.
Proof.
  revert s ps p fuel. induction k as [|k IH]; intros s ps p [|fuel] Hok Ha He Hp Hk Hm Hq Hf;
    try lia; cbn [freerange_loop]; change PGSIZE with 4096.
  - rewrite (proj2 (Z.leb_gt _ _)) by lia. by apply wp_ret.
  - rewrite (proj2 (Z.leb_le _ _)) by lia. apply wp_bind. eapply kfree_spec; [done| | |].
    + split; [done|]. split; [lia|]. eapply mapped_mono; [done|lia..].
    + intros Hin. rewrite Forall_forall in Hq. specialize (Hq _ Hin). lia.
    + intros s' Hok' [F Sm] _. rewrite pages_S, reverse_cons, <- app_assoc.
      apply IH; try lia; try done.
      * rewrite <- Zplus_mod_idemp_r. change (4096 `mod` 4096) with 0. by rewrite Z.add_0_r.
      * intros x Hx. apply Sm, Hm. lia.
      * constructor; [lia|]. eapply Forall_impl; [done|]. simpl. lia.
Qed.

(** ** Exclusive ownership *)

(** A client of the allocator: it allocates pages, and frees pages it owns. *)
Inductive kop := KAlloc | KFree (p : Z).

Fixpoint krun (ops : list kop) (own : list Z) : M kmem (list Z) :=
  match ops with
  | [] => ret own
  | KAlloc :: ops =>
      let! p := kalloc in
      if p =? 0 then krun ops own else krun ops (p :: own)
  | KFree p :: ops =>
      if decide (p ∈ own)
      then kfree end_ p;;; krun ops (filter (λ q, q ≠ p) own)
      else krun ops own
  end.

Lemma filter_ne_perm own p :
  NoDup own → p ∈ own → own ≡ₚ p :: filter (λ q, q ≠ p) own.
Proof.
  induction own as [|q own IH]; [set_solver|]. intros [Hq Hnd]%NoDup_cons Hp.
  destruct (decide (q = p)) as [->|Hne].
  - rewrite filter_cons_False by tauto. f_equiv.
    assert (∀ xs, p ∉ xs → filter (λ q, q ≠ p) xs = xs) as ->; [|done|done].
    intros xs Hx. induction xs as [|x xs IHx]; [done|].
    rewrite filter_cons_True by set_solver. rewrite IHx; set_solver.
  - rewrite filter_cons_True by done. rewrite (IH Hnd) at 1 by set_solver. apply perm_swap.
Qed.

Lemma krun_spec ops own s ps :
  freelist_ok end_ s ps → NoDup (own ++ ps) → Forall (page_ok end_ (ram s)) own →
  returns (krun ops own)
    (λ own' s', ∃ ps', freelist_ok end_ s' ps' ∧ NoDup (own' ++ ps') ∧
       own' ++ ps' ≡ₚ own ++ ps ∧
       ∀ p x, p ∈ own → KFree p ∉ ops → p ≤ x < p + 4096 → ram s' !! x = ram s !! x) s.
Proof.
  revert own s ps. induction ops as [|[|p] ops IH]; intros own s ps Hok Hnd How;
    cbn [krun].
  - apply wp_ret. by exists ps.
  - apply wp_bind. eapply kalloc_spec; [done|intros ->|]; simpl.
    { eapply wp_mono; [by apply (IH own s [])|].
      intros own' s' (ps' & ? & ? & ? & Hc). exists ps'. split_and!; [done..|].
      intros p x Hp Hf. apply Hc; [done|]. set_solver. }
    intros p ps' s1 -> Hok1 Hp O1 _ _. pose proof (page_nonzero _ _ Hp).
    rewrite (proj2 (Z.eqb_neq p 0)) by done.
    pose proof Hnd as (Hpn & _)%NoDup_middle.
    eapply wp_mono; [apply (IH (p :: own) s1 ps' Hok1)|].
    + apply NoDup_middle in Hnd as [Hn Hnd]. simpl. by apply NoDup_cons.
    + apply Forall_cons. split; [done|]. eapply Forall_impl; [done|].
      intros q Hq. eapply page_ok_mono; [done|]. apply O1.
    + intros own' s2 (ps2 & ? & ? & Hperm & Hc). exists ps2. split_and!; [done..| |].
      { rewrite Hperm. by rewrite <- Permutation_middle. }
      intros q x Hq Hf Hx. rewrite (Hc q) by set_solver. apply O1. intros Hxp.
      rewrite Forall_forall in How. destruct (How q Hq) as [Hqa _].
      destruct (page_disjoint p q); [apply Hp|done| |lia..]. intros ->. set_solver.
  - destruct (decide (p ∈ own)) as [Hin|Hin].
    2:{ eapply wp_mono; [by apply (IH own s ps)|].
        intros own' s' (ps' & ? & ? & ? & Hc). exists ps'. split_and!; [done..|].
        intros q x Hq Hf. apply Hc; [done|]. set_solver. }
    apply NoDup_app in Hnd as (Hndo & Hdis & Hndp).
    pose proof (filter_ne_perm own p Hndo Hin) as Hperm.
    rewrite Forall_forall in How.
    apply wp_bind. eapply kfree_spec; [done|by apply How|by apply Hdis|].
    intros s1 Hok1 O1 _. eapply wp_mono; [apply (IH _ s1 (p :: ps) Hok1)|].
    + rewrite <- Permutation_middle. change (NoDup ((p :: filter (λ q, q ≠ p) own) ++ ps)).
      rewrite <- Hperm. by apply NoDup_app.
    + apply Forall_forall. intros q [_ Hq]%list_elem_of_filter.
      eapply page_ok_mono; [by apply How|]. apply O1.
    + intros own' s2 (ps2 & ? & ? & Hp2 & Hc). exists ps2. split_and!; [done..| |].
      { rewrite Hp2, <- Permutation_middle. symmetry.
        exact (Permutation_app_tail ps Hperm). }
      intros q x Hq Hf Hx. assert (q ≠ p) by (intros ->; set_solver).
      rewrite (Hc q x); [|by apply list_elem_of_filter|set_solver|done].
      apply O1. intros Hxp. destruct (page_disjoint p q); [apply How; done|apply How; done|done|lia..].
Qed.
End facts.

(** * The contract of kalloc.c *)

(** C25: A sequence of allocations and frees of owned pages always succeeds, no
    page is ever both owned and free nor owned twice, no page is lost, and the
    allocator does not touch a page while it is owned. *)
Theorem kalloc_exclusive (end_ : Z) (ops : list kop) (own ps : list Z) (s : kmem) :
  0 < end_ → freelist_ok end_ s ps → NoDup (own ++ ps) →
  Forall (page_ok end_ (ram s)) own →
  returns (krun end_ ops own)
    (λ own' s', ∃ ps', freelist_ok end_ s' ps' ∧ NoDup (own' ++ ps') ∧
       own' ++ ps' ≡ₚ own ++ ps ∧
       ∀ p x, p ∈ own → KFree p ∉ ops → p ≤ x < p + 4096 → ram s' !! x = ram s !! x) s.
Proof. intros. by apply krun_spec. Qed.

(** RAM that ends with the pages from [a] on, and nothing allocated yet. *)
Definition small_ram (a : Z) : mem := write a (replicate (Z.to_nat (PHYSTOP - a)) 0) ∅.
Definition boot_kmem (a : Z) : kmem := Kmem (small_ram a) 0 ∅.

Lemma small_ram_ok a : mem_ok (small_ram a).
Proof.
  apply mem_ok_write; [by intros ??|]. apply Forall_replicate. by unfold is_byte.
Qed.

Lemma small_ram_lookup a x : a ≤ x < PHYSTOP → small_ram a !! x = Some 0.
Proof.
  intros Hx. unfold small_ram. rewrite lookup_write, length_replicate, decide_True by lia.
  apply lookup_replicate_2. lia.
Qed.

Lemma boot_ok a : 0 < a ≤ PHYSTOP → freelist_ok a (boot_kmem a) [].
Proof.
  intros Ha. split; cbn; [done|constructor|constructor|apply small_ram_ok|set_solver].
Qed.

Lemma boot_page_ok a p :
  0 < a ≤ p → p + 4096 ≤ PHYSTOP → p `mod` 4096 = 0 → page_ok a (small_ram a) p.
Proof.
  intros ? ? ?. split; [done|]. split; [lia|]. intros x Hx.
  exists 0. apply small_ram_lookup. lia.
Qed.

#[global] Opaque small_ram.

Lemma kalloc_exclusive_witness :
  let a := PHYSTOP - 2 * 4096 in
  returns (krun a [KFree a; KAlloc; KAlloc; KAlloc] [a; a + 4096])
    (λ own' s', ∃ ps', freelist_ok a s' ps' ∧ NoDup (own' ++ ps') ∧
       own' ++ ps' ≡ₚ [a; a + 4096] ++ [] ∧
       ∀ p x, p ∈ [a; a + 4096] → KFree p ∉ [KFree a; KAlloc; KAlloc; KAlloc] →
         p ≤ x < p + 4096 → ram s' !! x = ram (boot_kmem a) !! x) (boot_kmem a).
Proof.
  intros a. apply (kalloc_exclusive a _ _ []); [reflexivity|by apply boot_ok| |].
  - by_compute.
  - repeat constructor; by apply boot_page_ok.
Defined.

(** [kinit] makes every whole page between the end of the kernel and
    [PHYSTOP] allocatable. *)
Theorem kinit_frees_all (end_ : Z) (s : kmem) :
  0 < end_ → end_ < PHYSTOP → freelist_ok end_ s [] →
  mapped (ram s) end_ (PHYSTOP - end_) →
  returns (kinit end_)
    (λ _ s', ∃ ps, freelist_ok end_ s' ps ∧
       ∀ p, p ∈ ps ↔ p `mod` 4096 = 0 ∧ end_ ≤ p < PHYSTOP) s.
Proof.
  intros He Hs Hok Hm. unfold kinit, freerange.
  set (a := PGROUNDUP end_).
  assert (end_ ≤ a < end_ + 4096) as Ha
    by (apply PGROUNDUP_bounds; unfold PHYSTOP, KERNBASE in *; lia).
  assert (a `mod` 4096 = 0) as Ham
    by (apply PGROUNDUP_aligned; unfold PHYSTOP, KERNBASE in *; lia).
  assert (PHYSTOP `mod` 4096 = 0) as HP by reflexivity.
  pose proof (Z.div_mod a 4096). pose proof (Z.div_mod PHYSTOP 4096).
  set (k := Z.to_nat ((PHYSTOP - a) `div` 4096)).
  assert (PHYSTOP = a + Z.of_nat k * 4096) as Hk.
  { unfold k. rewrite Z2Nat.id by (apply Z.div_pos; lia).
    replace (PHYSTOP - a) with ((PHYSTOP `div` 4096 - a `div` 4096) * 4096) by lia.
    rewrite Z.div_mul by lia. lia. }
  eapply wp_mono; [apply (freerange_loop_spec end_ He _ s [] a PHYSTOP k)|]; try done; try lia.
  - eapply mapped_mono; [done|lia..].
  - change PGSIZE with 4096. apply Nat.lt_succ_r, Z2Nat.inj_le; try (apply Z.div_pos; lia).
    apply Z.div_le_mono; lia.
  - intros u s' Hok'. eexists. split; [exact Hok'|]. intros p.
    rewrite app_nil_r, elem_of_reverse. unfold pages. rewrite list_elem_of_fmap. split.
    + intros (i & -> & Hi%elem_of_seq). rewrite Z.mod_add by lia. split; [done|]. lia.
    + intros [Hp ?]. exists (Z.to_nat ((p - a) `div` 4096)).
      pose proof (Z.div_mod p 4096).
      replace (p - a) with ((p `div` 4096 - a `div` 4096) * 4096) by lia.
      rewrite Z.div_mul by lia. split; [lia|]. apply elem_of_seq. lia.
Qed.

Lemma kinit_frees_all_witness :
  let a := PHYSTOP - 2 * 4096 - 100 in
  returns (kinit a)
    (λ _ s', ∃ ps, freelist_ok a s' ps ∧
       ∀ p, p ∈ ps ↔ p `mod` 4096 = 0 ∧ a ≤ p < PHYSTOP) (boot_kmem a).
Proof.
  intros a. apply kinit_frees_all; [reflexivity|reflexivity|by apply boot_ok|].
  intros x Hx. exists 0. cbn. apply small_ram_lookup. lia.
Defined.
