(* ===== verification/Vm.v ===== *)
(** Page tables and the address spaces of processes (kernel/vm.c): every
    routine that reads or writes a page table, over RAM and the page allocator
    of [Kalloc].  The theorems are in [VmSpecs] and [VmTheorems]. *)

From S2P Require Import Prelude Mem CString Riscv Kalloc.
Local Open Scope Z_scope.

Definition valid (pte : Z) : bool := negb (Z.land pte PTE_V =? 0).
Definition user_ok (pte : Z) : bool := negb (Z.land pte PTE_U =? 0).
(** [&pagetable[i]]. *)
Definition pte_slot (pagetable i : Z) : Z := pagetable + 8 * i.

Section vm.
Context (end_ : Z).

(** The loop of [walk] from [level] down; [&pagetable[PX(0, va)]] at the end. *)
Fixpoint walk_loop (level : nat) (pagetable va : Z) (alloc : bool) : M kmem Z :=
  match level with
  | O => ret (pte_slot pagetable (PX 0 va))
  | S l =>
      let pte := pte_slot pagetable (PX (Z.of_nat level) va) in
      let! v := on_ram (load64 pte) in
      if valid v then walk_loop l (PTE2PA v) va alloc else
      if negb alloc then ret 0 else
      let! pagetable := kalloc in
      if pagetable =? 0 then ret 0 else
      let! _ := on_ram (memset pagetable 0 PGSIZE) in
      on_ram (store64 pte (Z.lor (PA2PTE pagetable) PTE_V));;;
      walk_loop l pagetable va alloc
  end.
Definition walk (pagetable va : Z) (alloc : bool) : M kmem Z :=
  if MAXVA <=? va then panic "walk" else walk_loop 2 pagetable va alloc.

Definition walkaddr (pagetable va : Z) : M kmem Z :=
  if MAXVA <=? va then ret 0 else
  let! pte := walk pagetable va false in
  if pte =? 0 then ret 0 else
  let! v := on_ram (load64 pte) in
  if negb (valid v) then ret 0 else
  if negb (user_ok v) then ret 0 else
  ret (PTE2PA v).

Fixpoint mappages_loop (fuel : nat) (pagetable a last pa perm : Z) : M kmem Z :=
  match fuel with
  | O => out_of_fuel
  | S fuel =>
      let! pte := walk pagetable a true in
      if pte =? 0 then ret (-1) else
      let! v := on_ram (load64 pte) in
      if valid v then panic "mappages: remap" else
      on_ram (store64 pte (Z.lor (Z.lor (PA2PTE pa) perm) PTE_V));;;
      if a =? last then ret 0 else
      mappages_loop fuel pagetable (u64 (a + PGSIZE)) last (u64 (pa + PGSIZE)) perm
  end.
Definition mappages (pagetable va size pa perm : Z) : M kmem Z :=
  if size =? 0 then panic "mappages: size" else
  let a := PGROUNDDOWN va in
  let last := PGROUNDDOWN (u64 (va + size - 1)) in
  mappages_loop (S (Z.to_nat ((last - a) `div` PGSIZE))) pagetable a last pa perm.

Definition kvmmap (kpgtbl va pa sz perm : Z) : M kmem unit :=
  let! r := mappages kpgtbl va sz pa perm in
  if negb (r =? 0) then panic "kvmmap" else ret tt.

Fixpoint uvmunmap_loop (fuel : nat) (pagetable a limit : Z) (do_free : bool) : M kmem unit :=
  match fuel with
  | O => out_of_fuel
  | S fuel =>
      if negb (a <? limit) then ret tt else
      let! pte := walk pagetable a false in
      if pte =? 0 then panic "uvmunmap: walk" else
      let! v := on_ram (load64 pte) in
      if negb (valid v) then panic "uvmunmap: not mapped" else
      if PTE_FLAGS v =? PTE_V then panic "uvmunmap: not a leaf" else
      when do_free (kfree end_ (PTE2PA v));;;
      on_ram (store64 pte 0);;;
      uvmunmap_loop fuel pagetable (u64 (a + PGSIZE)) limit do_free
  end.
Definition uvmunmap (pagetable va npages : Z) (do_free : bool) : M kmem unit :=
  if negb (va `mod` PGSIZE =? 0) then panic "uvmunmap: not aligned" else
  uvmunmap_loop (S (Z.to_nat npages)) pagetable va (u64 (va + npages * PGSIZE)) do_free.

Definition uvmcreate : M kmem Z :=
  let! pagetable := kalloc in
  if pagetable =? 0 then ret 0 else
  let! _ := on_ram (memset pagetable 0 PGSIZE) in
  ret pagetable.

Definition uvmfirst (pagetable src sz : Z) : M kmem unit :=
  if PGSIZE <=? sz then panic "uvmfirst: more than a page" else
  let! mem := kalloc in
  let! _ := on_ram (memset mem 0 PGSIZE) in
  let! _ := mappages pagetable 0 PGSIZE mem
              (Z.lor (Z.lor (Z.lor PTE_W PTE_R) PTE_X) PTE_U) in
  let! _ := on_ram (memmove mem src sz) in
  ret tt.

Definition uvmdealloc (pagetable oldsz newsz : Z) : M kmem Z :=
  if oldsz <=? newsz then ret oldsz else
  when (PGROUNDUP newsz <? PGROUNDUP oldsz) (
    let npages := s32 ((PGROUNDUP oldsz - PGROUNDUP newsz) `div` PGSIZE) in
    uvmunmap pagetable (PGROUNDUP newsz) npages true);;;
  ret newsz.

Fixpoint uvmalloc_loop (fuel : nat) (pagetable a oldsz newsz xperm : Z) : M kmem Z :=
  match fuel with
  | O => out_of_fuel
  | S fuel =>
      if negb (a <? newsz) then ret newsz else
      let! mem := kalloc in
      if mem =? 0 then
        let! _ := uvmdealloc pagetable a oldsz in ret 0
      else
        let! _ := on_ram (memset mem 0 PGSIZE) in
        let! r := mappages pagetable a PGSIZE mem (Z.lor (Z.lor PTE_R PTE_U) xperm) in
        if negb (r =? 0) then
          kfree end_ mem;;;
          let! _ := uvmdealloc pagetable a oldsz in ret 0
        else uvmalloc_loop fuel pagetable (u64 (a + PGSIZE)) oldsz newsz xperm
  end.
Definition uvmalloc (pagetable oldsz newsz xperm : Z) : M kmem Z :=
  if newsz <? oldsz then ret oldsz else
  let oldsz := PGROUNDUP oldsz in
  uvmalloc_loop (S (S (Z.to_nat ((newsz - oldsz) `div` PGSIZE))))
    pagetable oldsz oldsz newsz xperm.

(** [depth] bounds the recursion; a page table has three levels. *)
Fixpoint freewalk (depth : nat) (pagetable : Z) : M kmem unit :=
  match depth with
  | O => out_of_fuel
  | S depth =>
      (fix loop (n : nat) (i : Z) : M kmem unit :=
        match n with
        | O => ret tt
        | S n =>
            let! pte := on_ram (load64 (pte_slot pagetable i)) in
            (if valid pte && (Z.land pte (Z.lor (Z.lor PTE_R PTE_W) PTE_X) =? 0) then
               freewalk depth (PTE2PA pte);;;
               on_ram (store64 (pte_slot pagetable i) 0)
             else if valid pte then panic "freewalk: leaf" else ret tt);;;
            loop n (i + 1)
        end) 512%nat 0;;;
      kfree end_ pagetable
  end.

Definition uvmfree (pagetable sz : Z) : M kmem unit :=
  when (0 <? sz) (uvmunmap pagetable 0 (PGROUNDUP sz `div` PGSIZE) true);;;
  freewalk 3 pagetable.

(** The copying loop, and what the [err] label does at page [i]. *)
Fixpoint uvmcopy_loop (fuel : nat) (old new i sz : Z) : M kmem Z :=
  match fuel with
  | O => out_of_fuel
  | S fuel =>
      if negb (i <? sz) then ret 0 else
      let err := uvmunmap new 0 (i `div` PGSIZE) true;;; ret (-1) in
      let! pte := walk old i false in
      if pte =? 0 then panic "uvmcopy: pte should exist" else
      let! v := on_ram (load64 pte) in
      if negb (valid v) then panic "uvmcopy: page not present" else
      let pa := PTE2PA v in
      let flags := PTE_FLAGS v in
      let! mem := kalloc in
      if mem =? 0 then err else
      let! _ := on_ram (memmove mem pa PGSIZE) in
      let! r := mappages new i PGSIZE mem flags in
      if negb (r =? 0) then kfree end_ mem;;; err
      else uvmcopy_loop fuel old new (u64 (i + PGSIZE)) sz
  end.
Definition uvmcopy (old new sz : Z) : M kmem Z :=
  uvmcopy_loop (S (S (Z.to_nat (sz `div` PGSIZE)))) old new 0 sz.

Definition uvmclear (pagetable va : Z) : M kmem unit :=
  let! pte := walk pagetable va false in
  if pte =? 0 then panic "uvmclear" else
  let! v := on_ram (load64 pte) in
  on_ram (store64 pte (Z.land v (Z.lnot PTE_U))).

Fixpoint copyout_loop (fuel : nat) (pagetable dstva src len : Z) : M kmem Z :=
  match fuel with
  | O => out_of_fuel
  | S fuel =>
      if negb (0 <? len) then ret 0 else
      let va0 := PGROUNDDOWN dstva in
      let! pa0 := walkaddr pagetable va0 in
      if pa0 =? 0 then ret (-1) else
      let n := PGSIZE - (dstva - va0) in
      let n := if len <? n then len else n in
      let! _ := on_ram (memmove (pa0 + (dstva - va0)) src n) in
      copyout_loop fuel pagetable (u64 (va0 + PGSIZE)) (src + n) (len - n)
  end.
Definition copyout (pagetable dstva src len : Z) : M kmem Z :=
  copyout_loop (S (Z.to_nat len)) pagetable dstva src len.

Fixpoint copyin_loop (fuel : nat) (pagetable dst srcva len : Z) : M kmem Z :=
  match fuel with
  | O => out_of_fuel
  | S fuel =>
      if negb (0 <? len) then ret 0 else
      let va0 := PGROUNDDOWN srcva in
      let! pa0 := walkaddr pagetable va0 in
      if pa0 =? 0 then ret (-1) else
      let n := PGSIZE - (srcva - va0) in
      let n := if len <? n then len else n in
      let! _ := on_ram (memmove dst (pa0 + (srcva - va0)) n) in
      copyin_loop fuel pagetable (dst + n) (u64 (va0 + PGSIZE)) (len - n)
  end.
Definition copyin (pagetable dst srcva len : Z) : M kmem Z :=
  copyin_loop (S (Z.to_nat len)) pagetable dst srcva len.

(** The inner loop of [copyinstr]: it copies up to [n] bytes from [p] and
    returns whether it met the NUL, with [dst] and [max] advanced. *)
Fixpoint copyinstr_page (n : nat) (p dst max : Z) : M kmem (bool * Z * Z) :=
  match n with
  | O => ret (false, dst, max)
  | S n =>
      let! c := on_ram (load8 p) in
      if c =? 0 then on_ram (store8 dst 0);;; ret (true, dst, max) else
      on_ram (store8 dst c);;;
      copyinstr_page n (p + 1) (dst + 1) (max - 1)
  end.
Fixpoint copyinstr_loop (fuel : nat) (pagetable dst srcva max : Z) : M kmem Z :=
  match fuel with
  | O => out_of_fuel
  | S fuel =>
      if negb (0 <? max) then ret (-1) else
      let va0 := PGROUNDDOWN srcva in
      let! pa0 := walkaddr pagetable va0 in
      if pa0 =? 0 then ret (-1) else
      let n := PGSIZE - (srcva - va0) in
      let n := if max <? n then max else n in
      let! r := copyinstr_page (Z.to_nat n) (pa0 + (srcva - va0)) dst max in
      let '(got_null, dst, max) := r in
      if got_null : bool then ret 0 else
      copyinstr_loop fuel pagetable dst (u64 (va0 + PGSIZE)) max
  end.
Definition copyinstr (pagetable dst srcva max : Z) : M kmem Z :=
  copyinstr_loop (S (Z.to_nat max)) pagetable dst srcva max.

(** ** The kernel page table

    [etext] and [trampoline] are linker symbols. *)

(** [proc_mapstacks] (kernel/proc.c): a page for each kernel stack, [p - proc]
    being [i]. *)
Fixpoint proc_mapstacks_loop (n : nat) (kpgtbl i : Z) : M kmem unit :=
  match n with
  | O => ret tt
  | S n =>
      let! pa := kalloc in
      if pa =? 0 then panic "kalloc" else
      kvmmap kpgtbl (KSTACK i) pa PGSIZE (Z.lor PTE_R PTE_W);;;
      proc_mapstacks_loop n kpgtbl (i + 1)
  end.
Definition proc_mapstacks (kpgtbl : Z) : M kmem unit :=
  proc_mapstacks_loop (Z.to_nat NPROC) kpgtbl 0.

Definition kvmmake (etext trampoline : Z) : M kmem Z :=
  let! kpgtbl := kalloc in
  let! _ := on_ram (memset kpgtbl 0 PGSIZE) in
  kvmmap kpgtbl UART0 UART0 PGSIZE (Z.lor PTE_R PTE_W);;;
  kvmmap kpgtbl VIRTIO0 VIRTIO0 PGSIZE (Z.lor PTE_R PTE_W);;;
  kvmmap kpgtbl PLIC PLIC 0x400000 (Z.lor PTE_R PTE_W);;;
  kvmmap kpgtbl KERNBASE KERNBASE (etext - KERNBASE) (Z.lor PTE_R PTE_X);;;
  kvmmap kpgtbl etext etext (PHYSTOP - etext) (Z.lor PTE_R PTE_W);;;
  kvmmap kpgtbl TRAMPOLINE trampoline PGSIZE (Z.lor PTE_R PTE_X);;;
  proc_mapstacks kpgtbl;;;
  ret kpgtbl.
End vm.
