(* ===== verification/VmSpecs.v ===== *)
(** The page-table invariant and what the routines of [Vm] do to it.

    A page table is described by the map [T] from (level, index prefix) to the
    page that holds that table; [pt_ok] ties the map to the bytes in RAM.  What
    the table maps is [leaf], the level-0 entry of each virtual page number. *)

From S2P Require Import Prelude Mem CString Riscv Kalloc Vm.
Local Open Scope Z_scope.

Abbreviation tables := (gmap (Z * Z) Z).

(** The page number of [va] at a level: which entry of a level-[l] table, and
    of which table, translates it. *)
Definition vpn (l va : Z) : Z := va `div` 2 ^ (12 + 9 * l).
Definition pages_of (T : tables) : gset Z := map_img T.

(** The level-0 entry of the virtual page [n]; 0 when there is no table. *)
Definition leaf (m : mem) (T : tables) (n : Z) : Z :=
  match T !! (0, n `div` 512) with
  | Some p => get64 m (pte_slot p (n `mod` 512))
  | None => 0
  end.

(** The page [p] is all zeros. *)
Definition zeroed (m : mem) (p : Z) : Prop :=
  ∀ x, p ≤ x < p + 4096 → byte m x = 0.

(** Only bytes of the pages in [P] changed. *)
Definition only_in (P : gset Z) (m m' : mem) : Prop :=
  (∀ x, (∀ p, p ∈ P → ¬ (p ≤ x < p + 4096)) → m' !! x = m !! x) ∧
  (∀ x, is_Some (m !! x) → is_Some (m' !! x)).

Section specs.
Context (end_ : Z).
Implicit Types (m : mem) (T : tables) (s : kmem) (ps : list Z).

Record pt_ok m (root : Z) T : Prop := {
  pt_root : T !! (2, 0) = Some root;
  pt_keys l k p : T !! (l, k) = Some p →
    0 ≤ l ≤ 2 ∧ 0 ≤ k ∧ (l = 2 → k = 0) ∧ page_ok end_ m p;
  pt_inj a b p : T !! a = Some p → T !! b = Some p → a = b;
  pt_entry l k p i : T !! (l, k) = Some p → 0 < l → 0 ≤ i < 512 →
    get64 m (pte_slot p i) =
      match T !! (l - 1, k * 512 + i) with
      | Some c => Z.lor (PA2PTE c) PTE_V
      | None => 0
      end;
  pt_parent l k c : T !! (l, k) = Some c → l < 2 → is_Some (T !! (l + 1, k `div` 512));
}.

(** A page table beside the free pages. *)
Record vm_ok s ps (root : Z) T : Prop := {
  vm_free : freelist_ok end_ s ps;
  vm_pt : pt_ok (ram s) root T;
  vm_disj p : p ∈ ps → p ∉ pages_of T;
}.

Lemma elem_of_pages T p : p ∈ pages_of T ↔ ∃ a, T !! a = Some p.
Proof. unfold pages_of. by rewrite elem_of_map_img. Qed.

(** ** Changing pages *)

Lemma only_in_refl P m : only_in P m m.
Proof. by split. Qed.

Lemma only_in_trans P m1 m2 m3 : only_in P m1 m2 → only_in P m2 m3 → only_in P m1 m3.
Proof. intros [F1 S1] [F2 S2]. split; [|by auto]. intros x Hx. by rewrite F2, F1. Qed.

Lemma only_in_weaken P P' m m' : only_in P m m' → P ⊆ P' → only_in P' m m'.
Proof. intros [F Sm] HP. split; [|done]. intros x Hx. apply F. intros p Hp. apply Hx. by apply HP. Qed.

Lemma only_page_in p m m' : only_page p m m' → only_in {[p]} m m'.
Proof.
  intros [F Sm]. split; [|done]. intros x Hx. apply F. apply Hx. set_solver.
Qed.

Lemma only_in_write P p m a bs :
  p ∈ P → p ≤ a → a + Z.of_nat (length bs) ≤ p + 4096 → only_in P m (write a bs m).
Proof.
  intros Hp ??. eapply only_in_weaken; [by apply only_page_in, (only_page_write p)|].
  set_solver.
Qed.

Lemma only_in_put64 P p m i v :
  p ∈ P → 0 ≤ i < 512 → only_in P m (put64 (pte_slot p i) v m).
Proof.
  intros. unfold put64, pte_slot. apply (only_in_write _ p); [done|lia|].
  rewrite le_encode_length. lia.
Qed.

(** A page outside of those changed keeps its bytes. *)
Lemma only_in_page P m m' q x :
  only_in P m m' → (∀ p, p ∈ P → p `mod` 4096 = 0) → q `mod` 4096 = 0 → q ∉ P →
  q ≤ x < q + 4096 → m' !! x = m !! x.
Proof.
  intros [F _] HP Hq Hn Hx. apply F. intros p Hp Hpx.
  destruct (page_disjoint p q); [by apply HP|done|by intros ->|lia..].
Qed.

Lemma only_in_get64 P m m' q i :
  only_in P m m' → (∀ p, p ∈ P → p `mod` 4096 = 0) → q `mod` 4096 = 0 → q ∉ P →
  0 ≤ i < 512 → get64 m' (pte_slot q i) = get64 m (pte_slot q i).
Proof.
  intros HO HP Hq Hn Hi. unfold get64. f_equal. apply read_ext. intros x Hx.
  eapply only_in_page; [done..|]. unfold pte_slot in Hx. lia.
Qed.

Lemma freelist_ok_frame s ps P m :
  freelist_ok end_ s ps → only_in P (ram s) m → mem_ok m →
  (∀ p, p ∈ P → p `mod` 4096 = 0 ∧ p ∉ ps) → freelist_ok end_ (set_ram m s) ps.
Proof.
  intros [Hl Hnd Hps Hok Hlk] HO Hm HP. split; simpl; [|done| |done|done].
  - eapply linked_ext; [|done]. intros p Hp. rewrite Forall_forall in Hps.
    replace p with (pte_slot p 0) by (unfold pte_slot; lia).
    eapply only_in_get64; [done|intros q ?; by apply HP|by apply Hps| |lia].
    intros Hin. by apply (HP p).
  - eapply Forall_impl; [done|]. intros p Hp. eapply page_ok_mono; [done|]. apply HO.
Qed.

Lemma pt_ok_frame m m' root T P :
  pt_ok m root T → only_in P m m' → (∀ p, p ∈ P → p `mod` 4096 = 0) →
  (∀ p, p ∈ P → p ∉ pages_of T) → pt_ok m' root T.
Proof.
  intros [Hr Hk Hi He Hp] HO HP Hd. split; [done| |done| |done].
  - intros l k p Hl. destruct (Hk l k p Hl) as (? & ? & ? & ?). split_and!; try tauto.
    eapply page_ok_mono; [done|]. apply HO.
  - intros l k p i Hl Hl0 Hi'. rewrite <- (He l k p i) by done.
    destruct (Hk l k p Hl) as (_ & _ & _ & Hpa & _).
    eapply only_in_get64; [done..| |done].
    intros Hin. apply (Hd p Hin), elem_of_pages. eauto.
Qed.

Lemma leaf_frame m m' root T P n :
  pt_ok m root T → only_in P m m' → (∀ p, p ∈ P → p `mod` 4096 = 0) →
  (∀ p, p ∈ P → p ∉ pages_of T) → leaf m' T n = leaf m T n.
Proof.
  intros [Hr Hk Hi He Hp] HO HP Hd. unfold leaf.
  destruct (T !! (0, _)) as [p|] eqn:Hl; [|done].
  destruct (Hk _ _ p Hl) as (_ & _ & _ & Hpa & _).
  eapply only_in_get64; [done..| |apply Z.mod_pos_bound; lia].
  intros Hin. apply (Hd p Hin), elem_of_pages. eauto.
Qed.

(** ** Arithmetic of indices *)

Lemma vpn_S l va : 0 ≤ l → vpn (l + 1) va = vpn l va `div` 512.
Proof.
  intros. unfold vpn. replace (12 + 9 * (l + 1)) with ((12 + 9 * l) + 9) by lia.
  rewrite Z.pow_add_r by lia. change (2 ^ 9) with 512. rewrite Z.div_div; lia.
Qed.

Lemma PX_vpn l va : 0 ≤ l → PX l va = vpn l va `mod` 512.
Proof. intros. by rewrite PX_eq. Qed.

Lemma vpn_split l va : 0 ≤ l → vpn l va = vpn (l + 1) va * 512 + PX l va.
Proof.
  intros. rewrite vpn_S, PX_vpn by done. pose proof (Z.div_mod (vpn l va) 512). lia.
Qed.

Lemma vpn_top va : 0 ≤ va < MAXVA → vpn 3 va = 0.
Proof. intros [? Hva]. apply Z.div_small. change MAXVA with (2 ^ 38) in Hva.
  change (2 ^ (12 + 9 * 3)) with (2 ^ 39). lia.
Qed.

Context (Hend : 0 < end_).

Lemma page_ok_pa m p : page_ok end_ m p → pa_ok p.
Proof. intros (? & ? & _). split; [|done]. unfold PHYSTOP, KERNBASE in *. lia. Qed.

Lemma pte_nonleaf c :
  pa_ok c → let v := Z.lor (PA2PTE c) PTE_V in
  valid v = true ∧ PTE2PA v = c ∧ 0 ≤ v < 2 ^ 64 ∧
  Z.land v (Z.lor (Z.lor PTE_R PTE_W) PTE_X) = 0.
Proof.
  intros Hc v. assert (0 ≤ PTE_V < 1024) as HV by by vm_compute.
  pose proof (pte_flags c PTE_V Hc HV) as Hf.
  split_and!; [|by apply pte_pa|by apply pte_range..|].
  - unfold valid, v. rewrite land_flags by done. by rewrite Hf.
  - unfold v. rewrite land_flags by done. by rewrite Hf.
Qed.

(** ** [walk] without allocation *)

Lemma pt_page m root T l k p : pt_ok m root T → T !! (l, k) = Some p → page_ok end_ m p.
Proof. intros Hpt Hl. by apply (pt_keys _ _ _ Hpt) in Hl as (_ & _ & _ & ?). Qed.

Lemma mapped_slot m p i : page_ok end_ m p → 0 ≤ i < 512 → mapped m (pte_slot p i) 8.
Proof.
  intros (_ & _ & Hm) Hi x Hx. apply Hm. unfold pte_slot in Hx. lia.
Qed.

Lemma wp_load_pte E s p i (Q : Z → kmem → Prop) :
  page_ok end_ (ram s) p → 0 ≤ i < 512 → Q (get64 (ram s) (pte_slot p i)) s →
  wp E (on_ram (load64 (pte_slot p i))) Q s.
Proof.
  intros Hp Hi HQ. apply wp_on_ram, wp_load64; [by apply mapped_slot|]. by destruct s.
Qed.

Lemma wp_store_pte E s p i v (Q : unit → kmem → Prop) :
  page_ok end_ (ram s) p → 0 ≤ i < 512 →
  Q tt (set_ram (put64 (pte_slot p i) v (ram s)) s) →
  wp E (on_ram (store64 (pte_slot p i) v)) Q s.
Proof. intros Hp Hi HQ. apply wp_on_ram, wp_store64; [by apply mapped_slot|done]. Qed.

Lemma walk_loop_lookup E s root T va pt (level : nat) Q :
  pt_ok (ram s) root T → 0 ≤ va < MAXVA →
  T !! (Z.of_nat level, vpn (Z.of_nat level + 1) va) = Some pt →
  Q (match T !! (0, vpn 1 va) with Some p => pte_slot p (PX 0 va) | None => 0 end) s →
  wp E (walk_loop level pt va false) Q s.
Proof.
  intros Hpt Hva. revert pt. induction level as [|l IH]; intros pt Hl HQ.
  { change (T !! (0, vpn 1 va) = Some pt) in Hl. rewrite Hl in HQ. by apply wp_ret. }
  cbn [walk_loop]. pose proof (PX_range (Z.of_nat (S l)) va) as Hpx.
  apply wp_bind, wp_load_pte; [by eapply pt_page|done|].
  rewrite (pt_entry _ _ _ Hpt _ _ _ _ Hl) by lia.
  rewrite <- vpn_split by lia. replace (Z.of_nat (S l) - 1) with (Z.of_nat l) by lia.
  destruct (T !! (Z.of_nat l, vpn (Z.of_nat (S l)) va)) as [c|] eqn:Hc.
  - destruct (pte_nonleaf c) as (Hv & Hpa & _); [by eapply page_ok_pa, pt_page|].
    rewrite Hv, Hpa. apply IH; [|done]. by replace (Z.of_nat l + 1) with (Z.of_nat (S l)) by lia.
  - simpl. apply wp_ret. assert (T !! (0, vpn 1 va) = None) as Hn; [|by rewrite Hn in HQ].
    destruct (T !! (0, vpn 1 va)) as [q|] eqn:Hq; [|done]. exfalso.
    assert (∀ j : nat, (j ≤ l)%nat → is_Some (T !! (Z.of_nat j, vpn (Z.of_nat j + 1) va))) as Hup.
    { intros j. induction j as [|j IHj]; intros Hj; [by exists q|].
      destruct IHj as [r Hr]; [lia|].
      destruct (pt_keys _ _ _ Hpt _ _ _ (pt_root _ _ _ Hpt)) as ([? ?] & _).
      destruct (pt_keys _ _ _ Hpt _ _ _ Hl) as ([? ?] & _).
      pose proof (pt_parent _ _ _ Hpt _ _ _ Hr ltac:(lia)) as Hpar.
      rewrite <- vpn_S in Hpar by lia.
      by replace (Z.of_nat (S j)) with (Z.of_nat j + 1) by lia. }
    destruct (Hup l) as [r Hr]; [lia|].
    replace (Z.of_nat l + 1) with (Z.of_nat (S l)) in Hr by lia. congruence.
Qed.

(** [walk] without [alloc] only reads: it finds the level-0 entry of [va], or
    answers 0 when there is no table for it. *)
Lemma walk_lookup E s root T va Q :
  pt_ok (ram s) root T → 0 ≤ va < MAXVA →
  Q (match T !! (0, vpn 1 va) with Some p => pte_slot p (PX 0 va) | None => 0 end) s →
  wp E (walk root va false) Q s.
Proof.
  intros Hpt Hva HQ. unfold walk. rewrite (proj2 (Z.leb_gt _ _)) by lia.
  eapply walk_loop_lookup; [done|done| |done].
  change (Z.of_nat 2 + 1) with 3. rewrite vpn_top by done. apply (pt_root _ _ _ Hpt).
Qed.

(** ** Adding a table *)

Lemma zeroed_memset m p : zeroed (write p (replicate (Z.to_nat PGSIZE) (u8 0)) m) p.
Proof.
  intros x Hx. unfold byte. change PGSIZE with 4096.
  rewrite lookup_write, length_replicate, decide_True by lia.
  by rewrite lookup_replicate_2 by lia.
Qed.

Lemma get64_zero m p i :
  zeroed m p → 0 ≤ i < 512 → get64 m (pte_slot p i) = 0.
Proof.
  intros Hr Hi. unfold get64.
  assert (read m (pte_slot p i) 8 = replicate 8 0) as ->; [|done].
  apply list_eq. intros j. destruct (decide (j < 8)%nat).
  - rewrite lookup_read, lookup_replicate_2 by done. f_equal. apply Hr.
    unfold pte_slot. lia.
  - rewrite !lookup_ge_None_2; [done|rewrite length_replicate; lia|rewrite read_length; lia].
Qed.

(** [m1] differs from [m] in the fresh zeroed page [p] only; linking [p] in as
    the table of entry [i] of [pt] keeps the invariant and every mapping. *)
Lemma pt_extend m m1 root T l k pt i p :
  pt_ok m root T → only_in {[p]} m m1 → page_ok end_ m p → p ∉ pages_of T →
  zeroed m1 p → 0 ≤ l → T !! (l + 1, k) = Some pt → 0 ≤ i < 512 → T !! (l, k * 512 + i) = None →
  let m2 := put64 (pte_slot pt i) (Z.lor (PA2PTE p) PTE_V) m1 in
  let T2 := <[(l, k * 512 + i) := p]> T in
  pt_ok m2 root T2 ∧ ∀ n, leaf m2 T2 n = leaf m T n.
Proof.
  intros Hpt HO Hp Hpn Hz Hl Hk Hi Hnone m2 T2.
  pose proof (pt_page _ _ _ _ _ _ Hpt Hk) as Hptp.
  assert (∀ a q, T !! a = Some q → q ≠ p) as Hne.
  { intros a q Hq ->. apply Hpn, elem_of_pages. eauto. }
  assert (∀ q j, page_ok end_ m q → q ≠ p → 0 ≤ j < 512 →
    get64 m1 (pte_slot q j) = get64 m (pte_slot q j)) as H1.
  { intros q j [Hqa _] Hqp Hj. eapply only_in_get64; [done| |done| |done].
    - intros ? ->%elem_of_singleton. apply Hp.
    - by intros ?%elem_of_singleton. }
  assert (∀ q j, page_ok end_ m q → 0 ≤ j < 512 → q ≠ pt ∨ j ≠ i →
    get64 m2 (pte_slot q j) = get64 m1 (pte_slot q j)) as H2.
  { intros q j [Hqa _] Hj Hor. apply get64_put64_ne. unfold pte_slot.
    destruct (decide (q = pt)) as [->|Hqpt]; [lia|].
    destruct (page_disjoint pt q); [apply Hptp|done|by intros ->|lia..]. }
  destruct (pt_keys _ _ _ Hpt _ _ _ Hk) as (? & ? & ? & _).
  split.
  - split.
    + unfold T2. rewrite lookup_insert_ne by (intros [=]; lia). apply (pt_root _ _ _ Hpt).
    + intros l' k' q [[[= <- <-] <-]|[_ Hq]]%lookup_insert_Some.
      * split_and!; try lia. eapply page_ok_mono; [done|].
        intros x Hx. apply is_Some_write. by apply HO.
      * destruct (pt_keys _ _ _ Hpt _ _ _ Hq) as (? & ? & ? & Hqp). split_and!; try done; try lia.
        eapply page_ok_mono; [done|]. intros x Hx. apply is_Some_write. by apply HO.
    + intros a b q [[Ha <-]|[Ha Hqa]]%lookup_insert_Some [[Hb Hqb]|[Hb Hqb]]%lookup_insert_Some.
      * congruence.
      * by apply Hne in Hqb.
      * subst q. by apply Hne in Hqa.
      * by eapply (pt_inj _ _ _ Hpt).
    + intros l' k' q j [[[= <- <-] <-]|[Hn Hq]]%lookup_insert_Some Hl' Hj.
      * rewrite H2, get64_zero by (done || left; by apply Hne in Hk).
        unfold T2. rewrite lookup_insert_ne by (intros [=]; lia).
        destruct (T !! (l - 1, _)) as [c|] eqn:Hc; [|done].
        apply (pt_parent _ _ _ Hpt) in Hc; [|lia].
        rewrite Z.div_add_l, (Z.div_small j), Z.add_0_r in Hc by lia.
        replace (l - 1 + 1) with l in Hc by lia. rewrite Hnone in Hc. by destruct Hc.
      * pose proof (pt_page _ _ _ _ _ _ Hpt Hq) as Hqp. pose proof (Hne _ _ Hq).
        destruct (decide (q = pt ∧ j = i)) as [[-> ->]|Hqi].
        -- pose proof (pt_inj _ _ _ Hpt _ _ _ Hq Hk) as [= -> ->].
           unfold m2, T2. replace (l + 1 - 1) with l by lia. rewrite lookup_insert_eq.
           apply get64_put64_eq. apply (pte_nonleaf p). by eapply page_ok_pa.
        -- rewrite H2, H1 by (done || lia). rewrite (pt_entry _ _ _ Hpt _ _ _ _ Hq) by lia.
           unfold T2. rewrite lookup_insert_ne; [done|]. intros [= Hl1 Hk1].
           assert (k = k') as -> by lia. replace l' with (l + 1) in Hq by lia.
           rewrite Hk in Hq. injection Hq as ->. lia.
    + intros l' k' c [[[= <- <-] <-]|[Hn Hc]]%lookup_insert_Some Hl'; unfold T2.
      * rewrite Z.div_add_l, (Z.div_small i), Z.add_0_r by lia.
        rewrite lookup_insert_ne by (intros [=]; lia). by rewrite Hk.
      * apply lookup_insert_is_Some. destruct (decide ((l, k * 512 + i) = (l' + 1, k' `div` 512)));
          [by left|right]. split; [done|]. by eapply (pt_parent _ _ _ Hpt).
  - intros n. unfold leaf, T2. pose proof (Z.mod_pos_bound n 512).
    destruct (decide ((l, k * 512 + i) = (0, n `div` 512))) as [[= -> Hn]|Hn].
    + rewrite Hn, lookup_insert_eq, H2, get64_zero by (done || lia || left; by apply Hne in Hk).
      by rewrite <- Hn, Hnone.
    + rewrite lookup_insert_ne by done. destruct (T !! (0, n `div` 512)) as [q|] eqn:Hq; [|done].
      assert (0 ≤ n `mod` 512 < 512) as Hn512 by (apply Z.mod_pos_bound; done).
      rewrite H2; [|exact (pt_page _ _ _ _ _ _ Hpt Hq)|exact Hn512|].
      * apply H1; [exact (pt_page _ _ _ _ _ _ Hpt Hq)|by eapply Hne|exact Hn512].
      * left. intros ->. pose proof (pt_inj _ _ _ Hpt _ _ _ Hq Hk) as [= Hl1 _].
        clear -Hl Hl1. lia.
Qed.

(** ** [walk] with allocation *)

(** From [s] to [s'] the page table gained tables, taken from the free pages;
    only the bytes of its own pages changed. *)
Record evolves (root : Z) s ps T s' ps' T' : Prop := {
  ev_ok : vm_ok s' ps' root T';
  ev_sub : T ⊆ T';
  ev_pages : pages_of T' ∪ list_to_set ps' = pages_of T ∪ list_to_set ps;
  ev_only : only_in (pages_of T') (ram s) (ram s');
  ev_held : kmem_held s' = kmem_held s;
}.
(** ... and what it maps is the same. *)
Definition grown root s ps T s' ps' T' : Prop :=
  evolves root s ps T s' ps' T' ∧ ∀ n, leaf (ram s') T' n = leaf (ram s) T n.

Lemma evolves_refl root s ps T : vm_ok s ps root T → evolves root s ps T s ps T.
Proof. by split. Qed.

Lemma grown_refl root s ps T : vm_ok s ps root T → grown root s ps T s ps T.
Proof. split; [by apply evolves_refl|done]. Qed.

Lemma pages_of_mono T T' : T ⊆ T' → pages_of T ⊆ pages_of T'.
Proof.
  intros HT p. rewrite !elem_of_pages. intros [a Ha]. exists a. by eapply lookup_weaken.
Qed.

Lemma evolves_trans root s1 ps1 T1 s2 ps2 T2 s3 ps3 T3 :
  evolves root s1 ps1 T1 s2 ps2 T2 → evolves root s2 ps2 T2 s3 ps3 T3 →
  evolves root s1 ps1 T1 s3 ps3 T3.
Proof.
  intros [O1 S1 P1 M1 H1] [O2 S2 P2 M2 H2]. split.
  - done.
  - by etrans.
  - by rewrite P2.
  - eapply only_in_trans; [|done]. eapply only_in_weaken; [done|]. by apply pages_of_mono.
  - congruence.
Qed.

Lemma grown_trans root s1 ps1 T1 s2 ps2 T2 s3 ps3 T3 :
  grown root s1 ps1 T1 s2 ps2 T2 → grown root s2 ps2 T2 s3 ps3 T3 →
  grown root s1 ps1 T1 s3 ps3 T3.
Proof.
  intros [E1 L1] [E2 L2]. split; [by eapply evolves_trans|]. intros n. by rewrite L2.
Qed.

Lemma pages_of_insert T a p :
  T !! a = None → pages_of (<[a := p]> T) = {[p]} ∪ pages_of T.
Proof. intros. unfold pages_of. by rewrite map_img_insert_notin_L. Qed.

Lemma pages_aligned m root T p : pt_ok m root T → p ∈ pages_of T → p `mod` 4096 = 0.
Proof. intros Hpt [[l k] Hl]%elem_of_pages. by apply (pt_page _ _ _ _ _ _ Hpt Hl). Qed.

(** One new table: a page from the free list, zeroed and linked in. *)
Lemma walk_new_table E s ps root T l k pt i (Q : Z → kmem → Prop) (R : Z → M kmem Z) :
  vm_ok s ps root T → 0 ≤ l → T !! (l + 1, k) = Some pt → 0 ≤ i < 512 →
  T !! (l, k * 512 + i) = None →
  (ps = [] → Q 0 s) →
  (∀ s' ps' p, grown root s ps T s' ps' (<[(l, k * 512 + i) := p]> T) → wp E (R p) Q s') →
  wp E (let! pagetable := kalloc in
        if pagetable =? 0 then ret 0 else
        let! _ := on_ram (memset pagetable 0 PGSIZE) in
        on_ram (store64 (pte_slot pt i) (Z.lor (PA2PTE pagetable) PTE_V));;;
        R pagetable) Q s.
Proof.
  intros [Hfl Hpt Hdisj] Hl Hk Hi Hnone HQ0 HR.
  apply wp_bind. eapply kalloc_spec; [done|done|by intros ->; apply wp_ret, HQ0|].
  intros p ps' s1 -> Hfl1 Hp O1 _ Hh1. pose proof (page_nonzero _ Hend _ _ Hp).
  rewrite (proj2 (Z.eqb_neq p 0)) by done.
  pose proof (fl_nodup _ _ _ Hfl) as [Hpp Hnd]%NoDup_cons.
  assert (p ∉ pages_of T) as HpT by (apply Hdisj; set_solver).
  apply wp_bind, wp_on_ram, memset_spec; [change PGSIZE with 4096; lia|apply Hp|].
  pose proof (zeroed_memset (ram s1) p) as Hz.
  assert (only_page p (ram s1) (write p (replicate (Z.to_nat PGSIZE) (u8 0)) (ram s1))) as O2.
  { apply only_page_write; [lia|]. rewrite length_replicate. change PGSIZE with 4096. lia. }
  assert (mem_ok (write p (replicate (Z.to_nat PGSIZE) (u8 0)) (ram s1))) as Hm1.
  { apply mem_ok_write; [apply (fl_mem _ _ _ Hfl1)|]. apply Forall_replicate, u8_byte. }
  set (m1 := write p _ (ram s1)) in *. clearbody m1.
  assert (only_in {[p]} (ram s) m1) as O3.
  { apply only_page_in. by eapply only_page_trans. }
  pose proof (pt_page _ _ _ _ _ _ Hpt Hk) as Hptp.
  assert (page_ok end_ (ram s) p) as Hps.
  { pose proof (fl_pages _ _ _ Hfl) as Hf. by apply Forall_cons in Hf as [? _]. }
  destruct (pt_extend (ram s) m1 root T l k pt i p) as [Hpt2 Hleaf]; try done.
  set (T2 := <[(l, k * 512 + i) := p]> T) in *.
  assert (pages_of T2 = {[p]} ∪ pages_of T) as HpgT by by apply pages_of_insert.
  apply wp_bind, wp_store_pte; [by eapply page_ok_mono; [|apply O3]|done|]. simpl.
  apply (HR _ ps' p). fold T2. split; [|done]. split; cbn [ram set_ram kmem_held].
  - split; [|done|].
    + eapply (freelist_ok_frame (set_ram m1 s1) ps' (pages_of T2)).
      * eapply (freelist_ok_frame s1 ps' {[p]}); [done|by apply only_page_in|done|].
        intros q ->%elem_of_singleton. split; [apply Hp|done].
      * apply (only_in_put64 _ pt); [|done]. rewrite HpgT. apply elem_of_union_r, elem_of_pages. eauto.
      * by apply mem_ok_put64.
      * intros q. rewrite HpgT. intros [->%elem_of_singleton|Hq]%elem_of_union.
        { split; [apply Hp|done]. }
        split; [exact (pages_aligned _ _ _ _ Hpt Hq)|]. intros Hin. apply (Hdisj q); [by right|done].
    + intros q Hq Hq2. fold T2 in Hq2. rewrite HpgT in Hq2. revert Hq2.
      intros [->%elem_of_singleton|HqT]%elem_of_union; [done|].
      apply (Hdisj q); [by right|done].
  - by apply insert_subseteq.
  - rewrite HpgT. simpl. set_solver.
  - eapply only_in_trans.
    + eapply only_in_weaken; [done|]. rewrite HpgT. set_solver.
    + apply (only_in_put64 _ pt); [|done]. rewrite HpgT. apply elem_of_union_r, elem_of_pages. eauto.
  - done.
Qed.

(** What [walk(pagetable, va, 1)] answers: the level-0 entry, or 0 when the
    free pages ran out. *)
Definition walked root s ps T va (r : Z) s' : Prop :=
  ∃ ps' T', grown root s ps T s' ps' T' ∧
    ((r = 0 ∧ ps' = []) ∨
     ∃ p, T' !! (0, vpn 1 va) = Some p ∧ r = pte_slot p (PX 0 va)).

Lemma walk_loop_alloc E s ps root T va pt (level : nat) :
  vm_ok s ps root T → 0 ≤ va < MAXVA →
  T !! (Z.of_nat level, vpn (Z.of_nat level + 1) va) = Some pt →
  wp E (walk_loop level pt va true) (walked root s ps T va) s.
Proof.
  intros Hok Hva. revert s ps T pt Hok.
  induction level as [|l IH]; intros s ps T pt Hok Hl.
  { apply wp_ret. exists ps, T. split; [by apply grown_refl|]. right. by exists pt. }
  pose proof (vm_pt _ _ _ _ Hok) as Hpt.
  cbn [walk_loop]. pose proof (PX_range (Z.of_nat (S l)) va) as Hpx.
  apply wp_bind, wp_load_pte; [by eapply pt_page|done|].
  rewrite (pt_entry _ _ _ Hpt _ _ _ _ Hl) by lia.
  rewrite <- vpn_split by lia. replace (Z.of_nat (S l) - 1) with (Z.of_nat l) by lia.
  assert (Z.of_nat (S l) = Z.of_nat l + 1) as HSl by lia.
  destruct (T !! (Z.of_nat l, vpn (Z.of_nat (S l)) va)) as [c|] eqn:Hc.
  - destruct (pte_nonleaf c) as (Hv & Hpa & _); [by eapply page_ok_pa, pt_page|].
    rewrite Hv, Hpa. apply IH; [done|]. by rewrite <- HSl.
  - change (valid 0) with false. cbn [negb].
    rewrite HSl in Hl, Hc. pose proof (vpn_split (Z.of_nat l + 1) va ltac:(lia)) as Hsp.
    rewrite HSl in *. eapply (walk_new_table _ _ _ _ _ (Z.of_nat l)); [done|lia|done|done| | |].
    + by rewrite <- Hsp.
    + intros ->. exists [], T. split; [by apply grown_refl|]. by left.
    + intros s1 ps1 p Hg. rewrite <- Hsp in Hg.
      eapply wp_mono; [apply (IH s1 ps1 _ p (ev_ok _ _ _ _ _ _ _ (proj1 Hg)))|].
      { by rewrite lookup_insert_eq. }
      intros r s2 (ps2 & T2 & Hg2 & Hr). exists ps2, T2. split; [by eapply grown_trans|done].
Qed.

Lemma walk_alloc E s ps root T va :
  vm_ok s ps root T → 0 ≤ va < MAXVA →
  wp E (walk root va true) (walked root s ps T va) s.
Proof.
  intros Hok Hva. unfold walk. rewrite (proj2 (Z.leb_gt _ _)) by lia.
  apply walk_loop_alloc; [done|done|].
  change (Z.of_nat 2 + 1) with 3. rewrite vpn_top by done.
  apply (pt_root _ _ _ (vm_pt _ _ _ _ Hok)).
Qed.

(** ** Level-0 entries *)

Lemma load_leaf E s root T va p (Q : Z → kmem → Prop) :
  pt_ok (ram s) root T → T !! (0, vpn 1 va) = Some p → 0 ≤ va →
  Q (leaf (ram s) T (vpn 0 va)) s → wp E (on_ram (load64 (pte_slot p (PX 0 va)))) Q s.
Proof.
  intros Hpt Hp Hva HQ. apply wp_load_pte; [by eapply pt_page|apply PX_range|].
  unfold leaf in HQ. rewrite <- vpn_S, <- PX_vpn in HQ by lia. change (0 + 1) with 1 in HQ.
  by rewrite Hp in HQ.
Qed.

(** Setting the level-0 entry of [va] changes what is mapped there only. *)
Lemma store_leaf E s ps root T va p v (Q : unit → kmem → Prop) :
  vm_ok s ps root T → T !! (0, vpn 1 va) = Some p → 0 ≤ va → 0 ≤ v < 2 ^ 64 →
  (∀ s', evolves root s ps T s' ps T →
     (∀ n, leaf (ram s') T n = if decide (n = vpn 0 va) then v else leaf (ram s) T n) →
     Q tt s') →
  wp E (on_ram (store64 (pte_slot p (PX 0 va)) v)) Q s.
Proof.
  intros [Hfl Hpt Hdisj] Hp Hva Hv HQ.
  pose proof (pt_page _ _ _ _ _ _ Hpt Hp) as Hpp. pose proof (PX_range 0 va) as Hpx.
  apply wp_store_pte; [done|done|].
  assert (only_in {[p]} (ram s) (put64 (pte_slot p (PX 0 va)) v (ram s))) as HO.
  { apply (only_in_put64 _ p); [set_solver|done]. }
  assert (∀ l k q i, T !! (l, k) = Some q → 0 ≤ i < 512 → (l, k, i) ≠ (0, vpn 1 va, PX 0 va) →
    get64 (put64 (pte_slot p (PX 0 va)) v (ram s)) (pte_slot q i) = get64 (ram s) (pte_slot q i)) as He.
  { intros l k q i Hq Hi Hne. destruct (decide (q = p)) as [->|Hqp].
    - apply get64_put64_ne. unfold pte_slot.
      pose proof (pt_inj _ _ _ Hpt _ _ _ Hq Hp) as [= -> ->].
      assert (i ≠ PX 0 va) by congruence. lia.
    - eapply only_in_get64; [done| |by apply (pt_page _ _ _ _ _ _ Hpt Hq)|set_solver|done].
      intros ? ->%elem_of_singleton. apply Hpp. }
  set (m := put64 _ _ _) in *.
  assert (mem_ok m) as Hm by apply mem_ok_put64, (fl_mem _ _ _ Hfl).
  assert (get64 m (pte_slot p (PX 0 va)) = v) as Hg by by apply get64_put64_eq.
  clearbody m. apply HQ.
  - split; cbn [ram set_ram kmem_held]; [split; [|split|done]|done|done| |done].
    + eapply freelist_ok_frame; [done..|]. intros q ->%elem_of_singleton.
      split; [apply Hpp|]. intros Hin. apply (Hdisj p Hin), elem_of_pages. eauto.
    + apply (pt_root _ _ _ Hpt).
    + intros l k q Hq. destruct (pt_keys _ _ _ Hpt _ _ _ Hq) as (? & ? & ? & Hqp).
      split_and!; try done; try lia. eapply page_ok_mono; [done|]. apply HO.
    + apply (pt_inj _ _ _ Hpt).
    + intros l k q i Hq Hl Hi. cbn [ram set_ram]. rewrite (He l k); [|done..|intros [=]; lia].
      by apply (pt_entry _ _ _ Hpt).
    + apply (pt_parent _ _ _ Hpt).
    + eapply only_in_weaken; [done|]. intros q ->%elem_of_singleton. apply elem_of_pages. eauto.
  - intros n. cbn [ram set_ram]. unfold leaf. pose proof (Z.mod_pos_bound n 512 ltac:(lia)) as Hn.
    pose proof (Z.div_mod n 512 ltac:(lia)) as Hn'. case_decide as Hd.
    + subst n. rewrite <- vpn_S, <- PX_vpn by lia. change (0 + 1) with 1. by rewrite Hp.
    + destruct (T !! (0, n `div` 512)) as [q|] eqn:Hq; [|done].
      apply (He 0 (n `div` 512)); [done|done|]. intros [= H1 H2]. apply Hd.
      rewrite (vpn_split 0 va) by lia. change (0 + 1) with 1. lia.
Qed.

(** ** [mappages] *)

Lemma vpn0_page a i : a `mod` 4096 = 0 → vpn 0 (a + i * 4096) = vpn 0 a + i.
Proof. intros Ha. unfold vpn. change (2 ^ (12 + 9 * 0)) with 4096. by rewrite Z.div_add. Qed.

(** Pages [pa], [pa + 4096], ... are mapped at the [j] page numbers from [n0];
    the rest is as [g] says. *)
Definition map_run (g : Z → Z) (n0 j pa perm : Z) : Z → Z := λ n,
  if decide (n0 ≤ n < n0 + j) then leaf_pte (pa + (n - n0) * 4096) perm else g n.

Definition mapped_run root s ps T (n0 k pa perm r : Z) s' : Prop :=
  ∃ ps' T' j, evolves root s ps T s' ps' T' ∧
    (r = 0 ∧ j = k ∨ r = -1 ∧ ps' = [] ∧ 0 ≤ j < k) ∧
    ∀ n, leaf (ram s') T' n = map_run (leaf (ram s) T) n0 j pa perm n.

Lemma mappages_loop_spec E s ps root T a pa perm k fuel :
  vm_ok s ps root T → a `mod` 4096 = 0 → 0 ≤ a → 0 < k → a + k * 4096 ≤ MAXVA →
  (∀ i, 0 ≤ i < k → pa_ok (pa + i * 4096)) → 0 ≤ perm < 1024 →
  (∀ i, 0 ≤ i < k → valid (leaf (ram s) T (vpn 0 a + i)) = false) → k ≤ Z.of_nat fuel →
  wp E (mappages_loop fuel root a (a + (k - 1) * 4096) pa perm)
    (mapped_run root s ps T (vpn 0 a) k pa perm) s.
Proof.
  revert s ps T a pa k. induction fuel as [|fuel IH];
    intros s ps T a pa k Hok Ha Ha0 Hk HM Hpa Hperm Hinv Hf; [lia|].
  assert (MAXVA < 2 ^ 39) as HMAX by done.
  cbn [mappages_loop]. apply wp_bind. eapply wp_mono; [apply walk_alloc; [done|lia]|].
  intros pte s1 (ps1 & T1 & [Hev1 Hl1] & Hr). pose proof (ev_ok _ _ _ _ _ _ _ Hev1) as Hok1.
  pose proof (vm_pt _ _ _ _ Hok1) as Hpt1.
  destruct Hr as [[-> ->]|(p & Hp & ->)].
  { apply wp_ret. exists [], T1, 0. split; [done|]. split; [right; split_and!; (done || lia)|].
    intros n. unfold map_run. rewrite decide_False by lia. apply Hl1. }
  pose proof (pt_page _ _ _ _ _ _ Hpt1 Hp) as (_ & ? & _). pose proof (PX_range 0 a).
  rewrite (proj2 (Z.eqb_neq _ 0)) by (unfold pte_slot; lia).
  apply wp_bind. eapply load_leaf; [done|done|done|].
  rewrite Hl1. pose proof (Hinv 0 ltac:(lia)) as Hi0. rewrite Z.add_0_r in Hi0. rewrite Hi0.
  pose proof (Hpa 0 ltac:(lia)) as Hpa0. rewrite Z.add_0_r in Hpa0.
  apply wp_bind. eapply store_leaf; [done|done|done|by apply (leaf_pte_facts pa perm)|].
  intros s2 Hev2 Hl2. fold (leaf_pte pa perm) in Hl2.
  pose proof (evolves_trans _ _ _ _ _ _ _ _ _ _ Hev1 Hev2) as Hev.
  destruct (Z.eqb_spec a (a + (k - 1) * 4096)) as [He|Hne].
  - apply wp_ret. exists ps1, T1, 1. split; [done|]. split; [left; split; [done|lia]|].
    intros n. rewrite Hl2, Hl1. unfold map_run. repeat case_decide; try lia.
    subst n. by rewrite Z.sub_diag, Z.add_0_r.
  - assert (vpn 0 (a + 4096) = vpn 0 a + 1) as Hv1 by apply (vpn0_page a 1 Ha).
    change PGSIZE with 4096. pose proof (Hpa 1 ltac:(lia)) as [[_ Hpa1] _].
    rewrite !u64_small by (destruct Hpa0; lia).
    replace (a + (k - 1) * 4096) with (a + 4096 + (k - 1 - 1) * 4096) by lia.
    eapply wp_mono; [apply (IH s2 ps1 T1 (a + 4096) (pa + 4096) (k - 1))|].
    + apply (ev_ok _ _ _ _ _ _ _ Hev).
    + rewrite <- Zplus_mod_idemp_r. change (4096 `mod` 4096) with 0. by rewrite Z.add_0_r.
    + lia.
    + lia.
    + lia.
    + intros i Hi. replace (pa + 4096 + i * 4096) with (pa + (i + 1) * 4096) by lia.
      apply Hpa. lia.
    + done.
    + intros i Hi. rewrite Hv1, Hl2, decide_False, Hl1 by lia.
      replace (vpn 0 a + 1 + i) with (vpn 0 a + (i + 1)) by lia. apply Hinv. lia.
    + lia.
    + intros r s3 (ps3 & T3 & j & Hev3 & Hr & Hl3). exists ps3, T3, (j + 1).
      split; [by eapply evolves_trans|].
      assert (0 ≤ j) by (destruct Hr as [[_ ->]|(_ & _ & ?)]; lia).
      split; [destruct Hr as [[-> ->]|(-> & -> & ?)]; [left|right]; split_and!; (done || lia)|].
      intros n. rewrite Hl3. unfold map_run. rewrite Hv1, Hl2, Hl1.
      repeat case_decide; try lia; try done; subst.
      * f_equal. lia.
      * f_equal. lia.
Qed.

(** [mappages] of whole pages: all of them are mapped, or memory ran out after
    the first [j]. *)
Lemma mappages_spec E s ps root T a pa perm k :
  vm_ok s ps root T → a `mod` 4096 = 0 → 0 ≤ a → 0 < k → a + k * 4096 ≤ MAXVA →
  (∀ i, 0 ≤ i < k → pa_ok (pa + i * 4096)) → 0 ≤ perm < 1024 →
  (∀ i, 0 ≤ i < k → valid (leaf (ram s) T (vpn 0 a + i)) = false) →
  wp E (mappages root a (k * 4096) pa perm) (mapped_run root s ps T (vpn 0 a) k pa perm) s.
Proof.
  intros Hok Ha Ha0 Hk HM Hpa Hperm Hinv. assert (MAXVA < 2 ^ 39) as HMAX by done.
  unfold mappages. rewrite (proj2 (Z.eqb_neq _ 0)) by lia.
  rewrite u64_small by lia. rewrite !PGROUNDDOWN_eq.
  pose proof (Z.div_mod a 4096 ltac:(lia)) as Hd.
  replace (a `div` 4096 * 4096) with a by lia.
  replace (a + k * 4096 - 1) with (4095 + (a `div` 4096 + (k - 1)) * 4096) by lia.
  rewrite Z.div_add, (Z.div_small 4095) by lia. rewrite Z.add_0_l.
  replace ((a `div` 4096 + (k - 1)) * 4096) with (a + (k - 1) * 4096) by lia.
  apply mappages_loop_spec; try done.
  replace (a + (k - 1) * 4096 - a) with ((k - 1) * PGSIZE) by (change PGSIZE with 4096; lia).
  rewrite Z.div_mul by done. lia.
Qed.
End specs.
