(* ===== verification/VmUser.v ===== *)
(** Address spaces: a page table together with the user pages it maps, and
    what [uvmunmap], [uvmalloc], [uvmdealloc] and the copying routines of
    kernel/vm.c do to them. *)

From S2P Require Import Prelude Mem CString Riscv Kalloc Vm VmSpecs.
Local Open Scope Z_scope.

(** User page number ↦ (physical page, permissions). *)
Abbreviation umap := (gmap Z (Z * Z)).

(** User memory lies below the trap frame. *)
Definition UTOP : Z := TRAPFRAME `div` 4096.

Definition upages (U : umap) : gset Z := map_img (fst <$> U).
(** All pages an address space may use: its tables, its user pages and the
    free ones. *)
Definition footprint (ps : list Z) (T : tables) (U : umap) : gset Z :=
  pages_of T ∪ upages U ∪ list_to_set ps.

Section spaces.
Context (end_ : Z).
Implicit Types (m : mem) (T : tables) (U : umap) (s : kmem) (ps : list Z).

Record as_ok s ps root T U : Prop := {
  as_vm : vm_ok end_ s ps root T;
  as_leaf n : 0 ≤ n < UTOP →
    leaf (ram s) T n = match U !! n with Some (pa, perm) => leaf_pte pa perm | None => 0 end;
  as_page n pa perm : U !! n = Some (pa, perm) →
    page_ok end_ (ram s) pa ∧ 0 ≤ perm < 1024 ∧ pa ∉ ps ∧ pa ∉ pages_of T ∧ 0 ≤ n < UTOP;
  as_inj n n' pa perm perm' :
    U !! n = Some (pa, perm) → U !! n' = Some (pa, perm') → n = n';
}.

(** A routine works inside the footprint, neither gains nor loses pages, and
    keeps the contents of the user pages that stay mapped. *)
Record as_step s ps root T U s' ps' T' U' : Prop := {
  st_ok : as_ok s' ps' root T' U';
  st_sub : T ⊆ T';
  st_fp : footprint ps' T' U' = footprint ps T U;
  st_only : only_in (footprint ps T U) (ram s) (ram s');
  st_held : kmem_held s' = kmem_held s;
  st_top n : UTOP ≤ n → leaf (ram s') T' n = leaf (ram s) T n;
  st_kept n pa perm x : U !! n = Some (pa, perm) → U' !! n = Some (pa, perm) →
    pa ≤ x < pa + 4096 → ram s' !! x = ram s !! x;
}.

Lemma elem_of_upages U pa : pa ∈ upages U ↔ ∃ n perm, U !! n = Some (pa, perm).
Proof.
  unfold upages. rewrite elem_of_map_img. split.
  - intros (n & Hn). rewrite lookup_fmap in Hn.
    destruct (U !! n) as [[pa' perm]|] eqn:Hu; simplify_eq/=. eauto.
  - intros (n & perm & Hn). exists n. by rewrite lookup_fmap, Hn.
Qed.

Lemma as_step_refl s ps root T U : as_ok s ps root T U → as_step s ps root T U s ps T U.
Proof. by split. Qed.

Lemma as_step_trans s1 ps1 root T1 U1 s2 ps2 T2 U2 s3 ps3 T3 U3 :
  as_step s1 ps1 root T1 U1 s2 ps2 T2 U2 → as_step s2 ps2 root T2 U2 s3 ps3 T3 U3 →
  (∀ n e, U1 !! n = Some e → U3 !! n = Some e → U2 !! n = Some e) →
  as_step s1 ps1 root T1 U1 s3 ps3 T3 U3.
Proof.
  intros [O1 S1 F1 M1 H1 P1 K1] [O2 S2 F2 M2 H2 P2 K2] Hmid. split.
  - done.
  - by etrans.
  - congruence.
  - rewrite F1 in M2. by eapply only_in_trans.
  - congruence.
  - intros n Hn. by rewrite P2, P1.
  - intros n pa perm x Hu1 Hu3 Hx. pose proof (Hmid _ _ Hu1 Hu3) as Hu2.
    rewrite (K2 n pa perm) by done. by eapply K1.
Qed.

Lemma upages_insert U n pa perm :
  U !! n = None → upages (<[n := (pa, perm)]> U) = {[pa]} ∪ upages U.
Proof.
  intros Hn. unfold upages. rewrite fmap_insert. apply map_img_insert_notin_L.
  by rewrite lookup_fmap, Hn.
Qed.

Lemma upages_delete s ps root T U n pa perm :
  as_ok s ps root T U → U !! n = Some (pa, perm) →
  upages U = {[pa]} ∪ upages (delete n U) ∧ pa ∉ upages (delete n U).
Proof.
  intros Hok Hn. split.
  - rewrite <- (insert_delete_id U n (pa, perm)) at 1 by done.
    apply upages_insert, lookup_delete_eq.
  - rewrite elem_of_upages. intros (n' & perm' & [Hne Hn']%lookup_delete_Some).
    apply Hne. by eapply (as_inj _ _ _ _ _ Hok).
Qed.

Lemma as_page_aligned s ps root T U p :
  as_ok s ps root T U → p ∈ footprint ps T U → p `mod` 4096 = 0.
Proof.
  intros Hok. unfold footprint. rewrite !elem_of_union, elem_of_list_to_set.
  intros [[Hp|Hp]|Hp].
  - by eapply pages_aligned; [apply (vm_pt _ _ _ _ _ (as_vm _ _ _ _ _ Hok))|].
  - apply elem_of_upages in Hp as (n & perm & Hn). by apply (as_page _ _ _ _ _ Hok) in Hn as [[? _] _].
  - pose proof (fl_pages _ _ _ (vm_free _ _ _ _ _ (as_vm _ _ _ _ _ Hok))) as Hf.
    rewrite Forall_forall in Hf. by apply Hf in Hp as [? _].
Qed.

Lemma vpn0_aligned a : a `mod` 4096 = 0 → a = vpn 0 a * 4096.
Proof. unfold vpn. change (2 ^ (12 + 9 * 0)) with 4096. pose proof (Z.div_mod a 4096). lia. Qed.

Context (Hend : 0 < end_).

(** ** Removing a page *)

(** A page changes hands: bytes of [pa] only. *)
Lemma vm_ok_only_page s s' ps ps' root T pa :
  vm_ok end_ s ps root T → freelist_ok end_ s' ps' → only_page pa (ram s) (ram s') →
  pa `mod` 4096 = 0 → pa ∉ pages_of T → (∀ p, p ∈ ps' → p = pa ∨ p ∈ ps) →
  vm_ok end_ s' ps' root T ∧ ∀ n, leaf (ram s') T n = leaf (ram s) T n.
Proof.
  intros [Hfl Hpt Hdisj] Hfl' HO Hpa HnT Hps'.
  assert (∀ p : Z, p ∈ ({[pa]} : gset Z) → p `mod` 4096 = 0) as H1 by by intros p ->%elem_of_singleton.
  assert (∀ p : Z, p ∈ ({[pa]} : gset Z) → p ∉ pages_of T) as H2 by by intros p ->%elem_of_singleton.
  apply only_page_in in HO. split.
  - split; [done|by eapply pt_ok_frame|].
    intros p [->|Hp]%Hps'; [done|by apply Hdisj].
  - intros n. by eapply leaf_frame.
Qed.

Lemma as_step_unmap s ps root T U n pa perm s1 s2 :
  as_ok s ps root T U → U !! n = Some (pa, perm) →
  freelist_ok end_ s1 (pa :: ps) → only_page pa (ram s) (ram s1) →
  kmem_held s1 = kmem_held s →
  evolves end_ root s1 (pa :: ps) T s2 (pa :: ps) T →
  (∀ n', leaf (ram s2) T n' = if decide (n' = n) then 0 else leaf (ram s1) T n') →
  as_step s ps root T U s2 (pa :: ps) T (delete n U).
Proof.
  intros Hok Hn Hfl1 HO1 Hh1 Hev Hl2. pose proof Hok as [Hvm Hlf Hpg Hinj].
  destruct (Hpg _ _ _ Hn) as (Hpp & Hperm & Hps & HT & Hnr).
  destruct (vm_ok_only_page s s1 ps (pa :: ps) root T pa) as [_ Hl1]; try done;
    [apply Hpp|set_solver|].
  destruct (upages_delete _ _ _ _ _ _ _ _ Hok Hn) as [Hup Hnup].
  pose proof (ev_only _ _ _ _ _ _ _ _ Hev) as HO2.
  assert (∀ q x, q `mod` 4096 = 0 → q ≠ pa → q ∉ pages_of T → q ≤ x < q + 4096 →
    ram s2 !! x = ram s !! x) as Hkeep.
  { intros q x Hq Hqpa HqT Hx. transitivity (ram s1 !! x).
    - eapply only_in_page; [done| |done|done|done].
      intros p Hp. by eapply pages_aligned; [apply (vm_pt _ _ _ _ _ Hvm)|].
    - apply HO1. intros Hxp. destruct (page_disjoint pa q); [apply Hpp|done|done|lia..]. }
  split; [split| | | | | |].
  - apply (ev_ok _ _ _ _ _ _ _ _ Hev).
  - intros n' Hn'. rewrite Hl2, Hl1. case_decide as Hd.
    + subst n'. by rewrite lookup_delete_eq.
    + rewrite lookup_delete_ne by done. by apply Hlf.
  - intros n' q perm' [Hne Hn']%lookup_delete_Some.
    destruct (Hpg _ _ _ Hn') as (Hq & ? & ? & ? & ?).
    assert (q ≠ pa) by (intros ->; by apply Hne; eapply Hinj).
    split_and!; try done; try lia; [|set_solver].
    eapply page_ok_mono; [done|]. intros x Hx. by apply HO2, HO1.
  - intros n1 n2 q p1 p2 [_ H1]%lookup_delete_Some [_ H2]%lookup_delete_Some. by eapply Hinj.
  - done.
  - unfold footprint. rewrite Hup. simpl. set_solver.
  - eapply only_in_trans.
    + eapply only_in_weaken; [by apply only_page_in|]. unfold footprint. rewrite Hup. set_solver.
    + eapply only_in_weaken; [done|]. unfold footprint. set_solver.
  - rewrite (ev_held _ _ _ _ _ _ _ _ Hev). done.
  - intros n' Hn'. rewrite Hl2, decide_False by lia. apply Hl1.
  - intros n' q perm' x Hu [Hne Hu']%lookup_delete_Some Hx.
    destruct (Hpg _ _ _ Hu) as (Hq & ? & ? & ? & ?).
    apply (Hkeep q); [apply Hq| |done|done]. intros ->. apply Hne. by eapply Hinj.
Qed.

(** [U] without the [k] pages from [n0]. *)
Definition without (n0 k : Z) U : umap :=
  filter (λ e, ¬ (n0 ≤ e.1 < n0 + k)) U.

Lemma lookup_without n0 k U n :
  without n0 k U !! n = if decide (n0 ≤ n < n0 + k) then None else U !! n.
Proof.
  unfold without. case_decide as Hd.
  - apply map_lookup_filter_None. right. intros e _. simpl. tauto.
  - destruct (U !! n) as [e|] eqn:He.
    + by apply map_lookup_filter_Some.
    + apply map_lookup_filter_None. by left.
Qed.

Lemma without_0 n0 k U : k ≤ 0 → without n0 k U = U.
Proof. intros. apply map_eq. intros n. rewrite lookup_without, decide_False by lia. done. Qed.

Lemma without_S n0 k U :
  0 ≤ k → without (n0 + 1) k (delete n0 U) = without n0 (k + 1) U.
Proof.
  intros. apply map_eq. intros n. rewrite !lookup_without.
  repeat case_decide; try lia; try done.
  - assert (n = n0) as -> by lia. apply lookup_delete_eq.
  - rewrite lookup_delete_ne by lia. done.
Qed.

(** A user page that [uvmunmap] accepts. *)
Definition leaf_perm (perm : Z) : Prop := Z.lor perm PTE_V ≠ PTE_V.

Lemma vpn_UTOP a : a `mod` 4096 = 0 → 0 ≤ vpn 0 a < UTOP → 0 ≤ a < MAXVA.
Proof.
  intros Ha Hn. pose proof (vpn0_aligned a Ha). change UTOP with (2 ^ 26 - 2) in *.
  change MAXVA with (2 ^ 38). lia.
Qed.

(** Every mapped user page has a table. *)
Lemma as_table s ps root T U a e :
  as_ok s ps root T U → a `mod` 4096 = 0 → U !! vpn 0 a = Some e →
  ∃ p, T !! (0, vpn 1 a) = Some p.
Proof.
  intros Hok Ha Hu. destruct e as [pa perm].
  destruct (as_page _ _ _ _ _ Hok _ _ _ Hu) as (Hpg & Hperm & _ & _ & Hn).
  pose proof (as_leaf _ _ _ _ _ Hok _ Hn) as Hl. rewrite Hu in Hl. unfold leaf in Hl.
  rewrite <- vpn_S in Hl by lia. change (0 + 1) with 1 in Hl.
  destruct (T !! (0, vpn 1 a)); [by eauto|].
  destruct (leaf_pte_facts pa perm) as (_ & _ & _ & Hv & _); [by eapply page_ok_pa|done|].
  by rewrite <- Hl in Hv.
Qed.

Lemma uvmunmap_loop_spec E s ps root T U a k fuel :
  as_ok s ps root T U → a `mod` 4096 = 0 → 0 ≤ vpn 0 a → 0 ≤ k → vpn 0 a + k ≤ UTOP →
  (∀ n, vpn 0 a ≤ n < vpn 0 a + k → ∃ pa perm, U !! n = Some (pa, perm) ∧ leaf_perm perm) →
  k < Z.of_nat fuel →
  wp E (uvmunmap_loop end_ fuel root a (a + k * 4096) true)
    (λ _ s', ∃ ps', as_step s ps root T U s' ps' T (without (vpn 0 a) k U)) s.
Proof.
  revert s ps U a k. induction fuel as [|fuel IH]; intros s ps U a k Hok Ha Hn0 Hk HU Hm Hf; [lia|].
  cbn [uvmunmap_loop]. destruct (decide (k = 0)) as [->|Hk0].
  { rewrite (proj2 (Z.ltb_ge a _)) by lia. apply wp_ret. exists ps.
    rewrite without_0 by lia. by apply as_step_refl. }
  rewrite (proj2 (Z.ltb_lt a _)) by lia. cbn [negb].
  destruct (Hm (vpn 0 a)) as (pa & perm & Hu & Hlp); [lia|].
  destruct (as_page _ _ _ _ _ Hok _ _ _ Hu) as (Hpg & Hperm & Hps & HT & Hnr).
  pose proof (vpn_UTOP a Ha Hnr) as Hva. pose proof (as_vm _ _ _ _ _ Hok) as Hvm.
  pose proof (vm_pt _ _ _ _ _ Hvm) as Hpt.
  destruct (as_table _ _ _ _ _ _ _ Hok Ha Hu) as [p Hp].
  pose proof (pt_page _ _ _ _ _ _ _ Hpt Hp) as (_ & ? & _). pose proof (PX_range 0 a).
  destruct (leaf_pte_facts pa perm) as (Hr & Hpa & Hfl & Hv & _); [by eapply page_ok_pa|done|].
  apply wp_bind. eapply walk_lookup; [done|done|done|]. rewrite Hp.
  rewrite (proj2 (Z.eqb_neq _ 0)) by (unfold pte_slot; lia).
  apply wp_bind. eapply load_leaf; [done..|lia|].
  rewrite (as_leaf _ _ _ _ _ Hok _ Hnr), Hu. unfold valid.
  rewrite (proj2 (Z.eqb_neq _ 0)) by done. cbn [negb].
  rewrite Hfl, (proj2 (Z.eqb_neq _ _)) by done. cbn [when]. rewrite Hpa.
  apply wp_bind. eapply kfree_spec; [done|apply (vm_free _ _ _ _ _ Hvm)|done|done|].
  intros s1 Hfl1 HO1 Hh1.
  destruct (vm_ok_only_page s s1 ps (pa :: ps) root T pa) as [Hvm1 Hl1]; try done;
    [apply Hpg|set_solver|].
  apply wp_bind. eapply store_leaf; [done|exact Hvm1|done|lia|lia|]. intros s2 Hev2 Hl2.
  pose proof (as_step_unmap s ps root T U _ pa perm s1 s2 Hok Hu Hfl1 HO1 Hh1 Hev2 Hl2) as Hst.
  assert (vpn 0 (a + 4096) = vpn 0 a + 1) as Hv1 by apply (vpn0_page a 1 Ha).
  change PGSIZE with 4096. assert (MAXVA < 2 ^ 39) by done. rewrite u64_small by lia.
  replace (a + k * 4096) with (a + 4096 + (k - 1) * 4096) by lia.
  eapply wp_mono; [apply (IH s2 (pa :: ps) (delete (vpn 0 a) U) (a + 4096) (k - 1))|].
  - apply (st_ok _ _ _ _ _ _ _ _ _ Hst).
  - rewrite <- Zplus_mod_idemp_r. change (4096 `mod` 4096) with 0. by rewrite Z.add_0_r.
  - lia.
  - lia.
  - lia.
  - intros n Hn. rewrite lookup_delete_ne by lia. apply Hm. lia.
  - lia.
  - intros _ s3 [ps3 Hst3]. exists ps3. rewrite Hv1, without_S in Hst3 by lia.
    replace (k - 1 + 1) with k in Hst3 by lia. eapply as_step_trans; [done..|].
    intros n e Hue. rewrite lookup_without. case_decide; [done|]. intros _.
    rewrite lookup_delete_ne by lia. done.
Qed.

(** [uvmunmap(pagetable, va, npages, 1)] on mapped pages removes and frees
    exactly those. *)
Lemma uvmunmap_spec E s ps root T U a k :
  as_ok s ps root T U → a `mod` 4096 = 0 → 0 ≤ vpn 0 a → 0 ≤ k → vpn 0 a + k ≤ UTOP →
  (∀ n, vpn 0 a ≤ n < vpn 0 a + k → ∃ pa perm, U !! n = Some (pa, perm) ∧ leaf_perm perm) →
  wp E (uvmunmap end_ root a k true)
    (λ _ s', ∃ ps', as_step s ps root T U s' ps' T (without (vpn 0 a) k U)) s.
Proof.
  intros Hok Ha Hn0 Hk HU Hm. unfold uvmunmap. change PGSIZE with 4096.
  rewrite Ha. cbn [Z.eqb negb]. pose proof (vpn0_aligned a Ha) as Hav.
  change UTOP with (2 ^ 26 - 2) in HU. rewrite u64_small by lia.
  apply uvmunmap_loop_spec; try done. lia.
Qed.

(** ** [uvmdealloc] *)

Lemma vpn0_PGROUNDUP sz : 0 ≤ sz → sz + 4095 < 2 ^ 64 → vpn 0 (PGROUNDUP sz) = (sz + 4095) `div` 4096.
Proof.
  intros. rewrite PGROUNDUP_eq by done. unfold vpn. change (2 ^ (12 + 9 * 0)) with 4096.
  by rewrite Z.div_mul.
Qed.

(** The number of pages that hold [sz] bytes. *)
Definition npg (sz : Z) : Z := (sz + 4095) `div` 4096.

Lemma uvmdealloc_spec E s ps root T U oldsz newsz :
  as_ok s ps root T U → 0 ≤ newsz ≤ oldsz → oldsz ≤ TRAPFRAME →
  (∀ n, npg newsz ≤ n < npg oldsz → ∃ pa perm, U !! n = Some (pa, perm) ∧ leaf_perm perm) →
  wp E (uvmdealloc end_ root oldsz newsz)
    (λ r s', r = newsz ∧ ∃ ps', as_step s ps root T U s' ps' T
        (without (npg newsz) (npg oldsz - npg newsz) U)) s.
Proof.
  intros Hok Hsz Htop Hm. unfold uvmdealloc. assert (TRAPFRAME < 2 ^ 39) by done.
  destruct (Z.leb_spec oldsz newsz) as [Hle|Hlt].
  { assert (oldsz = newsz) as -> by lia. apply wp_ret. split; [done|]. exists ps.
    rewrite without_0 by lia. by apply as_step_refl. }
  assert (npg oldsz ≤ UTOP) as Hut.
  { change UTOP with (2 ^ 26 - 2). change TRAPFRAME with ((2 ^ 26 - 2) * 4096) in Htop.
    unfold npg. enough ((oldsz + 4095) `div` 4096 < 2 ^ 26 - 1) by lia.
    apply Z.div_lt_upper_bound; lia. }
  assert (0 ≤ npg newsz ≤ npg oldsz) as Hnp.
  { unfold npg. split; [apply Z.div_pos; lia|]. apply Z.div_le_mono; lia. }
  rewrite !PGROUNDUP_eq by lia. fold (npg oldsz) (npg newsz).
  replace (npg oldsz * 4096 - npg newsz * 4096) with ((npg oldsz - npg newsz) * PGSIZE)
    by (change PGSIZE with 4096; lia).
  rewrite Z.div_mul by done. change UTOP with (2 ^ 26 - 2) in Hut. rewrite s32_small by lia.
  assert (vpn 0 (npg newsz * 4096) = npg newsz) as Hv.
  { unfold vpn. change (2 ^ (12 + 9 * 0)) with 4096. by rewrite Z.div_mul. }
  eapply (wp_call _ _ _ (λ _ s', ∃ ps', as_step s ps root T U s' ps' T
    (without (npg newsz) (npg oldsz - npg newsz) U)));
    [|intros _ s' Hs'; by apply wp_ret].
  apply wp_when; intros Hb.
  - pose proof (uvmunmap_spec E s ps root T U (npg newsz * 4096) (npg oldsz - npg newsz) Hok) as Hu.
    rewrite Hv in Hu. change UTOP with (2 ^ 26 - 2) in Hu.
    apply Hu; [by apply Z.mod_mul|lia..|]. intros n Hn. apply Hm. lia.
  - apply Z.ltb_ge in Hb. exists ps. rewrite without_0 by lia. by apply as_step_refl.
Qed.

(** ** Adding a page *)

(** The situation of [uvmalloc] and [uvmcopy] after [kalloc], filling the page
    and [mappages]: [p] left the free list and was written, and the tables
    evolved. *)
Section add_page.
Context (s : kmem) (ps1 : list Z) (root : Z) (T : tables) (U : umap) (p : Z).
Context (s2 s3 : kmem) (ps3 : list Z) (T3 : tables) (n : Z).
Hypothesis Hok : as_ok s (p :: ps1) root T U.
Hypothesis Hpg : page_ok end_ (ram s) p.
Hypothesis HO2 : only_page p (ram s) (ram s2).
Hypothesis Hh2 : kmem_held s2 = kmem_held s.
Hypothesis Hev : evolves end_ root s2 ps1 T s3 ps3 T3.

Lemma add_vm : vm_ok end_ s (p :: ps1) root T.
Proof. apply (as_vm _ _ _ _ _ Hok). Qed.

Lemma add_fresh : p ∉ ps1 ∧ p ∉ pages_of T ∧ p ∉ pages_of T3 ∧ p ∉ ps3 ∧ p ∉ upages U.
Proof.
  pose proof (fl_nodup _ _ _ (vm_free _ _ _ _ _ add_vm)) as [Hp1 _]%NoDup_cons.
  assert (p ∉ pages_of T) as HpT by (apply (vm_disj _ _ _ _ _ add_vm); by left).
  pose proof (ev_pages _ _ _ _ _ _ _ _ Hev) as Hc.
  assert (p ∉ pages_of T3 ∪ list_to_set ps3) as Hn.
  { rewrite Hc. rewrite not_elem_of_union, elem_of_list_to_set. done. }
  rewrite not_elem_of_union, elem_of_list_to_set in Hn.
  split_and!; try tauto. rewrite elem_of_upages. intros (n' & perm & Hu).
  destruct (as_page _ _ _ _ _ Hok _ _ _ Hu) as (_ & _ & Hps & _). apply Hps. by left.
Qed.

Lemma add_tables_sub q : q ∈ pages_of T3 → q ∈ pages_of T ∨ q ∈ ps1.
Proof.
  intros Hq. pose proof (ev_pages _ _ _ _ _ _ _ _ Hev) as Hc.
  assert (q ∈ pages_of T ∪ list_to_set ps1) as H by (rewrite <- Hc; by apply elem_of_union_l).
  by rewrite elem_of_union, elem_of_list_to_set in H.
Qed.

Lemma add_free_sub q : q ∈ ps3 → q ∈ pages_of T ∨ q ∈ ps1.
Proof.
  intros Hq. pose proof (ev_pages _ _ _ _ _ _ _ _ Hev) as Hc.
  assert (q ∈ pages_of T ∪ list_to_set ps1) as H.
  { rewrite <- Hc. apply elem_of_union_r. by apply elem_of_list_to_set. }
  by rewrite elem_of_union, elem_of_list_to_set in H.
Qed.

Lemma add_tables_aligned q : q ∈ pages_of T3 → q `mod` 4096 = 0.
Proof. eapply pages_aligned, (vm_pt _ _ _ _ _ (ev_ok _ _ _ _ _ _ _ _ Hev)). Qed.

(** A user page keeps its bytes, and so does [p] once it is filled. *)
Lemma add_kept n' pa perm x :
  U !! n' = Some (pa, perm) → pa ≤ x < pa + 4096 → ram s3 !! x = ram s !! x.
Proof.
  intros Hu Hx. destruct (as_page _ _ _ _ _ Hok _ _ _ Hu) as ([Hal _] & _ & Hps & HT & _).
  transitivity (ram s2 !! x).
  - eapply only_in_page; [apply (ev_only _ _ _ _ _ _ _ _ Hev)|apply add_tables_aligned|done| |done].
    intros [?|?]%add_tables_sub; [done|]. apply Hps. by right.
  - apply HO2. intros Hxp.
    destruct (page_disjoint p pa); [apply Hpg|done| |lia..]. intros ->. apply Hps. by left.
Qed.

Lemma add_page_bytes x : p ≤ x < p + 4096 → ram s3 !! x = ram s2 !! x.
Proof.
  intros Hx. eapply only_in_page;
    [apply (ev_only _ _ _ _ _ _ _ _ Hev)|apply add_tables_aligned|apply Hpg| |done].
  apply add_fresh.
Qed.

Lemma add_is_Some x : is_Some (ram s !! x) → is_Some (ram s3 !! x).
Proof. intros Hx. by apply (ev_only _ _ _ _ _ _ _ _ Hev), HO2. Qed.

Lemma add_user_page n' pa perm :
  U !! n' = Some (pa, perm) →
  page_ok end_ (ram s3) pa ∧ 0 ≤ perm < 1024 ∧ pa ∉ ps3 ∧ pa ∉ pages_of T3 ∧
  0 ≤ n' < UTOP ∧ pa ≠ p.
Proof.
  intros Hu. destruct (as_page _ _ _ _ _ Hok _ _ _ Hu) as (Hpp & Hperm & Hps & HT & Hn).
  assert (pa ≠ p ∧ pa ∉ ps1) as [??] by (by apply not_elem_of_cons in Hps).
  split_and!; try done; try lia.
  - eapply page_ok_mono; [done|]. apply add_is_Some.
  - by intros [?|?]%add_free_sub.
  - by intros [?|?]%add_tables_sub.
Qed.

Lemma add_only : only_in (footprint (p :: ps1) T U) (ram s) (ram s3).
Proof.
  eapply only_in_trans.
  - eapply only_in_weaken; [by apply only_page_in|]. unfold footprint. simpl. set_solver.
  - eapply only_in_weaken; [apply (ev_only _ _ _ _ _ _ _ _ Hev)|].
    intros q Hq%add_tables_sub. unfold footprint. simpl. set_solver.
Qed.

(** The page was mapped. *)
Lemma as_step_map perm :
  U !! n = None → 0 ≤ n < UTOP → 0 ≤ perm < 1024 →
  (∀ n', leaf (ram s3) T3 n' =
     if decide (n' = n) then leaf_pte p perm else leaf (ram s) T n') →
  as_step s (p :: ps1) root T U s3 ps3 T3 (<[n := (p, perm)]> U).
Proof.
  intros Hn Hnr Hperm Hl. pose proof add_fresh as (F1 & F2 & F3 & F4 & F5). split; [split| | | | | |].
  - apply (ev_ok _ _ _ _ _ _ _ _ Hev).
  - intros n' Hn'. rewrite Hl. case_decide as Hd.
    + subst n'. by rewrite lookup_insert_eq.
    + rewrite lookup_insert_ne by done. by apply (as_leaf _ _ _ _ _ Hok).
  - intros n' q perm' [[-> [= <- <-]]|[Hne Hu]]%lookup_insert_Some.
    + split_and!; try done; try lia. eapply page_ok_mono; [done|]. apply add_is_Some.
    + by destruct (add_user_page _ _ _ Hu) as (? & ? & ? & ? & ? & ?).
  - intros n1 n2 q p1 p2 Hu1 Hu2.
    apply lookup_insert_Some in Hu1 as [[<- E1]|[H1 Hu1]];
      apply lookup_insert_Some in Hu2 as [[<- E2]|[H2 Hu2]]; [done|..].
    + injection E1 as <- _. by destruct (add_user_page _ _ _ Hu2) as (_ & _ & _ & _ & _ & ?).
    + injection E2 as <- _. by destruct (add_user_page _ _ _ Hu1) as (_ & _ & _ & _ & _ & ?).
    + by eapply (as_inj _ _ _ _ _ Hok).
  - apply (ev_sub _ _ _ _ _ _ _ _ Hev).
  - unfold footprint. rewrite upages_insert by done.
    pose proof (ev_pages _ _ _ _ _ _ _ _ Hev) as Hc. simpl. clear -Hc. set_solver.
  - apply add_only.
  - rewrite (ev_held _ _ _ _ _ _ _ _ Hev). done.
  - intros n' Hn'. rewrite Hl. by rewrite decide_False by lia.
  - intros n' q perm' x Hu _ Hx. by eapply add_kept.
Qed.

(** The page was not mapped, and was freed again. *)
Lemma as_step_unmapped s4 :
  freelist_ok end_ s4 (p :: ps3) → only_page p (ram s3) (ram s4) → kmem_held s4 = kmem_held s3 →
  (∀ n', leaf (ram s3) T3 n' = leaf (ram s) T n') →
  as_step s (p :: ps1) root T U s4 (p :: ps3) T3 U.
Proof.
  intros Hfl4 HO4 Hh4 Hl. pose proof add_fresh as (F1 & F2 & F3 & F4 & F5).
  destruct (vm_ok_only_page s3 s4 ps3 (p :: ps3) root T3 p) as [Hvm4 Hl4]; try done.
  { apply (ev_ok _ _ _ _ _ _ _ _ Hev). }
  { apply Hpg. }
  { by intros q [->|?]%elem_of_cons; [left|right]. }
  assert (∀ x, is_Some (ram s !! x) → is_Some (ram s4 !! x)) as HS.
  { intros x Hx. by apply HO4, add_is_Some. }
  split; [split| | | | | |].
  - done.
  - intros n' Hn'. rewrite Hl4, Hl. by apply (as_leaf _ _ _ _ _ Hok).
  - intros n' q perm' Hu. destruct (add_user_page _ _ _ Hu) as (? & ? & ? & ? & ? & ?).
    split_and!; try done; try lia.
    + destruct (as_page _ _ _ _ _ Hok _ _ _ Hu) as (Hpp & _). by eapply page_ok_mono.
    + by apply not_elem_of_cons.
  - apply (as_inj _ _ _ _ _ Hok).
  - apply (ev_sub _ _ _ _ _ _ _ _ Hev).
  - unfold footprint. pose proof (ev_pages _ _ _ _ _ _ _ _ Hev) as Hc. simpl. clear -Hc. set_solver.
  - eapply only_in_trans; [apply add_only|]. eapply only_in_weaken; [by apply only_page_in|].
    unfold footprint. simpl. set_solver.
  - rewrite Hh4, (ev_held _ _ _ _ _ _ _ _ Hev). done.
  - intros n' Hn'. by rewrite Hl4, Hl.
  - intros n' q perm' x Hu _ Hx. destruct (add_user_page _ _ _ Hu) as ([Hal _] & _ & _ & _ & _ & Hne).
    rewrite (proj1 HO4); [by eapply add_kept|]. intros Hxp.
    destruct (page_disjoint p q); [apply Hpg|done|by intros ->|lia..].
Qed.
End add_page.

(** ** [uvmalloc] *)

Lemma npg_lt n sz : n * 4096 < sz ↔ n < npg sz.
Proof.
  unfold npg. split; intros.
  - enough (n + 1 ≤ (sz + 4095) `div` 4096) by lia. apply Z.div_le_lower_bound; lia.
  - enough (4096 * ((sz + 4095) `div` 4096) ≤ sz + 4095) by lia. apply Z.mul_div_le. lia.
Qed.

Lemma vpn0_mul n : vpn 0 (n * 4096) = n.
Proof. unfold vpn. change (2 ^ (12 + 9 * 0)) with 4096. by apply Z.div_mul. Qed.

Lemma memset_page E s p c (Q : Z → kmem → Prop) :
  page_ok end_ (ram s) p → is_byte c →
  (∀ m, only_page p (ram s) m → (∀ x, p ≤ x < p + 4096 → m !! x = Some c) →
        (mem_ok (ram s) → mem_ok m) → Q p (set_ram m s)) →
  wp E (on_ram (memset p c PGSIZE)) Q s.
Proof.
  intros Hp Hc HQ. apply wp_on_ram, memset_spec; [change PGSIZE with 4096; lia|apply Hp|].
  rewrite (u8_small _ Hc). apply HQ.
  - apply only_page_write; [lia|]. rewrite length_replicate. change PGSIZE with 4096. lia.
  - intros x Hx. rewrite lookup_write, length_replicate, decide_True by (change PGSIZE with 4096; lia).
    apply lookup_replicate_2. change PGSIZE with 4096. lia.
  - intros ?. apply mem_ok_write; [done|]. by apply Forall_replicate.
Qed.

(** Taking a page off the free list and filling it leaves the address space as
    it was. *)
Lemma fresh_filled s s1 p ps1 root T U m :
  as_ok s (p :: ps1) root T U → freelist_ok end_ s1 ps1 → page_ok end_ (ram s1) p →
  only_page p (ram s) (ram s1) → only_page p (ram s1) m → (mem_ok (ram s1) → mem_ok m) →
  page_ok end_ (ram s) p ∧ only_page p (ram s) m ∧ vm_ok end_ (set_ram m s1) ps1 root T ∧
  ∀ n, leaf m T n = leaf (ram s) T n.
Proof.
  intros Hok Hfl1 Hp O1 O2 Hm. pose proof (as_vm _ _ _ _ _ Hok) as Hvm.
  assert (page_ok end_ (ram s) p) as Hps.
  { pose proof (fl_pages _ _ _ (vm_free _ _ _ _ _ Hvm)) as Hf. by apply Forall_cons in Hf as [? _]. }
  assert (only_page p (ram s) m) as HO2 by by eapply only_page_trans.
  pose proof (fl_nodup _ _ _ (vm_free _ _ _ _ _ Hvm)) as [Hpp Hnd]%NoDup_cons.
  assert (freelist_ok end_ (set_ram m s1) ps1) as Hfl2.
  { eapply (freelist_ok_frame _ s1 ps1 {[p]}); [done|by apply only_page_in| |].
    - apply Hm, (fl_mem _ _ _ Hfl1).
    - intros q ->%elem_of_singleton. split; [apply Hp|done]. }
  destruct (vm_ok_only_page s (set_ram m s1) (p :: ps1) ps1 root T p) as [Hvm2 Hl2]; try done.
  { apply Hp. }
  { apply (vm_disj _ _ _ _ _ Hvm). by left. }
  { intros q ?. right. by right. }
Qed.

(** Mapping such a page: it becomes a user page, or is freed again. *)
Lemma map_fresh_page E s p ps1 root T U s2 na perm (Q : Z → kmem → Prop) :
  as_ok s (p :: ps1) root T U → page_ok end_ (ram s) p → only_page p (ram s) (ram s2) →
  vm_ok end_ s2 ps1 root T → (∀ n, leaf (ram s2) T n = leaf (ram s) T n) →
  kmem_held s2 = kmem_held s → U !! na = None → 0 ≤ na < UTOP → 0 ≤ perm < 1024 →
  (∀ s3 ps3 T3, as_step s (p :: ps1) root T U s3 ps3 T3 (<[na := (p, perm)]> U) →
     (∀ x, p ≤ x < p + 4096 → ram s3 !! x = ram s2 !! x) → Q 0 s3) →
  (∀ s3, (∀ R : unit → kmem → Prop,
            (∀ s4 T3, as_step s (p :: ps1) root T U s4 [p] T3 U → R tt s4) →
            wp E (kfree end_ p) R s3) → Q (-1) s3) →
  wp E (mappages root (na * 4096) PGSIZE p perm) Q s2.
Proof.
  intros Hok Hps HO2 Hvm2 Hl2 Hh2 Hnone Hnu Hperm HQ0 HQ1.
  change PGSIZE with (1 * 4096).
  eapply wp_mono; [apply (mappages_spec end_ Hend _ s2 ps1 root T (na * 4096) p perm 1);
    [done|by apply Z.mod_mul|lia|lia| | |done|]|].
  { change MAXVA with (2 ^ 26 * 4096). change UTOP with (2 ^ 26 - 2) in Hnu. lia. }
  { intros i Hi. replace (p + i * 4096) with p by lia. by eapply page_ok_pa. }
  { intros i Hi. replace i with 0 by lia. rewrite Z.add_0_r, vpn0_mul, Hl2.
    rewrite (as_leaf _ _ _ _ _ Hok) by lia. by rewrite Hnone. }
  intros r s3 (ps3 & T3 & j & Hev & Hr & Hl3). rewrite vpn0_mul in Hl3.
  destruct Hr as [[-> ->]|(-> & -> & Hj)].
  - apply (HQ0 _ ps3 T3).
    + eapply (as_step_map _ _ _ _ _ _ s2); try done.
      intros n'. rewrite Hl3. unfold map_run. rewrite Hl2.
      repeat case_decide; try lia. subst n'. f_equal. lia.
    + intros x Hx. by eapply (add_page_bytes s ps1 root T U p s2 s3 ps3 T3).
  - apply HQ1. intros R HR.
    pose proof (add_fresh s ps1 root T U p s2 s3 [] T3 Hok Hev) as (F1 & F2 & F3 & F4 & F5).
    assert (page_ok end_ (ram s3) p) as Hp3.
    { eapply page_ok_mono; [exact Hps|]. intros x Hx.
      by apply (ev_only _ _ _ _ _ _ _ _ Hev), HO2. }
    eapply kfree_spec; [done|apply (vm_free _ _ _ _ _ (ev_ok _ _ _ _ _ _ _ _ Hev))|done|done|].
    intros s4 Hfl4 HO4 Hh4. apply (HR s4 T3).
    eapply (as_step_unmapped _ _ _ _ _ _ s2 s3); try done.
    intros n'. rewrite Hl3. unfold map_run. rewrite decide_False by lia. apply Hl2.
Qed.

(** What [uvmalloc] answers when it maps the pages [n1 .. n2) in [U]: either
    all of them are there, zeroed, or [U0] is what is left. *)
Definition alloced root s ps T U U0 (n1 n2 newsz perm r : Z) s' : Prop :=
  ∃ ps' T' U', as_step s ps root T U s' ps' T' U' ∧
    ((r = newsz ∧
      (∀ n, n1 ≤ n < n2 → ∃ pa, U' !! n = Some (pa, perm) ∧ zeroed (ram s') pa) ∧
      (∀ n, ¬ (n1 ≤ n < n2) → U' !! n = U !! n)) ∨
     (r = 0 ∧ U' = U0)).

(** The failure path: the pages from [n0] to [na] are given back. *)
Lemma uvmalloc_fail E s ps root T U n0 na perm xs psx Tx :
  as_step xs psx root Tx U s ps T U →
  0 ≤ n0 ≤ na → na ≤ UTOP →
  (∀ n, n0 ≤ n < na → ∃ pa, U !! n = Some (pa, perm)) → leaf_perm perm →
  wp E (let! _ := uvmdealloc end_ root (na * 4096) (n0 * 4096) in ret 0)
    (λ r s', r = 0 ∧ ∃ ps', as_step xs psx root Tx U s' ps' T (without n0 (na - n0) U)) s.
Proof.
  intros Hst Hn0 Hna HU Hlp. pose proof (st_ok _ _ _ _ _ _ _ _ _ Hst) as Hok.
  assert (∀ n, npg (n * 4096) = n) as Hnp.
  { intros n. unfold npg. rewrite Z.add_comm, Z.div_add by lia. done. }
  apply wp_bind. eapply wp_mono; [apply (uvmdealloc_spec E s ps root T U); try done; try lia|].
  - change UTOP with (2 ^ 26 - 2) in *. change TRAPFRAME with ((2 ^ 26 - 2) * 4096). lia.
  - intros n. rewrite !Hnp. intros Hn. destruct (HU n Hn) as [pa Hpa]. eauto.
  - rewrite !Hnp. intros r s' (_ & ps' & Hst'). apply wp_ret.
    split; [done|]. exists ps'. eapply as_step_trans; [done..|]. by intros n e Hu _.
Qed.

(** One more page in front of what the rest of the loop maps. *)
Lemma alloced_step s ps root T U p s3 ps3 T3 n0 na n2 newsz perm r s4 :
  as_step s ps root T U s3 ps3 T3 (<[na := (p, perm)]> U) → U !! na = None →
  0 ≤ n0 ≤ na → na < n2 → zeroed (ram s3) p →
  alloced root s3 ps3 T3 (<[na := (p, perm)]> U)
    (without n0 (na + 1 - n0) (<[na := (p, perm)]> U)) (na + 1) n2 newsz perm r s4 →
  alloced root s ps T U (without n0 (na - n0) U) na n2 newsz perm r s4.
Proof.
  intros Hst Hnone Hn0 Hn2 Hz (ps4 & T4 & U4 & Hst4 & Hres). exists ps4, T4, U4. split.
  { eapply as_step_trans; [done..|]. intros n e Hu _.
    rewrite lookup_insert_ne; [done|]. intros ->. congruence. }
  destruct Hres as [(-> & Hin & Hout)|[-> ->]].
  - left. split; [done|]. split.
    + intros n Hn. destruct (decide (n = na)) as [->|]; [|apply Hin; lia].
      exists p. assert (U4 !! na = Some (p, perm)) as Hu4.
      { rewrite Hout by lia. apply lookup_insert_eq. }
      split; [done|]. intros x Hx. rewrite <- (Hz x Hx). unfold byte. f_equal.
      eapply (st_kept _ _ _ _ _ _ _ _ _ Hst4 na p perm); [apply lookup_insert_eq|done|done].
    + intros n Hn. rewrite Hout by lia. apply lookup_insert_ne. lia.
  - right. split; [done|]. apply map_eq. intros n. rewrite !lookup_without.
    repeat case_decide; try lia; try done.
    + assert (n = na) as -> by lia. by symmetry.
    + rewrite lookup_insert_ne by lia. done.
Qed.

Lemma uvmalloc_loop_spec E s ps root T U n0 na newsz xperm fuel :
  let perm := Z.lor (Z.lor PTE_R PTE_U) xperm in
  as_ok s ps root T U → 0 ≤ n0 ≤ na → newsz ≤ TRAPFRAME →
  (∀ n, n0 ≤ n < na → ∃ pa, U !! n = Some (pa, perm)) →
  (∀ n, na ≤ n < npg newsz → U !! n = None) →
  na ≤ UTOP → 0 ≤ xperm < 1024 → Z.max 0 (npg newsz - na) < Z.of_nat fuel →
  wp E (uvmalloc_loop end_ fuel root (na * 4096) (n0 * 4096) newsz xperm)
    (alloced root s ps T U (without n0 (na - n0) U) na (npg newsz) newsz perm) s.
Proof.
  intros perm. assert (Hperm : 0 ≤ xperm < 1024 → 0 ≤ perm < 1024)
    by (intros; by apply (lor_range _ _ 10)).
  assert (Hlp : leaf_perm perm).
  { unfold leaf_perm, perm. intros Heq. apply (f_equal (λ x, Z.testbit x 1)) in Heq.
    by rewrite !Z.lor_spec in Heq. }
  revert s ps T U na. induction fuel as [|fuel IH]; intros s ps T U na Hok Hn0 Htop HU HN Hut Hx Hf.
  { lia. }
  cbn [uvmalloc_loop]. destruct (Z.ltb_spec (na * 4096) newsz) as [Hlt|Hge]; cbn [negb].
  2:{ apply wp_ret. exists ps, T, U. split; [by apply as_step_refl|]. left.
      assert (¬ na < npg newsz) by (rewrite <- npg_lt; lia). split_and!; [done| |done].
      intros n Hn. lia. }
  apply npg_lt in Hlt as Hlt'. change TRAPFRAME with ((2 ^ 26 - 2) * 4096) in Htop.
  pose proof (as_vm _ _ _ _ _ Hok) as Hvm.
  apply wp_bind. eapply kalloc_spec; [done|apply (vm_free _ _ _ _ _ Hvm)| |].
  { intros ->. eapply wp_mono; [eapply (uvmalloc_fail _ s [] root T U n0 na perm);
      [by apply as_step_refl|done..]|].
    intros r s' (-> & ps' & Hst). exists ps', T, (without n0 (na - n0) U). split; [done|].
    by right. }
  intros p ps1 s1 -> Hfl1 Hp O1 _ Hh1. pose proof (page_nonzero _ Hend _ _ Hp).
  rewrite (proj2 (Z.eqb_neq p 0)) by done.
  apply wp_bind, memset_page; [done|by unfold is_byte|]. intros m O2 Hz Hm.
  destruct (fresh_filled s s1 p ps1 root T U m) as (Hps & HO2 & Hvm2 & Hl2); try done.
  assert (na < UTOP) as Hnu.
  { change UTOP with (2 ^ 26 - 2) in *. enough (na < 2 ^ 26 - 2) by lia.
    apply npg_lt in Hlt'. lia. }
  apply wp_bind. eapply (map_fresh_page _ s p ps1 root T U (set_ram m s1));
    [done..|apply HN; lia|lia|by apply Hperm| |].
  - intros s3 ps3 T3 Hst Hb. cbn [Z.eqb negb].
    change PGSIZE with 4096. rewrite u64_small by (change UTOP with (2 ^ 26 - 2) in *; lia).
    replace (na * 4096 + 4096) with ((na + 1) * 4096) by lia.
    eapply wp_mono; [apply (IH s3 ps3 T3 (<[na := (p, perm)]> U) (na + 1)); try done; try lia|].
    + apply (st_ok _ _ _ _ _ _ _ _ _ Hst).
    + intros n Hn. destruct (decide (n = na)) as [->|].
      * exists p. by rewrite lookup_insert_eq.
      * rewrite lookup_insert_ne by done. apply HU. lia.
    + intros n Hn. rewrite lookup_insert_ne by lia. apply HN. lia.
    + intros r s4 Hal. eapply alloced_step; [done|apply HN; lia|lia|lia| |done].
      intros x Hxp. apply byte_Some. rewrite Hb by done. by apply Hz.
  - intros s3 Hfree. cbn [Z.eqb negb]. apply wp_bind, Hfree. intros s4 T3 Hst.
    eapply wp_mono; [eapply (uvmalloc_fail _ s4 [p] root T3 U n0 na perm s (p :: ps1) T);
      [done|done|lia|done|done]|].
    intros r s5 (-> & ps5 & Hst5). exists ps5, T3, (without n0 (na - n0) U). split; [done|].
    by right.
Qed.
End spaces.
