(* ===== verification/VmCopy.v ===== *)
(** [uvmalloc] as a whole, and copying an address space for [fork]: [uvmcopy]
    of kernel/vm.c gives the child its own copy of every page of the parent. *)

From S2P Require Import Prelude Mem CString Riscv Kalloc Vm VmSpecs VmUser.
Local Open Scope Z_scope.

Section copy.
Context (end_ : Z) (Hend : 0 < end_).
Implicit Types (m : mem) (T : tables) (U : umap) (s : kmem) (ps : list Z).

Abbreviation as_ok := (as_ok end_).
Abbreviation as_step := (as_step end_).

Lemma npg_bounds sz : 0 ≤ sz → npg sz * 4096 - 4096 < sz ≤ npg sz * 4096.
Proof. intros. unfold npg. pose proof (Z.div_mod (sz + 4095) 4096). pose proof (Z.mod_pos_bound (sz + 4095) 4096). lia. Qed.

Lemma npg_top sz : 0 ≤ sz ≤ TRAPFRAME → 0 ≤ npg sz ≤ UTOP.
Proof.
  intros Hsz. pose proof (npg_bounds sz ltac:(lia)).
  change UTOP with (2 ^ 26 - 2). change TRAPFRAME with ((2 ^ 26 - 2) * 4096) in Hsz. lia.
Qed.

Lemma uvmalloc_spec E s ps root T U oldsz newsz xperm :
  as_ok s ps root T U → 0 ≤ oldsz ≤ newsz → newsz ≤ TRAPFRAME →
  (∀ n, npg oldsz ≤ n < npg newsz → U !! n = None) → 0 ≤ xperm < 1024 →
  wp E (uvmalloc end_ root oldsz newsz xperm)
    (alloced end_ root s ps T U U (npg oldsz) (npg newsz) newsz
       (Z.lor (Z.lor PTE_R PTE_U) xperm)) s.
Proof.
  intros Hok Hsz Htop HN Hx. unfold uvmalloc. rewrite (proj2 (Z.ltb_ge _ _)) by lia.
  assert (TRAPFRAME < 2 ^ 39) by done. rewrite PGROUNDUP_eq by lia. fold (npg oldsz).
  pose proof (npg_top oldsz ltac:(lia)). pose proof (npg_bounds newsz ltac:(lia)).
  rewrite <- (without_0 (npg oldsz) (npg oldsz - npg oldsz) U) at 2 by lia.
  apply uvmalloc_loop_spec; try done; try lia.
  change PGSIZE with 4096. rewrite !Nat2Z.inj_succ.
  destruct (Z.le_gt_cases (npg newsz) (npg oldsz)); [lia|].
  rewrite Z2Nat.id by (apply Z.div_pos; lia).
  assert (npg newsz - npg oldsz - 1 ≤ (newsz - npg oldsz * 4096) `div` 4096); [|lia].
  apply Z.div_le_lower_bound; lia.
Qed.

(** ** A second address space *)

Definition apages T U : gset Z := pages_of T ∪ upages U.

Lemma elem_of_apages q T U : q ∈ apages T U ↔ q ∈ pages_of T ∨ q ∈ upages U.
Proof. unfold apages. by rewrite elem_of_union. Qed.

Lemma elem_of_footprint q ps T U : q ∈ footprint ps T U ↔ q ∈ apages T U ∨ q ∈ ps.
Proof. unfold footprint, apages. by rewrite elem_of_union, elem_of_list_to_set. Qed.

(** A routine that works on one address space does not disturb another one. *)
Lemma as_ok_other s ps ro To Uo rn Tn Un s' ps' Tn' Un' :
  as_ok s ps ro To Uo → as_step s ps rn Tn Un s' ps' Tn' Un' →
  apages To Uo ## apages Tn Un →
  as_ok s' ps' ro To Uo ∧ apages To Uo ## apages Tn' Un' ∧
  ∀ n pa perm x, Uo !! n = Some (pa, perm) → pa ≤ x < pa + 4096 → ram s' !! x = ram s !! x.
Proof.
  intros Hok Hst Hd. pose proof Hok as [Hvm Hlf Hpg Hinj].
  assert (∀ q, q ∈ apages To Uo → q ∉ footprint ps Tn Un) as Hout.
  { intros q Hq [HqA|Hps]%elem_of_footprint; [by eapply Hd|].
    apply elem_of_apages in Hq as [Hq|(n & perm & Hu)%elem_of_upages].
    - by apply (vm_disj _ _ _ _ _ Hvm q).
    - by apply Hpg in Hu as (_ & _ & ? & _). }
  assert (footprint ps' Tn' Un' = footprint ps Tn Un) as Hfp by apply Hst.
  pose proof (st_only _ _ _ _ _ _ _ _ _ _ Hst) as HO.
  assert (∀ q, q ∈ footprint ps Tn Un → q `mod` 4096 = 0) as Hal.
  { intros q. rewrite <- Hfp. eapply as_page_aligned. apply Hst. }
  assert (∀ q, q ∈ footprint ps Tn Un → q ∉ pages_of To) as HnT.
  { intros q Hq HqT. apply (Hout q); [|done]. apply elem_of_apages. by left. }
  assert (∀ q, q ∈ ps' → q ∈ footprint ps Tn Un) as Hps'.
  { intros q Hq. rewrite <- Hfp. apply elem_of_footprint. by right. }
  split_and!.
  - split.
    + split.
      * apply (as_vm _ _ _ _ _ _ (st_ok _ _ _ _ _ _ _ _ _ _ Hst)).
      * eapply pt_ok_frame; [apply (vm_pt _ _ _ _ _ Hvm)|done..].
      * intros q Hq. by apply HnT, Hps'.
    + intros n Hn. erewrite leaf_frame; [by apply Hlf|apply (vm_pt _ _ _ _ _ Hvm)|done..].
    + intros n pa perm Hu. destruct (Hpg _ _ _ Hu) as (Hpp & ? & ? & ? & ?).
      split_and!; try done; try lia.
      * eapply page_ok_mono; [done|]. apply HO.
      * intros Hin%Hps'. apply (Hout pa); [|done]. apply elem_of_apages. right. apply elem_of_upages. eauto.
    + done.
  - apply elem_of_disjoint. intros q Hq Hq'. apply (Hout q Hq). rewrite <- Hfp. apply elem_of_footprint. by left.
  - intros n pa perm x Hu Hx. eapply only_in_page; [done|done| | |done].
    + by apply Hpg in Hu as ([? _] & _).
    + apply Hout, elem_of_apages. right. apply elem_of_upages. eauto.
Qed.

(** ** [uvmcopy] *)

(** The page at [pa'] in [m'] has the bytes of the page at [pa] in [m]. *)
Definition same_page m (pa : Z) m' (pa' : Z) : Prop :=
  ∀ j, 0 ≤ j < 4096 → m' !! (pa' + j) = m !! (pa + j).

Lemma memmove_page E s p pa (Q : Z → kmem → Prop) :
  page_ok end_ (ram s) p → page_ok end_ (ram s) pa → mem_ok (ram s) →
  (∀ m, only_page p (ram s) m → same_page (ram s) pa m p → mem_ok m → Q p (set_ram m s)) →
  wp E (on_ram (memmove p pa PGSIZE)) Q s.
Proof.
  intros Hp Hpa Hok HQ.
  apply wp_on_ram, memmove_spec; [change PGSIZE with 4096; lia|apply Hp|apply Hpa|done|].
  apply HQ.
  - apply only_page_write; [lia|]. rewrite read_length. change PGSIZE with 4096. lia.
  - intros j Hj. rewrite lookup_write, read_length, decide_True by (change PGSIZE with 4096; lia).
    rewrite lookup_read by (change PGSIZE with 4096; lia).
    replace (pa + Z.of_nat (Z.to_nat (p + j - p))) with (pa + j) by lia.
    symmetry. apply mapped_byte, Hpa. lia.
  - apply mem_ok_write; [done|]. by apply read_bytes.
Qed.

(** The outcome of copying the pages from [k] on. *)
Definition copied ro To Uo rn s ps Tn Un U0 (k n2 r : Z) s' : Prop :=
  ∃ ps' Tn' Un', as_step s ps rn Tn Un s' ps' Tn' Un' ∧
    as_ok s' ps' ro To Uo ∧ apages To Uo ## apages Tn' Un' ∧
    ((r = 0 ∧
      (∀ n, k ≤ n < n2 → ∃ pa perm pa', Uo !! n = Some (pa, perm) ∧
         Un' !! n = Some (pa', Z.lor perm PTE_V) ∧ same_page (ram s) pa (ram s') pa') ∧
      (∀ n, ¬ (k ≤ n < n2) → Un' !! n = Un !! n)) ∨
     (r = -1 ∧ Un' = U0)).

Lemma uvmcopy_fail E s ps ro To Uo rn Tn Un k n2 xs psx Tx :
  as_ok xs psx ro To Uo → as_step xs psx rn Tx Un s ps Tn Un →
  apages To Uo ## apages Tx Un → 0 ≤ k ≤ UTOP →
  (∀ n, 0 ≤ n < k → ∃ pa perm, Un !! n = Some (pa, perm) ∧ leaf_perm perm) →
  wp E (uvmunmap end_ rn 0 ((k * 4096) `div` PGSIZE) true;;; ret (-1))
    (copied ro To Uo rn xs psx Tx Un (without 0 k Un) k n2) s.
Proof.
  intros Hoko Hst Hd Hk HU. change PGSIZE with 4096. rewrite Z.div_mul by done.
  eapply wp_call; [apply (uvmunmap_spec end_ Hend E s ps rn Tn Un 0 k)|].
  - apply Hst.
  - done.
  - done.
  - lia.
  - change (vpn 0 0) with 0. lia.
  - change (vpn 0 0) with 0. intros n Hn. apply HU. lia.
  - change (vpn 0 0) with 0. intros _ s' (ps' & Hst'). apply wp_ret.
    exists ps', Tn, (without 0 k Un).
    assert (as_step xs psx rn Tx Un s' ps' Tn (without 0 k Un)) as Hst2.
    { eapply as_step_trans; [done..|]. done. }
    destruct (as_ok_other _ _ _ _ _ _ _ _ _ _ _ _ Hoko Hst2 Hd) as (? & ? & _).
    split_and!; try done. by right.
Qed.

(** One more page in front of what the rest of the loop copies. *)
Lemma copied_step ro To Uo rn s ps Tn Un p pa perm s3 ps3 T3 k n2 r s4 :
  as_ok s ps ro To Uo → apages To Uo ## apages Tn Un →
  as_step s ps rn Tn Un s3 ps3 T3 (<[k := (p, Z.lor perm PTE_V)]> Un) →
  Un !! k = None → 0 ≤ k < n2 → Uo !! k = Some (pa, perm) →
  same_page (ram s) pa (ram s3) p →
  copied ro To Uo rn s3 ps3 T3 (<[k := (p, Z.lor perm PTE_V)]> Un)
    (without 0 (k + 1) (<[k := (p, Z.lor perm PTE_V)]> Un)) (k + 1) n2 r s4 →
  copied ro To Uo rn s ps Tn Un (without 0 k Un) k n2 r s4.
Proof.
  intros Hoko Hd Hst Hnone Hk Huo Hsame (ps4 & T4 & U4 & Hst4 & Hoko4 & Hd4 & Hres).
  destruct (as_ok_other _ _ _ _ _ _ _ _ _ _ _ _ Hoko Hst Hd) as (_ & _ & Hold).
  exists ps4, T4, U4. split_and!; [|done|done|].
  { eapply as_step_trans; [done..|]. intros n e Hu _.
    rewrite lookup_insert_ne; [done|]. intros ->. congruence. }
  destruct Hres as [(-> & Hin & Hout)|[-> ->]].
  - left. split; [done|]. split.
    + intros n Hn. destruct (decide (n = k)) as [->|].
      * exists pa, perm, p. assert (U4 !! k = Some (p, Z.lor perm PTE_V)) as Hu4.
        { rewrite Hout by lia. apply lookup_insert_eq. }
        split_and!; [done..|]. intros j Hj. rewrite <- Hsame by done.
        eapply (st_kept _ _ _ _ _ _ _ _ _ _ Hst4 k p); [apply lookup_insert_eq|done|lia].
      * destruct (Hin n) as (qa & qperm & qa' & Hq & Hq' & Hs); [lia|].
        exists qa, qperm, qa'. split_and!; [done..|]. intros j Hj. rewrite Hs by done.
        eapply Hold; [done|lia].
    + intros n Hn. rewrite Hout by lia. apply lookup_insert_ne. lia.
  - right. split; [done|]. apply map_eq. intros n. rewrite !lookup_without.
    repeat case_decide; try lia; try done.
    + assert (n = k) as -> by lia. by symmetry.
    + rewrite lookup_insert_ne by lia. done.
Qed.

Lemma leaf_perm_V perm : leaf_perm perm → leaf_perm (Z.lor perm PTE_V).
Proof. unfold leaf_perm. by rewrite <- Z.lor_assoc. Qed.

Lemma uvmcopy_loop_spec E s ps ro To Uo rn Tn Un k sz fuel :
  as_ok s ps ro To Uo → as_ok s ps rn Tn Un → apages To Uo ## apages Tn Un →
  0 ≤ k → k ≤ UTOP → 0 ≤ sz ≤ TRAPFRAME →
  (∀ n, 0 ≤ n < npg sz → ∃ pa perm, Uo !! n = Some (pa, perm) ∧ leaf_perm perm) →
  (∀ n, 0 ≤ n < k → ∃ pa perm, Un !! n = Some (pa, perm) ∧ leaf_perm perm) →
  (∀ n, k ≤ n < npg sz → Un !! n = None) →
  Z.max 0 (npg sz - k) < Z.of_nat fuel →
  wp E (uvmcopy_loop end_ fuel ro rn (k * 4096) sz)
    (copied ro To Uo rn s ps Tn Un (without 0 k Un) k (npg sz)) s.
Proof.
  revert s ps Tn Un k. induction fuel as [|fuel IH];
    intros s ps Tn Un k Hoko Hokn Hd Hk Hku Hsz HUo HUn HN Hf; [lia|].
  pose proof (npg_top sz Hsz) as Htop.
  cbn [uvmcopy_loop]. destruct (Z.ltb_spec (k * 4096) sz) as [Hlt|Hge]; cbn [negb].
  2:{ apply wp_ret. exists ps, Tn, Un. split; [by apply as_step_refl|]. split_and!; try done. left.
      assert (¬ k < npg sz) by (rewrite <- npg_lt; lia). split_and!; [done| |done].
      intros n Hn. lia. }
  apply npg_lt in Hlt as Hlt'. destruct (HUo k) as (pa & perm & Huo & Hlp); [lia|].
  destruct (as_page _ _ _ _ _ _ Hoko _ _ _ Huo) as (Hpa & Hperm & Hpaps & HpaT & Hkr).
  pose proof (vm_pt _ _ _ _ _ (as_vm _ _ _ _ _ _ Hoko)) as Hpt.
  destruct (as_table end_ Hend s ps ro To Uo (k * 4096) (pa, perm) Hoko) as [tp Htp];
    [by apply Z.mod_mul|by rewrite vpn0_mul|].
  pose proof (pt_page _ _ _ _ _ _ _ Hpt Htp) as (_ & ? & _). pose proof (PX_range 0 (k * 4096)).
  destruct (leaf_pte_facts pa perm) as (_ & Hppa & Hfl & Hv & _); [by eapply page_ok_pa|done|].
  assert (0 ≤ k * 4096 < MAXVA) as Hva.
  { change MAXVA with (2 ^ 26 * 4096). change UTOP with (2 ^ 26 - 2) in Hkr. lia. }
  apply wp_bind. eapply walk_lookup; [done|done|done|]. rewrite Htp.
  rewrite (proj2 (Z.eqb_neq _ 0)) by (unfold pte_slot; lia).
  apply wp_bind. eapply load_leaf; [done..|lia|].
  rewrite (as_leaf _ _ _ _ _ _ Hoko) by (rewrite vpn0_mul; lia). rewrite vpn0_mul, Huo. unfold valid.
  rewrite (proj2 (Z.eqb_neq _ 0)) by done. cbn [negb]. rewrite Hppa, Hfl.
  apply wp_bind.
  eapply kalloc_spec; [done|apply (vm_free _ _ _ _ _ (as_vm _ _ _ _ _ _ Hokn))| |].
  { intros ->. apply (uvmcopy_fail _ s [] ro To Uo rn Tn Un); done. }
  intros p ps1 s1 -> Hfl1 Hp O1 _ Hh1. pose proof (page_nonzero _ Hend _ _ Hp).
  rewrite (proj2 (Z.eqb_neq p 0)) by done.
  assert (page_ok end_ (ram s1) pa) as Hpa1 by (eapply page_ok_mono; [done|apply O1]).
  apply wp_bind, memmove_page; [done|done|apply (fl_mem _ _ _ Hfl1)|]. intros m O2 Hsame Hm.
  destruct (fresh_filled end_ s s1 p ps1 rn Tn Un m) as (Hps & HO2 & Hvm2 & Hl2); try done.
  assert (same_page (ram s) pa m p) as Hsame2.
  { intros j Hj. rewrite Hsame by done. apply O1. intros Hx.
    destruct (page_disjoint p pa); [apply Hp|apply Hpa| |lia..]. intros ->. apply Hpaps. by left. }
  apply wp_bind.
  eapply (map_fresh_page end_ Hend _ s p ps1 rn Tn Un (set_ram m s1)); try done; try (apply HN; lia).
  { by apply (lor_range _ _ 10). }
  - intros s3 ps3 T3 Hst Hb. cbn [Z.eqb negb].
    change PGSIZE with 4096. rewrite u64_small by (change UTOP with (2 ^ 26 - 2) in *; lia).
    replace (k * 4096 + 4096) with ((k + 1) * 4096) by lia.
    destruct (as_ok_other _ _ _ _ _ _ _ _ _ _ _ _ Hoko Hst Hd) as (Hoko3 & Hd3 & _).
    eapply wp_mono; [apply (IH s3 ps3 T3 (<[k := (p, Z.lor perm PTE_V)]> Un) (k + 1)); try done; try lia|].
    + apply (st_ok _ _ _ _ _ _ _ _ _ _ Hst).
    + intros n Hn. destruct (decide (n = k)) as [->|].
      * exists p, (Z.lor perm PTE_V). rewrite lookup_insert_eq. split; [done|]. by apply leaf_perm_V.
      * rewrite lookup_insert_ne by done. apply HUn. lia.
    + intros n Hn. rewrite lookup_insert_ne by lia. apply HN. lia.
    + intros r s4 Hc. eapply copied_step; try done; [apply HN; lia|].
      intros j Hj. rewrite Hb by lia. by apply Hsame2.
  - intros s3 Hfree. cbn [Z.eqb negb]. apply wp_bind, Hfree. intros s4 T3 Hst.
    by apply (uvmcopy_fail _ s4 [p] ro To Uo rn T3 Un).
Qed.

(** [uvmcopy] into an address space that maps nothing below [sz]. *)
Lemma uvmcopy_spec E s ps ro To Uo rn Tn Un sz :
  as_ok s ps ro To Uo → as_ok s ps rn Tn Un → apages To Uo ## apages Tn Un →
  0 ≤ sz ≤ TRAPFRAME →
  (∀ n, 0 ≤ n < npg sz → ∃ pa perm, Uo !! n = Some (pa, perm) ∧ leaf_perm perm) →
  (∀ n, 0 ≤ n < npg sz → Un !! n = None) →
  wp E (uvmcopy end_ ro rn sz) (copied ro To Uo rn s ps Tn Un Un 0 (npg sz)) s.
Proof.
  intros. unfold uvmcopy. rewrite <- (without_0 0 0 Un) at 2 by lia. change 0 with (0 * 4096) at 1.
  apply uvmcopy_loop_spec; try done; try lia.
  rewrite !Nat2Z.inj_succ. change PGSIZE with 4096.
  pose proof (npg_bounds sz ltac:(lia)). rewrite Z2Nat.id by (apply Z.div_pos; lia).
  assert (npg sz - 1 ≤ sz `div` 4096); [|lia]. apply Z.div_le_lower_bound; lia.
Qed.
End copy.
