(* ===== verification/VmIO.v ===== *)
(** Copying between the kernel and a user address space: [walkaddr],
    [copyout], [copyin] of kernel/vm.c, specified by the byte-wise view of user
    memory ([uread], [uwrite]). *)

From S2P Require Import Prelude Mem CString Riscv Kalloc Vm VmSpecs VmUser VmCopy.
Local Open Scope Z_scope.

(** The physical address of a user virtual address. *)
Definition uaddr (U : umap) (va : Z) : option Z :=
  match U !! vpn 0 va with
  | Some (pa, perm) => if user_ok perm then Some (pa + va `mod` 4096) else None
  | None => None
  end.
(** Writing [bs] at user address [va], and reading [n] bytes from there. *)
Fixpoint uwrite (U : umap) (va : Z) (bs : list Z) (m : mem) : mem :=
  match bs with
  | [] => m
  | b :: bs =>
      uwrite U (va + 1) bs
        (match uaddr U va with Some x => <[x := b]> m | None => m end)
  end.
Fixpoint uread (U : umap) (m : mem) (va : Z) (n : nat) : list Z :=
  match n with
  | O => []
  | S n => match uaddr U va with Some x => byte m x | None => 0 end :: uread U m (va + 1) n
  end.
(** Every byte of the user range is accessible. *)
Definition uok (U : umap) (va : Z) (n : nat) : Prop :=
  ∀ i, (i < n)%nat → is_Some (uaddr U (va + Z.of_nat i)).

Section io.
Context (end_ : Z) (Hend : 0 < end_).
Implicit Types (m : mem) (T : tables) (U : umap) (s : kmem) (ps : list Z) (bs cs : list Z).

Abbreviation as_ok := (as_ok end_).

(** No page above the user part of the address space is accessible to the
    user: these are the trap frame and the trampoline. *)
Definition top_ok s T : Prop :=
  ∀ n, UTOP ≤ n < 2 ^ 26 → user_ok (leaf (ram s) T n) = false.

Lemma vpn0_mod va : va = vpn 0 va * 4096 + va `mod` 4096.
Proof. unfold vpn. change (2 ^ (12 + 9 * 0)) with 4096. pose proof (Z.div_mod va 4096). lia. Qed.

Lemma vpn0_add va i :
  0 ≤ i → va `mod` 4096 + i < 4096 → vpn 0 (va + i) = vpn 0 va ∧ (va + i) `mod` 4096 = va `mod` 4096 + i.
Proof.
  intros Hi Hlt. pose proof (vpn0_mod va) as Hv. pose proof (Z.mod_pos_bound va 4096 ltac:(lia)).
  replace (va + i) with (va `mod` 4096 + i + vpn 0 va * 4096) by lia.
  unfold vpn at 1. change (2 ^ (12 + 9 * 0)) with 4096.
  rewrite Z.div_add, Z.mod_add, Z.div_small, Z.mod_small by lia. lia.
Qed.

Lemma vpn0_PGROUNDDOWN va : vpn 0 (PGROUNDDOWN va) = vpn 0 va ∧ (PGROUNDDOWN va) `mod` 4096 = 0.
Proof.
  split; [|apply PGROUNDDOWN_aligned]. rewrite PGROUNDDOWN_eq. by rewrite vpn0_mul.
Qed.

(** [walkaddr] is [uaddr]; 0 stands for a fault. *)
Lemma walkaddr_spec E s ps root T U va (Q : Z → kmem → Prop) :
  as_ok s ps root T U → top_ok s T → 0 ≤ va → va `mod` 4096 = 0 →
  Q (default 0 (uaddr U va)) s → wp E (walkaddr root va) Q s.
Proof.
  intros Hok Htop Hva Hal HQ. pose proof (vpn0_aligned va Hal) as Hv.
  pose proof (vm_pt _ _ _ _ _ (as_vm _ _ _ _ _ _ Hok)) as Hpt.
  unfold walkaddr. change UTOP with (2 ^ 26 - 2) in *. destruct (Z.leb_spec MAXVA va) as [Hm|Hm].
  { change MAXVA with (2 ^ 26 * 4096) in Hm. apply wp_ret.
    assert (uaddr U va = None) as Hn; [|by rewrite Hn in HQ].
    unfold uaddr. destruct (U !! vpn 0 va) as [[pa perm]|] eqn:Hu; [|done].
    apply (as_page _ _ _ _ _ _ Hok) in Hu as (_ & _ & _ & _ & Hr).
    change UTOP with (2 ^ 26 - 2) in Hr. lia. }
  change MAXVA with (2 ^ 26 * 4096) in Hm.
  apply wp_bind. eapply walk_lookup; [done|done|change MAXVA with (2 ^ 26 * 4096); lia|].
  destruct (T !! (0, vpn 1 va)) as [p|] eqn:Hp.
  - pose proof (pt_page _ _ _ _ _ _ _ Hpt Hp) as (_ & ? & _). pose proof (PX_range 0 va).
    rewrite (proj2 (Z.eqb_neq _ 0)) by (unfold pte_slot; lia).
    apply wp_bind. eapply load_leaf; [done|done|lia|].
    destruct (Z.lt_ge_cases (vpn 0 va) (2 ^ 26 - 2)) as [Hlo|Hhi].
    + rewrite (as_leaf _ _ _ _ _ _ Hok) by (change UTOP with (2 ^ 26 - 2); lia).
      unfold uaddr in HQ. destruct (U !! vpn 0 va) as [[pa perm]|] eqn:Hu; [|by apply wp_ret].
      destruct (as_page _ _ _ _ _ _ Hok _ _ _ Hu) as (Hpa & Hperm & _).
      destruct (leaf_pte_facts pa perm) as (_ & Hppa & _ & Hvld & Hus); [by eapply page_ok_pa|done|].
      unfold valid. rewrite (proj2 (Z.eqb_neq _ 0)) by done. cbn [negb].
      unfold user_ok in *. rewrite Hus, Hppa. rewrite Hal, Z.add_0_r in HQ.
      by destruct (Z.land perm PTE_U =? 0); apply wp_ret.
    + rewrite Htop by (change UTOP with (2 ^ 26 - 2); lia). cbn [negb].
      assert (uaddr U va = None) as Hn.
      { unfold uaddr. destruct (U !! vpn 0 va) as [[pa perm]|] eqn:Hu; [|done].
        apply (as_page _ _ _ _ _ _ Hok) in Hu as (_ & _ & _ & _ & Hr).
        change UTOP with (2 ^ 26 - 2) in Hr. lia. }
      rewrite Hn in HQ. destruct (negb (valid _)); by apply wp_ret.
  - cbn [Z.eqb]. apply wp_ret. assert (uaddr U va = None) as Hn; [|by rewrite Hn in HQ].
    unfold uaddr. destruct (U !! vpn 0 va) as [e|] eqn:Hu; [|done].
    destruct (as_table end_ Hend s ps root T U va e Hok Hal Hu). congruence.
Qed.

(** ** A piece that lies in one page *)

Lemma uaddr_page U va pa perm i :
  U !! vpn 0 va = Some (pa, perm) → user_ok perm = true → 0 ≤ i → va `mod` 4096 + i < 4096 →
  uaddr U (va + i) = Some (pa + va `mod` 4096 + i).
Proof.
  intros Hu Hus Hi Hlt. unfold uaddr. destruct (vpn0_add va i Hi Hlt) as [-> ->].
  rewrite Hu, Hus. f_equal. lia.
Qed.

Lemma uwrite_page U va pa perm bs m :
  U !! vpn 0 va = Some (pa, perm) → user_ok perm = true →
  va `mod` 4096 + Z.of_nat (length bs) ≤ 4096 →
  uwrite U va bs m = write (pa + va `mod` 4096) bs m.
Proof.
  revert va m. induction bs as [|b bs IH]; intros va m Hu Hus Hl; simpl; [done|].
  simpl in Hl. pose proof (uaddr_page U va pa perm 0 Hu Hus ltac:(lia) ltac:(lia)) as Ha.
  rewrite !Z.add_0_r in Ha. rewrite Ha.
  destruct bs as [|c bs]; [done|]. simpl in Hl.
  destruct (vpn0_add va 1 ltac:(lia) ltac:(lia)) as [Hv Hm].
  rewrite IH by (rewrite ?Hv, ?Hm; simpl; (done || lia)). rewrite Hm. f_equal. lia.
Qed.

Lemma uread_page U va pa perm n m :
  U !! vpn 0 va = Some (pa, perm) → user_ok perm = true → va `mod` 4096 + Z.of_nat n ≤ 4096 →
  uread U m va n = read m (pa + va `mod` 4096) n.
Proof.
  revert va. induction n as [|n IH]; intros va Hu Hus Hl; [done|]. cbn [uread].
  pose proof (uaddr_page U va pa perm 0 Hu Hus ltac:(lia) ltac:(lia)) as Ha.
  rewrite !Z.add_0_r in Ha. rewrite Ha, read_S. f_equal.
  destruct n as [|n]; [done|].
  destruct (vpn0_add va 1 ltac:(lia) ltac:(lia)) as [Hv Hm].
  rewrite IH by (rewrite ?Hv, ?Hm; (done || lia)). rewrite Hm. f_equal. lia.
Qed.

Lemma uwrite_app U va bs cs m :
  uwrite U va (bs ++ cs) m = uwrite U (va + Z.of_nat (length bs)) cs (uwrite U va bs m).
Proof.
  revert va m. induction bs as [|b bs IH]; intros va m; [simpl; by rewrite Z.add_0_r|].
  cbn [app uwrite length]. rewrite IH. f_equal. lia.
Qed.

Lemma uread_add U m va n k :
  uread U m va (n + k) = uread U m va n ++ uread U m (va + Z.of_nat n) k.
Proof.
  revert va. induction n as [|n IH]; intros va; [simpl; by rewrite Z.add_0_r|].
  cbn [uread Nat.add app]. rewrite IH. do 3 f_equal. lia.
Qed.

Lemma uok_add U va n k : uok U va n → uok U (va + Z.of_nat n) k → uok U va (n + k).
Proof.
  intros H1 H2 i Hi. destruct (decide (i < n)%nat) as [|Hge]; [by apply H1|].
  specialize (H2 (i - n)%nat ltac:(lia)).
  by replace (va + Z.of_nat n + Z.of_nat (i - n)) with (va + Z.of_nat i) in H2 by lia.
Qed.

Lemma uok_page U va pa perm n :
  U !! vpn 0 va = Some (pa, perm) → user_ok perm = true → va `mod` 4096 + Z.of_nat n ≤ 4096 →
  uok U va n.
Proof. intros Hu Hus Hl i Hi. rewrite (uaddr_page U va pa perm) by (done || lia). eauto. Qed.

(** Where a loop iteration finds its page, if it does. *)
Lemma uaddr_start U va x :
  uaddr U (PGROUNDDOWN va) = Some x →
  ∃ perm, U !! vpn 0 va = Some (x, perm) ∧ user_ok perm = true.
Proof.
  unfold uaddr. destruct (vpn0_PGROUNDDOWN va) as [-> ->].
  destruct (U !! vpn 0 va) as [[pa perm]|]; [|done].
  destruct (user_ok perm) eqn:Hu; [|done]. intros [= <-]. rewrite Z.add_0_r. eauto.
Qed.

Lemma uaddr_start_None U va : uaddr U (PGROUNDDOWN va) = None → uaddr U va = None.
Proof.
  unfold uaddr. destruct (vpn0_PGROUNDDOWN va) as [-> ->].
  destruct (U !! vpn 0 va) as [[pa perm]|]; [|done]. by destruct (user_ok perm).
Qed.

(** ** Writing outside the tables *)

Lemma get64_ext m m' a : (∀ x, a ≤ x < a + 8 → m' !! x = m !! x) → get64 m' a = get64 m a.
Proof. intros He. unfold get64. f_equal. by apply read_ext. Qed.

(** Neither user data nor kernel buffers are part of the page table. *)
Lemma as_ok_mem s ps root T U m :
  as_ok s ps root T U → mem_ok m → (∀ x, is_Some (ram s !! x) → is_Some (m !! x)) →
  (∀ p x, p ∈ pages_of T ∨ p ∈ ps → p ≤ x < p + 4096 → m !! x = ram s !! x) →
  as_ok (set_ram m s) ps root T U ∧ ∀ n, leaf m T n = leaf (ram s) T n.
Proof.
  intros Hok Hm HS He. pose proof Hok as [[Hfl Hpt Hd] Hlf Hpg Hinj].
  assert (∀ l k p i, T !! (l, k) = Some p → 0 ≤ i < 512 →
    get64 m (pte_slot p i) = get64 (ram s) (pte_slot p i)) as Hg.
  { intros l k p i Hl Hi. apply get64_ext. intros x Hx. apply (He p).
    - left. apply elem_of_pages. eauto.
    - unfold pte_slot in Hx. lia. }
  assert (∀ n, leaf m T n = leaf (ram s) T n) as Hleaf.
  { intros n. unfold leaf. destruct (T !! (0, n `div` 512)) as [p|] eqn:Hl; [|done].
    eapply Hg; [done|]. apply Z.mod_pos_bound. lia. }
  split; [|done]. split; [split| | |].
  - destruct Hfl as [Hl Hnd Hps Hmo Hlk]. split; cbn [ram set_ram freelist kmem_held]; try done.
    + eapply linked_ext; [|done]. intros p Hp. apply get64_ext. intros x Hx.
      apply (He p); [by right|lia].
    + eapply Forall_impl; [done|]. intros p Hp. by eapply page_ok_mono.
  - cbn [ram set_ram]. destruct Hpt as [H1 H2 H3 H4 H5]. split; try done.
    + intros l k p Hl. destruct (H2 _ _ _ Hl) as (? & ? & ? & ?). split_and!; try done; try lia.
      by eapply page_ok_mono.
    + intros l k p i Hl Hl0 Hi. rewrite (Hg l k) by done. by apply H4.
  - done.
  - intros n Hn. cbn [ram set_ram]. rewrite Hleaf. by apply Hlf.
  - intros n pa perm Hu. destruct (Hpg _ _ _ Hu) as (? & ? & ? & ? & ?).
    split_and!; try done; try lia. by eapply page_ok_mono.
  - done.
Qed.

(** The bytes a user-memory access can touch are in user pages. *)
Lemma uaddr_page_of U va x :
  uaddr U va = Some x → ∃ pa, pa ∈ upages U ∧ pa ≤ x < pa + 4096.
Proof.
  unfold uaddr. destruct (U !! vpn 0 va) as [[pa perm]|] eqn:Hu; [|done].
  destruct (user_ok perm); [|done]. intros [= <-]. exists pa.
  split; [apply elem_of_upages; eauto|]. pose proof (Z.mod_pos_bound va 4096 ltac:(lia)). lia.
Qed.

(** ** The copying loops *)

(** The size of the piece an iteration copies. *)
Definition piece (va len : Z) : Z := Z.min len (4096 - va `mod` 4096).

Lemma piece_code va len :
  0 ≤ va →
  (let n := PGSIZE - (va - PGROUNDDOWN va) in if len <? n then len else n) = piece va len ∧
  va - PGROUNDDOWN va = va `mod` 4096 ∧ PGROUNDDOWN va + PGSIZE = va + (4096 - va `mod` 4096).
Proof.
  intros Hva. change PGSIZE with 4096. rewrite PGROUNDDOWN_eq.
  pose proof (Z.div_mod va 4096 ltac:(lia)). unfold piece.
  split_and!; try lia. cbn. destruct (Z.ltb_spec len (4096 - (va - va `div` 4096 * 4096))); lia.
Qed.

(** A kernel buffer: mapped memory away from the address space. *)
Definition kbuf s ps T U (a len : Z) : Prop :=
  mapped (ram s) a len ∧
  ∀ p x, p ∈ footprint ps T U → p ≤ x < p + 4096 → ¬ (a ≤ x < a + len).

(** [copyin] of a whole range, or of a prefix when it meets an inaccessible
    page. *)
Definition copied_in s U (dst va len r : Z) s' : Prop :=
  kmem_held s' = kmem_held s ∧
  ((r = 0 ∧ uok U va (Z.to_nat len) ∧
    ram s' = write dst (uread U (ram s) va (Z.to_nat len)) (ram s)) ∨
   (r = -1 ∧ ∃ k, 0 ≤ k < len ∧ uok U va (Z.to_nat k) ∧ uaddr U (va + k) = None ∧
    ram s' = write dst (uread U (ram s) va (Z.to_nat k)) (ram s))).

Lemma uread_write s ps root T U dst va bs n :
  as_ok s ps root T U → kbuf s ps T U dst (Z.of_nat (length bs)) →
  uread U (write dst bs (ram s)) va n = uread U (ram s) va n.
Proof.
  intros Hok [_ Hb]. revert va. induction n as [|n IH]; intros va; [done|].
  cbn [uread]. rewrite IH. f_equal. destruct (uaddr U va) as [x|] eqn:Hx; [|done].
  unfold byte. rewrite lookup_write_ne; [done|].
  apply uaddr_page_of in Hx as (pa & Hpa & Hx). apply (Hb pa); [|done].
  apply elem_of_footprint. left. apply elem_of_apages. by right.
Qed.

Lemma kbuf_write s ps T U dst len bs a :
  kbuf s ps T U a len → kbuf (set_ram (write dst bs (ram s)) s) ps T U a len.
Proof. intros [Hm Hb]. split; [by apply mapped_write|done]. Qed.

Lemma kbuf_sub s ps T U a len a' len' :
  kbuf s ps T U a len → a ≤ a' → a' + len' ≤ a + len → kbuf s ps T U a' len'.
Proof.
  intros [Hm Hb] ??. split; [by eapply mapped_mono|]. intros p x Hp Hx Hax. by apply (Hb p x Hp); lia.
Qed.

(** An iteration of either loop: it finds no accessible page, or a piece of
    [n] bytes in the page at [pa]. *)
Lemma wp_piece E s ps root T U va len (Q : Z → kmem → Prop) (K : Z → M kmem Z) :
  as_ok s ps root T U → top_ok s T → 0 ≤ va → 0 < len →
  (uaddr U va = None → Q (-1) s) →
  (∀ pa perm, U !! vpn 0 va = Some (pa, perm) → user_ok perm = true →
     page_ok end_ (ram s) pa → pa ∈ upages U → 0 ≤ vpn 0 va < UTOP →
     0 < piece va len ≤ len → va `mod` 4096 + piece va len ≤ 4096 → wp E (K pa) Q s) →
  wp E (let! pa0 := walkaddr root (PGROUNDDOWN va) in
        if pa0 =? 0 then ret (-1) else K pa0) Q s.
Proof.
  intros Hok Htop Hva Hlen H0 H1.
  apply wp_bind. destruct (vpn0_PGROUNDDOWN va) as [Hv0 Hv0m].
  pose proof (PGROUNDDOWN_bounds va). assert (0 ≤ PGROUNDDOWN va) as Hnn.
  { pose proof (Z.div_pos va 4096 ltac:(lia) ltac:(lia)). rewrite PGROUNDDOWN_eq. lia. }
  eapply walkaddr_spec; [done|done|lia|done|].
  destruct (uaddr U (PGROUNDDOWN va)) as [pa|] eqn:Ha; cbn [default from_option id].
  2:{ cbn [Z.eqb]. by apply wp_ret, H0, uaddr_start_None. }
  apply uaddr_start in Ha as (perm & Hu & Hus).
  destruct (as_page _ _ _ _ _ _ Hok _ _ _ Hu) as (Hpg & _ & _ & _ & Hr).
  rewrite (proj2 (Z.eqb_neq pa 0)) by exact (page_nonzero end_ Hend _ _ Hpg).
  pose proof (Z.mod_pos_bound va 4096 ltac:(lia)) as Hmod.
  apply (H1 pa perm); try done; unfold piece; try lia. apply elem_of_upages. eauto.
Qed.

(** The address where the next iteration goes on. *)
Lemma piece_next va len :
  0 ≤ vpn 0 va < UTOP → piece va len ≠ len →
  u64 (va + (4096 - va `mod` 4096)) = va + piece va len ∧ 0 ≤ va + piece va len < 2 ^ 64.
Proof.
  intros Hr Hne. pose proof (vpn0_mod va). pose proof (Z.mod_pos_bound va 4096 ltac:(lia)).
  change UTOP with (2 ^ 26 - 2) in Hr. unfold piece in *. rewrite u64_small; lia.
Qed.

Lemma copyin_loop_spec E s ps root T U dst va len fuel :
  as_ok s ps root T U → top_ok s T → kbuf s ps T U dst len →
  0 ≤ va → 0 ≤ len → len < Z.of_nat fuel →
  wp E (copyin_loop fuel root dst va len) (copied_in s U dst va len) s.
Proof.
  revert s dst va len. induction fuel as [|fuel IH]; intros s dst va len Hok Htop Hb Hva Hl Hf; [lia|].
  cbn [copyin_loop]. destruct (Z.ltb_spec 0 len) as [Hlt|Hge]; cbn [negb].
  2:{ apply wp_ret. split; [done|]. left. assert (len = 0) as -> by lia. split_and!; [done| |done].
      intros i Hi. lia. }
  destruct (piece_code va len Hva) as (Hn & Ho & Hva'). cbn zeta in Hn. rewrite Hn, Ho, Hva'.
  eapply wp_piece; [done|done|done|done| |].
  { intros Hnone. split; [done|]. right. split; [done|]. exists 0.
    rewrite Z.add_0_r. split_and!; try done; try lia. intros i Hi. lia. }
  intros pa perm Hu Hus (Hpa0 & Hpar & Hpam) Hin Hr Hnl Hno. set (n := piece va len) in *.
  pose proof (fl_mem _ _ _ (vm_free _ _ _ _ _ (as_vm _ _ _ _ _ _ Hok))) as Hmok.
  pose proof (Z.mod_pos_bound va 4096 ltac:(lia)) as Hmod.
  apply wp_bind, wp_on_ram, memmove_spec; [lia| | |done|].
  { eapply mapped_mono; [apply Hb|lia..]. }
  { eapply mapped_mono; [exact Hpam|lia..]. }
  rewrite <- (uread_page U va pa perm) by (done || lia).
  assert (uread U (ram s) va (Z.to_nat n) = read (ram s) (pa + va `mod` 4096) (Z.to_nat n)) as Hrp.
  { by apply (uread_page U va pa perm); try lia. }
  set (bs := uread U (ram s) va (Z.to_nat n)) in *.
  assert (length bs = Z.to_nat n) as Hbl by (rewrite Hrp; apply read_length).
  assert (Forall is_byte bs) as Hbb by (rewrite Hrp; by apply read_bytes).
  assert (kbuf s ps T U dst (Z.of_nat (length bs))) as Hb1 by (eapply kbuf_sub; [done|lia..]).
  destruct (as_ok_mem s ps root T U (write dst bs (ram s))) as [Hok1 Hleaf]; try done.
  { by apply mem_ok_write. }
  { intros x Hx. by apply is_Some_write. }
  { intros p x Hp Hx. apply lookup_write_ne. apply (proj2 Hb1 p); [|done].
    apply elem_of_footprint. rewrite elem_of_apages. tauto. }
  set (s1 := set_ram _ s) in *.
  assert (∀ k, 0 ≤ k → write (dst + n) (uread U (ram s1) (va + n) (Z.to_nat k)) (ram s1) =
    write dst (uread U (ram s) va (Z.to_nat (n + k))) (ram s)) as Hwr.
  { intros k Hk. unfold s1. cbn [ram set_ram]. rewrite (uread_write s ps root T U) by done.
    rewrite Z2Nat.inj_add, uread_add, write_app by lia. fold bs.
    rewrite Hbl, Z2Nat.id by lia. done. }
  assert (uok U va (Z.to_nat n)) as Huok by (eapply uok_page; [done..|lia]).
  destruct (decide (n = len)) as [Heq|Hne].
  - destruct fuel as [|fuel]; [lia|]. cbn [copyin_loop].
    rewrite (proj2 (Z.ltb_ge 0 (len - n))) by lia. cbn [negb]. apply wp_ret.
    split; [done|]. left. rewrite <- Heq. done.
  - destruct (piece_next va len) as [-> Hnx]; [done|done|]. fold n in Hnx |- *.
    eapply wp_mono; [apply (IH s1 (dst + n) (va + n) (len - n)); try lia; try done|].
    + intros i Hi. unfold s1. cbn [ram set_ram]. rewrite Hleaf. by apply Htop.
    + apply kbuf_write. eapply kbuf_sub; [exact Hb|lia..].
    + intros r s2 (Hh & [(-> & Hok2 & Hm)|(-> & k & Hk & Hok2 & Hnone & Hm)]); (split; [done|]).
      * left. rewrite Hwr in Hm by lia. replace (n + (len - n)) with len in Hm by lia.
        split_and!; [done| |done]. replace (Z.to_nat len) with (Z.to_nat n + Z.to_nat (len - n))%nat by lia.
        apply uok_add; [done|]. by rewrite Z2Nat.id by lia.
      * right. split; [done|]. exists (n + k). rewrite Hwr in Hm by lia.
        split_and!; [lia|lia| | |done].
        -- rewrite Z2Nat.inj_add by lia. apply uok_add; [done|]. by rewrite Z2Nat.id by lia.
        -- by rewrite Z.add_assoc.
Qed.

(** [copyout] of a whole range, or of a prefix. *)
Definition copied_out s U (va src len r : Z) s' : Prop :=
  kmem_held s' = kmem_held s ∧
  ((r = 0 ∧ uok U va (Z.to_nat len) ∧
    ram s' = uwrite U va (read (ram s) src (Z.to_nat len)) (ram s)) ∨
   (r = -1 ∧ ∃ k, 0 ≤ k < len ∧ uok U va (Z.to_nat k) ∧ uaddr U (va + k) = None ∧
    ram s' = uwrite U va (read (ram s) src (Z.to_nat k)) (ram s))).

(** Writing user data leaves kernel buffers alone. *)
Lemma read_user_write s ps T U src len pa a bs :
  kbuf s ps T U src len → pa ∈ upages U → pa ≤ a → a + Z.of_nat (length bs) ≤ pa + 4096 →
  ∀ b k, src ≤ b → b + Z.of_nat k ≤ src + len →
    read (write a bs (ram s)) b k = read (ram s) b k.
Proof.
  intros [_ Hb] Hpa Ha1 Ha2 b k Hb1 Hb2. apply read_ext. intros x Hx. apply lookup_write_ne.
  intros Hxa. apply (Hb pa x); [|lia..]. apply elem_of_footprint. left. apply elem_of_apages. by right.
Qed.

Lemma copyout_loop_spec E s ps root T U va src len fuel :
  as_ok s ps root T U → top_ok s T → kbuf s ps T U src len →
  0 ≤ va → 0 ≤ len → len < Z.of_nat fuel →
  wp E (copyout_loop fuel root va src len)
    (λ r s', copied_out s U va src len r s' ∧ as_ok s' ps root T U ∧ top_ok s' T) s.
Proof.
  revert s src va len. induction fuel as [|fuel IH]; intros s src va len Hok Htop Hb Hva Hl Hf; [lia|].
  cbn [copyout_loop]. destruct (Z.ltb_spec 0 len) as [Hlt|Hge]; cbn [negb].
  2:{ apply wp_ret. split; [|done]. split; [done|]. left. assert (len = 0) as -> by lia.
      split_and!; [done| |done]. intros i Hi. lia. }
  destruct (piece_code va len Hva) as (Hn & Ho & Hva'). cbn zeta in Hn. rewrite Hn, Ho, Hva'.
  eapply wp_piece; [done|done|done|done| |].
  { intros Hnone. split; [|done]. split; [done|]. right. split; [done|]. exists 0.
    rewrite Z.add_0_r. split_and!; try done; try lia. intros i Hi. lia. }
  intros pa perm Hu Hus (Hpa0 & Hpar & Hpam) Hin Hr Hnl Hno. set (n := piece va len) in *.
  pose proof (fl_mem _ _ _ (vm_free _ _ _ _ _ (as_vm _ _ _ _ _ _ Hok))) as Hmok.
  pose proof (Z.mod_pos_bound va 4096 ltac:(lia)) as Hmod.
  apply wp_bind, wp_on_ram, memmove_spec; [lia| | |done|].
  { eapply mapped_mono; [exact Hpam|lia..]. }
  { eapply mapped_mono; [apply Hb|lia..]. }
  set (bs := read (ram s) src (Z.to_nat n)).
  assert (length bs = Z.to_nat n) as Hbl by apply read_length.
  assert (write (pa + va `mod` 4096) bs (ram s) = uwrite U va bs (ram s)) as Hw.
  { symmetry. apply (uwrite_page U va pa perm); [done|done|lia]. }
  destruct (as_ok_mem s ps root T U (write (pa + va `mod` 4096) bs (ram s))) as [Hok1 Hleaf]; try done.
  { apply mem_ok_write; [done|]. by apply read_bytes. }
  { intros x Hx. by apply is_Some_write. }
  { intros p x Hp Hx. apply lookup_write_ne. rewrite Hbl. intros Hxa.
    destruct (as_page _ _ _ _ _ _ Hok _ _ _ Hu) as (_ & _ & Hps & HT & _).
    destruct (page_disjoint p pa); [|done| |lia..].
    - eapply as_page_aligned; [done|]. apply elem_of_footprint. rewrite elem_of_apages. tauto.
    - intros ->. tauto. }
  pose proof (read_user_write s ps T U src len pa (pa + va `mod` 4096) bs Hb Hin
    ltac:(lia) ltac:(lia)) as Hrd.
  set (s1 := set_ram _ s) in *.
  assert (top_ok s1 T) as Htop1.
  { intros i Hi. unfold s1. cbn [ram set_ram]. rewrite Hleaf. by apply Htop. }
  assert (∀ k, 0 ≤ k → n + k ≤ len →
    uwrite U (va + n) (read (ram s1) (src + n) (Z.to_nat k)) (ram s1) =
    uwrite U va (read (ram s) src (Z.to_nat (n + k))) (ram s)) as Hwr.
  { intros k Hk Hkl. unfold s1. cbn [ram set_ram]. rewrite Hrd by lia.
    rewrite Z2Nat.inj_add, read_app, uwrite_app by lia. fold bs.
    rewrite Hbl, Hw, Z2Nat.id by lia. done. }
  assert (uok U va (Z.to_nat n)) as Huok by (eapply uok_page; [done..|lia]).
  destruct (decide (n = len)) as [Heq|Hne].
  - destruct fuel as [|fuel]; [lia|]. cbn [copyout_loop].
    rewrite (proj2 (Z.ltb_ge 0 (len - n))) by lia. cbn [negb]. apply wp_ret.
    split; [|done]. split; [done|]. left. rewrite <- Heq. done.
  - destruct (piece_next va len) as [-> Hnx]; [done|done|]. fold n in Hnx |- *.
    eapply wp_mono; [apply (IH s1 (src + n) (va + n) (len - n)); try lia; try done|].
    + unfold s1. apply kbuf_write. eapply kbuf_sub; [exact Hb|lia..].
    + intros r s2 [(Hh & Hres) Hok2]. split; [|done]. split; [done|].
      destruct Hres as [(-> & Huk & Hm)|(-> & k & Hk & Huk & Hnone & Hm)].
      * left. rewrite Hwr in Hm by lia. replace (n + (len - n)) with len in Hm by lia.
        split_and!; [done| |done]. replace (Z.to_nat len) with (Z.to_nat n + Z.to_nat (len - n))%nat by lia.
        apply uok_add; [done|]. by rewrite Z2Nat.id by lia.
      * right. split; [done|]. exists (n + k). rewrite Hwr in Hm by lia.
        split_and!; [lia|lia| | |done].
        -- rewrite Z2Nat.inj_add by lia. apply uok_add; [done|]. by rewrite Z2Nat.id by lia.
        -- by rewrite Z.add_assoc.
Qed.

(** ** Reading back what was written *)

Lemma uaddr_inj s ps root T U a b x :
  as_ok s ps root T U → uaddr U a = Some x → uaddr U b = Some x → a = b.
Proof.
  intros Hok. unfold uaddr.
  destruct (U !! vpn 0 a) as [[pa p1]|] eqn:Ha; [|done].
  destruct (U !! vpn 0 b) as [[pb p2]|] eqn:Hb; [|done].
  destruct (user_ok p1); [|done]. destruct (user_ok p2); [|done]. intros [= <-] [= Hx].
  destruct (as_page _ _ _ _ _ _ Hok _ _ _ Ha) as ((Hal & _) & _).
  destruct (as_page _ _ _ _ _ _ Hok _ _ _ Hb) as ((Hbl & _) & _).
  pose proof (Z.mod_pos_bound a 4096 ltac:(lia)). pose proof (Z.mod_pos_bound b 4096 ltac:(lia)).
  destruct (decide (pa = pb)) as [->|Hne]; [|destruct (page_disjoint pa pb Hal Hbl Hne); lia].
  pose proof (as_inj _ _ _ _ _ _ Hok _ _ _ _ _ Ha Hb) as Hv.
  rewrite (vpn0_mod a), (vpn0_mod b), Hv. lia.
Qed.

Lemma uwrite_lookup_ne U va bs m x :
  (∀ i, (i < length bs)%nat → uaddr U (va + Z.of_nat i) ≠ Some x) →
  uwrite U va bs m !! x = m !! x.
Proof.
  revert va m. induction bs as [|b bs IH]; intros va m Hne; [done|]. cbn [uwrite].
  rewrite IH.
  - pose proof (Hne 0%nat ltac:(simpl; lia)) as H0. rewrite Z.add_0_r in H0.
    destruct (uaddr U va) as [y|]; [|done]. rewrite lookup_insert_ne; [done|congruence].
  - intros i Hi. replace (va + 1 + Z.of_nat i) with (va + Z.of_nat (S i)) by lia.
    apply Hne. simpl. lia.
Qed.

Lemma uread_uwrite s ps root T U va bs m :
  as_ok s ps root T U → uok U va (length bs) → uread U (uwrite U va bs m) va (length bs) = bs.
Proof.
  intros Hok. revert va m. induction bs as [|b bs IH]; intros va m Hu; [done|].
  cbn [length uread uwrite]. f_equal.
  - destruct (Hu 0%nat) as [x Hx]; [simpl; lia|]. rewrite Z.add_0_r in Hx. rewrite Hx.
    unfold byte. rewrite uwrite_lookup_ne; [by rewrite lookup_insert_eq|].
    intros i Hi Hxi. pose proof (uaddr_inj _ _ _ _ _ _ _ _ Hok Hx Hxi). lia.
  - apply IH. intros i Hi. replace (va + 1 + Z.of_nat i) with (va + Z.of_nat (S i)) by lia.
    apply Hu. simpl. lia.
Qed.
End io.
