(* ===== verification/VmTheorems.v ===== *)
(** The contract of kernel/vm.c: what user memory a process has after
    [mappages], [uvmalloc], [uvmdealloc] and [uvmcopy], and that [copyout] and
    [copyin] move bytes between it and the kernel. *)

From S2P Require Import Prelude Mem CString Riscv Kalloc Vm VmSpecs VmUser VmCopy VmIO.
Local Open Scope Z_scope.

(** * A small machine

    Eight pages of RAM from [demo_a]: the first two are empty page tables, the
    other six are free. *)

Definition demo_a : Z := PHYSTOP - 8 * 4096.
Definition demo_root (i : Z) : Z := demo_a + i * 4096.
Definition demo_free : list Z := (λ i, demo_root (Z.of_nat i)) <$> seq 2 6.

Fixpoint link_pages (ps : list Z) (m : mem) : mem :=
  match ps with
  | [] => m
  | p :: ps => put64 p (hd 0 ps) (link_pages ps m)
  end.
Definition demo_kmem : kmem :=
  Kmem (link_pages demo_free (small_ram demo_a)) (hd 0 demo_free) ∅.
Definition demo_tables (root : Z) : tables := {[ (2, 0) := root ]}.

(** A kernel buffer outside of the pages: above RAM in this machine. *)
Definition demo_buf (bs : list Z) (s : kmem) : kmem := set_ram (write PHYSTOP bs (ram s)) s.

Section demo.
Context (a : Z) (Ha : 0 < a).

Lemma link_pages_is_Some ps m x : is_Some (m !! x) → is_Some (link_pages ps m !! x).
Proof.
  induction ps as [|p ps IH]; simpl; [done|]. intros Hx. by apply is_Some_write, IH.
Qed.

Lemma link_pages_get64 ps m q :
  (∀ p, p ∈ ps → p + 8 ≤ q ∨ q + 8 ≤ p) → get64 (link_pages ps m) q = get64 m q.
Proof.
  induction ps as [|p ps IH]; intros Hd; simpl; [done|].
  rewrite get64_put64_ne by (apply Hd; by left). apply IH. intros p' ?. apply Hd. by right.
Qed.

Lemma link_pages_linked ps m :
  NoDup ps → Forall (λ p, p `mod` 4096 = 0 ∧ 0 < p < PHYSTOP) ps →
  linked (link_pages ps m) (hd 0 ps) ps.
Proof.
  induction ps as [|p ps IH]; intros Hnd Hps; simpl; [done|].
  apply NoDup_cons in Hnd as [Hp Hnd]. apply Forall_cons in Hps as [[Hpa Hpr] Hps].
  split; [done|]. rewrite get64_put64_eq.
  - eapply linked_ext; [|by apply IH]. intros q Hq. apply get64_put64_ne.
    rewrite Forall_forall in Hps. destruct (Hps q Hq) as [Hqa _].
    destruct (page_disjoint p q); try lia; try done. by intros ->.
  - destruct ps as [|q ps]; simpl; [lia|].
    apply Forall_cons in Hps as [[_ ?] _]. unfold PHYSTOP, KERNBASE in *. lia.
Qed.

Lemma link_pages_ok ps m :
  mem_ok m → Forall (page_ok a m) ps → NoDup ps → freelist_ok a (Kmem (link_pages ps m) (hd 0 ps) ∅) ps.
Proof.
  intros Hm Hps Hnd. split; cbn [ram freelist kmem_held].
  - apply link_pages_linked; [done|]. eapply Forall_impl; [done|].
    intros p (? & ? & _). split; [done|lia].
  - done.
  - eapply Forall_impl; [done|]. intros p Hp. eapply page_ok_mono; [done|].
    intros x. apply link_pages_is_Some.
  - clear Hps Hnd. induction ps as [|p ps IH]; simpl; [done|]. by apply mem_ok_put64.
  - set_solver.
Qed.

(** A zero page is an empty page table. *)
Lemma empty_table_ok s ps root :
  freelist_ok a s ps → page_ok a (ram s) root → root ∉ ps →
  (∀ i, 0 ≤ i < 512 → get64 (ram s) (pte_slot root i) = 0) →
  as_ok a s ps root (demo_tables root) ∅ ∧ top_ok s (demo_tables root).
Proof.
  intros Hfl Hr Hn Hz. unfold demo_tables.
  assert (∀ n, leaf (ram s) {[(2, 0) := root]} n = 0) as Hl.
  { intros n. unfold leaf. by rewrite lookup_singleton_ne by by intros [=]. }
  split; [split; [split|..]|].
  - done.
  - split.
    + apply lookup_singleton_eq.
    + intros l k p [[= <- <-] <-]%lookup_singleton_Some. split_and!; (done || lia).
    + intros k1 k2 p [<- _]%lookup_singleton_Some [<- _]%lookup_singleton_Some. done.
    + intros l k p i [[= <- <-] <-]%lookup_singleton_Some Hl0 Hi. rewrite Hz by done.
      by rewrite lookup_singleton_ne by by intros [=].
    + intros l k c [[= <- <-] <-]%lookup_singleton_Some. lia.
  - intros p Hp. rewrite elem_of_pages. intros (k & [_ <-]%lookup_singleton_Some). done.
  - intros n Hn'. by rewrite Hl, lookup_empty.
  - intros n pa perm. by rewrite lookup_empty.
  - intros n n' pa perm perm'. by rewrite lookup_empty.
  - intros n Hn'. by rewrite Hl.
Qed.
End demo.

Lemma demo_page_ok i : 0 ≤ i < 8 → page_ok demo_a (small_ram demo_a) (demo_root i).
Proof.
  intros Hi. assert (demo_a = 2281668608 ∧ PHYSTOP = 2281701376) as [Ha HP] by done.
  apply boot_page_ok; unfold demo_root; rewrite ?Z.mod_add by done; [lia|lia|done].
Qed.

Lemma demo_freelist : freelist_ok demo_a demo_kmem demo_free.
Proof.
  apply link_pages_ok; [done| | |].
  - apply small_ram_ok.
  - unfold demo_free. apply Forall_fmap, Forall_forall. intros i Hi%elem_of_seq.
    apply demo_page_ok. lia.
  - by_compute.
Qed.

Lemma demo_space i :
  0 ≤ i < 2 →
  as_ok demo_a demo_kmem demo_free (demo_root i) (demo_tables (demo_root i)) ∅ ∧
  top_ok demo_kmem (demo_tables (demo_root i)).
Proof.
  intros Hi. apply empty_table_ok; [by apply demo_freelist| | |].
  - eapply page_ok_mono; [apply demo_page_ok; lia|]. intros x. apply link_pages_is_Some.
  - unfold demo_free. intros (j & Hj & ?%elem_of_seq)%list_elem_of_fmap. unfold demo_root in Hj. lia.
  - intros j Hj. cbn [ram demo_kmem]. rewrite link_pages_get64.
    + apply get64_zero; [|done]. intros x Hx. apply byte_Some, small_ram_lookup.
      unfold demo_root in Hx. change PHYSTOP with (demo_a + 8 * 4096). lia.
    + unfold demo_free. intros p (k & -> & Hk%elem_of_seq)%list_elem_of_fmap.
      unfold pte_slot, demo_root. lia.
Qed.

Definition returned {S} (v : Z) (r : res S Z) : bool :=
  match r with Ok a _ => a =? v | _ => false end.

(** Evaluating a routine selects the outcome its specification allows. *)
Lemma wp_returned {S} v (m : M S Z) (Q : Z → S → Prop) s :
  wp no_sleep m Q s → returned v (m s) = true → ∃ s', Q v s'.
Proof.
  unfold wp. destruct (m s) as [a s'| | | | |]; simpl; try done.
  intros HQ ->%Z.eqb_eq. eauto.
Qed.

(** The parent of the fork: one page is mapped in the first table. *)
Lemma demo_parent :
  ∃ s ps T pa, as_ok demo_a s ps (demo_root 0) T {[0 := (pa, 22)]} ∧ top_ok s T ∧
    as_ok demo_a s ps (demo_root 1) (demo_tables (demo_root 1)) ∅ ∧
    apages T {[0 := (pa, 22)]} ## apages (demo_tables (demo_root 1)) ∅.
Proof.
  destruct (demo_space 0) as [Hok0 Htop0]; [lia|]. destruct (demo_space 1) as [Hok1 _]; [lia|].
  assert (apages (demo_tables (demo_root 1)) ∅ ## apages (demo_tables (demo_root 0)) ∅) as Hd.
  { intros q. rewrite !elem_of_apages, !elem_of_pages, !elem_of_upages. unfold demo_tables.
    intros [([l k] & [_ <-]%lookup_singleton_Some)|(n & perm & Hn)]; [|by rewrite lookup_empty in Hn].
    intros [([l' k'] & [_ Heq]%lookup_singleton_Some)|(n & perm & Hn)]; [|by rewrite lookup_empty in Hn].
    by unfold demo_root in Heq; lia. }
  destruct (wp_returned 4096 _ _ _ (uvmalloc_spec demo_a ltac:(done) no_sleep demo_kmem demo_free
    (demo_root 0) (demo_tables (demo_root 0)) ∅ 0 4096 PTE_W Hok0 ltac:(lia) ltac:(done)
    ltac:(done) ltac:(done))) as (s & ps & T & U & Hst & [(_ & Hin & Hout)|[? _]]);
    [vm_compute; reflexivity| |done].
  destruct (Hin 0) as (pa & Hpa & _); [done|].
  assert (U = {[0 := (pa, 22)]}) as ->.
  { apply map_eq. intros n. destruct (decide (n = 0)) as [->|Hn].
    - by rewrite lookup_singleton_eq.
    - rewrite lookup_singleton_ne by done. rewrite Hout; [done|].
      change (npg 0) with 0. change (npg 4096) with 1. lia. }
  destruct (as_ok_other _ _ _ _ _ _ _ _ _ _ _ _ _ Hok1 Hst Hd) as (Hok1' & Hd' & _).
  exists s, ps, T, pa. split_and!; [apply Hst| |done|by symmetry].
  intros n Hn. rewrite (st_top _ _ _ _ _ _ _ _ _ _ Hst) by lia. by apply Htop0.
Qed.

(** * The contract *)

(** [mappages] of [k] whole pages that are not mapped yet either maps all
    of them with the given permissions and returns 0, or runs out of memory and
    returns -1 with a prefix mapped; other mappings stay, the tables it adds come
    from the free list, and only page-table pages are written. *)
Theorem mappages_maps (end_ : Z) (s : kmem) (ps : list Z) (root : Z) (T : tables)
    (a pa perm k : Z) :
  0 < end_ → vm_ok end_ s ps root T →
  a `mod` 4096 = 0 → 0 ≤ a → 0 < k → a + k * 4096 ≤ MAXVA →
  (∀ i, 0 ≤ i < k → pa_ok (pa + i * 4096)) → 0 ≤ perm < 1024 →
  (∀ i, 0 ≤ i < k → valid (leaf (ram s) T (vpn 0 a + i)) = false) →
  returns (mappages root a (k * 4096) pa perm) (mapped_run end_ root s ps T (vpn 0 a) k pa perm) s.
Proof. intros. by apply mappages_spec. Qed.

Lemma mappages_maps_witness :
  returns (mappages (demo_root 0) (2 ^ 30) (2 * 4096) UART0 (Z.lor PTE_R PTE_W))
    (mapped_run demo_a (demo_root 0) demo_kmem demo_free (demo_tables (demo_root 0))
       (vpn 0 (2 ^ 30)) 2 UART0 (Z.lor PTE_R PTE_W)) demo_kmem.
Proof.
  destruct (demo_space 0) as [Hok _]; [lia|].
  apply (mappages_maps demo_a); [done|apply Hok|done|done|done|done| |done|].
  - intros i Hi. assert (i = 0 ∨ i = 1) as [-> | ->] by lia; by split.
  - intros i Hi. rewrite (as_leaf _ _ _ _ _ _ Hok); [done|].
    change (vpn 0 (2 ^ 30)) with 262144. change UTOP with 67108862. lia.
Defined.

(** C29: [uvmalloc] grows a process from [oldsz] to [newsz]: it either maps every
    new page, zeroed, with the permissions read, user and [xperm] and returns
    [newsz], or returns 0 with exactly the old pages mapped. In both cases the
    old pages keep their contents, no page is lost and nothing outside the
    process and the free list is written. *)
Theorem uvmalloc_grows (end_ : Z) (s : kmem) (ps : list Z) (root : Z) (T : tables)
    (U : umap) (oldsz newsz xperm : Z) :
  0 < end_ → as_ok end_ s ps root T U → 0 ≤ oldsz ≤ newsz → newsz ≤ TRAPFRAME →
  (∀ n, npg oldsz ≤ n < npg newsz → U !! n = None) → 0 ≤ xperm < 1024 →
  returns (uvmalloc end_ root oldsz newsz xperm)
    (alloced end_ root s ps T U U (npg oldsz) (npg newsz) newsz
       (Z.lor (Z.lor PTE_R PTE_U) xperm)) s.
Proof. intros. by apply uvmalloc_spec. Qed.

Lemma uvmalloc_grows_witness :
  returns (uvmalloc demo_a (demo_root 0) 0 5000 PTE_W)
    (alloced demo_a (demo_root 0) demo_kmem demo_free (demo_tables (demo_root 0)) ∅ ∅
       0 2 5000 (Z.lor (Z.lor PTE_R PTE_U) PTE_W)) demo_kmem.
Proof.
  destruct (demo_space 0) as [Hok _]; [lia|].
  by apply (uvmalloc_grows demo_a demo_kmem demo_free (demo_root 0) (demo_tables (demo_root 0)) ∅ 0 5000).
Defined.

(** [uvmdealloc] unmaps exactly the pages above [newsz] and gives them back
    to the free list; the remaining pages keep their contents. *)
Theorem uvmdealloc_shrinks (end_ : Z) (s : kmem) (ps : list Z) (root : Z) (T : tables)
    (U : umap) (oldsz newsz : Z) :
  0 < end_ → as_ok end_ s ps root T U → 0 ≤ newsz ≤ oldsz → oldsz ≤ TRAPFRAME →
  (∀ n, npg newsz ≤ n < npg oldsz → ∃ pa perm, U !! n = Some (pa, perm) ∧ leaf_perm perm) →
  returns (uvmdealloc end_ root oldsz newsz)
    (λ r s', r = newsz ∧ ∃ ps', as_step end_ s ps root T U s' ps' T
        (without (npg newsz) (npg oldsz - npg newsz) U)) s.
Proof. intros. by apply uvmdealloc_spec. Qed.

Lemma uvmdealloc_shrinks_witness :
  ∃ s ps T U, U !! 0 ≠ None ∧
  returns (uvmdealloc demo_a (demo_root 0) 4096 0)
    (λ r s', r = 0 ∧ ∃ ps', as_step demo_a s ps (demo_root 0) T U s' ps' T
        (without 0 (1 - 0) U)) s.
Proof.
  destruct demo_parent as (s & ps & T & pa & Hok & _). exists s, ps, T, {[0 := (pa, 22)]}.
  split; [done|]. apply (uvmdealloc_shrinks demo_a s ps (demo_root 0) T _ 4096 0);
    [done|done|done|done|].
  change (npg 0) with 0. change (npg 4096) with 1. intros n Hn.
  assert (n = 0) as -> by lia. by exists pa, 22.
Defined.

(** C26: [uvmcopy], the memory half of [fork]: it either gives the child its own
    pages with the contents and permissions of the parent's and returns 0, or
    returns -1 and leaves the child without them; the parent's pages and page
    table stay as they were and the two share no page. *)
Theorem uvmcopy_copies (end_ : Z) (s : kmem) (ps : list Z) (ro : Z) (To : tables)
    (Uo : umap) (rn : Z) (Tn : tables) (Un : umap) (sz : Z) :
  0 < end_ → as_ok end_ s ps ro To Uo → as_ok end_ s ps rn Tn Un →
  apages To Uo ## apages Tn Un → 0 ≤ sz ≤ TRAPFRAME →
  (∀ n, 0 ≤ n < npg sz → ∃ pa perm, Uo !! n = Some (pa, perm) ∧ leaf_perm perm) →
  (∀ n, 0 ≤ n < npg sz → Un !! n = None) →
  returns (uvmcopy end_ ro rn sz) (copied end_ ro To Uo rn s ps Tn Un Un 0 (npg sz)) s.
Proof. intros. by apply uvmcopy_spec. Qed.

Lemma uvmcopy_copies_witness :
  ∃ s ps To Uo, Uo !! 0 ≠ None ∧
  returns (uvmcopy demo_a (demo_root 0) (demo_root 1) 4096)
    (copied demo_a (demo_root 0) To Uo (demo_root 1) s ps (demo_tables (demo_root 1)) ∅ ∅ 0 1) s.
Proof.
  destruct demo_parent as (s & ps & T & pa & Hok & _ & Hok1 & Hd).
  exists s, ps, T, {[0 := (pa, 22)]}. split; [done|].
  apply (uvmcopy_copies demo_a s ps (demo_root 0) T {[0 := (pa, 22)]} (demo_root 1)
    (demo_tables (demo_root 1)) ∅ 4096); [done|done|done|done|done| |done].
  change (npg 4096) with 1. intros n Hn. assert (n = 0) as -> by lia. by exists pa, 22.
Defined.

Lemma uwrite_is_Some U va bs m x : is_Some (m !! x) → is_Some (uwrite U va bs m !! x).
Proof.
  revert va m. induction bs as [|b bs IH]; intros va m Hx; [done|]. cbn [uwrite]. apply IH.
  destruct (uaddr U va) as [y|]; [|done]. apply lookup_insert_is_Some'. by right.
Qed.

(** C8: What [copyout] writes to user memory, [copyin] reads back: the copy
    into the second kernel buffer succeeds with the bytes of the first one, or
    one of the two calls fails with -1 because a page of the range is not
    accessible to the user, and never otherwise. *)
Theorem copyout_copyin (end_ : Z) (s : kmem) (ps : list Z) (root : Z) (T : tables)
    (U : umap) (va src dst len : Z) :
  0 < end_ → as_ok end_ s ps root T U → top_ok s T → 0 ≤ va → 0 ≤ len →
  kbuf s ps T U src len → kbuf s ps T U dst len →
  returns (let! r := copyout root va src len in
           if r =? 0 then copyin root dst va len else ret r)
    (λ r s', r = 0 ∧ uok U va (Z.to_nat len) ∧
               read (ram s') dst (Z.to_nat len) = read (ram s) src (Z.to_nat len) ∨
             r = -1 ∧ ¬ uok U va (Z.to_nat len)) s.
Proof.
  intros He Hok Htop Hva Hl Hs [Hdm Hd].
  assert (∀ k, 0 ≤ k < len → uaddr U (va + k) = None → ¬ uok U va (Z.to_nat len)) as Hno.
  { intros k Hk Hn Hu. destruct (Hu (Z.to_nat k)) as [x Hx]; [lia|].
    rewrite Z2Nat.id in Hx by lia. congruence. }
  eapply wp_call; [by apply (copyout_loop_spec end_ He _ s ps root T U); try lia|].
  intros r s1 [[_ [(-> & Hu & Hm)|(-> & k & Hk & _ & Hn & _)]] [Hok1 Htop1]]; cbn [Z.eqb].
  2:{ apply wp_ret. right. split; [done|]. by apply (Hno k). }
  set (bs := read (ram s) src (Z.to_nat len)) in *.
  assert (length bs = Z.to_nat len) as Hbl by apply read_length.
  assert (kbuf s1 ps T U dst len) as Hd1.
  { split; [|done]. intros x Hx. rewrite Hm. by apply uwrite_is_Some, Hdm. }
  eapply wp_mono; [apply (copyin_loop_spec end_ He _ s1 ps root T U); try done; lia|].
  intros r s2 [_ [(-> & _ & Hm2)|(-> & k & Hk & _ & Hn & _)]]; [left|right; split; [done|by apply (Hno k)]].
  split_and!; [done|done|]. rewrite Hm2.
  assert (uread U (ram s1) va (Z.to_nat len) = bs) as ->.
  { rewrite Hm, <- Hbl. eapply (uread_uwrite end_); [done|]. by rewrite Hbl. }
  rewrite <- Hbl. apply read_write_eq.
Qed.

Lemma copyout_copyin_witness :
  ∃ (s : kmem) (U : umap), uok U 100 3 ∧
  returns (let! r := copyout (demo_root 0) 100 PHYSTOP 3 in
           if r =? 0 then copyin (demo_root 0) (PHYSTOP + 8) 100 3 else ret r)
    (λ r s', r = 0 ∧ uok U 100 3 ∧ read (ram s') (PHYSTOP + 8) 3 = [7; 8; 9] ∨
             r = -1 ∧ ¬ uok U 100 3) (demo_buf [7; 8; 9; 0; 0; 0; 0; 0; 0; 0; 0] s).
Proof.
  destruct demo_parent as (s & ps & T & pa & Hok & Htop & _).
  exists s, {[0 := (pa, 22)]}.
  split. { intros i Hi. assert (i = 0 ∨ i = 1 ∨ i = 2)%nat as [-> | [-> | ->]] by lia; by eexists. }
  set (bs := [7; 8; 9; 0; 0; 0; 0; 0; 0; 0; 0]).
  assert (∀ p x, p ∈ footprint ps T {[0 := (pa, 22)]} → p ≤ x < p + 4096 → x < PHYSTOP) as Hlow.
  { intros p x Hp Hx. pose proof (as_page_aligned _ _ _ _ _ _ _ Hok Hp) as Hal.
    assert (p < PHYSTOP) as Hlt.
    { apply elem_of_footprint in Hp as [[Hp|Hp]%elem_of_apages|Hp].
      - apply elem_of_pages in Hp as ([l k] & Hl).
        by apply (pt_page _ _ _ _ _ _ _ (vm_pt _ _ _ _ _ (as_vm _ _ _ _ _ _ Hok))) in Hl as (_ & [_ ?] & _).
      - apply elem_of_upages in Hp as (n & perm & Hn).
        by apply (as_page _ _ _ _ _ _ Hok) in Hn as ((_ & [_ ?] & _) & _).
      - pose proof (fl_pages _ _ _ (vm_free _ _ _ _ _ (as_vm _ _ _ _ _ _ Hok))) as Hf.
        rewrite Forall_forall in Hf. by apply Hf in Hp as (_ & [_ ?] & _). }
    assert (PHYSTOP = 2281701376) as HP by done.
    pose proof (Z.div_mod p 4096 ltac:(lia)). lia. }
  destruct (as_ok_mem demo_a s ps (demo_root 0) T {[0 := (pa, 22)]} (write PHYSTOP bs (ram s)))
    as [Hok1 Hl1]; [done| | | |].
  { apply mem_ok_write; [apply (fl_mem _ _ _ (vm_free _ _ _ _ _ (as_vm _ _ _ _ _ _ Hok)))|].
    repeat constructor; done. }
  { intros x. apply is_Some_write. }
  { intros p x Hp Hx. apply lookup_write_ne. enough (x < PHYSTOP) by lia.
    apply (Hlow p); [|done]. apply elem_of_footprint. rewrite elem_of_apages. tauto. }
  assert (∀ i, 0 ≤ i → i + 3 ≤ 11 → kbuf (demo_buf bs s) ps T {[0 := (pa, 22)]} (PHYSTOP + i) 3) as Hkb.
  { intros i Hi0 Hi. split.
    - intros x Hx. change (ram (demo_buf bs s)) with (write PHYSTOP bs (ram s)).
      rewrite lookup_write, decide_True by (cbn [length bs]; lia).
      apply lookup_lt_is_Some. cbn [length bs]. lia.
    - intros p x Hp Hx. pose proof (Hlow p x Hp Hx). lia. }
  pose proof (copyout_copyin demo_a (demo_buf bs s) ps (demo_root 0) T {[0 := (pa, 22)]}
    100 PHYSTOP (PHYSTOP + 8) 3 ltac:(done) Hok1) as Hcc.
  change (Z.to_nat 3) with (length [7; 8; 9]) in Hcc.
  assert (read (ram (demo_buf bs s)) PHYSTOP (length [7; 8; 9]) = [7; 8; 9]) as Hr.
  { pose proof (read_write_eq (ram s) PHYSTOP bs) as Hrw. change (length bs) with (3 + 8)%nat in Hrw.
    rewrite read_app, !read_S in Hrw. injection Hrw as H0 H1 H2 _.
    change (ram (demo_buf bs s)) with (write PHYSTOP bs (ram s)). cbn [length].
    rewrite !read_S. unfold read. cbn. by rewrite H0, H1, H2. }
  rewrite Hr in Hcc. apply Hcc; [|done|done| |apply Hkb; lia].
  - intros n Hn. change (ram (demo_buf bs s)) with (write PHYSTOP bs (ram s)).
    rewrite Hl1. by apply Htop.
  - rewrite <- (Z.add_0_r PHYSTOP). apply Hkb; lia.
Defined.
