(* ===== verification/Spinlock.v ===== *)
(** Spinlocks on several CPUs (kernel/spinlock.c).

    A state has every lock and every CPU; each CPU is somewhere inside
    [acquire] or [release], one memory access per step, and the steps of
    different CPUs interleave arbitrarily.  The theorems are the ones the other
    components rely on: mutual exclusion, the self-deadlock panics happen exactly
    when they should, and interrupts are off while a lock is held. *)

From stdpp Require Import functions relations.
From S2P Require Import Prelude.
Local Open Scope Z_scope.

Record spinlock := SpinLock { locked : bool; lcpu : option nat }.

(** Where a CPU is in the code of [acquire] and [release]. *)
Inductive pc :=
| Idle
| AcqPush (lk : Z)
| AcqHoldingLocked (lk : Z)
| AcqHoldingCpu (lk : Z)
| AcqSwap (lk : Z)
| AcqSetCpu (lk : Z)
| RelHoldingLocked (lk : Z)
| RelHoldingCpu (lk : Z)
| RelClearCpu (lk : Z)
| RelUnlock (lk : Z)
| RelPop (lk : Z)
| Panicked (msg : string).

(** [struct cpu], its interrupt-enable bit ([intr_get()]), its position, and the
    locks it has taken, which is not part of the code's state. *)
Record cpu := Cpu {
  noff : Z;
  intena : bool;
  sie : bool;
  at_pc : pc;
  owned : gset Z;
}.
Definition goto (p : pc) (c : cpu) : cpu := Cpu (noff c) (intena c) (sie c) p (owned c).
Definition set_owned (o : gset Z) (c : cpu) : cpu := Cpu (noff c) (intena c) (sie c) (at_pc c) o.

Definition initlock : spinlock := SpinLock false None.

Definition push_off (c : cpu) : cpu :=
  let old := sie c in
  Cpu (noff c + 1) (if noff c =? 0 then old else intena c) false (at_pc c) (owned c).

Definition pop_off (c : cpu) : cpu :=
  if sie c then goto (Panicked "pop_off - interruptible") c else
  if noff c <? 1 then goto (Panicked "pop_off") c else
  let n := noff c - 1 in
  Cpu n (intena c) (if (n =? 0) && intena c then true else sie c) (at_pc c) (owned c).

Record machine := Machine { locks : Z → spinlock; cpus : nat → cpu }.
Definition set_lock (lk : Z) (l : spinlock) (s : machine) : machine :=
  Machine (<[lk := l]> (locks s)) (cpus s).
Definition set_cpu (c : nat) (k : cpu) (s : machine) : machine :=
  Machine (locks s) (<[c := k]> (cpus s)).

(** The next access of CPU [c]; [None] when it is in neither routine. *)
Definition cpu_step (c : nat) (s : machine) : option machine :=
  let k := cpus s c in
  match at_pc k with
  | Idle | Panicked _ => None
  (* acquire *)
  | AcqPush lk => Some (set_cpu c (goto (AcqHoldingLocked lk) (push_off k)) s)
  | AcqHoldingLocked lk =>
      if locked (locks s lk) then Some (set_cpu c (goto (AcqHoldingCpu lk) k) s)
      else Some (set_cpu c (goto (AcqSwap lk) k) s)
  | AcqHoldingCpu lk =>
      if decide (lcpu (locks s lk) = Some c)
      then Some (set_cpu c (goto (Panicked "acquire") k) s)
      else Some (set_cpu c (goto (AcqSwap lk) k) s)
  | AcqSwap lk =>
      (* the atomic swap stores 1 and tells what was there *)
      let old := locked (locks s lk) in
      let s := set_lock lk (SpinLock true (lcpu (locks s lk))) s in
      if old then Some s
      else Some (set_cpu c (goto (AcqSetCpu lk) (set_owned ({[lk]} ∪ owned k) k)) s)
  | AcqSetCpu lk =>
      Some (set_cpu c (goto Idle k)
             (set_lock lk (SpinLock (locked (locks s lk)) (Some c)) s))
  (* release *)
  | RelHoldingLocked lk =>
      if locked (locks s lk) then Some (set_cpu c (goto (RelHoldingCpu lk) k) s)
      else Some (set_cpu c (goto (Panicked "release") k) s)
  | RelHoldingCpu lk =>
      if decide (lcpu (locks s lk) = Some c)
      then Some (set_cpu c (goto (RelClearCpu lk) k) s)
      else Some (set_cpu c (goto (Panicked "release") k) s)
  | RelClearCpu lk =>
      Some (set_cpu c (goto (RelUnlock lk) k)
             (set_lock lk (SpinLock (locked (locks s lk)) None) s))
  | RelUnlock lk =>
      Some (set_cpu c (goto (RelPop lk) (set_owned (owned k ∖ {[lk]}) k))
             (set_lock lk (SpinLock false (lcpu (locks s lk))) s))
  | RelPop lk => Some (set_cpu c (pop_off (goto Idle k)) s)
  end.

Inductive step : machine → machine → Prop :=
| step_acquire c lk s :
    at_pc (cpus s c) = Idle → step s (set_cpu c (goto (AcqPush lk) (cpus s c)) s)
| step_release c lk s :
    at_pc (cpus s c) = Idle → step s (set_cpu c (goto (RelHoldingLocked lk) (cpus s c)) s)
| step_run c s s' : cpu_step c s = Some s' → step s s'.

(** Every lock is free; interrupts may be on or off. *)
Definition initial (s : machine) : Prop :=
  (∀ lk, locks s lk = initlock) ∧
  ∀ c, noff (cpus s c) = 0 ∧ at_pc (cpus s c) = Idle ∧ owned (cpus s c) = ∅.
Definition reachable (s : machine) : Prop := ∃ s0, initial s0 ∧ rtc step s0 s.

(** * The invariant *)

(** Between [push_off] and the swap, and between the unlock and [pop_off], a
    CPU has one more [push_off] pending than it owns locks. *)
Definition pending (p : pc) : Z :=
  match p with
  | AcqHoldingLocked _ | AcqHoldingCpu _ | AcqSwap _ | RelPop _ => 1
  | _ => 0
  end.

Record inv (s : machine) : Prop := {
  inv_locked lk c : lk ∈ owned (cpus s c) → locked (locks s lk) = true;
  inv_excl lk c c' : lk ∈ owned (cpus s c) → lk ∈ owned (cpus s c') → c = c';
  inv_owner lk : locked (locks s lk) = true → ∃ c, lk ∈ owned (cpus s c);
  inv_lcpu lk c : lcpu (locks s lk) = Some c →
    lk ∈ owned (cpus s c) ∧ at_pc (cpus s c) ≠ RelUnlock lk;
  inv_cpu lk c : lk ∈ owned (cpus s c) → at_pc (cpus s c) ≠ AcqSetCpu lk →
    at_pc (cpus s c) ≠ RelUnlock lk → lcpu (locks s lk) = Some c;
  inv_pc c : match at_pc (cpus s c) with
             | AcqSwap lk => lk ∉ owned (cpus s c)
             | AcqSetCpu lk | RelClearCpu lk | RelUnlock lk => lk ∈ owned (cpus s c)
             | _ => True
             end;
  inv_noff c : (∀ msg, at_pc (cpus s c) ≠ Panicked msg) →
    noff (cpus s c) = Z.of_nat (size (owned (cpus s c))) + pending (at_pc (cpus s c));
  inv_sie c : (∀ msg, at_pc (cpus s c) ≠ Panicked msg) →
    0 < noff (cpus s c) → sie (cpus s c) = false;
  inv_msg c : at_pc (cpus s c) ≠ Panicked "pop_off" ∧
    at_pc (cpus s c) ≠ Panicked "pop_off - interruptible";
}.

Section facts.
Implicit Types (s : machine) (c : nat) (lk : Z) (k : cpu).

Lemma cpu_same c k s : cpus (set_cpu c k s) c = k.
Proof. apply fn_lookup_insert. Qed.
Lemma cpu_other c c' k s : c' ≠ c → cpus (set_cpu c k s) c' = cpus s c'.
Proof. intros. by apply fn_lookup_insert_ne. Qed.
Lemma lock_same lk l s : locks (set_lock lk l s) lk = l.
Proof. apply fn_lookup_insert. Qed.
Lemma lock_other lk lk' l s : lk' ≠ lk → locks (set_lock lk l s) lk' = locks s lk'.
Proof. intros. by apply fn_lookup_insert_ne. Qed.

Lemma locks_set_cpu c k s : locks (set_cpu c k s) = locks s.
Proof. done. Qed.
Lemma cpus_set_lock lk l s : cpus (set_lock lk l s) = cpus s.
Proof. done. Qed.

(** A step that changes neither a lock nor what a CPU owns. *)
Lemma inv_local s c k :
  inv s → owned k = owned (cpus s c) →
  (∀ lk, at_pc (cpus s c) ≠ AcqSetCpu lk ∧ at_pc (cpus s c) ≠ RelUnlock lk) →
  (∀ lk, at_pc k ≠ RelUnlock lk) →
  match at_pc k with
  | AcqSwap lk => lk ∉ owned k
  | AcqSetCpu lk | RelClearCpu lk | RelUnlock lk => lk ∈ owned k
  | _ => True
  end →
  ((∀ msg, at_pc k ≠ Panicked msg) →
     noff k = Z.of_nat (size (owned k)) + pending (at_pc k)) →
  ((∀ msg, at_pc k ≠ Panicked msg) → 0 < noff k → sie k = false) →
  at_pc k ≠ Panicked "pop_off" ∧ at_pc k ≠ Panicked "pop_off - interruptible" →
  inv (set_cpu c k s).
Proof.
  intros [I1 I2 I3 I4 I5 I6 I7 I8 I9] Ho Hpc Hpc' H6 H7 H8 H9.
  assert (∀ c', owned (cpus (set_cpu c k s) c') = owned (cpus s c')) as Hown.
  { intros c'. destruct (decide (c' = c)) as [->|]; [by rewrite cpu_same|by rewrite cpu_other]. }
  split.
  - intros lk c'. rewrite Hown. apply I1.
  - intros lk c1 c2. rewrite !Hown. apply I2.
  - intros lk Hl. destruct (I3 lk Hl) as [c' Hc']. exists c'. by rewrite Hown.
  - intros lk c' Hl. rewrite Hown. destruct (I4 lk c' Hl) as [? ?]. split; [done|].
    destruct (decide (c' = c)) as [->|]; [by rewrite cpu_same|by rewrite cpu_other].
  - intros lk c'. rewrite Hown. intros Hin. destruct (decide (c' = c)) as [->|].
    + intros _ _. by apply I5; [|apply Hpc..].
    + rewrite cpu_other by done. by apply I5.
  - intros c'. destruct (decide (c' = c)) as [->|]; [by rewrite cpu_same|rewrite cpu_other by done; apply I6].
  - intros c'. destruct (decide (c' = c)) as [->|]; [by rewrite cpu_same|rewrite cpu_other by done; apply I7].
  - intros c'. destruct (decide (c' = c)) as [->|]; [by rewrite cpu_same|rewrite cpu_other by done; apply I8].
  - intros c'. destruct (decide (c' = c)) as [->|]; [by rewrite cpu_same|rewrite cpu_other by done; apply I9].
Qed.

(** A step of [c] that changes the lock [lk]. *)
Lemma inv_lock s c lk l k :
  inv s →
  (∀ lk', lk' ≠ lk → lk' ∈ owned k ↔ lk' ∈ owned (cpus s c)) →
  (∀ c', c' ≠ c → lk ∈ owned (cpus s c') →
     lk ∉ owned k ∧ locked l = true ∧ lcpu l = lcpu (locks s lk)) →
  (lk ∈ owned k → locked l = true) →
  (locked l = true → lk ∈ owned k ∨ ∃ c', c' ≠ c ∧ lk ∈ owned (cpus s c')) →
  (∀ c', lcpu l = Some c' →
     if decide (c' = c) then lk ∈ owned k ∧ at_pc k ≠ RelUnlock lk
     else lcpu (locks s lk) = Some c') →
  (lk ∈ owned k → at_pc k ≠ AcqSetCpu lk → at_pc k ≠ RelUnlock lk → lcpu l = Some c) →
  (∀ lk', lk' ≠ lk → at_pc (cpus s c) ≠ AcqSetCpu lk' ∧ at_pc (cpus s c) ≠ RelUnlock lk' ∧
     at_pc k ≠ RelUnlock lk') →
  match at_pc k with
  | AcqSwap lk => lk ∉ owned k
  | AcqSetCpu lk | RelClearCpu lk | RelUnlock lk => lk ∈ owned k
  | _ => True
  end →
  noff k = Z.of_nat (size (owned k)) + pending (at_pc k) → (0 < noff k → sie k = false) →
  (∀ msg, at_pc k ≠ Panicked msg) →
  inv (set_cpu c k (set_lock lk l s)).
Proof.
  intros [I1 I2 I3 I4 I5 I6 I7 I8 I9] Ho Hoth Hol Hlo Hlc Hcl Hpc H6 H7 H8 H9.
  split.
  - intros lk' c'. destruct (decide (c' = c)) as [->|]; [rewrite cpu_same|rewrite cpu_other by done];
      (destruct (decide (lk' = lk)) as [->|]; rewrite ?locks_set_cpu, ?cpus_set_lock; [rewrite lock_same|rewrite lock_other by done]).
    + done.
    + rewrite Ho by done. apply I1.
    + intros Hin. by eapply Hoth.
    + apply I1.
  - intros lk' c1 c2.
    destruct (decide (c1 = c)) as [->|], (decide (c2 = c)) as [->|]; try done;
      rewrite ?cpu_same, ?cpu_other, ?cpus_set_lock by done; destruct (decide (lk' = lk)) as [->|].
    + intros H1 H2. by destruct (Hoth c2).
    + rewrite Ho by done. apply I2.
    + intros H1 H2. by destruct (Hoth c1).
    + rewrite Ho by done. apply I2.
    + apply I2.
    + apply I2.
  - intros lk' Hl. rewrite locks_set_cpu in Hl. destruct (decide (lk' = lk)) as [->|].
    + rewrite lock_same in Hl. destruct (Hlo Hl) as [?|(c' & ? & ?)].
      * exists c. by rewrite cpu_same.
      * exists c'. by rewrite cpu_other.
    + rewrite lock_other in Hl by done. destruct (I3 lk' Hl) as [c' Hc']. exists c'.
      destruct (decide (c' = c)) as [->|]; [by rewrite cpu_same, Ho|by rewrite cpu_other].
  - intros lk' c' Hl. rewrite locks_set_cpu in Hl. destruct (decide (lk' = lk)) as [->|].
    + rewrite lock_same in Hl. specialize (Hlc _ Hl). case_decide as Hd.
      * subst c'. by rewrite cpu_same.
      * rewrite cpu_other by done. by apply I4.
    + rewrite lock_other in Hl by done. destruct (I4 _ _ Hl) as [? ?].
      destruct (decide (c' = c)) as [->|]; [|by rewrite cpu_other].
      rewrite cpu_same, Ho by done. split; [done|]. by apply Hpc.
  - intros lk' c'. rewrite locks_set_cpu. destruct (decide (lk' = lk)) as [->|].
    + rewrite lock_same. destruct (decide (c' = c)) as [->|]; [by rewrite cpu_same|].
      rewrite cpu_other by done. intros Hin ??. destruct (Hoth c') as (_ & _ & ->); [done..|].
      by apply I5.
    + rewrite lock_other by done. destruct (decide (c' = c)) as [->|].
      * rewrite cpu_same, Ho by done. intros Hin _ _. apply I5; [done|by apply Hpc..].
      * rewrite cpu_other by done. by apply I5.
  - intros c'. destruct (decide (c' = c)) as [->|]; [by rewrite cpu_same|rewrite cpu_other by done; apply I6].
  - intros c'. destruct (decide (c' = c)) as [->|]; [by rewrite cpu_same|rewrite cpu_other by done; apply I7].
  - intros c'. destruct (decide (c' = c)) as [->|]; [by rewrite cpu_same|rewrite cpu_other by done; apply I8].
  - intros c'. destruct (decide (c' = c)) as [->|]; [by rewrite cpu_same|rewrite cpu_other by done; apply I9].
Qed.

Lemma inv_initial s : initial s → inv s.
Proof.
  intros [Hl Hc]. split.
  - intros lk c. destruct (Hc c) as (_ & _ & ->). set_solver.
  - intros lk c c'. destruct (Hc c) as (_ & _ & ->). set_solver.
  - intros lk. by rewrite Hl.
  - intros lk c. by rewrite Hl.
  - intros lk c. destruct (Hc c) as (_ & _ & ->). set_solver.
  - intros c. by destruct (Hc c) as (_ & -> & _).
  - intros c. destruct (Hc c) as (-> & -> & ->). by rewrite size_empty.
  - intros c. destruct (Hc c) as (-> & _ & _). lia.
  - intros c. by destruct (Hc c) as (_ & -> & _).
Qed.

Lemma push_off_facts k :
  noff (push_off k) = noff k + 1 ∧ sie (push_off k) = false ∧ owned (push_off k) = owned k.
Proof. done. Qed.

(** The swap of a lock that is taken: it stores the 1 that is there. *)
Lemma inv_spin s lk :
  inv s → locked (locks s lk) = true →
  inv (set_lock lk (SpinLock true (lcpu (locks s lk))) s).
Proof.
  intros [I1 I2 I3 I4 I5 I6 I7 I8 I9] Hl.
  assert (∀ lk', locked (locks (set_lock lk (SpinLock true (lcpu (locks s lk))) s) lk') = locked (locks s lk')
     ∧ lcpu (locks (set_lock lk (SpinLock true (lcpu (locks s lk))) s) lk') = lcpu (locks s lk')) as He.
  { intros lk'. destruct (decide (lk' = lk)) as [->|]; [by rewrite lock_same|by rewrite lock_other]. }
  split; try done.
  - intros lk' c. rewrite (proj1 (He lk')). apply I1.
  - intros lk'. rewrite (proj1 (He lk')). apply I3.
  - intros lk' c. rewrite (proj2 (He lk')). apply I4.
  - intros lk' c. rewrite (proj2 (He lk')). apply I5.
Qed.

(** Contradicts the hypothesis that a CPU that has panicked has not. *)
Ltac not_panicked :=
  solve [let H := fresh in intros H; exfalso; by eapply H].

Lemma inv_cpu_step c s s' : inv s → cpu_step c s = Some s' → inv s'.
Proof.
  intros Hinv Hs. unfold cpu_step in Hs.
  pose proof (inv_noff _ Hinv c) as Hn. pose proof (inv_sie _ Hinv c) as Hsie.
  pose proof (inv_pc _ Hinv c) as Hpc.
  destruct (at_pc (cpus s c)) as [|lk|lk|lk|lk|lk|lk|lk|lk|lk|lk|] eqn:Hp; try done;
    cbn in Hn; specialize (Hn ltac:(done)); specialize (Hsie ltac:(done)).
  - (* push_off *)
    injection Hs as <-. apply inv_local; cbn; rewrite ?Hp; (done || intros; lia).
  - (* holding: lk->locked *)
    destruct (locked (locks s lk)) eqn:Hl; injection Hs as <-;
      (apply inv_local; cbn; rewrite ?Hp; try done; try (intros; by auto); try not_panicked).
    intros Hin. apply (inv_locked _ Hinv) in Hin. congruence.
  - (* holding: lk->cpu *)
    case_decide as Hc; injection Hs as <-; (apply inv_local; cbn; rewrite ?Hp; try done; try (intros; by auto); try not_panicked).
    intros Hin. apply Hc. apply (inv_cpu _ Hinv); rewrite ?Hp; done.
  - (* swap *)
    destruct (locked (locks s lk)) eqn:Hl; injection Hs as <-.
    + by apply inv_spin.
    + assert (∀ c', lk ∉ owned (cpus s c')) as Hfree.
      { intros c' Hin. apply (inv_locked _ Hinv) in Hin. congruence. }
      apply inv_lock; cbn; rewrite ?Hp; try done.
      * intros lk' ?. set_solver.
      * intros c' _ Hin. by destruct (Hfree c').
      * intros _. left. set_solver.
      * intros c' Hlc. destruct (inv_lcpu _ Hinv _ _ Hlc) as [Hin _]. by destruct (Hfree c').
      * set_solver.
      * rewrite size_union by set_solver. rewrite size_singleton. lia.
  - (* lk->cpu = mycpu() *)
    injection Hs as <-. apply inv_lock; cbn; rewrite ?Hp; try done.
    + intros c' Hne Hin. by pose proof (inv_excl _ Hinv _ _ _ Hin Hpc).
    + intros _. by apply (inv_locked _ Hinv lk c).
    + intros _. by left.
    + intros c' [= <-]. by rewrite decide_True.
    + intros lk' Hne. split; [congruence|done].
  - (* release: lk->locked *)
    destruct (locked (locks s lk)) eqn:Hl; injection Hs as <-;
      (apply inv_local; cbn; rewrite ?Hp; try done; try (intros; by auto); try not_panicked).
  - (* release: lk->cpu *)
    case_decide as Hc; injection Hs as <-; (apply inv_local; cbn; rewrite ?Hp; try done; try (intros; by auto); try not_panicked).
    by apply (inv_lcpu _ Hinv).
  - (* lk->cpu = 0 *)
    injection Hs as <-. apply inv_lock; cbn; rewrite ?Hp; try done.
    + intros c' Hne Hin. by pose proof (inv_excl _ Hinv _ _ _ Hin Hpc).
    + intros _. by apply (inv_locked _ Hinv lk c).
    + intros _. by left.
    + intros lk' Hne. split; [done|]. split; [done|congruence].
  - (* lk->locked = 0 *)
    injection Hs as <-. apply inv_lock; cbn; rewrite ?Hp; try done.
    + intros lk' ?. set_solver.
    + intros c' Hne Hin. by pose proof (inv_excl _ Hinv _ _ _ Hin Hpc).
    + set_solver.
    + intros c' Hlc. case_decide as Hd; [|done]. subst c'.
      by destruct (inv_lcpu _ Hinv _ _ Hlc) as [_ ?].
    + set_solver.
    + intros lk' Hne. split; [done|]. split; [congruence|done].
    + rewrite size_difference by set_solver. rewrite size_singleton.
      assert (size (owned (cpus s c)) ≠ 0)%nat; [|lia].
      intros H0. apply size_empty_inv in H0. set_solver.
  - (* pop_off *)
    injection Hs as <-. unfold pop_off. cbn. rewrite Hsie by lia. cbn.
    rewrite (proj2 (Z.ltb_ge _ _)) by lia.
    apply inv_local; cbn; rewrite ?Hp; try done.
    + intros _. lia.
    + intros _ Hgt. rewrite (proj2 (Z.eqb_neq _ 0)) by lia. done.
Qed.

Lemma inv_step s s' : inv s → step s s' → inv s'.
Proof.
  intros Hinv Hs. revert Hinv.
  destruct Hs as [c lk s Hp|c lk s Hp|c s s' Hs]; intros Hinv; [| |by eapply inv_cpu_step];
    (apply inv_local; cbn; rewrite ?Hp; try done);
    intros _; [pose proof (inv_noff _ Hinv c) as Hn|pose proof (inv_sie _ Hinv c) as Hn
              |pose proof (inv_noff _ Hinv c) as Hn|pose proof (inv_sie _ Hinv c) as Hn];
    rewrite Hp in Hn; by apply Hn.
Qed.

Lemma reachable_inv s : reachable s → inv s.
Proof.
  intros (s0 & H0 & Hr). apply inv_initial in H0.
  induction Hr as [|s1 s2 s3 Hs _ IH]; [done|]. apply IH. by eapply inv_step.
Qed.
End facts.

(** * The contract of spinlock.c *)

(** Two CPUs that both try to take the lock 5. *)
Definition demo_machine : machine :=
  Machine (λ _, initlock) (λ _, Cpu 0 false true Idle ∅).
Definition run_cpus (cs : list nat) (s : machine) : machine :=
  foldl (λ s c, default s (cpu_step c s)) s cs.
Definition start_acquire (c : nat) (lk : Z) (s : machine) : machine :=
  set_cpu c (goto (AcqPush lk) (cpus s c)) s.
(** CPU 0 takes the lock while CPU 1 waits at the swap. *)
Definition demo_contended : machine :=
  run_cpus [0; 1; 0; 1; 0; 1; 1; 0]%nat (start_acquire 1 5 (start_acquire 0 5 demo_machine)).

Lemma run_cpus_reachable cs s : reachable s → reachable (run_cpus cs s).
Proof.
  revert s. induction cs as [|c cs IH]; intros s Hr; [done|]. simpl. apply IH.
  destruct (cpu_step c s) as [s'|] eqn:Hs; [|done].
  destruct Hr as (s0 & H0 & Hr). exists s0. split; [done|].
  eapply rtc_r; [done|]. by eapply step_run.
Qed.

Lemma demo_contended_reachable : reachable demo_contended.
Proof.
  apply run_cpus_reachable. exists demo_machine. split; [by split|].
  eapply rtc_l; [by apply (step_acquire 0 5)|].
  eapply rtc_l; [by apply (step_acquire 1 5)|]. apply rtc_refl.
Qed.

(** C15: Mutual exclusion: however the steps of the CPUs interleave, a lock is
    owned by one CPU at most, it is marked locked exactly while somebody owns
    it, and its [cpu] field never names a CPU that does not own it. *)
Theorem mutual_exclusion (s : machine) (lk : Z) :
  reachable s →
  (∀ c c', lk ∈ owned (cpus s c) → lk ∈ owned (cpus s c') → c = c') ∧
  (locked (locks s lk) = true ↔ ∃ c, lk ∈ owned (cpus s c)) ∧
  (∀ c, lcpu (locks s lk) = Some c → lk ∈ owned (cpus s c)).
Proof.
  intros Hinv%reachable_inv. split_and!.
  - intros c c'. by apply inv_excl.
  - split; [by apply inv_owner|]. intros [c Hc]. by eapply inv_locked.
  - intros c Hc. by apply (inv_lcpu _ Hinv) in Hc as [? _].
Qed.

Lemma mutual_exclusion_witness :
  5 ∈ owned (cpus demo_contended 0) ∧ at_pc (cpus demo_contended 1) = AcqSwap 5 ∧
  (∀ c c', 5 ∈ owned (cpus demo_contended c) → 5 ∈ owned (cpus demo_contended c') → c = c').
Proof.
  split; [by_compute|]. split; [vm_compute; reflexivity|].
  apply (mutual_exclusion demo_contended 5 demo_contended_reachable).
Defined.

(** The panics of the lock code are exact: a CPU panics in [acquire] only
    if it owns the lock already, in [release] only if it does not, and a CPU
    that owns the lock it asks for does panic; [pop_off] never does. *)
Theorem lock_panics_exact (s s' : machine) (c : nat) (msg : string) :
  reachable s → cpu_step c s = Some s' → at_pc (cpus s' c) = Panicked msg →
  (msg = "acquire"%string ∧ ∃ lk, at_pc (cpus s c) = AcqHoldingCpu lk ∧ lk ∈ owned (cpus s c)) ∨
  (msg = "release"%string ∧ ∃ lk, lk ∉ owned (cpus s c) ∧
     (at_pc (cpus s c) = RelHoldingLocked lk ∨ at_pc (cpus s c) = RelHoldingCpu lk)).
Proof.
  intros Hinv%reachable_inv Hs Hp'.
  pose proof (inv_cpu_step _ _ _ Hinv Hs) as Hinv'.
  unfold cpu_step in Hs.
  destruct (at_pc (cpus s c)) as [|lk|lk|lk|lk|lk|lk|lk|lk|lk|lk|] eqn:Hp; try done.
  - injection Hs as <-. by rewrite cpu_same in Hp'.
  - destruct (locked _); injection Hs as <-; by rewrite cpu_same in Hp'.
  - case_decide as Hc; injection Hs as <-; rewrite cpu_same in Hp'; [|done].
    injection Hp' as <-. left. split; [done|]. exists lk. split; [done|].
    by apply (inv_lcpu _ Hinv) in Hc as [? _].
  - destruct (locked _); injection Hs as <-; [|by rewrite cpu_same in Hp'].
    rewrite cpus_set_lock, Hp in Hp'. done.
  - injection Hs as <-. by rewrite cpu_same in Hp'.
  - destruct (locked _) eqn:Hl; injection Hs as <-; rewrite cpu_same in Hp'; [done|].
    injection Hp' as <-. right. split; [done|]. exists lk. split; [|by left].
    intros Hin. apply (inv_locked _ Hinv) in Hin. congruence.
  - case_decide as Hc; injection Hs as <-; rewrite cpu_same in Hp'; [done|].
    injection Hp' as <-. right. split; [done|]. exists lk. split; [|by right].
    intros Hin. apply Hc, (inv_cpu _ Hinv); rewrite ?Hp; done.
  - injection Hs as <-. by rewrite cpu_same in Hp'.
  - injection Hs as <-. by rewrite cpu_same in Hp'.
  - exfalso. destruct (inv_msg _ Hinv' c) as [H1 H2]. injection Hs as <-.
    rewrite cpu_same in *. unfold pop_off in *. cbn in *.
    destruct (sie (cpus s c)); cbn in *; [by apply H2|].
    destruct (noff (cpus s c) <? 1); cbn in *; [by apply H1|done].
Qed.

(** CPU 0 has the lock and asks for it again. *)
Definition demo_twice : machine := run_cpus [0; 0]%nat (start_acquire 0 5 demo_contended).

Lemma lock_panics_exact_witness :
  reachable demo_twice ∧ ∃ s', cpu_step 0 demo_twice = Some s' ∧ at_pc (cpus s' 0) = Panicked "acquire" ∧
  ∃ lk, at_pc (cpus demo_twice 0) = AcqHoldingCpu lk ∧ lk ∈ owned (cpus demo_twice 0).
Proof.
  assert (reachable demo_twice) as Hr.
  { apply run_cpus_reachable. destruct demo_contended_reachable as (s0 & H0 & Hr).
    exists s0. split; [done|]. eapply rtc_r; [done|]. apply step_acquire. vm_compute. reflexivity. }
  split; [done|].
  assert (∃ s', cpu_step 0 demo_twice = Some s' ∧ at_pc (cpus s' 0) = Panicked "acquire") as (s' & Hs & Hp).
  { destruct (cpu_step 0 demo_twice) as [s'|] eqn:Hs; [|by vm_compute in Hs].
    exists s'. split; [done|]. revert Hs. vm_compute. by intros [= <-]. }
  exists s'. split_and!; [done..|].
  destruct (lock_panics_exact demo_twice s' 0 "acquire" Hr Hs Hp) as [[_ ?]|[? _]]; [done|done].
Defined.

(** While a CPU owns a lock or is inside the code that takes or gives it
    back, its interrupts are off, and it has exactly one [push_off] outstanding
    for each; so the interrupt state comes back only after the last [release]. *)
Theorem locks_disable_interrupts (s : machine) (c : nat) :
  reachable s → (∀ msg, at_pc (cpus s c) ≠ Panicked msg) →
  noff (cpus s c) = Z.of_nat (size (owned (cpus s c))) + pending (at_pc (cpus s c)) ∧
  (owned (cpus s c) ≠ ∅ ∨ pending (at_pc (cpus s c)) = 1 → sie (cpus s c) = false).
Proof.
  intros Hinv%reachable_inv Hp. pose proof (inv_noff _ Hinv c Hp) as Hn. split; [done|].
  intros Hor. apply (inv_sie _ Hinv c Hp). rewrite Hn. destruct Hor as [Hne| ->]; [|lia].
  assert (size (owned (cpus s c)) ≠ 0)%nat by (by intros ?%size_empty_inv%leibniz_equiv).
  assert (0 ≤ pending (at_pc (cpus s c))) by (by destruct (at_pc (cpus s c))). lia.
Qed.

Lemma locks_disable_interrupts_witness :
  noff (cpus demo_contended 0) = 1 ∧ sie (cpus demo_contended 0) = false.
Proof.
  destruct (locks_disable_interrupts demo_contended 0 demo_contended_reachable) as [_ Hs].
  - intros msg. vm_compute. discriminate.
  - split; [vm_compute; reflexivity|]. apply Hs. left. by_compute.
Defined.
