(* ===== verification/Threads.v ===== *)
(** Kernel threads: what sleeplock.c, pipe.c, console.c, bio.c, log.c and fs.c
    use of the process that runs them, and the interleaving of several threads.

    [thread] is the running thread's view of itself: [myproc()] and the fields
    of it the other components read, the spinlocks it holds, and the two shared
    tables they go through ([wakeup] and [killed]).  [sleep] is the effect of
    [sleep] of proc.c on its caller; Proc.v has the process-table side.

    A [pool] runs any number of such threads: a thread runs until it sleeps or
    returns, a sleeping thread becomes ready when its channel is woken.
    [pool_safe] is the soundness of the weakest preconditions of [Prelude] for
    that semantics. *)

From stdpp Require Import relations.
From S2P Require Import Prelude.
Local Open Scope Z_scope.

Record thread := Thread {
  th_proc : Z;            (* myproc() *)
  th_pid : Z;             (* myproc()->pid *)
  th_pagetable : Z;       (* myproc()->pagetable *)
  th_held : gset Z;       (* spinlocks this CPU holds *)
  th_woken : gset Z;      (* channels woken since the last switch *)
  th_killed : gset Z;     (* processes whose killed flag is set *)
}.

Class HasThread (St : Type) := {
  the_thread : St → thread;
  set_thread : thread → St → St;
  thread_set : ∀ t s, the_thread (set_thread t s) = t;
  set_thread_thread : ∀ s, set_thread (the_thread s) s = s;
  set_thread_set : ∀ t t' s, set_thread t (set_thread t' s) = set_thread t s;
}.

#[export] Hint Rewrite @thread_set @set_thread_thread @set_thread_set using apply _ : thread.

#[export] Instance thread_thread : HasThread thread.
Proof. by refine {| the_thread := λ t, t; set_thread := λ t _, t |}. Defined.

Definition with_held (h : gset Z) (t : thread) : thread :=
  Thread (th_proc t) (th_pid t) (th_pagetable t) h (th_woken t) (th_killed t).
Definition with_woken (w : gset Z) (t : thread) : thread :=
  Thread (th_proc t) (th_pid t) (th_pagetable t) (th_held t) w (th_killed t).
Definition with_killed (ks : gset Z) (t : thread) : thread :=
  Thread (th_proc t) (th_pid t) (th_pagetable t) (th_held t) (th_woken t) ks.

#[export] Instance locks_thread `{HasThread St} : HasLocks St.
Proof.
  refine {| held := λ s, th_held (the_thread s);
            set_held := λ h s, set_thread (with_held h (the_thread s)) s |}.
  - intros h s. by rewrite thread_set.
  - intros s. replace (with_held _ _) with (the_thread s) by by destruct (the_thread s).
    apply set_thread_thread.
  - intros h h' s. by rewrite thread_set, set_thread_set.
Defined.

Section thread_ops.
Context `{HasThread St}.

Definition mypid : M St Z := gets (λ s, th_pid (the_thread s)).
Definition mypagetable : M St Z := gets (λ s, th_pagetable (the_thread s)).

(** [killed(myproc())] *)
Definition iskilled : M St bool :=
  gets (λ s, bool_decide (th_proc (the_thread s) ∈ th_killed (the_thread s))).

Definition wakeup (ch : Z) : M St unit :=
  modify (λ s, set_thread (with_woken ({[ch]} ∪ th_woken (the_thread s)) (the_thread s)) s).

(** The thread [me] is back on a CPU, in the state the others left. *)
Definition resume (me : thread) (s : St) : St :=
  set_thread (Thread (th_proc me) (th_pid me) (th_pagetable me) (th_held me)
    (th_woken (the_thread s)) (th_killed (the_thread s))) s.

(** [sched()] panics if any other lock is held across the switch. *)
Definition switch (ch : Z) : M St unit := λ s,
  if decide (held s = ∅) then Sleep ch s (λ s', Ok tt (resume (the_thread s) s'))
  else Panic "sched locks".

Definition sleep (ch lk : Z) : M St unit :=
  release lk;;; switch ch;;; acquire lk.
End thread_ops.

(** * Running several threads *)

Section pool.
Context `{HasThread St} {A : Type}.

Inductive tstatus :=
| Ready (k : St → res St A)
| Asleep (ch : Z) (k : St → res St A)
| Finished (a : A).

Record pool := Pool { shared : St; threads : list tstatus }.

(** What [wakeup] did to the sleepers takes effect when the thread that called
    it leaves the CPU. *)
Definition wake (w : gset Z) (t : tstatus) : tstatus :=
  match t with
  | Asleep ch k => if decide (ch ∈ w) then Ready k else t
  | _ => t
  end.
Definition clear_woken (s : St) : St := set_thread (with_woken ∅ (the_thread s)) s.
Definition woken (s : St) : gset Z := th_woken (the_thread s).

(** Thread [i] runs up to its next sleep; [None] when it panics or faults. *)
Definition pool_run (i : nat) (p : pool) : option pool :=
  match threads p !! i with
  | Some (Ready k) =>
      match k (shared p) with
      | Ok a s => Some (Pool (clear_woken s) (wake (woken s) <$> <[i := Finished a]> (threads p)))
      | Sleep ch s k' =>
          Some (Pool (clear_woken s) (wake (woken s) <$> <[i := Asleep ch k']> (threads p)))
      | Blocked ch s => Some p
      | _ => None
      end
  | _ => Some p
  end.

Inductive pool_step : pool → option pool → Prop :=
| pool_step_run i p k : threads p !! i = Some (Ready k) → pool_step p (pool_run i p).

Inductive pool_reach (p0 : pool) : option pool → Prop :=
| pool_reach_refl : pool_reach p0 (Some p0)
| pool_reach_step p q : pool_reach p0 (Some p) → pool_step p q → pool_reach p0 q.

Context (Inv : St → Prop) (Q : A → St → Prop).
(** The invariant does not speak of the wakeups under way. *)
Context (Hwoken : ∀ s, Inv s → Inv (clear_woken s)).
Context (Hfinal : ∀ a s, Q a s → Inv s).

Definition shared_env : env St := Env Inv (λ _ _, True).
Definition thread_ok (t : tstatus) : Prop :=
  match t with
  | Ready k | Asleep _ k => ∀ s, Inv s → safe shared_env Q (k s)
  | Finished _ => True
  end.
Definition pool_ok (p : pool) : Prop := Inv (shared p) ∧ Forall thread_ok (threads p).

Lemma wake_ok w t : thread_ok t → thread_ok (wake w t).
Proof. destruct t; simpl; [done| |done]. by case_decide. Qed.

Lemma wake_all_ok w ts : Forall thread_ok ts → Forall thread_ok (wake w <$> ts).
Proof. rewrite Forall_fmap. intros Hts. eapply Forall_impl; [done|]. intros t. apply wake_ok. Qed.

(** A step from a good pool neither panics nor faults, and gives a good pool. *)
Lemma pool_run_ok p i k :
  pool_ok p → threads p !! i = Some (Ready k) → ∃ q, pool_run i p = Some q ∧ pool_ok q.
Proof using Hwoken Hfinal.
  intros [Hi Hts] Hk. unfold pool_run. rewrite Hk.
  pose proof (Forall_lookup_1 _ _ _ _ Hts Hk (shared p) Hi) as Hs.
  destruct (k (shared p)) as [a s| | |ch s k'|ch s|] eqn:Hr; simpl in Hs; try done.
  - eexists. split; [done|]. split; simpl; [by eapply Hwoken, Hfinal|].
    apply wake_all_ok. by apply Forall_insert.
  - destruct Hs as [Hi' Hk']. eexists. split; [done|]. split; simpl; [by apply Hwoken|].
    apply wake_all_ok. apply Forall_insert; [done|]. intros s' ?. by apply Hk'.
  - exists p. done.
Qed.

Lemma pool_safe p0 q :
  pool_ok p0 → pool_reach p0 q → ∃ p, q = Some p ∧ pool_ok p.
Proof using Hwoken Hfinal.
  intros H0 Hr. induction Hr as [|p q Hr IH Hs]; [by exists p0|].
  destruct IH as (p' & [= <-] & Hok). destruct Hs as [i p k Hk].
  by eapply pool_run_ok.
Qed.
End pool.
Arguments pool St A : clear implicits.
Arguments tstatus St A : clear implicits.

Section thread_wp.
Context `{HasThread St}.
Implicit Types (s : St).

Lemma wp_wakeup (E : env St) ch Q s :
  Q tt (set_thread (with_woken ({[ch]} ∪ th_woken (the_thread s)) (the_thread s)) s) →
  wp E (wakeup ch) Q s.
Proof. done. Qed.

(** To sleep, a thread holds the one lock it names, and it establishes the
    invariant of the shared state; when it is back it holds that lock again. *)
Lemma wp_sleep (E : env St) ch lk Q s :
  held s = {[lk]} →
  e_inv E (set_held ∅ s) →
  (∀ s', e_rely E (set_held ∅ s) s' → e_inv E s' →
     Q tt (set_held {[lk]} (resume (with_held ∅ (the_thread s)) s'))) →
  wp E (sleep ch lk) Q s.
Proof.
  intros Hh Hi Hk. unfold sleep. apply wp_bind, wp_release; [rewrite Hh; set_solver|].
  replace (held s ∖ {[lk]}) with (∅ : gset Z) by (rewrite Hh; set_solver).
  apply wp_bind. unfold wp, switch. rewrite decide_True by apply held_set. simpl.
  split; [done|]. intros s' Hr Hi'. apply wp_acquire.
  - unfold resume. simpl. rewrite !thread_set. simpl. set_solver.
  - specialize (Hk s' Hr Hi').
    replace ({[lk]} ∪ _) with ({[lk]} : gset Z);
      [by rewrite thread_set in *|].
    unfold resume. simpl. rewrite !thread_set. simpl. set_solver.
Qed.
End thread_wp.

(** * User memory

    The kernel reaches user memory through [copyin] and [copyout]; most callers
    copy to or from a kernel variable.  [copyin_val pt va n] is
    [copyin(pt, &x, va, n)] for such a variable, [None] for the -1 result, and
    [copyout_val] likewise, [false] for -1.  [copyin_part] is the same for a buffer
    whose partial contents matter: the bytes copied, fewer than [n] for the -1
    result.  The components
    are proved for every instance that satisfies [UserMemLaws]; [flat_user] is one,
    and [VmTheorems] has the contract of the page-table routines behind them. *)
Class UserMem (U : Type) := {
  copyin_val : Z → Z → nat → M U (option (list Z));
  copyin_part : Z → Z → nat → M U (list Z);
  copyout_val : Z → Z → list Z → M U bool;
  kernel_read : Z → nat → M U (list Z);
  kernel_write : Z → list Z → M U unit;
}.

(** [either_copyout] and [either_copyin] of proc.c from and to a kernel
    variable; [pt] is [myproc()->pagetable].  A kernel address is used as it
    is, through [kernel_read] and [kernel_write]. *)
Definition either_copyout `{UserMem U} (pt : Z) (user_dst : bool) (dst : Z) (bs : list Z) : M U bool :=
  if user_dst then copyout_val pt dst bs
  else kernel_write dst bs;;; ret true.
Definition either_copyin `{UserMem U} (pt : Z) (user_src : bool) (src : Z) (n : nat) :
    M U (option (list Z)) :=
  if user_src then copyin_val pt src n
  else let! bs := kernel_read src n in ret (Some bs).

Definition either_copyin_part `{UserMem U} (pt : Z) (user_src : bool) (src : Z) (n : nat) : M U (list Z) :=
  if user_src then copyin_part pt src n else kernel_read src n.

(** [kalloc] and [kfree] for the callers that only need a page to exist. *)
Class PageAlloc (U : Type) := {
  page_alloc : M U Z;
  page_free : Z → M U unit;
}.

(** What the callers rely on: with a sound page table both return, reading does
    not change memory and gives the bytes asked for. *)
Class UserMemLaws (U : Type) `{UserMem U} := {
  um_ok : Z → U → Prop;
  copyin_val_ok : ∀ pt va n u, um_ok pt u →
    returns (copyin_val pt va n)
      (λ r u', u' = u ∧ match r with
                        | Some bs => length bs = n ∧ Forall (λ b, 0 ≤ b < 256) bs
                        | None => True end) u;
  copyout_val_ok : ∀ pt va bs u, um_ok pt u → Forall (λ b, 0 ≤ b < 256) bs →
    returns (copyout_val pt va bs) (λ _ u', ∀ pt', um_ok pt' u → um_ok pt' u') u;
}.

(** A buffer of the kernel: what was written to it is read back. *)
Class KernelMemLaws (U : Type) `{UserMem U} := {
  km_ok : Z → nat → U → Prop;
  kernel_write_ok : ∀ a bs u, km_ok a (length bs) u →
    returns (kernel_write a bs)
      (λ _ u', (∀ a' n, km_ok a' n u → km_ok a' n u') ∧ kernel_read a (length bs) u' = Ok bs u') u;
}.

(** A flat user memory: every mapped address is readable and writable. *)
Definition flat_user : Type := gmap Z Z.
Fixpoint flat_prefix (va : Z) (n : nat) (u : flat_user) : list Z :=
  match n with
  | O => []
  | S n => match (u : gmap Z Z) !! va with Some b => b :: flat_prefix (va + 1) n u | None => [] end
  end.
#[export] Instance flat_user_mem : UserMem flat_user := {|
  copyin_val := λ _ va n u,
    Ok (mapM (λ i, u !! (va + Z.of_nat i)) (seq 0 n)) u;
  copyin_part := λ _ va n u, Ok (flat_prefix va n u) u;
  copyout_val := λ _ va bs u,
    if forallb (λ i, bool_decide (is_Some (u !! (va + Z.of_nat i)))) (seq 0 (length bs))
    then Ok true (foldr (λ '(i, b) u, <[va + Z.of_nat i := b]> u) u (zip (seq 0 (length bs)) bs))
    else Ok false u;
  kernel_read := λ va n u,
    match mapM (λ i, u !! (va + Z.of_nat i)) (seq 0 n) with Some bs => Ok bs u | None => Fault end;
  kernel_write := λ va bs u,
    if forallb (λ i, bool_decide (is_Some (u !! (va + Z.of_nat i)))) (seq 0 (length bs))
    then Ok tt (foldr (λ '(i, b) u, <[va + Z.of_nat i := b]> u) u (zip (seq 0 (length bs)) bs))
    else Fault;
|}.

#[export] Instance flat_user_laws : UserMemLaws flat_user.
Proof.
  refine {| um_ok := λ _ u, map_Forall (λ _ b, 0 ≤ b < 256) u |}.
  - intros pt va n u Hu. unfold wp. simpl. split; [done|].
    destruct (mapM _ _) as [bs|] eqn:Hm; [|done].
    apply mapM_Some in Hm. split; [by rewrite <- (Forall2_length _ _ _ Hm), length_seq|].
    clear -Hm Hu. induction Hm as [|i b is_ bs Hi _ IH]; constructor; [by eapply Hu|done].
  - intros pt va bs u Hu Hbs. unfold wp. simpl. case_match; simpl; [|done].
    intros _ _. clear -Hu Hbs. generalize 0%nat as i. induction Hbs as [|b bs Hb _ IH]; intros i; simpl; [done|].
    apply map_Forall_insert_2; [done|]. apply (IH (S i)).
Defined.

(** The bytes [bs] are at [addr]. *)
Definition flat_bytes (u : flat_user) (addr : Z) (bs : list Z) : Prop :=
  ∀ i b, bs !! i = Some b → (u : gmap Z Z) !! (addr + Z.of_nat i) = Some b ∧ 0 ≤ b < 256.
Section flat.
Implicit Types (u : flat_user).

Lemma flat_copyin pt va b u :
  u !! va = Some b → copyin_val pt va 1 u = Ok (Some [b]) u.
Proof. simpl. intros Hb. rewrite Z.add_0_r. by rewrite Hb. Qed.

Lemma flat_copyout pt va b u :
  is_Some ((u : gmap Z Z) !! va) → copyout_val pt va [b] u = Ok true (<[va := b]> u).
Proof.
  intros Hb. simpl. rewrite Z.add_0_r. by rewrite bool_decide_true.
Qed.
End flat.

(** A thread that is still asleep on [ch] when its wakeups are used up. *)
Definition blocked `{HasThread St} {A} (ch lk : Z) : M St A :=
  release lk;;; λ s, Blocked ch s.

Lemma wp_blocked `{HasThread St} {A} (E : env St) ch lk (Q : A → St → Prop) s :
  held s = {[lk]} → e_inv E (set_held ∅ s) → wp E (blocked ch lk) Q s.
Proof.
  intros Hh Hi. apply wp_bind, wp_release; [rewrite Hh; set_solver|].
  replace (held s ∖ {[lk]}) with (∅ : gset Z) by (rewrite Hh; set_solver). done.
Qed.

(** * Who runs

    A routine that returns without sleeping leaves the process that runs it, its
    pid and its page table as they were. *)
Record identity := Identity { id_proc : Z; id_pid : Z; id_pagetable : Z }.
Definition ident (t : thread) : identity := Identity (th_proc t) (th_pid t) (th_pagetable t).

Section keeps.
Context `{HasThread St}.

Definition keeps_ident {A} (m : M St A) : Prop :=
  ∀ s a s', m s = Ok a s' → ident (the_thread s') = ident (the_thread s).

Lemma keeps_bind {A B} (m : M St A) (f : A → M St B) :
  keeps_ident m → (∀ a, keeps_ident (f a)) → keeps_ident (bind m f).
Proof.
  intros Hm Hf s b s'. unfold bind. destruct (m s) as [a s1| | | | |] eqn:He; simpl; try done.
  intros Hb. rewrite (Hf a s1 b s' Hb). by eapply Hm.
Qed.
Lemma keeps_ret {A} (a : A) : keeps_ident (ret a).
Proof. by intros s b s' [= _ ->]. Qed.
Lemma keeps_panic {A} msg : keeps_ident (panic msg : M St A).
Proof. by intros s b s'. Qed.
Lemma keeps_fault {A} : keeps_ident (fault : M St A).
Proof. by intros s b s'. Qed.
Lemma keeps_out_of_fuel {A} : keeps_ident (out_of_fuel : M St A).
Proof. by intros s b s'. Qed.
Lemma keeps_gets {A} (f : St → A) : keeps_ident (gets f).
Proof. by intros s b s' [= _ ->]. Qed.
Lemma keeps_get_some {A} (f : St → option A) : keeps_ident (get_some f).
Proof. intros s b s'. unfold get_some. destruct (f s); [|done]. by intros [= _ ->]. Qed.
Lemma keeps_modify (f : St → St) :
  (∀ s, ident (the_thread (f s)) = ident (the_thread s)) → keeps_ident (modify f).
Proof. intros Hf s b s' [= _ <-]. apply Hf. Qed.
Lemma keeps_when b (m : M St unit) : keeps_ident m → keeps_ident (when b m).
Proof. intros. destruct b; [done|]. apply keeps_ret. Qed.
Lemma keeps_acquire lk : keeps_ident (acquire lk).
Proof.
  intros s b s'. unfold acquire. destruct (decide _); [done|]. intros [= _ <-].
  unfold set_held. simpl. by rewrite thread_set.
Qed.
Lemma keeps_release lk : keeps_ident (release lk).
Proof.
  intros s b s'. unfold release. destruct (decide _); [|done]. intros [= _ <-].
  unfold set_held. simpl. by rewrite thread_set.
Qed.
Lemma keeps_wakeup ch : keeps_ident (wakeup ch).
Proof. apply keeps_modify. intros s. by rewrite thread_set. Qed.
Lemma keeps_sleep ch lk : keeps_ident (sleep ch lk).
Proof.
  intros s b s'. unfold sleep, bind, release. destruct (decide _); [|done]. simpl.
  unfold switch. by destruct (decide _).
Qed.
Lemma keeps_blocked {A} ch lk : keeps_ident (blocked ch lk : M St A).
Proof. intros s b s'. unfold blocked, bind, release. by destruct (decide _). Qed.
End keeps.

Lemma returns_keeps `{HasThread St} {A} (m : M St A) (P : A → St → Prop) s :
  keeps_ident m → returns m P s →
  returns m (λ a s', P a s' ∧ ident (the_thread s') = ident (the_thread s)) s.
Proof.
  rewrite !wp_no_sleep. intros Hk (a & s' & He & HP). exists a, s'. split_and!; [done..|]. by eapply Hk.
Qed.

Lemma keeps_zoom `{HasThread St, HasThread T} {A} (get : St → T) (put : T → St → St) (m : M T A) :
  (∀ s, the_thread (get s) = the_thread s) → (∀ t s, the_thread (put t s) = the_thread t) →
  keeps_ident m → keeps_ident (zoom get put m).
Proof.
  intros Hg Hp Hm s a s'. unfold zoom. destruct (m (get s)) as [b t| | | | |] eqn:He; simpl; try done.
  intros [= -> <-]. rewrite Hp, <- Hg. by eapply Hm.
Qed.

#[export] Hint Resolve keeps_ret keeps_panic keeps_fault keeps_out_of_fuel keeps_gets keeps_get_some
  keeps_acquire keeps_release keeps_wakeup keeps_sleep keeps_blocked : keeps.
(** Follows the code. *)
Ltac keeps_step :=
  match goal with
  | |- keeps_ident (bind _ _) => apply keeps_bind; [|intros ?; cbn beta]
  | |- keeps_ident (when _ _) => apply keeps_when
  | |- keeps_ident (match ?x with _ => _ end) => destruct x
  | |- keeps_ident (modify _) => apply keeps_modify; intros ?; reflexivity
  | |- _ => solve [eauto with keeps]
  end.
Ltac keeps := repeat keeps_step.
