(* ===== verification/Ring.v ===== *)
(** Ring buffers with free-running counters: the pipe, the console input buffer
    and the UART output buffer.  The counters [r] and [w] count modulo [W] (2^32
    or 2^64) and index the [N] slots modulo [N]. *)

From S2P Require Import Prelude.
Local Open Scope Z_scope.

Definition ring_count (W r w : Z) : Z := (w - r) `mod` W.
(** The elements in the ring, oldest first. *)
Definition ring_content (N W : Z) (data : list Z) (r w : Z) : list Z :=
  (λ i, nth (Z.to_nat ((r + Z.of_nat i) `mod` N)) data 0) <$> seq 0 (Z.to_nat (ring_count W r w)).

Section ring.
Context (N W : Z).
Context (HN : 0 < N) (HNW : N < W) (Hdiv : (N | W)).
Implicit Types (data : list Z) (r w c : Z) (i : nat).

Lemma ring_count_range r w : 0 ≤ ring_count W r w < W.
Proof using HN HNW. apply Z.mod_pos_bound. lia. Qed.

Lemma ring_mod_mod x : (x `mod` W) `mod` N = x `mod` N.
Proof using HN HNW Hdiv. apply Z.mod_mod_divide. done. Qed.

Lemma ring_content_length data r w :
  length (ring_content N W data r w) = Z.to_nat (ring_count W r w).
Proof. unfold ring_content. by rewrite length_fmap, length_seq. Qed.

Lemma ring_content_lookup data r w i :
  (i < Z.to_nat (ring_count W r w))%nat →
  ring_content N W data r w !! i = Some (nth (Z.to_nat ((r + Z.of_nat i) `mod` N)) data 0).
Proof. intros. unfold ring_content. by rewrite list_lookup_fmap, lookup_seq_lt. Qed.

(** The writing counter from the reading one and the count. *)
Lemma ring_count_eq r w d :
  0 ≤ d < W → 0 ≤ w < W → ring_count W r w = d ↔ w = (r + d) `mod` W.
Proof using HN HNW.
  intros Hd Hw. unfold ring_count. split.
  - intros <-. rewrite Z.add_mod_idemp_r by lia. replace (r + (w - r)) with w by lia.
    by rewrite Z.mod_small.
  - intros ->. rewrite Zminus_mod_idemp_l. replace (r + d - r) with d by lia. by apply Z.mod_small.
Qed.

Lemma ring_full r w : 0 ≤ w < W → w = (r + N) `mod` W ↔ ring_count W r w = N.
Proof using HN HNW. intros. rewrite ring_count_eq; [done|lia|done]. Qed.

Lemma ring_empty data r w :
  0 ≤ r < W → 0 ≤ w < W → r = w ↔ ring_content N W data r w = [].
Proof using HN HNW.
  intros Hr Hw. rewrite <- length_zero_iff_nil, ring_content_length.
  pose proof (ring_count_range r w). pose proof (ring_count_eq r w 0 ltac:(lia) Hw) as He.
  rewrite Z.add_0_r, (Z.mod_small r) in He by done. split; intros; [|lia].
  assert (ring_count W r w = 0) by (apply He; congruence). lia.
Qed.

Lemma ring_count_push r w :
  ring_count W r w < N → ring_count W r ((w + 1) `mod` W) = ring_count W r w + 1.
Proof using HN HNW.
  intros Hc. pose proof (ring_count_range r w). unfold ring_count in *.
  rewrite Zminus_mod_idemp_l. replace (w + 1 - r) with ((w - r) + 1) by lia.
  rewrite <- Zplus_mod_idemp_l. apply Z.mod_small. lia.
Qed.

Lemma ring_count_pop r w :
  ring_count W r w ≠ 0 → ring_count W ((r + 1) `mod` W) w = ring_count W r w - 1.
Proof using HN HNW.
  intros Hc. pose proof (ring_count_range r w). unfold ring_count in *.
  rewrite Zminus_mod_idemp_r. replace (w - (r + 1)) with ((w - r) - 1) by lia.
  rewrite <- Zminus_mod_idemp_l. apply Z.mod_small. lia.
Qed.

Lemma ring_count_unpush r w :
  ring_count W r w ≠ 0 → ring_count W r ((w - 1) `mod` W) = ring_count W r w - 1.
Proof using HN HNW.
  intros Hc. pose proof (ring_count_range r w). unfold ring_count in *.
  rewrite Zminus_mod_idemp_l. replace (w - 1 - r) with ((w - r) - 1) by lia.
  rewrite <- Zminus_mod_idemp_l. apply Z.mod_small. lia.
Qed.

(** Slots of different positions are different. *)
Lemma ring_slot_ne r (i j : Z) :
  0 ≤ i < j → j < i + N → Z.to_nat ((r + i) `mod` N) ≠ Z.to_nat ((r + j) `mod` N).
Proof using HN.
  intros Hi Hj He. pose proof (Z.mod_pos_bound (r + i) N HN). pose proof (Z.mod_pos_bound (r + j) N HN).
  assert ((r + i) `mod` N = (r + j) `mod` N) as Hm by lia.
  assert ((j - i) `mod` N = 0) as Hz.
  { replace (j - i) with ((r + j) - (r + i)) by lia.
    rewrite Zminus_mod, Hm, Z.sub_diag. apply Z.mod_0_l. lia. }
  rewrite Z.mod_small in Hz; lia.
Qed.

Lemma ring_push data r w c :
  length data = Z.to_nat N → ring_count W r w < N →
  ring_content N W (<[Z.to_nat (w `mod` N) := c]> data) r ((w + 1) `mod` W) =
    ring_content N W data r w ++ [c].
Proof using HN HNW Hdiv.
  intros Hlen Hlt. pose proof (ring_count_range r w) as Hc. pose proof (ring_count_push r w Hlt) as Hc1.
  assert (w `mod` N = (r + ring_count W r w) `mod` N) as Hwn.
  { unfold ring_count. rewrite <- Zplus_mod_idemp_r, ring_mod_mod, Zplus_mod_idemp_r. f_equal. lia. }
  apply list_eq. intros i. destruct (decide (i < Z.to_nat (ring_count W r w + 1))%nat) as [Hi|Hi].
  - rewrite ring_content_lookup by (by rewrite Hc1).
    destruct (decide (i = Z.to_nat (ring_count W r w))) as [->|Hne].
    + rewrite lookup_app_r, ring_content_length, Nat.sub_diag by (by rewrite ring_content_length).
      simpl. f_equal. rewrite Z2Nat.id, <- Hwn by lia.
      apply nth_lookup_Some with (d := 0), list_lookup_insert_eq.
      rewrite Hlen. pose proof (Z.mod_pos_bound w N HN). lia.
    + rewrite lookup_app_l, ring_content_lookup by (rewrite ?ring_content_length; lia).
      f_equal. rewrite !nth_lookup, list_lookup_insert_ne; [done|]. rewrite Hwn.
      apply not_eq_sym, ring_slot_ne; lia.
  - rewrite !lookup_ge_None_2; [done| |].
    + rewrite length_app, ring_content_length. simpl. lia.
    + rewrite ring_content_length, Hc1. lia.
Qed.

Lemma ring_pop data r w :
  ring_count W r w ≠ 0 →
  ring_content N W data r w =
    nth (Z.to_nat (r `mod` N)) data 0 :: ring_content N W data ((r + 1) `mod` W) w.
Proof using HN HNW Hdiv.
  intros Hne. pose proof (ring_count_range r w). pose proof (ring_count_pop r w Hne) as Hc.
  apply list_eq. intros i. destruct (decide (i < Z.to_nat (ring_count W r w))%nat) as [Hi|Hi].
  - rewrite ring_content_lookup by done. destruct i as [|i]; simpl; [by rewrite Z.add_0_r|].
    rewrite ring_content_lookup by (rewrite Hc; lia). do 3 f_equal.
    rewrite <- (ring_mod_mod ((r + 1) `mod` W + _)), Zplus_mod_idemp_l, ring_mod_mod. f_equal. lia.
  - rewrite !lookup_ge_None_2; [done| |].
    + simpl. rewrite ring_content_length, Hc. lia.
    + rewrite ring_content_length. lia.
Qed.

(** Taking the newest element back. *)
Lemma ring_unpush data r w :
  ring_count W r w ≠ 0 →
  ring_content N W data r w =
    ring_content N W data r ((w - 1) `mod` W) ++ [nth (Z.to_nat ((w - 1) `mod` N)) data 0].
Proof using HN HNW Hdiv.
  intros Hne. pose proof (ring_count_range r w). pose proof (ring_count_unpush r w Hne) as Hc.
  apply list_eq. intros i. destruct (decide (i < Z.to_nat (ring_count W r w))%nat) as [Hi|Hi].
  - rewrite ring_content_lookup by done.
    destruct (decide (i = Z.to_nat (ring_count W r w - 1))) as [->|Hni].
    + rewrite lookup_app_r, ring_content_length, Hc, Nat.sub_diag by (rewrite ring_content_length, Hc; lia).
      simpl. do 3 f_equal. rewrite Z2Nat.id by lia. unfold ring_count.
      rewrite <- (ring_mod_mod (w - 1)).
      rewrite <- (ring_mod_mod (r + _)). f_equal.
      replace (r + ((w - r) `mod` W - 1)) with ((r - 1) + (w - r) `mod` W) by lia.
      rewrite Zplus_mod_idemp_r. f_equal. lia.
    + rewrite lookup_app_l, ring_content_lookup by (rewrite ?ring_content_length, Hc; lia). done.
  - rewrite !lookup_ge_None_2; [done| |].
    + rewrite length_app, ring_content_length, Hc. simpl. lia.
    + rewrite ring_content_length. lia.
Qed.

(** A ring cut at a counter between the two. *)
Lemma ring_split data r w e :
  0 ≤ w < W → ring_count W r e = ring_count W r w + ring_count W w e →
  ring_content N W data r e = ring_content N W data r w ++ ring_content N W data w e.
Proof using HN HNW Hdiv.
  intros Hw Hc. pose proof (ring_count_range r w). pose proof (ring_count_range w e).
  assert (w = (r + ring_count W r w) `mod` W) as Hwe by (apply ring_count_eq; [lia|done|done]).
  unfold ring_content at 1 2. rewrite Hc, Z2Nat.inj_add, seq_app, fmap_app by lia. f_equal.
  unfold ring_content. rewrite Nat.add_0_l.
  rewrite <- (Nat.add_0_r (Z.to_nat (ring_count W r w))), <- fmap_add_seq, <- list_fmap_compose.
  apply list_fmap_ext. intros i j _. simpl. do 2 f_equal.
  rewrite Hwe at 2. rewrite <- (ring_mod_mod (_ + Z.of_nat j)), Zplus_mod_idemp_l, ring_mod_mod.
  f_equal. lia.
Qed.

(** Writing to a slot beyond those of an older part leaves that part alone. *)
Lemma ring_insert_other data r w e c :
  ring_count W r w + ring_count W w e < N → 0 ≤ w < W → 0 ≤ e < W →
  ring_content N W (<[Z.to_nat (e `mod` N) := c]> data) r w = ring_content N W data r w.
Proof using HN HNW Hdiv.
  intros Hc Hw He. unfold ring_content. apply list_fmap_ext. intros i j Hj.
  apply lookup_seq in Hj as [-> Hi]. rewrite !nth_lookup, list_lookup_insert_ne; [done|].
  pose proof (ring_count_range r w). pose proof (ring_count_range w e).
  assert (w = (r + ring_count W r w) `mod` W) as Hwe by (apply ring_count_eq; [lia|done|done]).
  assert (e = (w + ring_count W w e) `mod` W) as Hee by (apply ring_count_eq; [lia|done|done]).
  assert (e `mod` N = (r + (ring_count W r w + ring_count W w e)) `mod` N) as ->.
  { rewrite Hee at 1. rewrite ring_mod_mod. rewrite Hwe at 1.
    rewrite <- (ring_mod_mod (_ + _)), Zplus_mod_idemp_l, ring_mod_mod. f_equal. lia. }
  apply not_eq_sym, ring_slot_ne; lia.
Qed.
End ring.
