(* ===== verification/Sleeplock.v ===== *)
(** Sleeping locks (kernel/sleeplock.c).

    A lock is identified by its address, which is also the channel its waiters
    sleep on; the state that holds the locks is any [St] with [HasSleeplocks]. *)

From S2P Require Import Prelude Threads.
Local Open Scope Z_scope.

Record sleeplock := Sleeplock { sl_locked : bool; sl_pid : Z }.

Class HasSleeplocks (St : Type) `{HasThread St} := {
  sl_get : Z → St → option sleeplock;
  sl_put : Z → sleeplock → St → St;
  sl_thread : ∀ lk l s, the_thread (sl_put lk l s) = the_thread s;
  sl_get_thread : ∀ lk t s, sl_get lk (set_thread t s) = sl_get lk s;
  sl_put_thread : ∀ lk l t s, set_thread t (sl_put lk l s) = sl_put lk l (set_thread t s);
  sl_get_put : ∀ lk l s, is_Some (sl_get lk s) → sl_get lk (sl_put lk l s) = Some l;
}.

#[export] Hint Rewrite @sl_thread @sl_put_thread @sl_get_thread using apply _ : thread.

Section sleeplock.
Context `{HasSleeplocks St}.

Definition initsleeplock (lk : Z) : M St unit := modify (sl_put lk (Sleeplock false 0)).

(** Takes the lock as soon as it is found free; [fuel] is how many times the
    thread can be woken to find it taken again. *)
Fixpoint acquiresleep_loop (fuel : nat) (lk : Z) : M St unit :=
  let! l := get_some (sl_get lk) in
  if sl_locked l then
    match fuel with
    | O => blocked lk lk
    | S fuel => sleep lk lk;;; acquiresleep_loop fuel lk
    end
  else ret tt.
Definition acquiresleep (fuel : nat) (lk : Z) : M St unit :=
  acquire lk;;;
  acquiresleep_loop fuel lk;;;
  let! pid := mypid in
  modify (sl_put lk (Sleeplock true pid));;;
  release lk.

Definition releasesleep (lk : Z) : M St unit :=
  acquire lk;;;
  modify (sl_put lk (Sleeplock false 0));;;
  wakeup lk;;;
  release lk.

Definition holdingsleep (lk : Z) : M St bool :=
  acquire lk;;;
  let! l := get_some (sl_get lk) in
  let! pid := mypid in
  let r := sl_locked l && (sl_pid l =? pid) in
  release lk;;;
  ret r.

Implicit Types (s : St).

Lemma held_sl_put lk l s : held (sl_put lk l s) = held s.
Proof. simpl. by rewrite sl_thread. Qed.
Lemma sl_get_held lk h s : sl_get lk (set_held h s) = sl_get lk s.
Proof. apply sl_get_thread. Qed.

Lemma set_held_sl_put lk l h s : set_held h (sl_put lk l s) = sl_put lk l (set_held h s).
Proof. simpl. by rewrite sl_put_thread, sl_thread. Qed.

Lemma set_held_empty h s : held s = ∅ → set_held ∅ (set_held h s) = s.
Proof. intros Hh. rewrite set_held_set. by rewrite <- Hh, set_held_held. Qed.

Lemma mypid_set_held h s : th_pid (the_thread (set_held h s)) = th_pid (the_thread s).
Proof. simpl. by rewrite thread_set. Qed.

(** The common tail of an acquisition: the lock is found free. *)
Lemma wp_acquiresleep_take E lk s Q :
  held s = {[lk]} →
  Q tt (sl_put lk (Sleeplock true (th_pid (the_thread s))) (set_held ∅ s)) →
  wp E (let! pid := mypid in modify (sl_put lk (Sleeplock true pid));;; release lk) Q s.
Proof.
  intros Hh HQ. apply wp_bind, wp_gets, wp_bind, wp_modify. apply wp_release.
  - rewrite held_sl_put, Hh. set_solver.
  - rewrite set_held_sl_put, held_sl_put, Hh.
    by replace (_ ∖ _) with (∅ : gset Z) by set_solver.
Qed.

(** Uncontended, the routines do not sleep. *)
Lemma acquiresleep_free fuel lk l s :
  held s = ∅ → sl_get lk s = Some l → sl_locked l = false →
  returns (acquiresleep fuel lk)
    (λ _ s', s' = sl_put lk (Sleeplock true (th_pid (the_thread s))) s) s.
Proof.
  intros Hh Hg Hl. unfold acquiresleep. apply wp_bind, wp_acquire; [rewrite Hh; set_solver|].
  rewrite Hh, union_empty_r_L. apply wp_bind.
  destruct fuel; simpl acquiresleep_loop; apply wp_bind;
    (eapply wp_get_some; [by rewrite sl_get_held|]); rewrite Hl; apply wp_ret;
    apply wp_acquiresleep_take; [by rewrite held_set| |by rewrite held_set|];
    by rewrite mypid_set_held, set_held_empty.
Qed.

Lemma releasesleep_spec lk s :
  held s = ∅ →
  returns (releasesleep lk)
    (λ _ s', s' = set_thread (with_woken ({[lk]} ∪ th_woken (the_thread s)) (the_thread s))
                    (sl_put lk (Sleeplock false 0) s)) s.
Proof.
  intros Hh. unfold releasesleep. apply wp_bind, wp_acquire; [rewrite Hh; set_solver|].
  apply wp_bind, wp_modify, wp_bind, wp_wakeup. apply wp_release; simpl;
    autorewrite with thread; simpl; [set_solver|].
  simpl in Hh. rewrite Hh. f_equal. unfold with_held, with_woken. simpl.
  rewrite Hh. do 2 f_equal. set_solver.
Qed.

Lemma holdingsleep_spec lk l s :
  held s = ∅ → sl_get lk s = Some l →
  returns (holdingsleep lk)
    (λ r s', s' = s ∧ r = sl_locked l && (sl_pid l =? th_pid (the_thread s))) s.
Proof.
  intros Hh Hg. unfold holdingsleep. apply wp_bind, wp_acquire; [rewrite Hh; set_solver|].
  apply wp_bind. eapply wp_get_some; [by rewrite sl_get_held|].
  apply wp_bind, wp_gets, wp_bind, wp_release; [rewrite held_set; set_solver|].
  apply wp_ret. rewrite mypid_set_held. split; [|done].
  rewrite held_set, Hh. replace (_ ∖ _) with (∅ : gset Z) by set_solver.
  by apply set_held_empty.
Qed.

Lemma set_held_resume h me s : th_held me = ∅ → set_held ∅ (set_held h (resume me s)) = resume me s.
Proof.
  intros Hm. rewrite set_held_set. unfold resume. simpl. autorewrite with thread.
  unfold with_held. simpl. by rewrite Hm.
Qed.

Lemma acquiresleep_loop_wait E fuel lk s :
  held s = {[lk]} → is_Some (sl_get lk s) → e_inv E (set_held ∅ s) →
  (∀ s0 s', e_rely E s0 s' → e_inv E s' →
     is_Some (sl_get lk s') ∧ e_inv E (resume (with_held ∅ (the_thread s0)) s')) →
  wp E (acquiresleep_loop fuel lk)
    (λ _ s1, held s1 = {[lk]} ∧ th_pid (the_thread s1) = th_pid (the_thread s) ∧
       sl_locked <$> sl_get lk s1 = Some false ∧ e_inv E (set_held ∅ s1)) s.
Proof.
  intros Hh Hg Hi Hst. revert s Hh Hg Hi. induction fuel as [|fuel IH]; intros s Hh [l Hg] Hi;
    simpl; apply wp_bind; (eapply wp_get_some; [done|]); (destruct (sl_locked l) eqn:Hl;
    [|apply wp_ret; rewrite Hg; simpl; by rewrite Hl]).
  - by apply wp_blocked.
  - apply wp_bind, wp_sleep; [done..|]. intros s' Hr Hi'.
    destruct (Hst _ _ Hr Hi') as [Hs' Hi2].
    replace (with_held ∅ (the_thread (set_held ∅ s))) with (with_held ∅ (the_thread s)) in Hi2
      by (simpl; by rewrite thread_set).
    eapply wp_mono; [apply IH|].
    + apply held_set.
    + rewrite sl_get_held. unfold resume. by rewrite sl_get_thread.
    + by rewrite set_held_resume.
    + simpl. intros _ s1 (? & Hp & ? & ?). split_and!; [done| |done..].
      rewrite Hp. unfold resume. by autorewrite with thread.
Qed.

Lemma wp_acquiresleep E fuel lk s :
  held s = ∅ → is_Some (sl_get lk s) → e_inv E s →
  (∀ s0 s', e_rely E s0 s' → e_inv E s' →
     is_Some (sl_get lk s') ∧ e_inv E (resume (with_held ∅ (the_thread s0)) s')) →
  wp E (acquiresleep fuel lk)
    (λ _ s', ∃ s1, sl_locked <$> sl_get lk s1 = Some false ∧ held s1 = ∅ ∧ e_inv E s1 ∧
       th_pid (the_thread s1) = th_pid (the_thread s) ∧
       s' = sl_put lk (Sleeplock true (th_pid (the_thread s))) s1) s.
Proof.
  intros Hh Hg Hi Hst. apply wp_bind, wp_acquire; [rewrite Hh; set_solver|].
  rewrite Hh, union_empty_r_L. eapply wp_call.
  { apply acquiresleep_loop_wait; [apply held_set|by rewrite sl_get_held| |done].
    by rewrite set_held_empty. }
  intros _ s1 (Hh1 & Hp & Hl & Hi1). apply wp_acquiresleep_take; [done|].
  exists (set_held ∅ s1). rewrite mypid_set_held, sl_get_held, held_set.
  rewrite Hp, mypid_set_held. done.
Qed.
End sleeplock.

(** * The contract of sleeplock.c *)

(** Some locks and the thread that uses them. *)
Record slstate := Slstate { sls_thread : thread; sls_locks : gmap Z sleeplock }.
#[export] Instance slstate_thread : HasThread slstate.
Proof.
  refine {| the_thread := sls_thread; set_thread := λ t s, Slstate t (sls_locks s) |};
    try done. by intros [].
Defined.
#[export] Instance slstate_locks : HasSleeplocks slstate.
Proof.
  refine {| sl_get := λ lk s, sls_locks s !! lk;
            sl_put := λ lk l s, Slstate (sls_thread s) (<[lk := l]> (sls_locks s)) |};
    try done. intros lk l s _. simpl. by rewrite lookup_insert_eq.
Defined.

Definition sl_thread_of (proc pid : Z) : thread := Thread proc pid 0 ∅ ∅ ∅.

(** C30: a sleep lock is taken only when it is free: whatever the other threads
    do to it while the caller sleeps, and however often the caller is woken
    too early, [acquiresleep] returns only after a moment at which the lock was
    not held, and then it is held under the caller's pid; it panics in no
    case and keeps no spinlock. *)
Theorem acquiresleep_when_free (Inv : slstate → Prop) (fuel : nat) (lk : Z) (s : slstate) :
  held s = ∅ → Inv s → (∀ s, Inv s → is_Some (sls_locks s !! lk)) →
  (∀ s t, Inv s → Inv (set_thread t s)) →
  wp (Env Inv (λ _ _, True)) (acquiresleep fuel lk)
    (λ _ s', held s' = ∅ ∧ ∃ l s1, Inv s1 ∧ sls_locks s1 !! lk = Some l ∧ sl_locked l = false ∧
       sls_locks s' = <[lk := Sleeplock true (th_pid (the_thread s))]> (sls_locks s1)) s.
Proof.
  intros Hh Hi Hlk Ht. eapply wp_mono.
  { apply (wp_acquiresleep (Env Inv _)); [done|by apply Hlk|done|].
    simpl. intros s0 s' _ Hi'. split; [by apply Hlk|]. by apply Ht. }
  intros _ s' (s1 & Hl & Hh1 & Hi1 & _ & ->). split; [done|].
  destruct (Hlk _ Hi1) as [l Hg]. exists l, s1. split_and!; [done..| |done].
  change (sl_get lk s1 = Some l) in Hg. rewrite Hg in Hl. by injection Hl.
Qed.

Lemma acquiresleep_when_free_witness :
  let s := Slstate (sl_thread_of 3 7) {[40 := Sleeplock true 5]} in
  let Inv := λ s : slstate, is_Some (sls_locks s !! 40) in
  wp (Env Inv (λ _ _, True)) (acquiresleep 2 40)
    (λ _ s', held s' = ∅ ∧ ∃ l s1, Inv s1 ∧ sls_locks s1 !! 40 = Some l ∧ sl_locked l = false ∧
       sls_locks s' = <[40 := Sleeplock true 7]> (sls_locks s1)) s.
Proof.
  intros s Inv. apply (acquiresleep_when_free Inv 2 40 s).
  - reflexivity.
  - by exists (Sleeplock true 5).
  - done.
  - done.
Defined.

(** [holdingsleep] compares pids, and pids are only unique inside a
    container: a process that does not hold the lock is told it does when it
    has the pid its holder has in another container. *)
Theorem holdingsleep_confuses_pids (lk proc proc' pid : Z) (s : slstate) :
  proc ≠ proc' → is_Some (sls_locks s !! lk) → sl_locked <$> sls_locks s !! lk = Some false →
  returns (let! _ := acquiresleep 0 lk in
           let! _ := modify (set_thread (sl_thread_of proc' pid)) in
           holdingsleep lk)
    (λ r _, r = true) (set_thread (sl_thread_of proc pid) s).
Proof.
  intros Hne [l Hg] Hl. rewrite Hg in Hl. injection Hl as Hl.
  eapply wp_call; [by eapply (acquiresleep_free 0 lk l)|]. intros _ s1 ->.
  apply wp_bind, wp_modify. eapply wp_mono; [eapply holdingsleep_spec|].
  - done.
  - simpl. apply lookup_insert_eq.
  - simpl. intros r s' [_ ->]. apply Z.eqb_refl.
Qed.

Lemma holdingsleep_confuses_pids_witness :
  returns (let! _ := acquiresleep 0 40 in
           let! _ := modify (set_thread (sl_thread_of 9 2)) in
           holdingsleep 40)
    (λ r _, r = true)
    (set_thread (sl_thread_of 4 2) (Slstate (sl_thread_of 4 2) {[40 := Sleeplock false 0]})).
Proof.
  apply (holdingsleep_confuses_pids 40 4 9 2 (Slstate (sl_thread_of 4 2) {[40 := Sleeplock false 0]})).
  - discriminate.
  - by exists (Sleeplock false 0).
  - reflexivity.
Defined.
