(* ===== verification/Pipe.v ===== *)
(** Pipes (kernel/pipe.c): a ring buffer of [PIPESIZE] bytes between writers and
    readers that sleep while it is full or empty.

    A pipe is found by its address; its lock is at that address.  [sent] and
    [taken] are the history of the pipe, every byte ever stored in the ring and
    every byte ever taken out; they are not part of the code's state and no
    routine reads them. *)

From S2P Require Import Prelude Threads Ring.
Local Open Scope Z_scope.

Definition PIPESIZE : Z := 512.

Record pipe := Pipe {
  data : list Z;
  nread : Z;
  nwrite : Z;
  readopen : bool;
  writeopen : bool;
  sent : list Z;
  taken : list Z;
}.

(** [&pi->nread] and [&pi->nwrite], the channels of readers and writers. *)
Definition nread_of (pi : Z) : Z := pi + 536.
Definition nwrite_of (pi : Z) : Z := pi + 540.

Record pipest (U : Type) := Pipest {
  pp_thread : thread;
  pp_mem : U;
  pp_pipes : gmap Z pipe;
}.
Arguments Pipest {U} _ _ _.
Arguments pp_thread {U} _.
Arguments pp_mem {U} _.
Arguments pp_pipes {U} _.

#[export] Instance pipest_thread U : HasThread (pipest U).
Proof.
  refine {| the_thread := pp_thread;
            set_thread := λ t s, Pipest t (pp_mem s) (pp_pipes s) |}; try done.
  by intros [].
Defined.

Definition set_close (writable : bool) (p : pipe) : pipe :=
  if writable then Pipe (data p) (nread p) (nwrite p) (readopen p) false (sent p) (taken p)
  else Pipe (data p) (nread p) (nwrite p) false (writeopen p) (sent p) (taken p).
(** [pi->data[pi->nwrite++ % PIPESIZE] = ch] *)
Definition put_byte (ch : Z) (p : pipe) : pipe :=
  Pipe (<[Z.to_nat (nwrite p `mod` PIPESIZE) := ch]> (data p)) (nread p) (u32 (nwrite p + 1))
    (readopen p) (writeopen p) (sent p ++ [ch]) (taken p).
(** [pi->data[pi->nread++ % PIPESIZE]] *)
Definition take_byte (p : pipe) : Z * pipe :=
  let ch := nth (Z.to_nat (nread p `mod` PIPESIZE)) (data p) 0 in
  (ch, Pipe (data p) (u32 (nread p + 1)) (nwrite p) (readopen p) (writeopen p)
         (sent p) (taken p ++ [ch])).

(** What [pipealloc] stores in the page it gets; the zeros stand for the bytes of
    the ring, which nothing reads before they are written. *)
Definition new_pipe : pipe := Pipe (replicate (Z.to_nat PIPESIZE) 0) 0 0 true true [] [].

Section pipe.
Context {U : Type} `{UserMem U, PageAlloc U}.
Local Abbreviation St := (pipest U).

Definition on_mem {A} (m : M U A) : M St A :=
  zoom pp_mem (λ u s, Pipest (pp_thread s) u (pp_pipes s)) m.
Definition deref_pipe (pi : Z) : M St pipe := get_some (λ s, pp_pipes s !! pi).
Definition set_pipe (pi : Z) (p : pipe) : M St unit :=
  modify (λ s, Pipest (pp_thread s) (pp_mem s) (<[pi := p]> (pp_pipes s))).
Definition kfree_pipe (pi : Z) : M St unit :=
  on_mem (page_free pi);;;
  modify (λ s, Pipest (pp_thread s) (pp_mem s) (delete pi (pp_pipes s))).

Definition pipeclose (pi : Z) (writable : bool) : M St unit :=
  acquire pi;;;
  let! p := deref_pipe pi in
  set_pipe pi (set_close writable p);;;
  wakeup (if writable then nread_of pi else nwrite_of pi);;;
  let! p := deref_pipe pi in
  if negb (readopen p) && negb (writeopen p) then
    release pi;;; kfree_pipe pi
  else release pi.

(** The end of [pipewrite] and of [piperead]: wake the other side and go. *)
Definition pipe_done (ch pi i : Z) : M St Z :=
  wakeup ch;;; release pi;;; ret i.

(** The part of the writer's loop that waits for room; [k] stores the byte.
    [wakeups] is how often the writer may be woken to find the pipe full. *)
Fixpoint pipewrite_wait (wakeups : nat) (pi : Z) (k : M St Z) : M St Z :=
  let! p := deref_pipe pi in
  let! dead := iskilled in
  if negb (readopen p) || dead then release pi;;; ret (-1) else
  if nwrite p =? u32 (nread p + PIPESIZE) then
    wakeup (nread_of pi);;;
    match wakeups with
    | O => blocked (nwrite_of pi) pi
    | S wakeups => sleep (nwrite_of pi) pi;;; pipewrite_wait wakeups pi k
    end
  else k.

(** [togo] is [n - i]. *)
Fixpoint pipewrite_loop (wakeups togo : nat) (pi addr i : Z) : M St Z :=
  match togo with
  | O => pipe_done (nread_of pi) pi i
  | S togo =>
      pipewrite_wait wakeups pi
        (let! pt := mypagetable in
         let! r := on_mem (copyin_val pt (u64 (addr + i)) 1) in
         match r with
         | Some [ch] =>
             let! p := deref_pipe pi in
             set_pipe pi (put_byte ch p);;;
             pipewrite_loop wakeups togo pi addr (i + 1)
         | _ => pipe_done (nread_of pi) pi i
         end)
  end.
Definition pipewrite (wakeups : nat) (pi addr n : Z) : M St Z :=
  acquire pi;;; pipewrite_loop wakeups (Z.to_nat n) pi addr 0.

Fixpoint piperead_loop (togo : nat) (pi addr i : Z) : M St Z :=
  match togo with
  | O => pipe_done (nwrite_of pi) pi i
  | S togo =>
      let! p := deref_pipe pi in
      if nread p =? nwrite p then pipe_done (nwrite_of pi) pi i else
      let (ch, p) := take_byte p in
      set_pipe pi p;;;
      let! pt := mypagetable in
      let! ok := on_mem (copyout_val pt (u64 (addr + i)) [ch]) in
      if ok then piperead_loop togo pi addr (i + 1)
      else pipe_done (nwrite_of pi) pi i
  end.

(** The part of [piperead] that waits for data. *)
Fixpoint piperead_wait (wakeups : nat) (pi : Z) (k : M St Z) : M St Z :=
  let! p := deref_pipe pi in
  if (nread p =? nwrite p) && writeopen p then
    let! dead := iskilled in
    if dead then release pi;;; ret (-1) else
    match wakeups with
    | O => blocked (nread_of pi) pi
    | S wakeups => sleep (nread_of pi) pi;;; piperead_wait wakeups pi k
    end
  else k.
Definition piperead (wakeups : nat) (pi addr n : Z) : M St Z :=
  acquire pi;;; piperead_wait wakeups pi (piperead_loop (Z.to_nat n) pi addr 0).

Definition pipecount (pi : Z) : M St Z :=
  let! p := deref_pipe pi in ret (s32 (nread p)).
End pipe.

(** * The ring *)

(** The bytes in the ring, oldest first. *)
Definition content (p : pipe) : list Z :=
  ring_content PIPESIZE (2 ^ 32) (data p) (nread p) (nwrite p).

Record pipe_ok (p : pipe) : Prop := {
  pk_len : length (data p) = Z.to_nat PIPESIZE;
  pk_nread : 0 ≤ nread p < 2 ^ 32;
  pk_nwrite : 0 ≤ nwrite p < 2 ^ 32;
  pk_count : u32 (nwrite p - nread p) ≤ PIPESIZE;
  pk_hist : sent p = taken p ++ content p;
  pk_bytes : Forall (λ b, 0 ≤ b < 256) (data p);
}.

Section ring.
Implicit Types (p : pipe) (i : nat).

Lemma pipe_size : 0 < PIPESIZE ∧ PIPESIZE < 2 ^ 32 ∧ (PIPESIZE | 2 ^ 32).
Proof. split_and!; [done|done|]. by exists (2 ^ 23). Qed.

Lemma content_length p : length (content p) = Z.to_nat (u32 (nwrite p - nread p)).
Proof. apply ring_content_length. Qed.

Lemma pipe_full p :
  pipe_ok p → nwrite p = u32 (nread p + PIPESIZE) ↔ u32 (nwrite p - nread p) = PIPESIZE.
Proof. intros Hok. by apply ring_full; [apply pipe_size..|apply pk_nwrite]. Qed.

Lemma pipe_empty p : pipe_ok p → nread p = nwrite p ↔ content p = [].
Proof.
  intros Hok. by apply ring_empty; [apply pipe_size..|apply pk_nread|apply pk_nwrite].
Qed.

Lemma put_byte_content p ch :
  pipe_ok p → u32 (nwrite p - nread p) < PIPESIZE →
  content (put_byte ch p) = content p ++ [ch].
Proof. intros [Hlen _ _ _ _ _] Hlt. by apply ring_push; [apply pipe_size..|done|]. Qed.

Lemma take_byte_content p :
  pipe_ok p → nread p ≠ nwrite p →
  content p = (take_byte p).1 :: content (take_byte p).2.
Proof.
  intros Hok Hne. apply ring_pop; [apply pipe_size..|]. intros H0. apply Hne, pipe_empty; [done|].
  apply length_zero_iff_nil. unfold content. rewrite ring_content_length. lia.
Qed.

Lemma put_byte_ok p ch :
  pipe_ok p → u32 (nwrite p - nread p) < PIPESIZE → 0 ≤ ch < 256 → pipe_ok (put_byte ch p).
Proof.
  intros Hok Hlt Hch. pose proof Hok as [Hlen Hr Hw Hc Hh Hb]. split; simpl.
  - by rewrite length_insert.
  - done.
  - apply u32_range.
  - unfold u32, PIPESIZE in *. Z.to_euclidean_division_equations; lia.
  - rewrite put_byte_content, Hh by done. by rewrite app_assoc.
  - by apply Forall_insert.
Qed.

Lemma take_byte_ok p : pipe_ok p → nread p ≠ nwrite p → pipe_ok (take_byte p).2.
Proof.
  intros Hok Hne. pose proof Hok as [Hlen Hr Hw Hc Hh Hb]. split; simpl; try done.
  - apply u32_range.
  - unfold u32, PIPESIZE in *. Z.to_euclidean_division_equations; lia.
  - pose proof (take_byte_content p Hok Hne) as Hcont. simpl in Hcont.
    by rewrite Hh, Hcont, <- app_assoc.
Qed.

Lemma take_byte_byte p : pipe_ok p → 0 ≤ (take_byte p).1 < 256.
Proof.
  intros [_ _ _ _ _ Hb]. simpl. rewrite nth_lookup.
  destruct (data p !! _) as [b|] eqn:He; simpl; [|lia]. by eapply Forall_lookup_1 in Hb.
Qed.

Lemma set_close_ok w p : pipe_ok p → pipe_ok (set_close w p).
Proof. intros []. by destruct w; split. Qed.

Lemma new_pipe_ok : pipe_ok new_pipe.
Proof. split; by_compute. Qed.
End ring.

(** * Interleaved readers and writers *)

Section interleaved.
Context {U : Type} `{UserMemLaws U, PageAlloc U}.
(** The pipe, and the page tables of the processes that use it. *)
Context (pi : Z) (PT : Z → Prop).
Local Abbreviation St := (pipest U).
Implicit Types (s : St) (p : pipe).

Definition pipe_inv s : Prop :=
  (∀ pt, PT pt → um_ok pt (pp_mem s)) ∧ ∃ p, pp_pipes s !! pi = Some p ∧ pipe_ok p.
(** A process of the group has the pipe's lock. *)
Definition in_pipe s : Prop :=
  held s = {[pi]} ∧ PT (th_pagetable (pp_thread s)) ∧ pipe_inv s.
(** A process of the group that is not inside [pipewrite] or [piperead]. *)
Definition out_pipe s : Prop :=
  held s = ∅ ∧ PT (th_pagetable (pp_thread s)) ∧ pipe_inv s.
Definition pipe_env : env St := shared_env pipe_inv.

Lemma wp_on_mem {A} E (m : M U A) (P : A → U → Prop) Q s :
  returns m P (pp_mem s) →
  (∀ a u, P a u → Q a (Pipest (pp_thread s) u (pp_pipes s))) → wp E (on_mem m) Q s.
Proof.
  rewrite wp_no_sleep. intros (a & u & Hm & HP) HQ.
  eapply wp_ok; [by unfold on_mem, zoom; rewrite Hm|]. by apply HQ.
Qed.

Lemma wp_set_pipe p Q s :
  in_pipe s → pipe_ok p →
  (∀ s', in_pipe s' → pp_pipes s' !! pi = Some p → Q tt s') → wp pipe_env (set_pipe pi p) Q s.
Proof.
  intros (Hh & Hpt & Hm & _) Hok HQ. apply wp_modify, HQ.
  - split; [done|]. split; [done|]. split; [done|]. exists p. simpl. by rewrite lookup_insert_eq.
  - simpl. apply lookup_insert_eq.
Qed.

Lemma wp_pipe_release Q s :
  in_pipe s → (∀ s', out_pipe s' → Q tt s') → wp pipe_env (release pi) Q s.
Proof.
  intros (Hh & Hpt & Hi) HQ. apply wp_release; [rewrite Hh; set_solver|]. apply HQ.
  split; [|done]. rewrite held_set, Hh. set_solver.
Qed.

Lemma wp_pipe_wakeup ch Q s :
  in_pipe s → (∀ s', in_pipe s' → pp_pipes s' = pp_pipes s → Q tt s') →
  wp pipe_env (wakeup ch) Q s.
Proof. intros Hin HQ. apply wp_wakeup, HQ; [exact Hin|done]. Qed.

Lemma wp_pipe_sleep ch Q s :
  in_pipe s → (∀ s', in_pipe s' → Q tt s') → wp pipe_env (sleep ch pi) Q s.
Proof.
  intros (Hh & Hpt & Hi) HQ. apply wp_sleep; [done|exact Hi|].
  intros s' _ Hi'. apply HQ. split; [apply held_set|]. split; [exact Hpt|exact Hi'].
Qed.

Lemma wp_pipe_done ch i (Q : Z → St → Prop) s :
  in_pipe s → (∀ s', out_pipe s' → Q i s') → wp pipe_env (pipe_done ch pi i) Q s.
Proof.
  intros Hin HQ. apply wp_bind, wp_pipe_wakeup; [done|]. intros s1 Hin1 _.
  apply wp_bind, wp_pipe_release; [done|]. intros s2 Hi2. apply wp_ret. by apply HQ.
Qed.

Lemma wp_deref_pipe {B} (f : pipe → M St B) Q s :
  in_pipe s → (∀ p, pp_pipes s !! pi = Some p → pipe_ok p → wp pipe_env (f p) Q s) →
  wp pipe_env (bind (deref_pipe pi) f) Q s.
Proof.
  intros (_ & _ & _ & p & Hp & Hok) HQ. apply wp_bind. eapply wp_get_some; [done|]. by apply HQ.
Qed.

Lemma pipewrite_wait_ok w k (Q : Z → St → Prop) s :
  in_pipe s → (∀ s', out_pipe s' → Q (-1) s') →
  (∀ s' p, in_pipe s' → pp_pipes s' !! pi = Some p → pipe_ok p →
     u32 (nwrite p - nread p) < PIPESIZE → wp pipe_env k Q s') →
  wp pipe_env (pipewrite_wait w pi k) Q s.
Proof.
  intros Hin HQ Hk. revert s Hin. induction w as [|w IH]; intros s Hin; simpl;
    (apply wp_deref_pipe; [done|]; intros p Hp Hok; apply wp_bind, wp_gets;
     destruct (_ || _);
     [apply wp_bind, wp_pipe_release; [done|]; intros s' ?; apply wp_ret; by apply HQ|];
     destruct (Z.eqb_spec (nwrite p) (u32 (nread p + PIPESIZE))) as [Hf|Hf];
     [|eapply Hk; try done; pose proof (pipe_full p Hok); pose proof (pk_count p Hok); lia]);
    (apply wp_bind, wp_pipe_wakeup; [done|]; intros s1 Hin1 _).
  - destruct Hin1 as (Hh & _ & Hi). by apply wp_blocked.
  - apply wp_bind, wp_pipe_sleep; [done|]. intros s2 Hin2. by apply IH.
Qed.

Lemma pipewrite_loop_ok w togo addr i s :
  in_pipe s → 0 ≤ i →
  wp pipe_env (pipewrite_loop w togo pi addr i)
    (λ r s', out_pipe s' ∧ -1 ≤ r ≤ i + Z.of_nat togo) s.
Proof.
  revert i s. induction togo as [|togo IH]; intros i s Hin Hi; simpl.
  { apply wp_pipe_done; [done|]. intros; split; [done|lia]. }
  apply pipewrite_wait_ok; [done|intros; split; [done|lia]|].
  clear s Hin. intros s p Hin Hp Hok Hroom. apply wp_bind, wp_gets, wp_bind.
  pose proof Hin as (Hh & Hpt & Hm & _).
  eapply wp_on_mem; [by apply copyin_val_ok, Hm|]. intros r u [-> Hr].
  replace (Pipest _ _ _) with s by by destruct s.
  assert (wp pipe_env (pipe_done (nread_of pi) pi i)
    (λ r s', out_pipe s' ∧ -1 ≤ r ≤ i + Z.of_nat (S togo)) s) as Hd.
  { apply wp_pipe_done; [done|]. intros; split; [done|lia]. }
  destruct r as [[|ch [|]]|]; [done| |done|done].
  destruct Hr as [_ [Hch _]%Forall_cons_1].
  apply wp_deref_pipe; [done|]. intros p' Hp' _. rewrite Hp in Hp'. injection Hp' as <-.
  apply wp_bind, wp_set_pipe; [done|by apply put_byte_ok|]. intros s1 Hin1 _.
  eapply wp_mono; [apply IH; [done|lia]|]. intros r s' [? ?]. split; [done|lia].
Qed.

Lemma pipewrite_ok w addr n s :
  out_pipe s →
  wp pipe_env (pipewrite w pi addr n)
    (λ r s', out_pipe s' ∧ -1 ≤ r ≤ Z.max 0 n) s.
Proof.
  intros (Hh & Hpt & Hi). apply wp_bind, wp_acquire; [rewrite Hh; set_solver|].
  eapply wp_mono; [apply pipewrite_loop_ok; [|lia]|].
  - split; [|done]. rewrite held_set, Hh. set_solver.
  - intros r s' [? ?]. split; [done|lia].
Qed.

Lemma piperead_wait_ok w k (Q : Z → St → Prop) s :
  in_pipe s → (∀ s', out_pipe s' → Q (-1) s') →
  (∀ s', in_pipe s' → wp pipe_env k Q s') →
  wp pipe_env (piperead_wait w pi k) Q s.
Proof.
  intros Hin HQ Hk. revert s Hin. induction w as [|w IH]; intros s Hin; simpl;
    (apply wp_deref_pipe; [done|]; intros p Hp Hok; destruct (_ && _); [|by apply Hk];
     apply wp_bind, wp_gets; case_bool_decide;
     [apply wp_bind, wp_pipe_release; [done|]; intros s' ?; apply wp_ret; by apply HQ|]).
  - destruct Hin as (Hh & _ & Hi). by apply wp_blocked.
  - apply wp_bind, wp_pipe_sleep; [done|]. intros s2 Hin2. by apply IH.
Qed.

Lemma piperead_loop_ok togo addr i s :
  in_pipe s → 0 ≤ i →
  wp pipe_env (piperead_loop togo pi addr i)
    (λ r s', out_pipe s' ∧ -1 ≤ r ≤ i + Z.of_nat togo) s.
Proof.
  revert i s. induction togo as [|togo IH]; intros i s Hin Hi; simpl.
  { apply wp_pipe_done; [done|]. intros; split; [done|lia]. }
  apply wp_deref_pipe; [done|]. intros p Hp Hok.
  destruct (Z.eqb_spec (nread p) (nwrite p)) as [He|He].
  { apply wp_pipe_done; [done|]. intros; split; [done|lia]. }
  apply wp_bind, wp_set_pipe; [done|by apply (take_byte_ok p)|]. clear s Hin Hp.
  intros s Hin Hp. pose proof Hin as (Hh & Hpt & Hm & _). apply wp_bind, wp_gets, wp_bind.
  eapply wp_on_mem; [apply copyout_val_ok; [by apply Hm|]|].
  { apply Forall_cons_2; [by apply (take_byte_byte p)|done]. }
  simpl. intros ok u Hu.
  assert (in_pipe (Pipest (pp_thread s) u (pp_pipes s))) as Hin1.
  { split; [done|]. split; [done|]. destruct Hin as (_ & _ & _ & Hpp).
    split; [|done]. intros pt Hpt'. by apply Hu, Hm. }
  destruct ok.
  - eapply wp_mono; [apply IH; [done|lia]|]. intros r s' [? ?]. split; [done|lia].
  - apply wp_pipe_done; [done|]. intros; split; [done|lia].
Qed.

Lemma piperead_ok w addr n s :
  out_pipe s →
  wp pipe_env (piperead w pi addr n)
    (λ r s', out_pipe s' ∧ -1 ≤ r ≤ Z.max 0 n) s.
Proof.
  intros (Hh & Hpt & Hi). apply wp_bind, wp_acquire; [rewrite Hh; set_solver|].
  apply piperead_wait_ok.
  - split; [|done]. rewrite held_set, Hh. set_solver.
  - intros; split; [done|lia].
  - intros s' Hin. eapply wp_mono; [apply piperead_loop_ok; [done|lia]|].
    intros r s2 [? ?]. split; [done|lia].
Qed.
End interleaved.

(** A process that makes a sequence of calls on the pipe. *)
Inductive pipe_op := PWrite (addr n : Z) | PRead (addr n : Z).

Section clients.
Context {U : Type} `{UserMemLaws U, PageAlloc U}.
Implicit Types (s : pipest U).

Fixpoint client (wakeups : nat) (pi : Z) (ops : list pipe_op) : M (pipest U) Z :=
  match ops with
  | [] => ret 0
  | PWrite addr n :: ops => let! _ := pipewrite wakeups pi addr n in client wakeups pi ops
  | PRead addr n :: ops => let! _ := piperead wakeups pi addr n in client wakeups pi ops
  end.
(** Several such processes, none of which has started. *)
Definition clients (wakeups : nat) (pi : Z) (ts : list (thread * list pipe_op)) (s : pipest U) :
    pool (pipest U) Z :=
  Pool s ((λ '(t, ops), Ready (λ s, client wakeups pi ops (resume t s))) <$> ts).

Lemma client_ok pi (PT : Z → Prop) w ops s :
  out_pipe pi PT s → wp (pipe_env pi PT) (client w pi ops) (λ _ s', pipe_inv pi PT s') s.
Proof.
  revert s. induction ops as [|[addr n|addr n] ops IH]; intros s Ho; simpl.
  - by apply wp_ret, Ho.
  - eapply wp_call; [by apply pipewrite_ok|]. intros r s1 [Ho1 _]. by apply IH.
  - eapply wp_call; [by apply piperead_ok|]. intros r s1 [Ho1 _]. by apply IH.
Qed.
End clients.

(** * The contract of pipe.c *)

(** C31: Any number of processes read and write a pipe, their system calls
    interleaved in any way at the points where they sleep: none of them ever
    panics or faults, at most [PIPESIZE] bytes are in the ring, and the bytes
    taken out so far are, in order, the first of the bytes put in; nothing is
    lost, duplicated or reordered, also when the 32-bit counters wrap. *)
Theorem pipe_interleaved {U : Type} `{UserMemLaws U, PageAlloc U} (w : nat) (pi : Z)
    (ts : list (thread * list pipe_op)) (s : pipest U) (p : pipe) (q : option (pool (pipest U) Z)) :
  pp_pipes s !! pi = Some p → pipe_ok p →
  Forall (λ '(t, _), th_held t = ∅ ∧ um_ok (th_pagetable t) (pp_mem s)) ts →
  pool_reach (clients w pi ts s) q →
  ∃ st p', q = Some st ∧ pp_pipes (shared st) !! pi = Some p' ∧
    sent p' = taken p' ++ content p' ∧ Z.of_nat (length (content p')) ≤ PIPESIZE.
Proof.
  intros Hp Hok Hts Hr. set (PT := λ pt, Exists (λ '(t, _), th_pagetable t = pt) ts).
  assert (pipe_inv pi PT s) as Hi.
  { split; [|by exists p]. intros pt Hpt. subst PT. cbn beta in Hpt.
    apply Exists_exists in Hpt as ([t ops] & Hin & <-).
    rewrite Forall_forall in Hts. by apply (Hts _ Hin). }
  assert (∀ s', pipe_inv pi PT s' → pipe_inv pi PT (clear_woken s')) as Hw by done.
  destruct (pool_safe (pipe_inv pi PT) (λ _ s', pipe_inv pi PT s') Hw (λ _ _ Hs, Hs)
    (clients w pi ts s) q) as (st & -> & [_ (p' & Hp' & Hok')] & _); [|done|].
  - split; [done|]. apply Forall_fmap, Forall_forall. intros [t ops] Hin. simpl. intros s' Hi'.
    rewrite Forall_forall in Hts. destruct (Hts _ Hin) as [Hh Hm].
    apply (client_ok pi PT). split; [done|]. split; [|done].
    apply Exists_exists. by exists (t, ops).
  - exists st, p'. split_and!; [done..|apply Hok'|].
    rewrite content_length. pose proof (pk_count _ Hok'). unfold PIPESIZE in *.
    pose proof (u32_range (nwrite p' - nread p')). lia.
Qed.

#[export] Instance flat_page_alloc : PageAlloc flat_user :=
  {| page_alloc := λ u, Ok 0 u; page_free := λ _, ret tt |}.

Definition pipe_thread (proc : Z) : thread := Thread proc proc 0 ∅ ∅ ∅.
(** One process writes two bytes, then 512; another reads. *)
Definition demo_clients : list (thread * list pipe_op) :=
  [(pipe_thread 1, [PWrite 100 2; PWrite 100 512]); (pipe_thread 2, [PRead 700 8; PRead 700 8])].
Definition demo_pipes : pipest flat_user :=
  Pipest (pipe_thread 0) (list_to_map ((λ i, (100 + Z.of_nat i, 65)) <$> seq 0 700)) {[8 := new_pipe]}.

Lemma pipe_interleaved_witness :
  ∃ q, pool_reach (clients 3 8 demo_clients demo_pipes) q ∧
    ∃ st p', q = Some st ∧ pp_pipes (shared st) !! 8 = Some p' ∧
      sent p' = taken p' ++ content p' ∧ Z.of_nat (length (content p')) ≤ PIPESIZE.
Proof.
  exists (pool_run 0 (clients 3 8 demo_clients demo_pipes)).
  assert (pool_reach (clients 3 8 demo_clients demo_pipes)
    (pool_run 0 (clients 3 8 demo_clients demo_pipes))) as Hr.
  { eapply pool_reach_step; [apply pool_reach_refl|]. by eapply pool_step_run. }
  split; [exact Hr|].
  apply (pipe_interleaved 3 8 demo_clients demo_pipes new_pipe _ (lookup_insert_eq _ _ _)
    new_pipe_ok).
  - assert (map_Forall (λ _ b, 0 ≤ b < 256) (pp_mem demo_pipes)) as Hb.
    { apply map_Forall_lookup_2. intros k b Hk. apply elem_of_list_to_map_2 in Hk.
      apply list_elem_of_fmap in Hk as (i & [= -> ->] & _). lia. }
    apply Forall_cons_2; [|apply Forall_cons_2; [|apply Forall_nil_2]]; (split; [reflexivity|exact Hb]).
  - exact Hr.
Defined.

(** ** Without waiting *)

Definition alive (s : pipest flat_user) : Prop := th_proc (pp_thread s) ∉ th_killed (pp_thread s).

Section sequential.
Implicit Types (s : pipest flat_user) (p : pipe) (u : flat_user).

Lemma pipe_done_seq ch pi i s p :
  held s = {[pi]} → pp_pipes s !! pi = Some p →
  returns (pipe_done ch pi i) (λ r s', r = i ∧ pp_mem s' = pp_mem s ∧
    pp_pipes s' = pp_pipes s ∧ ∃ w, pp_thread s' = with_held ∅ (with_woken w (pp_thread s))) s.
Proof.
  intros Hh Hp. apply wp_bind, wp_wakeup, wp_bind, wp_release; [simpl in *; rewrite Hh; set_solver|].
  apply wp_ret. split_and!; [done..|]. exists ({[ch]} ∪ th_woken (pp_thread s)). simpl in *.
  rewrite Hh. unfold with_held, with_woken. simpl. f_equal. set_solver.
Qed.

Lemma pipewrite_loop_seq w pi addr bs i p s :
  held s = {[pi]} → alive s → pp_pipes s !! pi = Some p → pipe_ok p → readopen p = true →
  flat_bytes (pp_mem s) (addr + i) bs → 0 ≤ addr → 0 ≤ i →
  addr + i + Z.of_nat (length bs) < 2 ^ 64 →
  Z.of_nat (length (content p) + length bs) ≤ PIPESIZE →
  returns (pipewrite_loop w (length bs) pi addr i)
    (λ r s', r = i + Z.of_nat (length bs) ∧ pp_mem s' = pp_mem s ∧
       (∃ wk, pp_thread s' = with_held ∅ (with_woken wk (pp_thread s))) ∧
       ∃ p', pp_pipes s' = <[pi := p']> (pp_pipes s) ∧ pipe_ok p' ∧
         content p' = content p ++ bs ∧ readopen p' = true ∧ writeopen p' = writeopen p) s.
Proof.
  revert i p s. induction bs as [|b bs IH];
    intros i p s Hh Hal Hp Hok Hro Hbs Ha Hi Hmax Hroom; cbn [length pipewrite_loop] in *.
  - eapply wp_mono; [by apply (pipe_done_seq _ _ _ _ p)|].
    intros r s' (-> & Hm & Hpp & w' & Hw). rewrite Z.add_0_r, app_nil_r.
    split_and!; [done..|by exists w'|]. exists p. by rewrite insert_id by by rewrite Hp.
  - destruct (Hbs 0%nat b eq_refl) as [Hb Hbb]. rewrite Z.add_0_r in Hb.
    assert (u64 (addr + i) = addr + i) as H64 by (apply u64_small; lia).
    assert (u32 (nwrite p - nread p) < PIPESIZE) as Hlt.
    { pose proof (content_length p). pose proof (u32_range (nwrite p - nread p)). lia. }
    assert (∀ k Q, wp no_sleep k Q s → wp no_sleep (pipewrite_wait w pi k) Q s) as Hwait.
    { intros k Q Hk. destruct w; simpl;
        (apply wp_bind; eapply wp_get_some; [done|]; apply wp_bind, wp_gets; rewrite Hro;
         rewrite bool_decide_false by exact Hal; simpl;
         rewrite (proj2 (Z.eqb_neq _ _)) by (rewrite pipe_full by done; lia); done). }
    apply Hwait. apply wp_bind, wp_gets, wp_bind.
    eapply wp_ok.
    { unfold on_mem, zoom. rewrite (flat_copyin _ _ b) by by rewrite H64. done. }
    apply wp_bind. eapply wp_get_some; [done|]. apply wp_bind, wp_modify.
    eapply wp_mono; [apply (IH (i + 1) (put_byte b p))|]; simpl.
    + done.
    + done.
    + apply lookup_insert_eq.
    + by apply put_byte_ok.
    + done.
    + intros j c Hj. destruct (Hbs (S j) c Hj) as [Hc Hcb]. split; [|done].
      by replace (addr + (i + 1) + Z.of_nat j) with (addr + i + Z.of_nat (S j)) by lia.
    + done.
    + lia.
    + lia.
    + rewrite put_byte_content, length_app by done. simpl. lia.
    + intros r s' (-> & Hm & Hw & p' & Hpp & Hok' & Hc & Hr & Hwo).
      split_and!; [lia|done..|]. exists p'. rewrite Hpp, insert_insert_eq. split_and!; [done..| |done|done].
      rewrite Hc, put_byte_content by done. by rewrite <- app_assoc.
Qed.

Lemma piperead_loop_seq pi addr n i p s :
  held s = {[pi]} → pp_pipes s !! pi = Some p → pipe_ok p →
  (∀ j, addr + i ≤ j < addr + i + Z.of_nat n → is_Some ((pp_mem s : gmap Z Z) !! j)) →
  0 ≤ addr → 0 ≤ i → addr + i + Z.of_nat n < 2 ^ 64 →
  returns (piperead_loop n pi addr i)
    (λ r s', r = i + Z.of_nat (min n (length (content p))) ∧
       flat_bytes (pp_mem s') (addr + i) (take n (content p)) ∧
       (∀ j, ¬ addr + i ≤ j < addr + i + Z.of_nat n →
          (pp_mem s' : gmap Z Z) !! j = (pp_mem s : gmap Z Z) !! j) ∧
       (∃ wk, pp_thread s' = with_held ∅ (with_woken wk (pp_thread s))) ∧
       ∃ p', pp_pipes s' = <[pi := p']> (pp_pipes s) ∧ pipe_ok p' ∧
         content p' = drop n (content p)) s.
Proof.
  revert i p s. induction n as [|n IH]; intros i p s Hh Hp Hok Hm Ha Hi Hmax;
    cbn [piperead_loop].
  - eapply wp_mono; [by apply (pipe_done_seq _ _ _ _ p)|]. simpl.
    intros r s' (-> & Hmm & Hpp & w' & Hw). rewrite Z.add_0_r, Hmm.
    split_and!; [done|by intros ?|done|by exists w'|]. exists p.
    by rewrite insert_id by by rewrite Hp.
  - apply wp_bind. eapply wp_get_some; [done|].
    destruct (Z.eqb_spec (nread p) (nwrite p)) as [He|He].
    + eapply wp_mono; [by apply (pipe_done_seq _ _ _ _ p)|].
      apply pipe_empty in He; [|done]. rewrite He.
      intros r s' (-> & Hmm & Hpp & w' & Hw). simpl. rewrite Z.add_0_r, Hmm.
      split_and!; [done|by intros ?|done|by exists w'|]. exists p.
      by rewrite insert_id by by rewrite Hp.
    + pose proof (take_byte_content p Hok He) as Hc. pose proof (take_byte_ok p Hok He) as Hok'.
      pose proof (take_byte_byte p Hok) as Hb.
      destruct (take_byte p) as [ch p1]. simpl in Hc, Hok', Hb.
      apply wp_bind, wp_modify, wp_bind, wp_gets, wp_bind.
      assert (u64 (addr + i) = addr + i) as H64 by (apply u64_small; lia).
      eapply wp_ok.
      { unfold on_mem, zoom. rewrite flat_copyout by (rewrite H64; apply Hm; lia). done. }
      eapply wp_mono; [apply (IH (i + 1) p1)|]; cbn [pp_mem pp_pipes pp_thread].
      * done.
      * apply lookup_insert_eq.
      * done.
      * intros j Hj. rewrite H64. apply lookup_insert_is_Some'. right. apply Hm. lia.
      * done.
      * lia.
      * lia.
      * rewrite Hc, H64. cbn [length take drop].
        intros r s' (-> & Hbs & Hfr & Hw & p' & Hpp & ? & ?).
        split_and!; [lia| | |done|exists p'; by rewrite Hpp, insert_insert_eq].
        -- intros [|j] c Hj; simpl in Hj.
           ++ injection Hj as <-. rewrite Z.add_0_r, Hfr by lia. split; [|done].
              apply (lookup_insert_eq (M := gmap Z)).
           ++ replace (addr + i + Z.of_nat (S j)) with (addr + (i + 1) + Z.of_nat j) by lia.
              by apply Hbs.
        -- intros j Hj. rewrite Hfr by lia. apply (lookup_insert_ne (M := gmap Z)). lia.
Qed.
End sequential.

(** There is something to read, or the write end is closed: no waiting. *)
Lemma piperead_wait_ready {U : Type} `{UserMem U, PageAlloc U} w pi p k Q (s : pipest U) :
  pp_pipes s !! pi = Some p → nread p ≠ nwrite p ∨ writeopen p = false →
  wp no_sleep k Q s → wp no_sleep (piperead_wait w pi k) Q s.
Proof.
  intros Hp Hr Hk. destruct w; simpl; (apply wp_bind; eapply wp_get_some; [done|];
    destruct Hr as [Hr|Hr]; [by rewrite (proj2 (Z.eqb_neq _ _))|by rewrite Hr, andb_false_r]).
Qed.

Lemma pipewrite_seq (w : nat) (pi src : Z) (bs : list Z) (s : pipest flat_user) (p : pipe) :
  held s = ∅ → alive s → pp_pipes s !! pi = Some p → pipe_ok p → readopen p = true →
  flat_bytes (pp_mem s) src bs → 0 ≤ src → src + Z.of_nat (length bs) < 2 ^ 64 →
  Z.of_nat (length (content p) + length bs) ≤ PIPESIZE →
  returns (pipewrite w pi src (Z.of_nat (length bs)))
    (λ r s', r = Z.of_nat (length bs) ∧ pp_mem s' = pp_mem s ∧ held s' = ∅ ∧ alive s' ∧
       ∃ p', pp_pipes s' = <[pi := p']> (pp_pipes s) ∧ pipe_ok p' ∧
         content p' = content p ++ bs ∧ readopen p' = true ∧ writeopen p' = writeopen p) s.
Proof.
  intros Hh Hal Hp Hok Hro Hbs Hs Hmax Hroom.
  apply wp_bind, wp_acquire; [rewrite Hh; set_solver|].
  rewrite Nat2Z.id. eapply wp_mono; [apply (pipewrite_loop_seq w pi src bs 0 p)|]; try done.
  - rewrite held_set, Hh. set_solver.
  - by rewrite Z.add_0_r.
  - simpl. lia.
  - intros r s' (-> & Hm & [wk Hw] & Hpp). split_and!; [lia|done| | |done].
    + simpl. by rewrite Hw.
    + unfold alive. by rewrite Hw.
Qed.

(** C20: Round trip: a process that writes bytes which fit into the ring and
    then reads as many gets back, from an empty pipe, exactly these bytes in
    its buffer; both calls return their number and the ring is empty again. *)
Theorem pipe_roundtrip (w : nat) (pi src dst : Z) (bs : list Z) (s : pipest flat_user) (p : pipe) :
  held s = ∅ → alive s → pp_pipes s !! pi = Some p → pipe_ok p →
  readopen p = true → nread p = nwrite p →
  bs ≠ [] → Z.of_nat (length bs) ≤ PIPESIZE → flat_bytes (pp_mem s) src bs →
  0 ≤ src → src + Z.of_nat (length bs) < 2 ^ 64 →
  (∀ j, dst ≤ j < dst + Z.of_nat (length bs) → is_Some ((pp_mem s : gmap Z Z) !! j)) →
  0 ≤ dst → dst + Z.of_nat (length bs) < 2 ^ 64 →
  returns (let! n := pipewrite w pi src (Z.of_nat (length bs)) in
           let! m := piperead w pi dst n in ret (n, m))
    (λ r s', r = (Z.of_nat (length bs), Z.of_nat (length bs)) ∧
       flat_bytes (pp_mem s') dst bs ∧
       ∃ p', pp_pipes s' !! pi = Some p' ∧ pipe_ok p' ∧ nread p' = nwrite p') s.
Proof.
  intros Hh Hal Hp Hok Hro He Hne Hlen Hbs Hs1 Hs2 Hd Hd1 Hd2.
  apply pipe_empty in He; [|done].
  eapply wp_call; [apply (pipewrite_seq w pi src bs s p); try done; rewrite He; simpl; lia|].
  intros r1 s1 (-> & Hm1 & Hh1 & Hal1 & p1 & Hpp1 & Hok1 & Hc1 & _ & _).
  rewrite He in Hc1. simpl in Hc1.
  assert (pp_pipes s1 !! pi = Some p1) as Hp1 by (rewrite Hpp1; apply lookup_insert_eq).
  apply wp_bind, wp_bind, wp_acquire; [rewrite Hh1; set_solver|]. rewrite Nat2Z.id.
  eapply piperead_wait_ready; [exact Hp1|left; by rewrite pipe_empty, Hc1|].
  eapply wp_mono; [apply (piperead_loop_seq pi dst (length bs) 0 p1)|]; try done.
  - rewrite held_set, Hh1. set_solver.
  - simpl. rewrite Hm1, Z.add_0_r. exact Hd.
  - lia.
  - rewrite Hc1, Z.add_0_r, firstn_all, drop_all.
    intros r2 s2 (-> & Hbs2 & _ & _ & p2 & Hpp2 & Hok2 & Hc2). apply wp_ret.
    split_and!; [f_equal; lia|done|]. exists p2. split_and!; [|done|by apply pipe_empty].
    rewrite Hpp2. apply lookup_insert_eq.
Qed.

(** The counters are about to wrap. *)
Definition demo_wrapping : pipe :=
  Pipe (replicate (Z.to_nat PIPESIZE) 9) (2 ^ 32 - 2) (2 ^ 32 - 2) true true [] [].

Lemma pipe_roundtrip_witness :
  let u : flat_user := list_to_map (zip [50; 51; 52; 53; 70; 71; 72; 73] [1; 2; 255; 4; 0; 0; 0; 0]) in
  returns (let! n := pipewrite 0 8 50 4 in let! m := piperead 0 8 70 n in ret (n, m))
    (λ r s', r = (4, 4) ∧ flat_bytes (pp_mem s') 70 [1; 2; 255; 4] ∧
       ∃ p', pp_pipes s' !! 8 = Some p' ∧ pipe_ok p' ∧ nread p' = nwrite p')
    (Pipest (pipe_thread 1) u {[8 := demo_wrapping]}).
Proof.
  intros u. apply (pipe_roundtrip 0 8 50 70 [1; 2; 255; 4] (Pipest (pipe_thread 1) u {[8 := demo_wrapping]}) demo_wrapping).
  - reflexivity.
  - unfold alive. by_compute.
  - reflexivity.
  - split; by_compute.
  - reflexivity.
  - reflexivity.
  - discriminate.
  - by_compute.
  - intros i b Hi. do 4 (destruct i as [|i]; [injection Hi as <-; split; [reflexivity|lia]|]).
    destruct i; discriminate.
  - lia.
  - simpl. lia.
  - intros j Hj. simpl in Hj.
    assert (j = 70 ∨ j = 71 ∨ j = 72 ∨ j = 73) as [->|[->|[->| ->]]] by lia; by eexists.
  - lia.
  - simpl. lia.
Defined.

(** The ends of a pipe: writing to a pipe whose read end is closed, or by a
    process that has been killed, returns -1 and stores nothing; reading an
    empty pipe whose write end is closed returns 0 at once instead of waiting. *)
Theorem pipe_broken {U : Type} `{UserMem U, PageAlloc U} (w : nat) (pi addr n : Z)
    (s : pipest U) (p : pipe) :
  held s = ∅ → pp_pipes s !! pi = Some p →
  (0 < n → readopen p = false ∨ th_proc (pp_thread s) ∈ th_killed (pp_thread s) →
     pipewrite w pi addr n s = Ok (-1) s) ∧
  (nread p = nwrite p → writeopen p = false →
     returns (piperead w pi addr n) (λ r s', r = 0 ∧ pp_mem s' = pp_mem s ∧ pp_pipes s' = pp_pipes s) s).
Proof.
  intros Hh Hp. assert (set_held ({[pi]} ∪ held s) s = set_held {[pi]} s) as Hs
    by (rewrite Hh; f_equal; set_solver).
  split.
  - intros Hn Hdead.
    assert (returns (pipewrite w pi addr n) (λ r s', r = -1 ∧ s' = s) s) as Hw.
    { apply wp_bind, wp_acquire; [rewrite Hh; set_solver|]. rewrite Hs.
      destruct (Z.to_nat n) as [|k] eqn:Hk; [lia|]. cbn [pipewrite_loop].
      destruct w; cbn [pipewrite_wait];
        (apply wp_bind; eapply wp_get_some; [exact Hp|]; apply wp_bind, wp_gets;
         match goal with |- context [negb ?a || ?b] =>
           replace (negb a || b) with true
             by (destruct Hdead as [->|Hk']; [done|by rewrite bool_decide_true, orb_true_r]) end;
         apply wp_bind, wp_release; [rewrite held_set; set_solver|]; apply wp_ret; split; [done|];
         rewrite set_held_set, held_set, difference_diag_L, <- Hh; apply set_held_held). }
    apply wp_no_sleep in Hw as (r & s' & He & -> & ->). exact He.
  - intros He Hwo. apply wp_bind, wp_acquire; [rewrite Hh; set_solver|]. rewrite Hs.
    eapply piperead_wait_ready; [exact Hp|by right|].
    assert (returns (pipe_done (nwrite_of pi) pi 0)
      (λ r s', r = 0 ∧ pp_mem s' = pp_mem s ∧ pp_pipes s' = pp_pipes s) (set_held {[pi]} s)) as Hd.
    { apply wp_bind, wp_wakeup, wp_bind, wp_release; [simpl; set_solver|]. by apply wp_ret. }
    destruct (Z.to_nat n) as [|k]; [exact Hd|]. cbn [piperead_loop].
    apply wp_bind. eapply wp_get_some; [exact Hp|]. rewrite He, Z.eqb_refl. exact Hd.
Qed.

Lemma pipe_broken_witness :
  pipewrite 0 8 50 4 (Pipest (pipe_thread 1) (∅ : flat_user) {[8 := set_close false new_pipe]}) =
    Ok (-1) (Pipest (pipe_thread 1) (∅ : flat_user) {[8 := set_close false new_pipe]}).
Proof.
  apply (pipe_broken 0 8 50 4 (Pipest (pipe_thread 1) (∅ : flat_user) {[8 := set_close false new_pipe]})
    (set_close false new_pipe)).
  - reflexivity.
  - reflexivity.
  - lia.
  - by left.
Defined.
