(* ===== verification/Printf.v ===== *)
(** Formatted output: kernel/printf.c and user/printf.c.

    Both print one character at a time through a routine of theirs, [consputc]
    or [putc]; here it is an argument.  A variadic call is a format and a list
    of arguments; taking an argument that is missing or of another type is
    undefined in C and faults here. *)

From Stdlib Require Import Ascii String.
From S2P Require Import Prelude.
Local Open Scope Z_scope.

Inductive va := VInt (x : Z) | VLong (x : Z) | VStr (s : option (list Z)).

(** The bytes of a string literal. *)
Fixpoint lit (s : string) : list Z :=
  match s with
  | EmptyString => []
  | String c s => Z.of_N (N_of_ascii c) :: lit s
  end.

(** [digits] of the kernel and of the user library. *)
Definition digits : list Z := lit "0123456789abcdef".
Definition udigits : list Z := lit "0123456789ABCDEF".

Section printf.
Context {St : Type} (putc : Z → M St unit).

(** [for(...) consputc( *s)] *)
Fixpoint put_all (s : list Z) : M St unit :=
  match s with
  | [] => ret tt
  | c :: s => putc c;;; put_all s
  end.

(** The do-while loop that stores the digits of [x], lowest first, after those
    already in [buf]; at most 32 rounds since [x] has 32 bits. *)
Fixpoint printint_digits (ds : list Z) (fuel : nat) (x base : Z) (buf : list Z) : list Z :=
  let buf := buf ++ [nth (Z.to_nat (x `mod` base)) ds 0] in
  let x := x `div` base in
  if x =? 0 then buf else
  match fuel with
  | O => buf
  | S fuel => printint_digits ds fuel x base buf
  end.

Definition printint (xx base : Z) (sign : bool) : M St unit :=
  let sign := sign && (xx <? 0) in
  let x := if sign then u32 (- xx) else u32 xx in
  let buf := printint_digits digits 32 x base [] in
  let buf := if sign then buf ++ lit "-" else buf in
  if 16 <? Z.of_nat (length buf) then fault else put_all (reverse buf).

Fixpoint printptr_loop (ds : list Z) (n : nat) (x : Z) : M St unit :=
  match n with
  | O => ret tt
  | S n => putc (nth (Z.to_nat (Z.shiftr x 60)) ds 0);;; printptr_loop ds n (u64 (Z.shiftl x 4))
  end.
Definition printptr (x : Z) : M St unit :=
  putc (Z.of_N (N_of_ascii "0"));;; putc (Z.of_N (N_of_ascii "x"));;; printptr_loop digits 16 x.

Definition va_int (ap : list va) (k : Z → list va → M St unit) : M St unit :=
  match ap with VInt x :: ap => k x ap | _ => fault end.
Definition va_long (ap : list va) (k : Z → list va → M St unit) : M St unit :=
  match ap with VLong x :: ap => k x ap | _ => fault end.
Definition va_str (ap : list va) (k : list Z → list va → M St unit) : M St unit :=
  match ap with
  | VStr (Some s) :: ap => k s ap
  | VStr None :: ap => k (lit "(null)") ap
  | _ => fault
  end.
Definition ch (c : ascii) : Z := Z.of_N (N_of_ascii c).

(** The loop over the format; [fmt] has no byte 0 but its terminator, the end
    of the list. *)
Fixpoint printf_loop (fmt : list Z) (ap : list va) : M St unit :=
  match fmt with
  | [] => ret tt
  | c :: fmt =>
      if negb (c =? ch "%") then putc c;;; printf_loop fmt ap else
      match fmt with
      | [] => ret tt
      | c :: fmt =>
          if c =? ch "d" then va_int ap (λ x ap, printint x 10 true;;; printf_loop fmt ap)
          else if c =? ch "x" then va_int ap (λ x ap, printint x 16 true;;; printf_loop fmt ap)
          else if c =? ch "p" then va_long ap (λ x ap, printptr x;;; printf_loop fmt ap)
          else if c =? ch "s" then va_str ap (λ s ap, put_all s;;; printf_loop fmt ap)
          else if c =? ch "%" then putc (ch "%");;; printf_loop fmt ap
          else putc (ch "%");;; putc c;;; printf_loop fmt ap
      end
  end.

(** ** The user library *)

Definition uprintint (xx base : Z) (sgn : bool) : M St unit :=
  let neg := sgn && (xx <? 0) in
  let x := if neg then u32 (- xx) else u32 xx in
  let buf := printint_digits udigits 32 x base [] in
  let buf := if neg then buf ++ lit "-" else buf in
  if 16 <? Z.of_nat (length buf) then fault else put_all (reverse buf).
Definition uprintptr (x : Z) : M St unit :=
  putc (ch "0");;; putc (ch "x");;; printptr_loop udigits 16 x.

Fixpoint vprintf_loop (fmt : list Z) (percent : bool) (ap : list va) : M St unit :=
  match fmt with
  | [] => ret tt
  | c :: fmt =>
      if percent then
        if c =? ch "d" then va_int ap (λ x ap, uprintint x 10 true;;; vprintf_loop fmt false ap)
        else if c =? ch "l" then va_long ap (λ x ap, uprintint (s32 x) 10 false;;; vprintf_loop fmt false ap)
        else if c =? ch "x" then va_int ap (λ x ap, uprintint x 16 false;;; vprintf_loop fmt false ap)
        else if c =? ch "p" then va_long ap (λ x ap, uprintptr x;;; vprintf_loop fmt false ap)
        else if c =? ch "s" then va_str ap (λ s ap, put_all s;;; vprintf_loop fmt false ap)
        else if c =? ch "c" then va_int ap (λ x ap, putc (u8 x);;; vprintf_loop fmt false ap)
        else if c =? ch "%" then putc c;;; vprintf_loop fmt false ap
        else putc (ch "%");;; putc c;;; vprintf_loop fmt false ap
      else if c =? ch "%" then vprintf_loop fmt true ap
      else putc c;;; vprintf_loop fmt false ap
  end.
Definition vprintf (fmt : list Z) (ap : list va) : M St unit := vprintf_loop fmt false ap.
End printf.

(** [printf] of the kernel holds [pr.lock] while it prints, once [printfinit]
    has set [pr.locking]; a null format panics. *)
Definition printf `{HasLocks St} (putc : Z → M St unit) (pr_lock : Z) (locking : bool)
    (fmt : option (list Z)) (ap : list va) : M St unit :=
  when locking (acquire pr_lock);;;
  match fmt with
  | None => panic "null fmt"
  | Some fmt => printf_loop putc fmt ap;;; when locking (release pr_lock)
  end.

(** * What is printed *)

(** [putc] appends to an output that nothing else changes. *)
Class Appends {St} (putc : Z → M St unit) := {
  output : St → list Z;
  emit : list Z → St → St;
  output_emit : ∀ cs s, output (emit cs s) = output s ++ cs;
  emit_app : ∀ cs cs' s, emit cs' (emit cs s) = emit (cs ++ cs') s;
  emit_nil : ∀ s, emit [] s = s;
  putc_emit : ∀ c s, putc c s = Ok tt (emit [c] s);
}.

(** The number a string of digits stands for, as [atoi] reads it. *)
Definition digits_value (base : Z) (ds : list Z) : Z := foldl (λ n d, n * base + d) 0 ds.

Definition digit (ds : list Z) (v : Z) : Z := nth (Z.to_nat v) ds 0.

Lemma digits_value_app base ds v : digits_value base (ds ++ [v]) = digits_value base ds * base + v.
Proof. unfold digits_value. by rewrite foldl_app. Qed.

(** The digits of [x] are stored lowest first; as many as [x] has, one for 0. *)
Lemma printint_digits_spec ds fuel x base k buf :
  2 ≤ base → 0 ≤ x < base ^ Z.of_nat k → (1 ≤ k ≤ S fuel)%nat →
  ∃ vs, printint_digits ds fuel x base buf = buf ++ (digit ds <$> vs) ∧
    Forall (λ v, 0 ≤ v < base) vs ∧ digits_value base (reverse vs) = x ∧ (1 ≤ length vs ≤ k)%nat.
Proof.
  intros Hb. revert x k buf. induction fuel as [|fuel IH]; intros x k buf Hx Hk; simpl;
    pose proof (Z.mod_pos_bound x base ltac:(lia)) as Hm;
    pose proof (Z.div_mod x base ltac:(lia)) as Hd;
    assert (0 ≤ x `div` base) as Hdp by (apply Z.div_pos; lia);
    (destruct (Z.eqb_spec (x `div` base) 0) as [H0|H0];
     [exists [x `mod` base]; simpl; split_and!; [done|by apply Forall_singleton| |lia..];
      unfold digits_value; simpl; lia|]).
  - assert (k = 1%nat) as -> by lia. rewrite Z.pow_1_r in Hx.
    rewrite Z.div_small in H0 by lia. done.
  - destruct k as [|k]; [lia|]. rewrite Nat2Z.inj_succ, Z.pow_succ_r in Hx by lia.
    assert (x `div` base < base ^ Z.of_nat k) by (apply Z.div_lt_upper_bound; lia).
    assert (k ≠ 0%nat) as Hk0 by (intros ->; simpl in *; lia).
    destruct (IH (x `div` base) k (buf ++ [nth (Z.to_nat (x `mod` base)) ds 0]))
      as (vs & -> & Hvs & Hv & Hl); [lia..|].
    exists (x `mod` base :: vs). split_and!.
    + by rewrite <- app_assoc.
    + by constructor.
    + rewrite reverse_cons, digits_value_app, Hv. lia.
    + simpl. lia.
    + simpl. lia.
Qed.

Section output.
Context {St : Type} (putc : Z → M St unit) `{!Appends putc}.
Implicit Types (s : St).

Lemma put_all_emit cs s : put_all putc cs s = Ok tt (emit cs s).
Proof.
  revert s. induction cs as [|c cs IH]; intros s; simpl; [by unfold ret; rewrite emit_nil|].
  unfold bind. rewrite putc_emit. simpl. rewrite IH. by rewrite emit_app.
Qed.

(** The text of a number: an optional minus sign and its digits. *)
Lemma print_number ds xx base s :
  base = 10 ∨ base = 16 → - 2 ^ 31 ≤ xx < 2 ^ 32 →
  let sign := xx <? 0 in
  let buf := printint_digits ds 32 (if sign then u32 (- xx) else u32 xx) base [] in
  let buf := if sign then buf ++ lit "-" else buf in
  ∃ vs, (if 16 <? Z.of_nat (length buf) then fault else put_all putc (reverse buf)) s =
      Ok tt (emit ((if sign then lit "-" else []) ++ (digit ds <$> vs)) s) ∧
    Forall (λ v, 0 ≤ v < base) vs ∧ vs ≠ [] ∧ digits_value base vs = Z.abs xx.
Proof.
  intros Hb Hx sign. set (x := if sign then u32 (- xx) else u32 xx).
  assert (x = Z.abs xx) as Hxa.
  { subst x sign. destruct (Z.ltb_spec xx 0); rewrite u32_small; lia. }
  destruct (printint_digits_spec ds 32 x base 10 []) as (vs & -> & Hvs & Hv & Hl);
    [destruct Hb; subst; lia| |lia|].
  { rewrite Hxa. split; [lia|]. destruct Hb as [-> | ->]; lia. }
  exists (reverse vs). simpl app. split_and!.
  - destruct sign; simpl; rewrite ?length_app, ?length_fmap; simpl;
      rewrite (proj2 (Z.ltb_ge _ _)) by lia; rewrite put_all_emit, ?reverse_app;
      by rewrite fmap_reverse.
  - by apply Forall_reverse.
  - intros Hr. apply (f_equal length) in Hr. rewrite length_reverse in Hr. simpl in Hr. lia.
  - by rewrite Hv.
Qed.

Lemma printint_number xx base s :
  base = 10 ∨ base = 16 → - 2 ^ 31 ≤ xx < 2 ^ 31 →
  ∃ vs, printint putc xx base true s =
      Ok tt (emit ((if xx <? 0 then lit "-" else []) ++ (digit digits <$> vs)) s) ∧
    Forall (λ v, 0 ≤ v < base) vs ∧ vs ≠ [] ∧ digits_value base vs = Z.abs xx.
Proof. intros Hb Hx. apply print_number; [done|lia]. Qed.

Lemma uprintint_number xx base s :
  base = 10 ∨ base = 16 → - 2 ^ 31 ≤ xx < 2 ^ 31 →
  ∃ vs, uprintint putc xx base true s =
      Ok tt (emit ((if xx <? 0 then lit "-" else []) ++ (digit udigits <$> vs)) s) ∧
    Forall (λ v, 0 ≤ v < base) vs ∧ vs ≠ [] ∧ digits_value base vs = Z.abs xx.
Proof. intros Hb Hx. apply print_number; [done|lia]. Qed.
End output.
