(* ===== verification/Uart.v ===== *)
(** The UART driver (kernel/uart.c).

    The device is the 16550 of the comments in uart.c, as far as the driver
    sees it: characters that have arrived, the bytes written to the transmit
    register, whether it answers busy or idle when it is asked (any sequence of
    answers, idle once they are used up), and the other registers written. *)

From S2P Require Import Prelude Threads Ring.
Local Open Scope Z_scope.

Definition RHR : Z := 0.
Definition THR : Z := 0.
Definition IER : Z := 1.
Definition IER_RX_ENABLE : Z := Z.shiftl 1 0.
Definition IER_TX_ENABLE : Z := Z.shiftl 1 1.
Definition FCR : Z := 2.
Definition FCR_FIFO_ENABLE : Z := Z.shiftl 1 0.
Definition FCR_FIFO_CLEAR : Z := Z.shiftl 3 1.
Definition LCR : Z := 3.
Definition LCR_EIGHT_BITS : Z := Z.shiftl 3 0.
Definition LCR_BAUD_LATCH : Z := Z.shiftl 1 7.
Definition LSR : Z := 5.
Definition UART_TX_BUF_SIZE : Z := 32.

Record device := Device {
  rx : list Z;            (* characters received and not yet read *)
  thr : list Z;           (* bytes transmitted so far *)
  busy : list bool;       (* the next answers about the transmitter *)
  regs : list (Z * Z);    (* register writes, latest first *)
}.

Record uartst := Uartst {
  u_thread : thread;
  u_dev : device;
  panicked : bool;
  uart_tx_buf : list Z;
  uart_tx_w : Z;
  uart_tx_r : Z;
}.
#[export] Instance uartst_thread : HasThread uartst.
Proof.
  refine {| the_thread := u_thread;
            set_thread := λ t s, Uartst t (u_dev s) (panicked s) (uart_tx_buf s) (uart_tx_w s) (uart_tx_r s) |};
    try done. by intros [].
Defined.

Definition set_dev (d : device) (s : uartst) : uartst :=
  Uartst (u_thread s) d (panicked s) (uart_tx_buf s) (uart_tx_w s) (uart_tx_r s).
Definition set_ring (b : list Z) (w r : Z) (s : uartst) : uartst :=
  Uartst (u_thread s) (u_dev s) (panicked s) b w r.

Definition uart_tx_lock : Z := 32.
(** The channel [&uart_tx_r]. *)
Definition uart_tx_chan : Z := 40.

(** Register 0 is the transmitter unless the divisor latch is selected. *)
Definition latched (d : device) : bool :=
  match list_find (λ rv, rv.1 = LCR) (regs d) with
  | Some (_, (_, v)) => Z.testbit v 7
  | None => false
  end.
Definition WriteReg (reg v : Z) : M uartst unit := modify (λ s,
  let d := u_dev s in
  set_dev (if (reg =? THR) && negb (latched d)
           then Device (rx d) (thr d ++ [u8 v]) (busy d) (regs d)
           else Device (rx d) (thr d) (busy d) ((reg, u8 v) :: regs d)) s).
(** [ReadReg(LSR) & LSR_TX_IDLE] *)
Definition tx_idle : M uartst bool := λ s,
  let d := u_dev s in
  match busy d with
  | [] => Ok true s
  | b :: bs => Ok (negb b) (set_dev (Device (rx d) (thr d) bs (regs d)) s)
  end.
(** [ReadReg(LSR) & 0x01], and [ReadReg(RHR)]. *)
Definition rx_ready : M uartst bool := gets (λ s, negb (bool_decide (rx (u_dev s) = []))).
Definition ReadRHR : M uartst Z := λ s,
  let d := u_dev s in
  match rx d with
  | [] => Ok 0 s
  | c :: cs => Ok c (set_dev (Device cs (thr d) (busy d) (regs d)) s)
  end.

Definition uartinit : M uartst unit :=
  WriteReg IER 0;;;
  WriteReg LCR LCR_BAUD_LATCH;;;
  WriteReg 0 3;;;
  WriteReg 1 0;;;
  WriteReg LCR LCR_EIGHT_BITS;;;
  WriteReg FCR (Z.lor FCR_FIFO_ENABLE FCR_FIFO_CLEAR);;;
  WriteReg IER (Z.lor IER_TX_ENABLE IER_RX_ENABLE).

(** [for(;;);] once another CPU has panicked. *)
Definition freeze_if_panicked : M uartst unit :=
  let! p := gets panicked in if p then out_of_fuel else ret tt.

(** [fuel] bounds the bytes sent; there are at most [UART_TX_BUF_SIZE]. *)
Fixpoint uartstart_loop (fuel : nat) : M uartst unit :=
  let! w := gets uart_tx_w in
  let! r := gets uart_tx_r in
  if w =? r then ret tt else
  let! idle := tx_idle in
  if negb idle then ret tt else
  match fuel with
  | O => out_of_fuel
  | S fuel =>
      let! c := gets (λ s, nth (Z.to_nat (r `mod` UART_TX_BUF_SIZE)) (uart_tx_buf s) 0) in
      modify (λ s, set_ring (uart_tx_buf s) w (u64 (r + 1)) s);;;
      wakeup uart_tx_chan;;;
      WriteReg THR c;;;
      uartstart_loop fuel
  end.
Definition uartstart : M uartst unit := uartstart_loop (Z.to_nat UART_TX_BUF_SIZE).

(** The wait for a free slot; [wakeups] is how often the writer may be woken to
    find the buffer full again. *)
Fixpoint uartputc_wait (wakeups : nat) : M uartst unit :=
  let! w := gets uart_tx_w in
  let! r := gets uart_tx_r in
  if w =? u64 (r + UART_TX_BUF_SIZE) then
    match wakeups with
    | O => blocked uart_tx_chan uart_tx_lock
    | S wakeups => sleep uart_tx_chan uart_tx_lock;;; uartputc_wait wakeups
    end
  else ret tt.
Definition uartputc (wakeups : nat) (c : Z) : M uartst unit :=
  acquire uart_tx_lock;;;
  freeze_if_panicked;;;
  uartputc_wait wakeups;;;
  modify (λ s, set_ring (<[Z.to_nat (uart_tx_w s `mod` UART_TX_BUF_SIZE) := u8 c]> (uart_tx_buf s))
                 (u64 (uart_tx_w s + 1)) (uart_tx_r s) s);;;
  uartstart;;;
  release uart_tx_lock.

(** The busy-wait: asks until the device answers idle. *)
Fixpoint spin_until_idle (fuel : nat) : M uartst unit :=
  let! idle := tx_idle in
  if idle then ret tt else
  match fuel with O => out_of_fuel | S fuel => spin_until_idle fuel end.
Definition uartputc_sync (c : Z) : M uartst unit :=
  freeze_if_panicked;;;
  let! n := gets (λ s, length (busy (u_dev s))) in
  spin_until_idle n;;;
  WriteReg THR c.

(** -1 when nothing is waiting. *)
Definition uartgetc : M uartst Z :=
  let! ready := rx_ready in
  if ready then ReadRHR else ret (-1).

(** * Specifications *)

Section uart.
Implicit Types (s : uartst).

(** The bytes accepted and not yet sent, and everything sent or accepted. *)
Definition pending_out s : list Z :=
  ring_content UART_TX_BUF_SIZE (2 ^ 64) (uart_tx_buf s) (uart_tx_r s) (uart_tx_w s).
Definition stream s : list Z := thr (u_dev s) ++ pending_out s.

Record uart_ok s : Prop := {
  uk_len : length (uart_tx_buf s) = Z.to_nat UART_TX_BUF_SIZE;
  uk_w : 0 ≤ uart_tx_w s < 2 ^ 64;
  uk_r : 0 ≤ uart_tx_r s < 2 ^ 64;
  uk_count : ring_count (2 ^ 64) (uart_tx_r s) (uart_tx_w s) ≤ UART_TX_BUF_SIZE;
  uk_bytes : Forall (λ b, 0 ≤ b < 256) (uart_tx_buf s);
  uk_latch : latched (u_dev s) = false;
  uk_running : panicked s = false;
}.

Lemma uart_size : 0 < UART_TX_BUF_SIZE ∧ UART_TX_BUF_SIZE < 2 ^ 64 ∧ (UART_TX_BUF_SIZE | 2 ^ 64).
Proof. split_and!; [done|done|]. by exists (2 ^ 59). Qed.

(** What may change besides the transmitter and the ring. *)
Definition same_rx s s' : Prop :=
  rx (u_dev s') = rx (u_dev s) ∧ ∃ w, u_thread s' = with_woken w (u_thread s).

Lemma same_rx_refl s : same_rx s s.
Proof. split; [done|]. exists (th_woken (u_thread s)). by destruct (u_thread s). Qed.

Lemma same_rx_trans s1 s2 s3 : same_rx s1 s2 → same_rx s2 s3 → same_rx s1 s3.
Proof. intros [H1 [w Hw]] [H2 [w' Hw']]. split; [by rewrite H2|]. exists w'. by rewrite Hw', Hw. Qed.

Lemma wp_tx_idle E Q s :
  (∀ b s', uart_tx_buf s' = uart_tx_buf s → uart_tx_w s' = uart_tx_w s →
     uart_tx_r s' = uart_tx_r s → thr (u_dev s') = thr (u_dev s) →
     regs (u_dev s') = regs (u_dev s) → panicked s' = panicked s → same_rx s s' → Q b s') →
  wp E tx_idle Q s.
Proof.
  intros HQ. unfold wp, tx_idle. destruct (busy (u_dev s)) as [|b bs]; simpl; apply HQ; try done.
  - apply same_rx_refl.
  - split; [done|]. exists (th_woken (u_thread s)). simpl. by destruct (u_thread s).
Qed.

Lemma uart_ok_idle s s' :
  uart_tx_buf s' = uart_tx_buf s → uart_tx_w s' = uart_tx_w s → uart_tx_r s' = uart_tx_r s →
  regs (u_dev s') = regs (u_dev s) → panicked s' = panicked s → uart_ok s → uart_ok s'.
Proof.
  intros Hb Hw Hr Hg Hp []. split; rewrite ?Hb, ?Hw, ?Hr, ?Hp; try done.
  unfold latched in *. by rewrite Hg.
Qed.

(** [uartstart] moves a prefix of the pending bytes to the wire, in order. *)
Lemma uartstart_loop_spec E fuel s :
  uart_ok s → (length (pending_out s) ≤ fuel)%nat →
  wp E (uartstart_loop fuel)
    (λ _ s', uart_ok s' ∧ stream s' = stream s ∧ same_rx s s' ∧
       ∃ k, pending_out s' = drop k (pending_out s)) s.
Proof.
  revert s. induction fuel as [|fuel IH]; intros s Hok Hf; cbn [uartstart_loop];
    apply wp_bind, wp_gets, wp_bind, wp_gets;
    (destruct (Z.eqb_spec (uart_tx_w s) (uart_tx_r s)) as [He|He];
     [apply wp_ret; split_and!; [done|done|apply same_rx_refl|by exists 0%nat]|]);
    apply wp_bind, wp_tx_idle; intros b s1 Hb Hw Hr Ht Hg Hp Hrx;
    pose proof (uart_ok_idle s s1 Hb Hw Hr Hg Hp Hok) as Hok1;
    (assert (pending_out s1 = pending_out s) as Hpo by (unfold pending_out; by rewrite Hb, Hw, Hr));
    (assert (stream s1 = stream s) as Hst by (unfold stream; by rewrite Ht, Hpo));
    (destruct b; cbn [negb]; [|apply wp_ret; split_and!; [done..|by exists 0%nat; rewrite Hpo]]).
  - exfalso. apply not_eq_sym in He. apply He.
    apply (ring_empty UART_TX_BUF_SIZE (2 ^ 64) ltac:(apply uart_size) ltac:(apply uart_size)
      (uart_tx_buf s)); [apply Hok..|].
    apply length_zero_iff_nil. unfold pending_out in Hf. lia.
  - set (r := uart_tx_r s) in *. set (w := uart_tx_w s) in *.
    assert (ring_count (2 ^ 64) r w ≠ 0) as Hc.
    { intros H0. apply He. symmetry. apply (ring_empty UART_TX_BUF_SIZE (2 ^ 64)
        ltac:(apply uart_size) ltac:(apply uart_size) (uart_tx_buf s)); [apply Hok..|].
      apply length_zero_iff_nil. rewrite ring_content_length. fold r w. lia. }
    pose proof (ring_pop UART_TX_BUF_SIZE (2 ^ 64) ltac:(apply uart_size) ltac:(apply uart_size)
      ltac:(apply uart_size) (uart_tx_buf s1) r w Hc) as Hpop.
    pose proof (ring_count_pop UART_TX_BUF_SIZE (2 ^ 64) ltac:(apply uart_size) ltac:(apply uart_size)
      r w Hc) as Hcp.
    set (c := nth (Z.to_nat (r `mod` UART_TX_BUF_SIZE)) (uart_tx_buf s1) 0) in *.
    apply wp_bind, wp_gets, wp_bind, wp_modify, wp_bind, wp_wakeup, wp_bind, wp_modify. fold c.
    assert (latched (u_dev s1) = false) as Hlat by apply Hok1.
    simpl. rewrite Hlat. simpl.
    assert (u8 c = c) as Hc8.
    { unfold u8. apply Z.mod_small. subst c. rewrite nth_lookup.
      destruct (uart_tx_buf s1 !! _) as [x|] eqn:Hx; simpl; [|lia].
      by eapply Forall_lookup_1 in Hx; [|apply (uk_bytes _ Hok1)]. }
    rewrite Hc8. match goal with |- wp _ _ _ ?x => set (s2 := x) end.
    assert (pending_out s1 = c :: pending_out s2) as Hp1.
    { unfold pending_out. rewrite Hr, Hw. exact Hpop. }
    eapply wp_mono; [apply (IH s2)|].
    + split; subst s2; simpl; try apply Hok1; [apply Hok|apply u64_range|].
      unfold u64. rewrite Hcp. pose proof (uk_count _ Hok). fold r w in H. lia.
    + rewrite <- Hpo, Hp1 in Hf. simpl in Hf. lia.
    + intros _ s3 (Hok3 & Hst3 & Hrx3 & k & Hk). split_and!; [done| | |].
      * rewrite Hst3, <- Hst. unfold stream. rewrite Hp1. subst s2. simpl. by rewrite <- app_assoc.
      * eapply same_rx_trans; [exact Hrx|]. eapply same_rx_trans; [|exact Hrx3].
        split; [done|]. by eexists.
      * exists (S k). by rewrite <- Hpo, Hp1.
Qed.

Lemma uart_ok_thread t s : uart_ok s → uart_ok (set_thread t s).
Proof. intros []. by split. Qed.

(** While a writer sleeps, only the transmit interrupt touches the UART: it
    sends pending bytes, so the stream stays the same. *)
Definition tx_env : env uartst :=
  Env uart_ok (λ s s', stream s' = stream s ∧ rx (u_dev s') = rx (u_dev s)).

Lemma uart_room s :
  uart_ok s → uart_tx_w s ≠ u64 (uart_tx_r s + UART_TX_BUF_SIZE) →
  ring_count (2 ^ 64) (uart_tx_r s) (uart_tx_w s) < UART_TX_BUF_SIZE.
Proof.
  intros Hok Hne. pose proof (uk_count _ Hok).
  pose proof (ring_full UART_TX_BUF_SIZE (2 ^ 64) ltac:(apply uart_size) ltac:(apply uart_size)
    (uart_tx_r s) (uart_tx_w s) (uk_w _ Hok)) as Hf.
  unfold u64 in Hne. lia.
Qed.

Lemma uartputc_wait_spec w s :
  uart_ok s → held s = {[uart_tx_lock]} →
  wp tx_env (uartputc_wait w)
    (λ _ s', uart_ok s' ∧ held s' = {[uart_tx_lock]} ∧ stream s' = stream s ∧
       rx (u_dev s') = rx (u_dev s) ∧ th_proc (u_thread s') = th_proc (u_thread s) ∧
       th_pid (u_thread s') = th_pid (u_thread s) ∧
       th_pagetable (u_thread s') = th_pagetable (u_thread s) ∧
       ring_count (2 ^ 64) (uart_tx_r s') (uart_tx_w s') < UART_TX_BUF_SIZE) s.
Proof.
  revert s. induction w as [|w IH]; intros s Hok Hh; cbn [uartputc_wait];
    apply wp_bind, wp_gets, wp_bind, wp_gets;
    (destruct (Z.eqb_spec (uart_tx_w s) (u64 (uart_tx_r s + UART_TX_BUF_SIZE))) as [He|He];
     [|apply wp_ret; split_and!; by auto using uart_room]).
  - apply wp_blocked; [done|]. by apply uart_ok_thread.
  - apply wp_bind, wp_sleep; [done|by apply uart_ok_thread|]. intros s' [Hst Hrx] Hok'.
    eapply wp_mono; [apply IH; [by apply uart_ok_thread, uart_ok_thread|apply held_set]|].
    cbn beta. intros _ s2 (? & ? & Hst2 & Hrx2 & ? & ? & ? & ?). by split_and!; try done; [rewrite Hst2|rewrite Hrx2].
Qed.

(** What a writer leaves as it was. *)
Record same_caller (s s' : uartst) : Prop := {
  sc_held : held s' = held s;
  sc_rx : rx (u_dev s') = rx (u_dev s);
  sc_proc : th_proc (u_thread s') = th_proc (u_thread s);
  sc_pid : th_pid (u_thread s') = th_pid (u_thread s);
  sc_pagetable : th_pagetable (u_thread s') = th_pagetable (u_thread s);
}.

Lemma uartputc_spec w c s :
  uart_ok s → held s = ∅ →
  wp tx_env (uartputc w c)
    (λ _ s', uart_ok s' ∧ stream s' = stream s ++ [u8 c] ∧ same_caller s s') s.
Proof.
  intros Hok Hh. apply wp_bind, wp_acquire; [rewrite Hh; set_solver|].
  rewrite Hh, union_empty_r_L. apply wp_bind, wp_bind, wp_gets.
  change (panicked (set_held _ s)) with (panicked s). rewrite (uk_running _ Hok). apply wp_ret.
  eapply wp_call; [apply uartputc_wait_spec; [by apply uart_ok_thread|apply held_set]|].
  intros _ s1 (Hok1 & Hh1 & Hst1 & Hrx1 & Hpr & Hpid & Hpt & Hroom).
  apply wp_bind, wp_modify.
  pose proof (ring_push UART_TX_BUF_SIZE (2 ^ 64) ltac:(apply uart_size) ltac:(apply uart_size)
    ltac:(apply uart_size) (uart_tx_buf s1) (uart_tx_r s1) (uart_tx_w s1) (u8 c)
    (uk_len _ Hok1) Hroom) as Hpush.
  pose proof (ring_count_push UART_TX_BUF_SIZE (2 ^ 64) ltac:(apply uart_size)
    ltac:(apply uart_size) _ _ Hroom) as Hcp.
  match goal with |- wp _ _ _ ?x => set (s2 := x) end.
  assert (stream s2 = stream s ++ [u8 c]) as Hst2.
  { unfold stream, pending_out in *. subst s2. simpl. unfold u64. rewrite Hpush, app_assoc. by rewrite Hst1. }
  assert (uart_ok s2) as Hok2.
  { split; subst s2; simpl; try apply Hok1.
    - rewrite length_insert. apply Hok1.
    - apply u64_range.
    - unfold u64. rewrite Hcp. lia.
    - apply Forall_insert; [apply Hok1|]. unfold u8. apply Z.mod_pos_bound. lia. }
  eapply wp_call; [apply uartstart_loop_spec; [done|]|].
  { unfold pending_out. rewrite ring_content_length. pose proof (uk_count _ Hok2). lia. }
  intros _ s3 (Hok3 & Hst3 & [Hrx3 [wk Hw3]] & _).
  assert (held s3 = {[uart_tx_lock]}) as Hh3 by (simpl; rewrite Hw3; exact Hh1).
  apply wp_release; [rewrite Hh3; set_solver|]. split_and!.
  - by apply uart_ok_thread.
  - by rewrite <- Hst2, <- Hst3.
  - split; simpl; rewrite ?Hw3; simpl; try done.
    + simpl in Hh, Hh1. rewrite Hh, Hh1. set_solver.
    + rewrite Hrx3. exact Hrx1.
Qed.

Lemma spin_until_idle_spec E n s :
  (length (busy (u_dev s)) ≤ n)%nat →
  wp E (spin_until_idle n)
    (λ _ s', uart_tx_buf s' = uart_tx_buf s ∧ uart_tx_w s' = uart_tx_w s ∧
       uart_tx_r s' = uart_tx_r s ∧ thr (u_dev s') = thr (u_dev s) ∧ rx (u_dev s') = rx (u_dev s) ∧
       regs (u_dev s') = regs (u_dev s) ∧ panicked s' = panicked s ∧ u_thread s' = u_thread s) s.
Proof.
  revert s. induction n as [|n IH]; intros s Hn; cbn [spin_until_idle]; apply wp_bind;
    unfold wp at 1, tx_idle; (destruct (busy (u_dev s)) as [|[] bs] eqn:Hb; simpl in *; try done; try lia).
  eapply wp_mono; [apply IH; simpl; lia|]. done.
Qed.

(** A character sent around the buffer overtakes what is pending. *)
Lemma uartputc_sync_spec E c s :
  uart_ok s →
  wp E (uartputc_sync c)
    (λ _ s', uart_ok s' ∧ thr (u_dev s') = thr (u_dev s) ++ [u8 c] ∧ pending_out s' = pending_out s ∧
       rx (u_dev s') = rx (u_dev s) ∧ u_thread s' = u_thread s) s.
Proof.
  intros Hok. apply wp_bind, wp_bind, wp_gets. rewrite (uk_running _ Hok). apply wp_ret.
  apply wp_bind, wp_gets. eapply wp_call; [by apply spin_until_idle_spec|].
  intros _ s1 (Hb & Hw & Hr & Ht & Hrx & Hg & Hp & Hth). apply wp_modify.
  assert (uart_ok s1) as Hok1 by by eapply uart_ok_idle.
  pose proof (uk_latch _ Hok1) as Hl. simpl. rewrite Hl. simpl. split_and!.
  - destruct Hok1. by split.
  - by rewrite Ht.
  - unfold pending_out. simpl. by rewrite Hb, Hw, Hr.
  - done.
  - done.
Qed.
End uart.

