(* ===== verification/Console.v ===== *)
(** The consoles (kernel/console.c): [NCONS] virtual consoles on one UART, the
    line editor behind each, and the switch between them. *)

From Stdlib Require Import Ascii.
From S2P Require Import Prelude Threads Ring Riscv Printf Uart.
Local Open Scope Z_scope.

Definition BACKSPACE : Z := 256.
(** [C(x)]: Control-x. *)
Definition C (x : ascii) : Z := ch x - ch "@"%char.
Definition INPUT_BUF_SIZE : Z := 512.
Definition newline : Z := 10.

Record console := Cons { c_buf : list Z; c_r : Z; c_w : Z; c_e : Z }.

Record const (U : Type) := Const {
  cs_uart : uartst;
  cs_mem : U;
  cons : list console;
  conscur : Z;
  pr_locking : bool;
}.
Arguments Const {U} _ _ _ _ _.
Arguments cs_uart {U} _.
Arguments cs_mem {U} _.
Arguments cons {U} _.
Arguments conscur {U} _.
Arguments pr_locking {U} _.

Definition set_uart {U} (u : uartst) (s : const U) : const U :=
  Const u (cs_mem s) (cons s) (conscur s) (pr_locking s).
#[export] Instance const_thread U : HasThread (const U).
Proof.
  refine {| the_thread := λ s, u_thread (cs_uart s);
            set_thread := λ t s, set_uart (set_thread t (cs_uart s)) s |}; try done.
  by intros [[]].
Defined.

Definition cons_lock (i : Z) : Z := 1000 + i.
Definition conscur_lock : Z := 1010.
Definition pr_lock : Z := 1020.
(** The channel [&cons[i].r]. *)
Definition cons_chan (i : Z) : Z := 1100 + i.

Section console.
Context {U : Type} `{UserMem U}.
Local Abbreviation St := (const U).

Definition on_uart {A} (m : M uartst A) : M St A := zoom cs_uart set_uart m.
Definition on_cmem {A} (m : M U A) : M St A :=
  zoom cs_mem (λ u s, Const (cs_uart s) u (cons s) (conscur s) (pr_locking s)) m.

(** [cons[i]]; an index outside of the array is outside of any object. *)
Definition deref_cons (i : Z) : M St console :=
  if (i <? 0) || (NCONS <=? i) then fault
  else get_some (λ s, cons s !! Z.to_nat i).
Definition set_cons (i : Z) (k : console) : M St unit :=
  modify (λ s, Const (cs_uart s) (cs_mem s) (<[Z.to_nat i := k]> (cons s)) (conscur s) (pr_locking s)).
Definition set_conscur (i : Z) : M St unit :=
  modify (λ s, Const (cs_uart s) (cs_mem s) (cons s) i (pr_locking s)).

Definition consputc (c : Z) : M St unit :=
  if c =? BACKSPACE then
    on_uart (uartputc_sync (ch "008"%char));;;
    on_uart (uartputc_sync (ch " "%char));;;
    on_uart (uartputc_sync (ch "008"%char))
  else on_uart (uartputc_sync c).
Definition kprintf (fmt : list Z) (ap : list va) : M St unit :=
  let! locking := gets pr_locking in printf consputc pr_lock locking (Some fmt) ap.

(** [todo] is [n - i]; the value is [i]. *)
Fixpoint consolewrite_loop (wakeups todo : nat) (cnum : Z) (user_src : bool) (src i : Z) : M St Z :=
  match todo with
  | O => ret i
  | S todo =>
      let! t := gets the_thread in
      let! r := on_cmem (either_copyin (th_pagetable t) user_src (u64 (src + i)) 1) in
      match r with
      | Some [c] =>
          let! cur := gets conscur in
          when (cnum =? cur) (on_uart (uartputc wakeups c));;;
          consolewrite_loop wakeups todo cnum user_src src (i + 1)
      | _ => ret i
      end
  end.
Definition consolewrite (wakeups : nat) (cnum : Z) (user_src : bool) (src n : Z) : M St Z :=
  consolewrite_loop wakeups (Z.to_nat n) cnum user_src src 0.

(** Waits until the interrupt handler has put some input into the buffer. *)
Fixpoint consoleread_wait (wakeups : nat) (cnum : Z) (k : M St Z) : M St Z :=
  let! c := deref_cons cnum in
  if c_r c =? c_w c then
    let! dead := iskilled in
    if dead then release (cons_lock cnum);;; ret (-1) else
    match wakeups with
    | O => blocked (cons_chan cnum) (cons_lock cnum)
    | S wakeups => sleep (cons_chan cnum) (cons_lock cnum);;; consoleread_wait wakeups cnum k
    end
  else k.

(** [n] bytes are still wanted of [target]. *)
Fixpoint consoleread_loop (wakeups : nat) (cnum : Z) (user_dst : bool) (dst : Z) (target n : nat) :
    M St Z :=
  let fin n := release (cons_lock cnum);;; ret (Z.of_nat target - Z.of_nat n) in
  match n with
  | O => fin O
  | S n' =>
      consoleread_wait wakeups cnum (
        let! k := deref_cons cnum in
        let c := nth (Z.to_nat (c_r k `mod` INPUT_BUF_SIZE)) (c_buf k) 0 in
        set_cons cnum (Cons (c_buf k) (u32 (c_r k + 1)) (c_w k) (c_e k));;;
        if c =? C "D"%char then
          when (n <? target)%nat (
            let! k := deref_cons cnum in
            set_cons cnum (Cons (c_buf k) (u32 (c_r k - 1)) (c_w k) (c_e k)));;;
          fin n
        else
          let! t := gets the_thread in
          let! ok := on_cmem (either_copyout (th_pagetable t) user_dst dst [c]) in
          if negb ok then fin n else
          if c =? newline then fin n' else
          consoleread_loop wakeups cnum user_dst (u64 (dst + 1)) target n')
  end.
Definition consoleread (wakeups : nat) (cnum : Z) (user_dst : bool) (dst n : Z) : M St Z :=
  let! _ := deref_cons cnum in
  acquire (cons_lock cnum);;;
  consoleread_loop wakeups cnum user_dst dst (Z.to_nat n) (Z.to_nat n).

Definition consolesw (consnum : Z) : M St unit :=
  set_conscur consnum;;;
  kprintf (27 :: lit "c") [];;;
  let! cur := gets conscur in
  kprintf (lit "[Console %d now active]" ++ [newline]) [VInt cur].
Definition consolenext : M St unit :=
  acquire conscur_lock;;;
  let! cur := gets conscur in
  set_conscur ((cur + 1) `rem` NCONS);;;
  release conscur_lock;;;
  let! cur := gets conscur in
  consolesw cur.
Definition consw (consnum : Z) : M St unit := consolesw consnum.

(** [cons[conscur]] *)
Definition cur_cons : M St console := let! cur := gets conscur in deref_cons cur.
Definition set_cur_cons (k : console) : M St unit := let! cur := gets conscur in set_cons cur k.
Definition acquire_cur : M St unit :=
  let! _ := cur_cons in let! cur := gets conscur in acquire (cons_lock cur).
Definition release_cur : M St unit :=
  let! _ := cur_cons in let! cur := gets conscur in release (cons_lock cur).

(** [e--] and the echo of the erased character. *)
Definition erase_one : M St unit :=
  let! k := cur_cons in
  set_cur_cons (Cons (c_buf k) (c_r k) (c_w k) (u32 (c_e k - 1)));;;
  consputc BACKSPACE.
(** The loop of control-U; at most a whole buffer is erased. *)
Fixpoint kill_line (fuel : nat) : M St unit :=
  let! k := cur_cons in
  if negb (c_e k =? c_w k) &&
     negb (nth (Z.to_nat (u32 (c_e k - 1) `mod` INPUT_BUF_SIZE)) (c_buf k) 0 =? newline)
  then match fuel with O => out_of_fuel | S fuel => erase_one;;; kill_line fuel end
  else ret tt.

(** [procdump] and [contdump] are the listings of proc.c. *)
Definition consoleintr (procdump contdump : M St unit) (c : Z) : M St unit :=
  acquire_cur;;;
  (if c =? C "T"%char then
     release_cur;;; consolenext;;; acquire_cur
   else if c =? C "P"%char then procdump
   else if c =? C "O"%char then contdump
   else if c =? C "U"%char then kill_line (Z.to_nat INPUT_BUF_SIZE)
   else if (c =? C "H"%char) || (c =? 127) then
     let! k := cur_cons in
     when (negb (c_e k =? c_w k)) erase_one
   else
     let! k := cur_cons in
     when (negb (c =? 0) && (u32 (c_e k - c_r k) <? INPUT_BUF_SIZE)) (
       let c := if c =? 13 then newline else c in
       consputc c;;;
       let! k := cur_cons in
       let k := Cons (<[Z.to_nat (c_e k `mod` INPUT_BUF_SIZE) := u8 c]> (c_buf k))
                  (c_r k) (c_w k) (u32 (c_e k + 1)) in
       set_cur_cons k;;;
       when ((c =? newline) || (c =? C "D"%char) || (u32 (c_e k - c_r k) =? INPUT_BUF_SIZE)) (
         set_cur_cons (Cons (c_buf k) (c_r k) (c_e k) (c_e k));;;
         let! cur := gets conscur in
         wakeup (cons_chan cur))));;;
  release_cur.

(** uart.c: the loop of [uartintr] over the characters that have arrived. *)
Fixpoint uartintr_loop (fuel : nat) (procdump contdump : M St unit) : M St unit :=
  let! c := on_uart uartgetc in
  if c =? -1 then ret tt else
  match fuel with
  | O => out_of_fuel
  | S fuel => consoleintr procdump contdump c;;; uartintr_loop fuel procdump contdump
  end.
Definition uartintr (procdump contdump : M St unit) : M St unit :=
  let! n := gets (λ s, length (rx (u_dev (cs_uart s)))) in
  uartintr_loop n procdump contdump;;;
  on_uart (acquire uart_tx_lock;;; uartstart;;; release uart_tx_lock).

(** The two entries of [devsw] are set in [File]. *)
Definition consoleinit : M St unit :=
  on_uart uartinit;;;
  let! cur := gets conscur in
  kprintf (lit "[Console %d now active]" ++ [newline]) [VInt cur].
End console.

(** * The line editor *)

(** Complete lines that [consoleread] may take, and the line being edited. *)
Definition committed (k : console) : list Z :=
  ring_content INPUT_BUF_SIZE (2 ^ 32) (c_buf k) (c_r k) (c_w k).
Definition editing (k : console) : list Z :=
  ring_content INPUT_BUF_SIZE (2 ^ 32) (c_buf k) (c_w k) (c_e k).
Definition ends_line (c : Z) : bool := (c =? newline) || (c =? C "D"%char).

Record cons_ok (k : console) : Prop := {
  ck_len : length (c_buf k) = Z.to_nat INPUT_BUF_SIZE;
  ck_r : 0 ≤ c_r k < 2 ^ 32;
  ck_w : 0 ≤ c_w k < 2 ^ 32;
  ck_e : 0 ≤ c_e k < 2 ^ 32;
  ck_sum : ring_count (2 ^ 32) (c_r k) (c_e k) =
    ring_count (2 ^ 32) (c_r k) (c_w k) + ring_count (2 ^ 32) (c_w k) (c_e k);
  ck_count : ring_count (2 ^ 32) (c_r k) (c_e k) ≤ INPUT_BUF_SIZE;
  ck_full : c_w k ≠ c_e k → ring_count (2 ^ 32) (c_r k) (c_e k) < INPUT_BUF_SIZE;
  ck_line : Forall (λ c, ends_line c = false) (editing k);
}.

(** What one input character does to them. *)
Definition edit (c : Z) (com ed : list Z) : list Z * list Z :=
  if c =? C "U"%char then (com, [])
  else if (c =? C "H"%char) || (c =? 127) then (com, removelast ed)
  else if negb (c =? 0) && (Z.of_nat (length com + length ed) <? INPUT_BUF_SIZE) then
    let c := if c =? 13 then newline else c in
    let ed := ed ++ [c] in
    if ends_line c || (Z.of_nat (length com + length ed) =? INPUT_BUF_SIZE)
    then (com ++ ed, []) else (com, ed)
  else (com, ed).

Section editor.
Implicit Types (k : console) (c : Z).

Lemma cons_size : 0 < INPUT_BUF_SIZE ∧ INPUT_BUF_SIZE < 2 ^ 32 ∧ (INPUT_BUF_SIZE | 2 ^ 32).
Proof. split_and!; [done|done|]. by exists (2 ^ 23). Qed.

Lemma committed_length k : Z.of_nat (length (committed k)) = ring_count (2 ^ 32) (c_r k) (c_w k).
Proof. unfold committed, ring_count. rewrite ring_content_length. apply Z2Nat.id, Z.mod_pos_bound. lia. Qed.

Lemma editing_length k : Z.of_nat (length (editing k)) = ring_count (2 ^ 32) (c_w k) (c_e k).
Proof. unfold editing, ring_count. rewrite ring_content_length. apply Z2Nat.id, Z.mod_pos_bound. lia. Qed.

Lemma editing_empty k : cons_ok k → c_w k = c_e k ↔ editing k = [].
Proof. intros []. apply ring_empty; [apply cons_size..|done|done]. Qed.

Lemma committed_empty k : cons_ok k → c_r k = c_w k ↔ committed k = [].
Proof. intros []. apply ring_empty; [apply cons_size..|done|done]. Qed.

(** Taking back the last character of the line. *)
Definition erased k : console := Cons (c_buf k) (c_r k) (c_w k) (u32 (c_e k - 1)).

Lemma erased_ok k :
  cons_ok k → c_w k ≠ c_e k →
  cons_ok (erased k) ∧ committed (erased k) = committed k ∧
  editing k = editing (erased k) ++ [nth (Z.to_nat (u32 (c_e k - 1) `mod` INPUT_BUF_SIZE)) (c_buf k) 0].
Proof.
  intros Hok Hne. pose proof cons_size as (S1 & S2 & S3).
  assert (ring_count (2 ^ 32) (c_w k) (c_e k) ≠ 0) as Hc.
  { intros H0. apply Hne, editing_empty; [done|]. apply length_zero_iff_nil.
    pose proof (editing_length k). lia. }
  pose proof (ring_count_range INPUT_BUF_SIZE _ S1 S2 (c_r k) (c_w k)).
  pose proof (ring_count_range INPUT_BUF_SIZE _ S1 S2 (c_w k) (c_e k)).
  pose proof (ck_sum _ Hok). pose proof (ck_count _ Hok). pose proof (ck_full _ Hok Hne).
  pose proof (ring_count_unpush INPUT_BUF_SIZE _ S1 S2 (c_w k) (c_e k) Hc) as Hcw.
  pose proof (ring_count_unpush INPUT_BUF_SIZE _ S1 S2 (c_r k) (c_e k) ltac:(lia)) as Hcr.
  pose proof (ring_unpush INPUT_BUF_SIZE _ S1 S2 S3 (c_buf k) (c_w k) (c_e k) Hc) as Hu.
  unfold u32. rewrite ring_mod_mod by done.
  split_and!; [|done|exact Hu].
  split; simpl; try apply Hok.
  - apply u32_range.
  - unfold u32. lia.
  - unfold u32. lia.
  - unfold u32. lia.
  - pose proof (ck_line _ Hok) as Hl. unfold editing in Hl. rewrite Hu in Hl.
    apply Forall_app in Hl as [Hl _]. exact Hl.
Qed.

(** Adding a character to the line, which stays open. *)
Definition typed c k : console :=
  Cons (<[Z.to_nat (c_e k `mod` INPUT_BUF_SIZE) := c]> (c_buf k)) (c_r k) (c_w k) (u32 (c_e k + 1)).
Definition commit k : console := Cons (c_buf k) (c_r k) (c_e k) (c_e k).

Lemma typed_ok c k :
  cons_ok k → ring_count (2 ^ 32) (c_r k) (c_e k) < INPUT_BUF_SIZE →
  committed (typed c k) = committed k ∧ editing (typed c k) = editing k ++ [c] ∧
  (ends_line c = false → ring_count (2 ^ 32) (c_r k) (c_e k) + 1 < INPUT_BUF_SIZE →
     cons_ok (typed c k)) ∧
  cons_ok (commit (typed c k)) ∧ committed (commit (typed c k)) = committed k ++ editing k ++ [c] ∧
  editing (commit (typed c k)) = [].
Proof.
  intros Hok Hlt. pose proof cons_size as (S1 & S2 & S3).
  pose proof (ck_sum _ Hok) as Hsum.
  pose proof (ring_count_range INPUT_BUF_SIZE _ S1 S2 (c_r k) (c_w k)).
  pose proof (ring_count_range INPUT_BUF_SIZE _ S1 S2 (c_w k) (c_e k)).
  pose proof (ring_push INPUT_BUF_SIZE _ S1 S2 S3 (c_buf k) (c_w k) (c_e k) c (ck_len _ Hok) ltac:(lia)) as Hp.
  pose proof (ring_push INPUT_BUF_SIZE _ S1 S2 S3 (c_buf k) (c_r k) (c_e k) c (ck_len _ Hok) ltac:(lia)) as Hpr.
  pose proof (ring_count_push INPUT_BUF_SIZE _ S1 S2 (c_w k) (c_e k) ltac:(lia)) as Hcw.
  pose proof (ring_count_push INPUT_BUF_SIZE _ S1 S2 (c_r k) (c_e k) ltac:(lia)) as Hcr.
  assert (committed (typed c k) = committed k) as Hcom.
  { apply (ring_insert_other _ _ S1 S2 S3 (c_buf k) (c_r k) (c_w k) (c_e k) c); [lia|apply Hok|apply Hok]. }
  assert (editing (typed c k) = editing k ++ [c]) as Hed by exact Hp.
  assert (length (c_buf (typed c k)) = Z.to_nat INPUT_BUF_SIZE) as Hlen
    by (simpl; rewrite length_insert; apply Hok).
  split_and!; [done|done| | | |].
  - intros Hends Hroom. split; simpl; try apply Hok; unfold u32; [done|apply u32_range|lia..|].
    rewrite Hed. apply Forall_app. split; [apply Hok|by apply Forall_singleton].
  - split; simpl; try apply Hok; unfold u32.
    + done.
    + apply u32_range.
    + apply u32_range.
    + unfold ring_count at 3. rewrite Z.sub_diag, Z.mod_0_l by lia. lia.
    + lia.
    + done.
    + replace (editing (commit (typed c k))) with ([] : list Z); [done|].
      symmetry. apply length_zero_iff_nil. unfold editing. rewrite ring_content_length. simpl.
      unfold ring_count. by rewrite Z.sub_diag.
  - rewrite app_assoc. unfold committed, editing.
    rewrite <- (ring_split _ _ S1 S2 S3) by (apply Hok || done). exact Hpr.
  - apply length_zero_iff_nil. unfold editing. rewrite ring_content_length. simpl.
    unfold ring_count. by rewrite Z.sub_diag.
Qed.
End editor.

Section intr.
Context {U : Type} `{UserMem U}.
Implicit Types (s : const U) (k : console) (c : Z).

(** The current console is [k]. *)
Record on_console s k : Prop := {
  oc_cur : 0 ≤ conscur s < NCONS;
  oc_cons : cons s !! Z.to_nat (conscur s) = Some k;
  oc_uart : uart_ok (cs_uart s);
}.
(** From [s] to [s'], the current console became [k], and of the rest only the
    transmitter has moved. *)
Record con_step k s s' : Prop := {
  ct_cons : cons s' = <[Z.to_nat (conscur s) := k]> (cons s);
  ct_cur : conscur s' = conscur s;
  ct_mem : cs_mem s' = cs_mem s;
  ct_uart : uart_ok (cs_uart s');
  ct_pending : pending_out (cs_uart s') = pending_out (cs_uart s);
  ct_rx : rx (u_dev (cs_uart s')) = rx (u_dev (cs_uart s));
  ct_thread : u_thread (cs_uart s') = u_thread (cs_uart s);
}.
(** The same, and the readers of the current console have been woken if [b]. *)
Definition signal (b : bool) s : const U :=
  if b then set_thread (with_woken ({[cons_chan (conscur s)]} ∪ woken s) (the_thread s)) s else s.
Definition con_signals (b : bool) k s s' : Prop := ∃ s1, con_step k s s1 ∧ s' = signal b s1.

Lemma con_step_on k k' s s' : on_console s k → con_step k' s s' → on_console s' k'.
Proof.
  intros [] []. split; rewrite ?ct_cur0, ?ct_cons0; try done.
  apply list_lookup_insert_eq. by eapply lookup_lt_Some.
Qed.

Lemma con_step_refl k s : on_console s k → con_step k s s.
Proof.
  intros []. split; try done. by rewrite list_insert_id.
Qed.

Lemma con_step_trans k k' s1 s2 s3 : con_step k s1 s2 → con_step k' s2 s3 → con_step k' s1 s3.
Proof.
  intros [A1 A2 A3 A4 A5 A6 A7] [B1 B2 B3 B4 B5 B6 B7].
  split; try congruence. by rewrite B1, A2, A1, list_insert_insert_eq.
Qed.

Lemma wp_on_uart {A} E (m : M uartst A) (P : A → uartst → Prop) Q s :
  returns m P (cs_uart s) → (∀ a u, P a u → Q a (set_uart u s)) → wp E (on_uart m) Q s.
Proof.
  rewrite wp_no_sleep. intros (a & u & Hm & HP) HQ.
  eapply wp_ok; [by unfold on_uart, zoom; rewrite Hm|]. by apply HQ.
Qed.

Lemma wp_cur_cons {B} E (f : console → M (const U) B) Q s k :
  on_console s k → wp E (f k) Q s → wp E (bind cur_cons f) Q s.
Proof.
  intros [Hc Hk _] HQ. apply wp_bind, wp_bind, wp_gets. unfold deref_cons.
  replace (_ || _) with false by (unfold NCONS in *; lia). by eapply wp_get_some.
Qed.

Lemma set_cur_cons_spec k k' s :
  on_console s k → returns (set_cur_cons k') (λ _ s', con_step k' s s') s.
Proof.
  intros []. apply wp_bind, wp_gets, wp_modify. by split.
Qed.

Lemma on_uart_sync_spec c k s :
  on_console s k → returns (on_uart (uartputc_sync c)) (λ _ s', con_step k s s') s.
Proof.
  intros Hon. eapply wp_on_uart; [by apply uartputc_sync_spec, Hon|].
  intros _ u (Hok & _ & Hp & Hrx & Ht). split; simpl; try done.
  by rewrite list_insert_id by apply Hon.
Qed.

Lemma consputc_spec c k s :
  on_console s k → returns (consputc c) (λ _ s', con_step k s s') s.
Proof.
  intros Hon. unfold consputc. case_match; [|by apply on_uart_sync_spec].
  eapply wp_call; [by apply on_uart_sync_spec|cbn beta]. intros _ s1 H1.
  eapply wp_call; [by eapply on_uart_sync_spec, con_step_on|cbn beta]. intros _ s2 H2.
  eapply wp_mono; [eapply on_uart_sync_spec, con_step_on; [by eapply con_step_on|done]|].
  cbn beta. intros _ s3 H3. by do 2 (eapply con_step_trans; [done|]).
Qed.

Lemma erase_one_spec k s :
  on_console s k → returns erase_one (λ _ s', con_step (erased k) s s') s.
Proof.
  intros Hon. unfold erase_one. eapply wp_cur_cons; [done|].
  eapply wp_call; [by eapply set_cur_cons_spec|cbn beta]. intros _ s1 H1.
  eapply wp_mono; [by eapply consputc_spec, con_step_on|].
  cbn beta. intros _ s2 H2. by eapply con_step_trans.
Qed.

Lemma kill_line_spec fuel k s :
  on_console s k → cons_ok k → (length (editing k) ≤ fuel)%nat →
  returns (kill_line fuel)
    (λ _ s', ∃ k', con_step k' s s' ∧ cons_ok k' ∧ committed k' = committed k ∧ editing k' = []) s.
Proof.
  revert k s. induction fuel as [|fuel IH]; intros k s Hon Hok Hf; cbn [kill_line];
    (eapply wp_cur_cons; [done|]); (destruct (Z.eqb_spec (c_e k) (c_w k)) as [He|He]; cbn [negb andb];
    [apply wp_ret; exists k; split_and!; [by apply con_step_refl|done|done|by apply editing_empty]|]).
  - exfalso. apply He. symmetry. apply editing_empty; [done|]. apply length_zero_iff_nil. lia.
  - destruct (erased_ok k Hok ltac:(done)) as (Hok' & Hcom & Hed).
    pose proof (ck_line _ Hok) as Hl. rewrite Hed in Hl.
    apply Forall_app in Hl as [_ [Hl _]%Forall_cons_1]. unfold ends_line in Hl.
    apply orb_false_iff in Hl as [Hl _]. rewrite Hl. cbn [negb].
    eapply wp_call; [by apply erase_one_spec|cbn beta]. intros _ s1 H1.
    eapply wp_mono; [apply (IH (erased k) s1)|].
    + by eapply con_step_on.
    + done.
    + rewrite Hed, length_app in Hf. simpl in Hf. lia.
    + intros _ s2 (k' & H2 & ? & ? & ?). exists k'. split_and!; [|done|congruence|done].
      by eapply con_step_trans.
Qed.

(** The same with the console's lock held. *)
Lemma on_console_thread t k s : on_console s k → on_console (set_thread t s) k.
Proof. intros []. split; try done. by apply uart_ok_thread. Qed.

(** The branch of an ordinary character. *)
Lemma type_spec c k s :
  on_console s k → cons_ok k → 0 < c < 256 → c ≠ 13 →
  ring_count (2 ^ 32) (c_r k) (c_e k) < INPUT_BUF_SIZE →
  returns (consputc c;;;
       let! k := cur_cons in
       let k := Cons (<[Z.to_nat (c_e k `mod` INPUT_BUF_SIZE) := u8 c]> (c_buf k))
                  (c_r k) (c_w k) (u32 (c_e k + 1)) in
       set_cur_cons k;;;
       when ((c =? newline) || (c =? C "D"%char) || (u32 (c_e k - c_r k) =? INPUT_BUF_SIZE)) (
         set_cur_cons (Cons (c_buf k) (c_r k) (c_e k) (c_e k));;;
         let! cur := gets conscur in
         wakeup (cons_chan cur)))
    (λ _ s', let ed := editing k ++ [c] in
       let b := ends_line c || (Z.of_nat (length (committed k) + length ed) =? INPUT_BUF_SIZE) in
       ∃ k', con_signals b k' s s' ∧ cons_ok k' ∧
       (if b then committed k' = committed k ++ ed ∧ editing k' = []
        else committed k' = committed k ∧ editing k' = ed)) s.
Proof.
  intros Hon Hok Hc Hcr Hroom. pose proof cons_size as (S1 & S2 & S3).
  assert (u8 c = c) as Hu8 by (unfold u8; apply Z.mod_small; lia). rewrite Hu8.
  destruct (typed_ok c k Hok Hroom) as (Tc & Te & Tok & Tok' & Tcc & Tce).
  pose proof (ring_count_push INPUT_BUF_SIZE _ S1 S2 (c_r k) (c_e k) Hroom) as Hcnt.
  assert (Z.of_nat (length (committed k) + length (editing k ++ [c])) =
    ring_count (2 ^ 32) (c_r k) (c_e k) + 1) as Hlen.
  { rewrite length_app, !Nat2Z.inj_add, committed_length, editing_length, (ck_sum _ Hok). simpl. lia. }
  eapply wp_call; [by apply consputc_spec|cbn beta]. intros _ s1 H1.
  pose proof (con_step_on _ _ _ _ Hon H1) as Hon1.
  eapply wp_cur_cons; [done|]. cbv zeta.
  eapply wp_call; [by eapply set_cur_cons_spec|cbn beta]. intros _ s2 H2. cbn [c_e c_r c_w c_buf].
  fold (typed c k) in H2. pose proof (con_step_on _ _ _ _ Hon1 H2) as Hon2.
  pose proof (con_step_trans _ _ _ _ _ H1 H2) as H12.
  change (u32 (u32 (c_e k + 1) - c_r k)) with (ring_count (2 ^ 32) (c_r k) (u32 (c_e k + 1))).
  unfold u32 at 1. rewrite Hcnt, Hlen. fold (ends_line c).
  apply wp_when; intros Hb; rewrite Hb.
  - fold (commit (typed c k)).
    eapply wp_call; [by eapply set_cur_cons_spec|cbn beta]. intros _ s3 H3.
    apply wp_bind, wp_gets, wp_wakeup. exists (commit (typed c k)).
    pose proof (con_step_trans _ _ _ _ _ H12 H3) as H13. split_and!; [by exists s3|done..].
  - exists (typed c k). split; [by exists s2|]. apply orb_false_iff in Hb as [Hb1 Hb2].
    split_and!; [|done|done]. apply Tok; [done|]. lia.
Qed.

Lemma wp_acquire_cur E k Q s :
  on_console s k → held s = ∅ →
  Q tt (set_held {[cons_lock (conscur s)]} s) → wp E acquire_cur Q s.
Proof.
  intros Hon Hh HQ. eapply wp_cur_cons; [done|]. apply wp_bind, wp_gets, wp_acquire.
  - rewrite Hh. set_solver.
  - by rewrite Hh, union_empty_r_L.
Qed.

Lemma wp_release_cur E k Q s :
  on_console s k → held s = {[cons_lock (conscur s)]} →
  Q tt (set_held ∅ s) → wp E release_cur Q s.
Proof.
  intros Hon Hh HQ. eapply wp_cur_cons; [done|]. apply wp_bind, wp_gets, wp_release.
  - rewrite Hh. set_solver.
  - by rewrite Hh, difference_diag_L.
Qed.

Lemma quiet k k' s s' : committed k' = committed k → con_step k' s s' →
  con_signals (bool_decide (committed k' ≠ committed k)) k' s s'.
Proof. intros He H1. exists s'. by rewrite bool_decide_false by auto. Qed.

(** What the interrupt handler does under the console's lock. *)
Lemma edit_spec pd cd c k s :
  on_console s k → cons_ok k → 0 ≤ c < 256 →
  c ≠ C "T"%char → c ≠ C "P"%char → c ≠ C "O"%char →
  returns
    (if c =? C "T"%char then release_cur;;; consolenext;;; acquire_cur
     else if c =? C "P"%char then pd
     else if c =? C "O"%char then cd
     else if c =? C "U"%char then kill_line (Z.to_nat INPUT_BUF_SIZE)
     else if (c =? C "H"%char) || (c =? 127) then
       let! k := cur_cons in
       when (negb (c_e k =? c_w k)) erase_one
     else
       let! k := cur_cons in
       when (negb (c =? 0) && (u32 (c_e k - c_r k) <? INPUT_BUF_SIZE)) (
         let c := if c =? 13 then newline else c in
         consputc c;;;
         let! k := cur_cons in
         let k := Cons (<[Z.to_nat (c_e k `mod` INPUT_BUF_SIZE) := u8 c]> (c_buf k))
                    (c_r k) (c_w k) (u32 (c_e k + 1)) in
         set_cur_cons k;;;
         when ((c =? newline) || (c =? C "D"%char) || (u32 (c_e k - c_r k) =? INPUT_BUF_SIZE)) (
           set_cur_cons (Cons (c_buf k) (c_r k) (c_e k) (c_e k));;;
           let! cur := gets conscur in
           wakeup (cons_chan cur))))
    (λ _ s', ∃ k', con_signals (bool_decide (committed k' ≠ committed k)) k' s s' ∧ cons_ok k' ∧
       (committed k', editing k') = edit c (committed k) (editing k)) s.
Proof.
  intros Hon Hok Hc HT HP HO.
  rewrite (proj2 (Z.eqb_neq _ _) HT), (proj2 (Z.eqb_neq _ _) HP), (proj2 (Z.eqb_neq _ _) HO).
  unfold edit. destruct (Z.eqb_spec c (C "U"%char)) as [->|HU].
  { eapply wp_mono; [apply (kill_line_spec _ k s Hon Hok)|].
    - pose proof (editing_length k). pose proof (ck_sum _ Hok). pose proof (ck_count _ Hok).
      pose proof (ring_count_range INPUT_BUF_SIZE (2 ^ 32) ltac:(done) ltac:(done) (c_r k) (c_w k)). lia.
    - intros _ s' (k' & ? & ? & Hcom & Hed). exists k'. split; [by apply quiet|]. by rewrite Hcom, Hed. }
  destruct ((c =? C "H"%char) || (c =? 127)) eqn:HH.
  { eapply wp_cur_cons; [done|]. destruct (Z.eqb_spec (c_e k) (c_w k)) as [He|He]; cbn [negb when].
    - apply wp_ret. exists k. pose proof (proj1 (editing_empty k Hok) (eq_sym He)) as Hed.
      rewrite Hed. split_and!; [by apply quiet; [|apply con_step_refl]|done..].
    - eapply wp_mono; [by apply erase_one_spec|]. cbn beta. intros _ s' H1.
      destruct (erased_ok k Hok ltac:(done)) as (? & Hcom & Hed). exists (erased k).
      split; [by apply quiet|]. rewrite Hcom, Hed, removelast_last. by split. }
  eapply wp_cur_cons; [done|].
  assert (Z.of_nat (length (committed k) + length (editing k)) = u32 (c_e k - c_r k)) as Hlen.
  { rewrite Nat2Z.inj_add, committed_length, editing_length. symmetry. apply (ck_sum _ Hok). }
  rewrite Hlen. destruct (negb (c =? 0) && (u32 (c_e k - c_r k) <? INPUT_BUF_SIZE)) eqn:Hb; cbn [when].
  - apply andb_true_iff in Hb as [Hb0 Hb1]. cbv zeta.
    eapply wp_mono; [apply (type_spec _ k s Hon Hok)|].
    + destruct (c =? 13); [done|lia].
    + destruct (Z.eqb_spec c 13); [done|lia].
    + change (u32 (c_e k - c_r k) < INPUT_BUF_SIZE). lia.
    + cbv zeta. intros _ s' (k' & H1 & Hok' & Hk). exists k'.
      destruct (ends_line _ || _); destruct Hk as [Hk ->]; rewrite Hk; (split; [|done]).
      * rewrite bool_decide_true; [done|]. intros He. apply (f_equal length) in He. rewrite !length_app in He. simpl in He. lia.
      * by rewrite bool_decide_false by auto.
  - apply wp_ret. exists k. split_and!; [by apply quiet; [|apply con_step_refl]|done..].
Qed.
End intr.
