(* ===== verification/ConsoleSpecs.v ===== *)
(** The contract of kernel/console.c and kernel/uart.c: line editing refines an
    editor on two byte sequences, a read hands out one line, output goes out in
    order and only from the active console. *)

From Stdlib Require Import Ascii.
From S2P Require Import Prelude Threads Ring Riscv Printf Uart Console.
Local Open Scope Z_scope.

(** * Input *)

(** An idle system: four empty consoles. *)
Definition demo_thread : thread := Thread 1 1 0 ∅ ∅ ∅.
Definition demo_uart : uartst := Uartst demo_thread (Device [] [] [true; false] []) false
  (replicate (Z.to_nat UART_TX_BUF_SIZE) 0) (2 ^ 64 - 1) (2 ^ 64 - 1).
Definition buf_of (cs : list Z) : list Z :=
  cs ++ replicate (Z.to_nat INPUT_BUF_SIZE - length cs) 0.
(** A console in which the bytes [com] are complete and [ed] is being typed. *)
Definition demo_cons (com ed : list Z) : console :=
  Cons (buf_of (com ++ ed)) 0 (Z.of_nat (length com)) (Z.of_nat (length (com ++ ed))).
Definition demo_const (u : flat_user) (cur : Z) (k : console) : const flat_user :=
  Const demo_uart u (<[Z.to_nat cur := k]> (replicate 4 (demo_cons [] []))) cur true.

#[export] Instance uart_ok_dec s : Decision (uart_ok s).
Proof.
  refine (cast_if (decide
    (length (uart_tx_buf s) = Z.to_nat UART_TX_BUF_SIZE ∧
     (0 ≤ uart_tx_w s < 2 ^ 64 ∧ 0 ≤ uart_tx_r s < 2 ^ 64) ∧
     ring_count (2 ^ 64) (uart_tx_r s) (uart_tx_w s) ≤ UART_TX_BUF_SIZE ∧
     Forall (λ b, 0 ≤ b < 256) (uart_tx_buf s) ∧ latched (u_dev s) = false ∧ panicked s = false))).
  - abstract (destruct_and!; by split).
  - abstract (intros []; naive_solver).
Defined.

#[export] Instance cons_ok_dec k : Decision (cons_ok k).
Proof.
  refine (cast_if (decide
    (length (c_buf k) = Z.to_nat INPUT_BUF_SIZE ∧
     (0 ≤ c_r k < 2 ^ 32 ∧ 0 ≤ c_w k < 2 ^ 32 ∧ 0 ≤ c_e k < 2 ^ 32) ∧
     ring_count (2 ^ 32) (c_r k) (c_e k) =
       ring_count (2 ^ 32) (c_r k) (c_w k) + ring_count (2 ^ 32) (c_w k) (c_e k) ∧
     ring_count (2 ^ 32) (c_r k) (c_e k) ≤ INPUT_BUF_SIZE ∧
     (c_w k ≠ c_e k → ring_count (2 ^ 32) (c_r k) (c_e k) < INPUT_BUF_SIZE) ∧
     Forall (λ c, ends_line c = false) (editing k)))).
  - abstract (destruct_and!; by split).
  - abstract (intros []; naive_solver).
Defined.

(** C22: The input interrupt refines a line editor: of the current console's
    complete lines and the line being typed, each character makes what [edit]
    says (control-U erases the line, backspace and delete its last character,
    newline, control-D or a full buffer complete it, carriage return is a
    newline, anything that does not fit is dropped), a reader is woken exactly
    when something was completed, and no other console changes. *)
Theorem consoleintr_edits {U : Type} `{UserMem U} (pd cd : M (const U) unit) (c : Z) (k : console)
    (s : const U) :
  on_console s k → cons_ok k → held s = ∅ → 0 ≤ c < 256 →
  c ≠ C "T"%char → c ≠ C "P"%char → c ≠ C "O"%char →
  returns (consoleintr pd cd c)
    (λ _ s', ∃ k', cons s' = <[Z.to_nat (conscur s) := k']> (cons s) ∧ cons_ok k' ∧
       on_console s' k' ∧ conscur s' = conscur s ∧ cs_mem s' = cs_mem s ∧ held s' = ∅ ∧
       (committed k', editing k') = edit c (committed k) (editing k) ∧
       woken s' = if decide (committed k' = committed k) then woken s
                  else {[cons_chan (conscur s)]} ∪ woken s) s.
Proof.
  intros Hon Hok Hh Hc HT HP HO. apply wp_bind. eapply wp_acquire_cur; [done..|].
  eapply wp_call; [apply (edit_spec pd cd c k); [by apply on_console_thread|done..]|].
  intros _ s1 (k' & (s2 & H1 & ->) & Hok' & Hed).
  pose proof (con_step_on _ _ _ _ (on_console_thread _ _ _ Hon) H1) as Hon1.
  destruct H1 as [A1 A2 A3 A4 A5 A6 A7]. set (b := bool_decide _).
  assert (∃ w, signal b s2 = set_thread (with_woken w (the_thread s2)) s2 ∧
    w = if b then {[cons_chan (conscur s2)]} ∪ woken s2 else woken s2) as (w & Hsig & Hw).
  { eexists. split; [|reflexivity]. destruct b; [done|]. unfold signal.
    replace (with_woken _ _) with (the_thread s2) by (unfold woken; by destruct (the_thread s2)). by rewrite set_thread_thread. }
  rewrite Hsig. eapply wp_release_cur; [by apply on_console_thread| |].
  - simpl. rewrite A7, A2. done.
  - exists k'. split_and!; [exact A1|done|by do 2 apply on_console_thread|done|done|apply held_set|done|].
    unfold woken in *. simpl. rewrite Hw. simpl. rewrite A7, A2. simpl. subst b.
    destruct (decide (committed k' = committed k)); [by rewrite bool_decide_false by auto|by rewrite bool_decide_true].
Qed.

Lemma consoleintr_edits_witness :
  returns (consoleintr (ret tt) (ret tt) 10)
    (λ _ s', ∃ k', cons s' = <[2%nat := k']> (cons (demo_const ∅ 2 (demo_cons [97; 10] [98]))) ∧
       cons_ok k' ∧ on_console s' k' ∧ conscur s' = 2 ∧ cs_mem s' = ∅ ∧ held s' = ∅ ∧
       (committed k', editing k') = ([97; 10; 98; 10], []) ∧
       woken s' = if decide (committed k' = [97; 10]) then ∅ else {[cons_chan 2]} ∪ ∅)
    (demo_const ∅ 2 (demo_cons [97; 10] [98])).
Proof.
  apply (consoleintr_edits (ret tt) (ret tt) 10 (demo_cons [97; 10] [98])
    (demo_const ∅ 2 (demo_cons [97; 10] [98]))).
  - split; [by_compute|reflexivity|by_compute].
  - by_compute.
  - reflexivity.
  - lia.
  - discriminate.
  - discriminate.
  - discriminate.
Defined.

(** One read of up to [n] bytes from the completed input [cs]: what it delivers
    and what it leaves; [None] when it has to wait for more.  [got] says whether
    it has delivered something already: a control-D in the first place is
    consumed, any other stays for the next read. *)
Fixpoint readline (n : nat) (got : bool) (cs : list Z) : option (list Z * list Z) :=
  match n, cs with
  | O, _ => Some ([], cs)
  | S _, [] => None
  | S n, c :: cs' =>
      if c =? C "D"%char then Some ([], if got then cs else cs')
      else if c =? newline then Some ([c], cs')
      else match readline n true cs' with
           | Some (l, rest) => Some (c :: l, rest)
           | None => None
           end
  end.

Section read.
Implicit Types (s : const flat_user) (k : console).

(** [c_r++] *)
Definition popped (k : console) : console := Cons (c_buf k) (u32 (c_r k + 1)) (c_w k) (c_e k).

Lemma popped_ok k :
  cons_ok k → c_r k ≠ c_w k →
  cons_ok (popped k) ∧ editing (popped k) = editing k ∧
  committed k = nth (Z.to_nat (c_r k `mod` INPUT_BUF_SIZE)) (c_buf k) 0 :: committed (popped k).
Proof.
  intros Hok Hne. pose proof cons_size as (S1 & S2 & S3).
  assert (ring_count (2 ^ 32) (c_r k) (c_w k) ≠ 0) as Hc.
  { intros H0. apply Hne, committed_empty; [done|]. apply length_zero_iff_nil.
    pose proof (committed_length k). lia. }
  pose proof (ring_count_range INPUT_BUF_SIZE _ S1 S2 (c_r k) (c_w k)).
  pose proof (ring_count_range INPUT_BUF_SIZE _ S1 S2 (c_w k) (c_e k)).
  pose proof (ck_sum _ Hok) as Hs. pose proof (ck_count _ Hok).
  pose proof (ring_count_pop INPUT_BUF_SIZE _ S1 S2 (c_r k) (c_w k) Hc) as Hcw.
  pose proof (ring_count_pop INPUT_BUF_SIZE _ S1 S2 (c_r k) (c_e k) ltac:(lia)) as Hcr.
  split_and!; [|done|exact (ring_pop INPUT_BUF_SIZE _ S1 S2 S3 _ _ _ Hc)].
  split; simpl; try apply Hok; unfold u32; [apply u32_range|lia..].
Qed.

(** The lock of console [cnum] is held and [k] is that console. *)
Record in_console (cnum : Z) s k : Prop := {
  ic_num : 0 ≤ cnum < NCONS;
  ic_cons : cons s !! Z.to_nat cnum = Some k;
  ic_held : held s = {[cons_lock cnum]};
}.

Lemma wp_deref_cons {B} E cnum k s (f : console → M (const flat_user) B) Q :
  in_console cnum s k → wp E (f k) Q s → wp E (bind (deref_cons cnum) f) Q s.
Proof.
  intros [Hc Hk _] HQ. apply wp_bind. unfold deref_cons.
  replace (_ || _) with false by (unfold NCONS in *; lia). by eapply wp_get_some.
Qed.

Definition write_cons (cnum : Z) k s : const flat_user :=
  Const (cs_uart s) (cs_mem s) (<[Z.to_nat cnum := k]> (cons s)) (conscur s) (pr_locking s).

Lemma in_console_write cnum k k' s : in_console cnum s k → in_console cnum (write_cons cnum k' s) k'.
Proof. intros []. split; [done| |done]. apply list_lookup_insert_eq. by eapply lookup_lt_Some. Qed.

Lemma write_cons_same cnum k s : in_console cnum s k → write_cons cnum k s = s.
Proof. intros []. unfold write_cons. rewrite list_insert_id by done. by destruct s. Qed.

(** Undoing the [c_r++]. *)
Lemma unpopped k :
  cons_ok k → Cons (c_buf (popped k)) (u32 (c_r (popped k) - 1)) (c_w (popped k)) (c_e (popped k)) = k.
Proof.
  intros []. destruct k. simpl in *. f_equal. unfold u32. rewrite Zminus_mod_idemp_l.
  rewrite Z.mod_small; lia.
Qed.

Lemma consoleread_wait_ready w cnum k s f Q :
  in_console cnum s k → c_r k ≠ c_w k → wp no_sleep f Q s → wp no_sleep (consoleread_wait w cnum f) Q s.
Proof.
  intros Hin Hne Hf. destruct w; simpl; (eapply wp_deref_cons; [done|]);
    by rewrite (proj2 (Z.eqb_neq _ _) Hne).
Qed.

(** What a read by the caller of [s] results in. *)
Definition read_result (cnum : Z) (dst : Z) (l : list Z) (k : console) (rest : list Z)
    (s s' : const flat_user) : Prop :=
  flat_bytes (cs_mem s') dst l ∧
  (∀ j, ¬ dst ≤ j < dst + Z.of_nat (length l) → (cs_mem s' : gmap Z Z) !! j = (cs_mem s : gmap Z Z) !! j) ∧
  held s' = ∅ ∧ ∃ k', cons s' = <[Z.to_nat cnum := k']> (cons s) ∧ cons_ok k' ∧
    committed k' = rest ∧ editing k' = editing k.

Lemma fin_spec cnum dst k k' (r : Z) s :
  in_console cnum s k → cons_ok k' → editing k' = editing k →
  returns (release (cons_lock cnum);;; ret r)
    (λ r' s', r' = r ∧ read_result cnum dst [] k (committed k') s s') (write_cons cnum k' s).
Proof.
  intros [Hc Hk Hh] Hok He. apply wp_bind, wp_release; [simpl in *; rewrite Hh; set_solver|].
  apply wp_ret. split; [done|]. split_and!; [by intros ?|done| |].
  - rewrite held_set. simpl in *. rewrite Hh. set_solver.
  - by exists k'.
Qed.

Lemma consoleread_loop_spec w cnum dst target n k s l rest :
  in_console cnum s k → cons_ok k → (n ≤ target)%nat → Forall (λ c, 0 ≤ c < 256) (committed k) →
  (∀ j, dst ≤ j < dst + Z.of_nat n → is_Some ((cs_mem s : gmap Z Z) !! j)) →
  0 ≤ dst → dst + Z.of_nat n < 2 ^ 64 →
  readline n (n <? target)%nat (committed k) = Some (l, rest) →
  returns (consoleread_loop w cnum true dst target n)
    (λ r s', r = Z.of_nat target - Z.of_nat n + Z.of_nat (length l) ∧
       read_result cnum dst l k rest s s') s.
Proof.
  revert dst k s l. induction n as [|n IH]; intros dst k s l Hin Hok Hnt Hby Hm Hd1 Hd2 Hrl.
  { injection Hrl as <- <-. cbn [consoleread_loop length].
    pose proof (fin_spec cnum dst k k (Z.of_nat target - Z.of_nat 0) s Hin Hok eq_refl) as Hf.
    rewrite (write_cons_same _ _ _ Hin) in Hf.
    eapply wp_mono; [exact Hf|]. intros r s' [-> ?]. by split; [lia|]. }
  cbn [consoleread_loop]. simpl in Hrl. destruct (committed k) as [|c cs] eqn:Hcom; [done|].
  assert (c_r k ≠ c_w k) as Hne by (rewrite committed_empty by done; by rewrite Hcom).
  eapply consoleread_wait_ready; [done..|]. eapply wp_deref_cons; [done|].
  destruct (popped_ok k Hok Hne) as (Hok' & Hed & Hpop). rewrite Hcom in Hpop.
  injection Hpop as Hc Hcs. rewrite <- Hc. apply Forall_cons_1 in Hby as [Hcb Hby].
  apply wp_bind, wp_modify. fold (popped k). fold (write_cons cnum (popped k) s).
  pose proof (in_console_write _ _ (popped k) _ Hin) as Hin1.
  destruct (Z.eqb_spec c (C "D"%char)) as [->|HD].
  - destruct (Nat.ltb (S n) target) eqn:Hlt; injection Hrl as <- <-; cbn [when].
    + eapply wp_call.
      { eapply wp_deref_cons; [done|]. rewrite unpopped by done. apply wp_modify.
        by instantiate (1 := λ _ s', s' = write_cons cnum k (write_cons cnum (popped k) s)). }
      cbn beta. intros ? s1 ->. replace (write_cons cnum k _) with (write_cons cnum k s)
        by (unfold write_cons; simpl; by rewrite list_insert_insert_eq). rewrite <- Hcom.
      eapply wp_mono; [by apply (fin_spec cnum dst k k)|].
      intros r s' [-> ?]. split; [simpl; lia|done].
    + apply wp_bind, wp_ret. rewrite Hcs.
      eapply wp_mono; [by apply (fin_spec cnum dst k (popped k))|].
      intros r s' [-> ?]. split; [simpl; lia|done].
  - apply wp_bind, wp_gets, wp_bind.
    eapply wp_ok.
    { unfold on_cmem, zoom, either_copyout. rewrite flat_copyout by (apply Hm; lia). done. }
    cbn [negb]. set (s1 := Const _ _ _ _ _).
    assert (in_console cnum s1 (popped k)) as Hin2 by (destruct Hin1; by split).
    destruct (Z.eqb_spec c newline) as [->|Hnl].
    + injection Hrl as <- <-. apply wp_bind, wp_release; [rewrite (ic_held _ _ _ Hin2); set_solver|].
      apply wp_ret. split; [simpl; lia|]. split_and!.
      * intros [|j] b Hj; simpl in Hj; [|done]. injection Hj as <-. split; [|done].
        rewrite Z.add_0_r. apply (lookup_insert_eq (M := gmap Z)).
      * intros j Hj. simpl in Hj. apply (lookup_insert_ne (M := gmap Z)). lia.
      * rewrite held_set, (ic_held _ _ _ Hin2). set_solver.
      * exists (popped k). by rewrite <- Hcs.
    + destruct (readline n true cs) as [[l' rest']|] eqn:Hrl'; [|done]. injection Hrl as <- <-.
      assert (u64 (dst + 1) = dst + 1) as -> by (apply u64_small; lia).
      eapply wp_mono; [apply (IH (dst + 1) (popped k) s1 l')|].
      * done.
      * done.
      * lia.
      * by rewrite <- Hcs.
      * intros j Hj. apply lookup_insert_is_Some'. right. apply Hm. lia.
      * lia.
      * lia.
      * rewrite <- Hcs. by rewrite (proj2 (Nat.ltb_lt _ _)) by lia.
      * intros r s' (-> & Hb & Hfr & Hh & k' & Hk' & ? & ? & ?). split; [simpl; lia|].
        split_and!; [| |done|exists k'; split_and!; [|done|done|congruence]].
        -- intros [|j] b Hj; simpl in Hj.
           ++ injection Hj as <-. split; [|done]. rewrite Z.add_0_r, Hfr by lia.
              apply (lookup_insert_eq (M := gmap Z)).
           ++ replace (dst + Z.of_nat (S j)) with (dst + 1 + Z.of_nat j) by lia. by apply Hb.
        -- intros j Hj. simpl in Hj. rewrite Hfr by lia. apply (lookup_insert_ne (M := gmap Z)). lia.
        -- rewrite Hk'. simpl. by rewrite list_insert_insert_eq.
Qed.
End read.

(** A read hands out at most one line: when the completed input of the
    console has a line end, a control-D or enough bytes, [consoleread] returns
    at once; the bytes delivered, their number and the input left are what
    [readline] says, and the line being typed is untouched. *)
Theorem consoleread_line (w : nat) (cnum dst n : Z) (k : console) (s : const flat_user)
    (l rest : list Z) :
  0 ≤ cnum < NCONS → cons s !! Z.to_nat cnum = Some k → cons_ok k →
  Forall (λ c, 0 ≤ c < 256) (committed k) → held s = ∅ → 0 ≤ n →
  (∀ j, dst ≤ j < dst + n → is_Some ((cs_mem s : gmap Z Z) !! j)) →
  0 ≤ dst → dst + n < 2 ^ 64 →
  readline (Z.to_nat n) false (committed k) = Some (l, rest) →
  returns (consoleread w cnum true dst n)
    (λ r s', r = Z.of_nat (length l) ∧ flat_bytes (cs_mem s') dst l ∧ held s' = ∅ ∧
       ∃ k', cons s' = <[Z.to_nat cnum := k']> (cons s) ∧ cons_ok k' ∧
         committed k' = rest ∧ editing k' = editing k) s.
Proof.
  intros Hc Hk Hok Hby Hh Hn Hm Hd1 Hd2 Hrl. apply wp_bind. unfold deref_cons at 1.
  replace (_ || _) with false by (unfold NCONS in *; lia). eapply wp_get_some; [done|].
  apply wp_bind, wp_acquire; [rewrite Hh; set_solver|]. rewrite Hh, union_empty_r_L.
  eapply wp_mono; [apply (consoleread_loop_spec w cnum dst (Z.to_nat n) (Z.to_nat n) k _ l rest)|].
  - split; [done|done|apply held_set].
  - done.
  - lia.
  - done.
  - intros j Hj. apply Hm. lia.
  - done.
  - lia.
  - by rewrite Nat.ltb_irrefl.
  - intros r s' [-> (Hb & _ & Hh' & Hk')]. split_and!; [lia|done..].
Qed.

Lemma consoleread_line_witness :
  let u : flat_user := list_to_map (zip [700; 701; 702; 703; 704] [0; 0; 0; 0; 0]) in
  let s := demo_const u 1 (demo_cons [97; 98; 10; 99; 4] [100]) in
  returns (consoleread 0 1 true 700 5)
    (λ r s', r = 3 ∧ flat_bytes (cs_mem s') 700 [97; 98; 10] ∧ held s' = ∅ ∧
       ∃ k', cons s' = <[1%nat := k']> (cons s) ∧ cons_ok k' ∧
         committed k' = [99; 4] ∧ editing k' = [100]) s.
Proof.
  intros u s.
  apply (consoleread_line 0 1 700 5 (demo_cons [97; 98; 10; 99; 4] [100]) s [97; 98; 10] [99; 4]).
  - by_compute.
  - reflexivity.
  - by_compute.
  - by_compute.
  - reflexivity.
  - lia.
  - intros j Hj.
    assert (j = 700 ∨ j = 701 ∨ j = 702 ∨ j = 703 ∨ j = 704) as [->|[->|[->|[->| ->]]]] by lia;
      by eexists.
  - lia.
  - lia.
  - vm_compute. reflexivity.
Defined.

(** * Output *)

(** While a writer sleeps, only the transmit interrupt runs. *)
Definition out_env : env (const flat_user) :=
  Env (λ s, uart_ok (cs_uart s))
    (λ s s', stream (cs_uart s') = stream (cs_uart s) ∧
       rx (u_dev (cs_uart s')) = rx (u_dev (cs_uart s)) ∧
       cs_mem s' = cs_mem s ∧ conscur s' = conscur s ∧ cons s' = cons s).

Lemma on_uart_putc w c (s : const flat_user) :
  uart_ok (cs_uart s) → held s = ∅ →
  wp out_env (on_uart (uartputc w c))
    (λ _ s', uart_ok (cs_uart s') ∧ held s' = ∅ ∧
       stream (cs_uart s') = stream (cs_uart s) ++ [u8 c] ∧
       cs_mem s' = cs_mem s ∧ conscur s' = conscur s ∧ cons s' = cons s) s.
Proof.
  intros Hok Hh.
  apply (wp_zoom out_env tx_env cs_uart set_uart _ _ _
    (λ s', cs_mem s' = cs_mem s ∧ conscur s' = conscur s ∧ cons s' = cons s)
    s (uartputc_spec w c (cs_uart s) Hok Hh)).
  - done.
  - intros u s0 _ Hi. exact Hi.
  - intros u s0 s' (H1 & H2 & H3) (Hst & Hrx & Hm & Hc & Hk) Hi. simpl in *.
    split; [|done]. split_and!; congruence.
  - intros _ u s0 (H1 & H2 & H3) (Hok' & Hst & [Hh' _]). split_and!; try done.
    simpl in *. congruence.
Qed.

Lemma consolewrite_loop_spec w cnum src i bs (s : const flat_user) :
  uart_ok (cs_uart s) → held s = ∅ → flat_bytes (cs_mem s) (src + i) bs →
  0 ≤ src → 0 ≤ i → src + i + Z.of_nat (length bs) < 2 ^ 64 →
  wp out_env (consolewrite_loop w (length bs) cnum true src i)
    (λ r s', r = i + Z.of_nat (length bs) ∧ uart_ok (cs_uart s') ∧ held s' = ∅ ∧
       stream (cs_uart s') = stream (cs_uart s) ++ (if cnum =? conscur s then bs else []) ∧
       cons s' = cons s) s.
Proof.
  revert i s. induction bs as [|b bs IH]; intros i s Hok Hh Hbs Hs Hi Hmax;
    cbn [length consolewrite_loop].
  { apply wp_ret. split_and!; [lia|done|done| |done]. by case_match; rewrite app_nil_r. }
  destruct (Hbs 0%nat b eq_refl) as [Hb Hbb]. rewrite Z.add_0_r in Hb.
  assert (u64 (src + i) = src + i) as H64 by (apply u64_small; cbn [length] in Hmax; lia).
  apply wp_bind, wp_gets, wp_bind. eapply wp_ok.
  { unfold on_cmem, zoom, either_copyin. rewrite (flat_copyin _ _ b) by by rewrite H64. done. }
  replace (Const _ _ _ _ _) with s by by destruct s. apply wp_bind, wp_gets.
  assert (flat_bytes (cs_mem s) (src + (i + 1)) bs) as Hbs'.
  { intros j c Hj. replace (src + (i + 1) + Z.of_nat j) with (src + i + Z.of_nat (S j)) by lia.
    by apply Hbs. }
  destruct (cnum =? conscur s) eqn:Hcur; cbn [when].
  - eapply wp_call; [by apply on_uart_putc|].
    intros _ s1 (Hok1 & Hh1 & Hst1 & Hm1 & Hc1 & Hk1).
    eapply wp_mono; [apply (IH (i + 1) s1 Hok1 Hh1); [by rewrite Hm1|done|lia|cbn [length] in Hmax; lia]|].
    intros r s2 (-> & ? & ? & Hst2 & Hk2). split_and!; [cbn [length]; lia|done|done| |congruence].
    rewrite Hst2, Hst1, Hc1, Hcur, <- app_assoc. simpl. do 3 f_equal. apply Z.mod_small. lia.
  - apply wp_bind, wp_ret.
    eapply wp_mono; [apply (IH (i + 1) s Hok Hh Hbs'); [done|lia|cbn [length] in Hmax; lia]|].
    intros r s2 (-> & ? & ? & Hst2 & Hk2). split_and!; [cbn [length]; lia|done|done| |done].
    by rewrite Hst2, Hcur.
Qed.

(** What a process writes to the active console goes out in order, after
    everything accepted before and complete when [consolewrite] returns the
    full count, however often the writer has to wait for room; what it writes
    to another console counts as written and is dropped. *)
Theorem consolewrite_in_order (w : nat) (cnum src : Z) (bs : list Z) (s : const flat_user) :
  uart_ok (cs_uart s) → held s = ∅ → flat_bytes (cs_mem s) src bs →
  0 ≤ src → src + Z.of_nat (length bs) < 2 ^ 64 →
  wp out_env (consolewrite w cnum true src (Z.of_nat (length bs)))
    (λ r s', r = Z.of_nat (length bs) ∧ uart_ok (cs_uart s') ∧
       stream (cs_uart s') = stream (cs_uart s) ++ (if cnum =? conscur s then bs else [])) s.
Proof.
  intros Hok Hh Hbs Hs Hmax. unfold consolewrite. rewrite Nat2Z.id.
  eapply wp_mono; [apply consolewrite_loop_spec; [done|done|by rewrite Z.add_0_r|done|done|lia]|].
  intros r s' (-> & ? & ? & ? & ?). by split_and!; [lia|..].
Qed.

Lemma consolewrite_in_order_witness :
  let u : flat_user := list_to_map (zip [50; 51] [104; 105]) in
  let s := demo_const u 3 (demo_cons [] []) in
  wp out_env (consolewrite 0 3 true 50 2)
    (λ r s', r = 2 ∧ uart_ok (cs_uart s') ∧ stream (cs_uart s') = [104; 105]) s.
Proof.
  intros u s. apply (consolewrite_in_order 0 3 50 [104; 105] s).
  - by_compute.
  - reflexivity.
  - intros i b Hi. do 2 (destruct i as [|i]; [injection Hi as <-; split; [reflexivity|lia]|]).
    destruct i; discriminate.
  - lia.
  - simpl. lia.
Defined.
