(* ===== verification/Bio.v ===== *)
(** The buffer cache (kernel/bio.c, kernel/buf.h).

    The buffers are the cells of a circular list through [prev] and [next]; a
    buffer is its index in [bcache.buf], and [head] is the list's own cell.  The
    disk maps block numbers to contents.  [virtio_disk_rw] is what the driver
    does for its caller, one block read or written when it returns; [dwrites]
    is the history of the writes, oldest first, from which the states a crash
    can leave are computed; no routine reads it. *)

From S2P Require Import Prelude Riscv Threads Sleeplock.
Local Open Scope Z_scope.

Definition BSIZE : Z := 1024.
Abbreviation block := (list Z).
#[global] Arguments BSIZE : simpl never.

Record buf := Buf {
  b_valid : bool;
  b_dev : Z;
  b_blockno : Z;
  b_lock : sleeplock;
  b_refcnt : Z;
  b_prev : Z;
  b_next : Z;
  b_data : block;
}.

Record biost := Biost {
  bio_thread : thread;
  bufs : gmap Z buf;
  disk : gmap Z block;
  dwrites : list (Z * block);
}.

Definition head : Z := NBUF.
Definition bcache_lock : Z := 100.

Definition set_bufs (m : gmap Z buf) (s : biost) : biost :=
  Biost (bio_thread s) m (disk s) (dwrites s).
#[export] Instance biost_thread : HasThread biost.
Proof.
  refine {| the_thread := bio_thread; set_thread := λ t s, Biost t (bufs s) (disk s) (dwrites s) |};
    try done. by intros [].
Defined.

(** Field updates. *)
Definition with_lock (l : sleeplock) (b : buf) : buf :=
  Buf (b_valid b) (b_dev b) (b_blockno b) l (b_refcnt b) (b_prev b) (b_next b) (b_data b).
Definition with_refcnt (r : Z) (b : buf) : buf :=
  Buf (b_valid b) (b_dev b) (b_blockno b) (b_lock b) r (b_prev b) (b_next b) (b_data b).
Definition with_prev (p : Z) (b : buf) : buf :=
  Buf (b_valid b) (b_dev b) (b_blockno b) (b_lock b) (b_refcnt b) p (b_next b) (b_data b).
Definition with_next (n : Z) (b : buf) : buf :=
  Buf (b_valid b) (b_dev b) (b_blockno b) (b_lock b) (b_refcnt b) (b_prev b) n (b_data b).
Definition with_data (d : block) (b : buf) : buf :=
  Buf (b_valid b) (b_dev b) (b_blockno b) (b_lock b) (b_refcnt b) (b_prev b) (b_next b) d.
Definition with_valid (v : bool) (b : buf) : buf :=
  Buf v (b_dev b) (b_blockno b) (b_lock b) (b_refcnt b) (b_prev b) (b_next b) (b_data b).
(** A recycled buffer: another block, nothing read yet, one user. *)
Definition recycle (dev blockno : Z) (b : buf) : buf :=
  Buf false dev blockno (b_lock b) 1 (b_prev b) (b_next b) (b_data b).

(** A buffer's sleep lock is named by the buffer. *)
#[export] Instance biost_locks : HasSleeplocks biost.
Proof.
  refine {| sl_get := λ b s, b_lock <$> bufs s !! b;
            sl_put := λ b l s, set_bufs (alter (with_lock l) b (bufs s)) s |}; try done.
  intros b l s [l' Hb]. simpl. rewrite lookup_alter_eq.
  by destruct (bufs s !! b).
Defined.

Definition deref_buf (b : Z) : M biost buf := get_some (λ s, bufs s !! b).
Definition update_buf (b : Z) (f : buf → buf) : M biost unit :=
  let! _ := deref_buf b in modify (λ s, set_bufs (alter f b (bufs s)) s).
Definition get_data (b : Z) : M biost block := let! x := deref_buf b in ret (b_data x).
Definition set_data (b : Z) (d : block) : M biost unit := update_buf b (with_data d).

(** virtio_disk.c as its callers see it: the device reads or writes the block
    the buffer names; a block that is not on the disk is an I/O error, on which
    the driver panics. *)
Definition virtio_disk_rw (b : Z) (write : bool) : M biost unit := λ s,
  match bufs s !! b with
  | None => Fault
  | Some x =>
      match disk s !! b_blockno x with
      | None => Panic "virtio_disk_intr status"
      | Some d =>
          if write
          then Ok tt (Biost (bio_thread s) (bufs s) (<[b_blockno x := b_data x]> (disk s))
                        (dwrites s ++ [(b_blockno x, b_data x)]))
          else Ok tt (set_bufs (<[b := with_data d x]> (bufs s)) s)
      end
  end.

(** [binit] links the buffers in front of each other; the other fields are the
    zeros of static storage. *)
Definition binit_one (b : Z) : M biost unit :=
  let! h := deref_buf head in
  update_buf b (λ x, with_prev head (with_next (b_next h) x));;;
  initsleeplock b;;;
  let! h := deref_buf head in
  update_buf (b_next h) (with_prev b);;;
  update_buf head (with_next b).
Fixpoint binit_loop (n : nat) (b : Z) : M biost unit :=
  match n with O => ret tt | S n => binit_one b;;; binit_loop n (b + 1) end.
Definition binit : M biost unit :=
  update_buf head (with_prev head);;;
  update_buf head (with_next head);;;
  binit_loop (Z.to_nat NBUF) 0.

(** The two walks of [bget], along [next] for the block and along [prev] for an
    unused buffer; the list has [NBUF] buffers. *)
Fixpoint bget_find (fuel : nat) (dev blockno b : Z) : M biost (option Z) :=
  if b =? head then ret None else
  let! x := deref_buf b in
  if (b_dev x =? dev) && (b_blockno x =? blockno) then ret (Some b) else
  match fuel with
  | O => out_of_fuel
  | S fuel => bget_find fuel dev blockno (b_next x)
  end.
Fixpoint bget_unused (fuel : nat) (b : Z) : M biost (option Z) :=
  if b =? head then ret None else
  let! x := deref_buf b in
  if b_refcnt x =? 0 then ret (Some b) else
  match fuel with
  | O => out_of_fuel
  | S fuel => bget_unused fuel (b_prev x)
  end.

Definition bget (wakeups : nat) (dev blockno : Z) : M biost Z :=
  acquire bcache_lock;;;
  let! h := deref_buf head in
  let! r := bget_find (Z.to_nat NBUF) dev blockno (b_next h) in
  match r with
  | Some b =>
      update_buf b (λ x, with_refcnt (u32 (b_refcnt x + 1)) x);;;
      release bcache_lock;;;
      acquiresleep wakeups b;;;
      ret b
  | None =>
      let! h := deref_buf head in
      let! r := bget_unused (Z.to_nat NBUF) (b_prev h) in
      match r with
      | Some b =>
          update_buf b (recycle dev blockno);;;
          release bcache_lock;;;
          acquiresleep wakeups b;;;
          ret b
      | None => panic "bget: no buffers"
      end
  end.

Definition bread (wakeups : nat) (dev blockno : Z) : M biost Z :=
  let! b := bget wakeups dev blockno in
  let! x := deref_buf b in
  when (negb (b_valid x)) (virtio_disk_rw b false;;; update_buf b (with_valid true));;;
  ret b.

Definition bwrite (b : Z) : M biost unit :=
  let! h := holdingsleep b in
  if negb h then panic "bwrite" else virtio_disk_rw b true.

Definition brelse (b : Z) : M biost unit :=
  let! h := holdingsleep b in
  if negb h then panic "brelse" else
  releasesleep b;;;
  acquire bcache_lock;;;
  update_buf b (λ x, with_refcnt (u32 (b_refcnt x - 1)) x);;;
  let! x := deref_buf b in
  when (b_refcnt x =? 0) (
    let! x := deref_buf b in
    update_buf (b_next x) (with_prev (b_prev x));;;
    let! x := deref_buf b in
    update_buf (b_prev x) (with_next (b_next x));;;
    let! h := deref_buf head in
    update_buf b (with_next (b_next h));;;
    update_buf b (with_prev head);;;
    let! h := deref_buf head in
    update_buf (b_next h) (with_prev b);;;
    update_buf head (with_next b));;;
  release bcache_lock.

Definition bpin (b : Z) : M biost unit :=
  acquire bcache_lock;;;
  update_buf b (λ x, with_refcnt (u32 (b_refcnt x + 1)) x);;;
  release bcache_lock.
Definition bunpin (b : Z) : M biost unit :=
  acquire bcache_lock;;;
  update_buf b (λ x, with_refcnt (u32 (b_refcnt x - 1)) x);;;
  release bcache_lock.
