(* ===== verification/BioSpecs.v ===== *)
(** The contract of the buffer cache.

    [cache V pins mine s]: the cache and the disk together hold the contents
    [V]; [pins] are the blocks in use with their reference counts, [mine] the
    blocks whose buffers the running thread has locked.  The lemmas give each
    routine of Bio.v as a change of these three. *)

From stdpp Require Import functions.
From S2P Require Import Prelude Riscv Threads Sleeplock Lists ListChains Bio.
Local Open Scope Z_scope.

(** * The LRU list *)

Definition links (m : gmap Z buf) : heap := (λ x, Elem (b_prev x) (b_next x)) <$> m.
(** The buffers [bs], most recently used first, around [head]. *)
Definition cyc (m : gmap Z buf) (bs : list Z) : Prop :=
  dseg (links m) (last_or head bs) (head :: bs) head ∧ NoDup (head :: bs).

Section cyc.
Implicit Types (m : gmap Z buf) (b : Z) (bs xs ys : list Z) (x : buf).

Lemma lookup_links m b : links m !! b = (λ x, Elem (b_prev x) (b_next x)) <$> m !! b.
Proof. apply lookup_fmap. Qed.

Lemma links_alter_same m f b :
  (∀ x, b_prev (f x) = b_prev x ∧ b_next (f x) = b_next x) → links (alter f b m) = links m.
Proof.
  intros Hf. apply map_eq. intros c. rewrite !lookup_links.
  destruct (decide (c = b)) as [->|]; [|by rewrite lookup_alter_ne].
  rewrite lookup_alter_eq. destruct (m !! b) as [x|]; simpl; [|done].
  by destruct (Hf x) as [-> ->].
Qed.

Lemma links_prev m b p : links (alter (with_prev p) b m) = upd_prev b p (links m).
Proof.
  apply map_eq. intros c. unfold upd_prev. rewrite lookup_links.
  destruct (decide (c = b)) as [->|]; [|by rewrite !lookup_alter_ne, lookup_links].
  rewrite !lookup_alter_eq, lookup_links. by destruct (m !! b).
Qed.

Lemma links_next m b n : links (alter (with_next n) b m) = upd_next b n (links m).
Proof.
  apply map_eq. intros c. unfold upd_next. rewrite lookup_links.
  destruct (decide (c = b)) as [->|]; [|by rewrite !lookup_alter_ne, lookup_links].
  rewrite !lookup_alter_eq, lookup_links. by destruct (m !! b).
Qed.

Lemma cyc_links m m' bs : links m' = links m → cyc m bs → cyc m' bs.
Proof. unfold cyc. by intros ->. Qed.

Lemma cyc_head m bs :
  cyc m bs → ∃ x, m !! head = Some x ∧ b_next x = hd_or head bs ∧ b_prev x = last_or head bs.
Proof.
  intros [[Hh _] _]. rewrite lookup_links in Hh.
  destruct (m !! head) as [x|]; [|done]. injection Hh as Hp Hn. by exists x.
Qed.

Lemma cyc_cell m xs b ys :
  cyc m (xs ++ b :: ys) →
  ∃ x, m !! b = Some x ∧ b_prev x = last_or head xs ∧ b_next x = hd_or head ys.
Proof.
  intros [Hs _]. change (head :: xs ++ b :: ys) with ((head :: xs) ++ b :: ys) in Hs.
  apply dseg_lookup in Hs. rewrite lookup_links in Hs.
  destruct (m !! b) as [x|]; [|done]. injection Hs as Hp Hn. by exists x.
Qed.

Lemma cyc_not_head m xs b ys : cyc m (xs ++ b :: ys) → b ≠ head.
Proof. intros [_ [Hn _]%NoDup_cons] ->. apply Hn. set_solver. Qed.

(** Taking a cell out: [n->prev = p; p->next = n]. *)
Lemma dseg_unlink (L : heap) xs b ys :
  dseg L (last_or head (xs ++ b :: ys)) (head :: xs ++ b :: ys) head →
  NoDup (head :: xs ++ b :: ys) →
  let p := last_or head xs in
  let n := hd_or head ys in
  dseg (upd_next p n (upd_prev n p L)) (last_or head (xs ++ ys)) (head :: xs ++ ys) head.
Proof.
  intros Hs Hnd p n.
  change (head :: xs ++ b :: ys) with ((head :: xs) ++ b :: ys) in Hs, Hnd.
  apply NoDup_app in Hnd as (Hnd1 & Hdis & Hnd2). apply NoDup_cons in Hnd1 as Hnd1'.
  destruct Hnd1' as [Hhx _]. apply NoDup_cons in Hnd2 as [Hby Hny].
  apply dseg_app in Hs as [HA [_ HC]]. rewrite last_or_app in HA. simpl in HA.
  change (head :: xs ++ ys) with ((head :: xs) ++ ys). apply dseg_app.
  assert (p ∈ head :: xs) as Hp by apply last_or_in.
  rewrite last_or_app. fold p. destruct ys as [|y ys]; simpl in n; subst n.
  - split; [|done]. simpl last_or.
    apply (dseg_upd_next_last _ p (head :: xs) b head); [done|].
    by eapply dseg_upd_prev_head.
  - simpl hd_or. assert (y ∉ head :: xs) as Hy by (intros ?; eapply Hdis; set_solver).
    assert (p ∉ y :: ys) as Hpy by (intros ?; eapply Hdis; set_solver).
    apply NoDup_cons in Hny as [Hyy _]. split.
    + apply (dseg_upd_next_last _ _ (head :: xs) b y); [done|].
      by apply dseg_upd_prev_notin.
    + apply dseg_upd_next_notin; [done|]. by eapply dseg_upd_prev_head.
Qed.

(** Putting a cell first: [b->next = head.next; b->prev = head;
    head.next->prev = b; head.next = b]. *)
Lemma dseg_push (L : heap) b bs :
  is_Some (L !! b) → b ∉ head :: bs → NoDup (head :: bs) →
  dseg L (last_or head bs) (head :: bs) head →
  dseg (upd_next head b (upd_prev (hd_or head bs) b
    (upd_prev b head (upd_next b (hd_or head bs) L)))) (last_or head (b :: bs)) (head :: b :: bs) head.
Proof.
  intros [e He] Hb Hnd [Hh Hs]. set (n := hd_or head bs).
  assert (b ≠ head ∧ b ∉ bs) as [Hbh Hbb] by set_solver.
  apply NoDup_cons in Hnd as [Hhb Hnd].
  set (L3 := upd_prev b head (upd_next b n L)).
  assert (L3 !! b = Some (Elem head n)) as H3b.
  { unfold L3, upd_prev, upd_next. rewrite !lookup_alter_eq, He. done. }
  assert (∀ c, c ≠ b → L3 !! c = L !! c) as H3.
  { intros c Hc. unfold L3. by rewrite upd_prev_ne, upd_next_ne. }
  assert (n ≠ b) as Hnb by (subst n; destruct bs; simpl; set_solver).
  simpl. split_and!.
  - unfold upd_next. rewrite lookup_alter_eq. unfold upd_prev at 1.
    destruct bs as [|c cs]; simpl in *; subst n.
    + rewrite lookup_alter_eq, H3 by done. by rewrite Hh.
    + rewrite lookup_alter_ne, H3 by set_solver. by rewrite Hh.
  - rewrite upd_next_ne, upd_prev_ne by done. exact H3b.
  - apply dseg_upd_next_notin; [done|]. fold L3.
    assert (dseg L3 head bs head) as Hs3 by (eapply dseg_ext; [|done]; intros c Hc; apply H3; set_solver).
    destruct bs as [|c cs]; [done|]. simpl in n. subst n. simpl hd_or.
    apply NoDup_cons in Hnd as [Hc _]. by eapply dseg_upd_prev_head.
Qed.
End cyc.

(** ** Searching *)

Section search.
Implicit Types (s : biost) (b : Z) (bs xs ys : list Z).

Lemma bget_find_spec fuel dev n s xs ys :
  cyc (bufs s) (xs ++ ys) → (length ys ≤ fuel)%nat →
  returns (bget_find fuel dev n (hd_or head ys))
    (λ r s', s' = s ∧ match r with
       | Some b => b ∈ ys ∧ ∃ x, bufs s !! b = Some x ∧ b_dev x = dev ∧ b_blockno x = n
       | None => ∀ b x, b ∈ ys → bufs s !! b = Some x → ¬ (b_dev x = dev ∧ b_blockno x = n)
       end) s.
Proof.
  revert xs ys. induction fuel as [|fuel IH]; intros xs ys Hc Hf;
    (destruct ys as [|b ys]; [simpl; apply wp_ret; split; [done|set_solver]|]).
  { simpl in Hf. lia. }
  pose proof (cyc_cell _ _ _ _ Hc) as (x & Hx & _ & Hn).
  pose proof (cyc_not_head _ _ _ _ Hc) as Hbh.
  cbn [hd_or bget_find]. rewrite (proj2 (Z.eqb_neq _ _)) by done.
  apply wp_bind. eapply wp_get_some; [done|].
  destruct (Z.eqb_spec (b_dev x) dev), (Z.eqb_spec (b_blockno x) n); cbn [andb];
    try (apply wp_ret; split; [done|]; split; [set_solver|by exists x]).
  all: rewrite Hn; eapply wp_mono; [apply (IH (xs ++ [b]) ys);
    [by rewrite <- app_assoc|simpl in Hf; lia]|].
  all: intros [c|] s' [-> Hr]; (split; [done|]).
  all: try (destruct Hr as [? Hr]; split; [set_solver|done]).
  all: intros c y [->|Hin]%elem_of_cons Hy; [rewrite Hx in Hy; injection Hy as <-; tauto|by eapply Hr].
Qed.

Lemma bget_unused_spec fuel s xs ys :
  cyc (bufs s) (xs ++ ys) → (length xs ≤ fuel)%nat →
  returns (bget_unused fuel (last_or head xs))
    (λ r s', s' = s ∧ match r with
       | Some b => ∃ x zs ws, xs = zs ++ b :: ws ∧ bufs s !! b = Some x ∧ b_refcnt x = 0 ∧
           (∀ c y, c ∈ ws → bufs s !! c = Some y → b_refcnt y ≠ 0)
       | None => ∀ b x, b ∈ xs → bufs s !! b = Some x → b_refcnt x ≠ 0
       end) s.
Proof.
  revert xs ys. induction fuel as [|fuel IH]; intros xs ys Hc Hf;
    (destruct xs as [|b xs _] using rev_ind; [simpl; apply wp_ret; split; [done|set_solver]|]);
    rewrite length_app in Hf; simpl in Hf; [lia|].
  rewrite <- app_assoc in Hc. simpl in Hc.
  pose proof (cyc_cell _ _ _ _ Hc) as (x & Hx & Hp & _).
  pose proof (cyc_not_head _ _ _ _ Hc) as Hbh.
  rewrite last_or_app. cbn [last_or bget_unused]. rewrite (proj2 (Z.eqb_neq _ _)) by done.
  apply wp_bind. eapply wp_get_some; [done|]. destruct (Z.eqb_spec (b_refcnt x) 0) as [H0|H0].
  - apply wp_ret. split; [done|]. exists x, xs, []. split_and!; [done..|set_solver].
  - rewrite Hp. eapply wp_mono; [apply (IH xs (b :: ys)); [done|lia]|].
    intros [c|] s' [-> Hr]; (split; [done|]).
    + destruct Hr as (y & zs & ws & -> & Hy & Hy0 & Hws). exists y, zs, (ws ++ [b]).
      rewrite <- app_assoc. split_and!; [done..|].
      intros c' y' [Hin|Hin]%elem_of_app Hy'; [by eapply Hws|].
      apply list_elem_of_singleton in Hin as ->. congruence.
    + intros c y [Hin|Hin]%elem_of_app Hy; [by eapply Hr|].
      apply list_elem_of_singleton in Hin as ->. congruence.
Qed.
End search.

(** * The invariant *)

Definition is_buf (b : Z) : Prop := 0 ≤ b < NBUF.

Section cache.
Context (V : Z → block) (pins : gmap Z Z) (mine : gset Z) (pid : Z).

Record slot_ok (x : buf) : Prop := {
  so_len : length (b_data x) = Z.to_nat BSIZE;
  so_ref : 0 ≤ b_refcnt x < 2 ^ 32;
  so_valid : b_valid x = true → b_dev x = ROOTDEV → b_data x = V (b_blockno x);
  so_pin : b_refcnt x ≠ 0 →
    b_valid x = true ∧ b_dev x = ROOTDEV ∧ pins !! b_blockno x = Some (b_refcnt x);
  so_lock : sl_locked (b_lock x) = true ↔ b_refcnt x ≠ 0 ∧ b_blockno x ∈ mine;
  so_pid : sl_locked (b_lock x) = true → sl_pid (b_lock x) = pid;
}.

(** Buffer [b] is in use for block [n]. *)
Definition holds (s : biost) (b n : Z) : Prop :=
  is_buf b ∧ ∃ x, bufs s !! b = Some x ∧ b_refcnt x ≠ 0 ∧ b_blockno x = n.

Record cache (s : biost) : Prop := {
  ca_pid : th_pid (bio_thread s) = pid;
  ca_held : held s = ∅;
  ca_order : ∃ bs, cyc (bufs s) bs ∧ ∀ b, b ∈ bs ↔ is_buf b;
  ca_slot b x : is_buf b → bufs s !! b = Some x → slot_ok x;
  ca_uniq b b' x x' : is_buf b → is_buf b' → bufs s !! b = Some x → bufs s !! b' = Some x' →
    b_dev x = ROOTDEV → b_dev x' = ROOTDEV → b_blockno x = b_blockno x' → b = b';
  ca_pins n r : pins !! n = Some r → ∃ b, holds s b n;
  ca_disk n d : disk s !! n = Some d → length d = Z.to_nat BSIZE ∧ (n ∉ dom pins → d = V n);
}.
End cache.

(** What every routine keeps: the buffers in use stay with their blocks. *)
Definition keeps (s s' : biost) (except : Z) : Prop :=
  ∀ b n, n ≠ except → holds s b n → holds s' b n.

Section specs.
Implicit Types (s : biost) (b n : Z) (x : buf) (V : Z → block) (pins : gmap Z Z) (mine : gset Z).

Lemma wp_deref_buf {B} E (f : buf → M biost B) b x Q s :
  bufs s !! b = Some x → wp E (f x) Q s → wp E (bind (deref_buf b) f) Q s.
Proof. intros Hx HQ. apply wp_bind. by eapply wp_get_some. Qed.

Lemma wp_update_buf E b f x Q s :
  bufs s !! b = Some x → Q tt (set_bufs (<[b := f x]> (bufs s)) s) → wp E (update_buf b f) Q s.
Proof.
  intros Hx HQ. eapply wp_deref_buf; [done|]. apply wp_modify.
  replace (alter f b (bufs s)) with (<[b := f x]> (bufs s)); [done|].
  apply map_eq. intros c. destruct (decide (c = b)) as [->|].
  - by rewrite lookup_insert_eq, lookup_alter_eq, Hx.
  - by rewrite lookup_insert_ne, lookup_alter_ne.
Qed.

Lemma holds_slot V pins mine pid s b n :
  cache V pins mine pid s → holds s b n →
  ∃ x, bufs s !! b = Some x ∧ slot_ok V pins mine pid x ∧ b_blockno x = n ∧ b_dev x = ROOTDEV ∧
    b_valid x = true ∧ pins !! n = Some (b_refcnt x) ∧ b_refcnt x ≠ 0.
Proof.
  intros Hc [Hb (x & Hx & Hr & <-)]. pose proof (ca_slot _ _ _ _ _ Hc b x Hb Hx) as Hs.
  destruct (so_pin _ _ _ _ _ Hs Hr) as (? & ? & ?). by exists x.
Qed.

(** The invariant does not tell contents apart that agree on every block. *)
Lemma cache_ext V V' pins mine pid s :
  (∀ n, V' n = V n) → cache V pins mine pid s → cache V' pins mine pid s.
Proof.
  intros HV [? ? ? Hs ? ? Hd]. split; try done.
  - intros b x Hb Hx. destruct (Hs b x Hb Hx) as [? ? Hv ? ? ?]. split; try done.
    intros ? ?. rewrite HV. by apply Hv.
  - intros n d Hn. rewrite HV. by apply Hd.
Qed.

Lemma holds_inj V pins mine pid s b b' n :
  cache V pins mine pid s → holds s b n → holds s b' n → b = b'.
Proof.
  intros Hc H1 H2. pose proof (proj1 H1) as Hb. pose proof (proj1 H2) as Hb'.
  destruct (holds_slot _ _ _ _ _ _ _ Hc H1) as (x & Hx & _ & <- & Hd & _).
  destruct (holds_slot _ _ _ _ _ _ _ Hc H2) as (x' & Hx' & _ & Hn & Hd' & _).
  by eapply (ca_uniq _ _ _ _ _ Hc b b').
Qed.

Lemma links_insert_same (m : gmap Z buf) b x x' :
  m !! b = Some x → b_prev x' = b_prev x → b_next x' = b_next x →
  links (<[b := x']> m) = links m.
Proof.
  intros Hx Hp Hn. apply map_eq. intros c. rewrite !lookup_links.
  destruct (decide (c = b)) as [->|]; [|by rewrite lookup_insert_ne].
  rewrite lookup_insert_eq, Hx. simpl. by rewrite Hp, Hn.
Qed.

(** ** A buffer changes hands

    The state in which buffer [b], unused or already holding block [n], has
    become [x'], in use for block [n]. *)
Lemma cache_grab V pins mine pid s b n x x' :
  cache V pins mine pid s → is_buf b → bufs s !! b = Some x →
  (b_dev x = ROOTDEV ∧ b_blockno x = n ∨
   b_refcnt x = 0 ∧ ∀ c y, is_buf c → bufs s !! c = Some y → ¬ (b_dev y = ROOTDEV ∧ b_blockno y = n)) →
  n ∉ mine →
  b_refcnt x' = default 0 (pins !! n) + 1 → b_refcnt x' < 2 ^ 32 →
  b_valid x' = true → b_dev x' = ROOTDEV → b_blockno x' = n → b_data x' = V n →
  length (V n) = Z.to_nat BSIZE → b_lock x' = Sleeplock true pid →
  b_prev x' = b_prev x → b_next x' = b_next x →
  let s' := set_bufs (<[b := x']> (bufs s)) s in
  cache V (<[n := b_refcnt x']> pins) ({[n]} ∪ mine) pid s' ∧ holds s' b n ∧
  ∀ c k, holds s c k → holds s' c k.
Proof.
  intros Hc Hb Hx Hold Hmine Hr Hr2 Hv Hd Hn Hdata Hlen Hl Hp Hnx s'.
  assert (0 ≤ default 0 (pins !! n)) as Hpos.
  { destruct (pins !! n) as [r|] eqn:Hpn; simpl; [|lia].
    destruct (ca_pins _ _ _ _ _ Hc n r Hpn) as [c Hh].
    destruct (holds_slot _ _ _ _ _ _ _ Hc Hh) as (y & _ & Hs & _ & _ & _ & Hy & _).
    rewrite Hpn in Hy. injection Hy as ->. apply Hs. }
  assert (∀ c y, is_buf c → c ≠ b → bufs s !! c = Some y → b_dev y = ROOTDEV → b_blockno y ≠ n) as Huniq.
  { intros c y Hcb Hne Hy Hdy Hny. destruct Hold as [[Hdx Hnx']|[_ Hold]]; [|by eapply Hold].
    apply Hne. apply (ca_uniq _ _ _ _ _ Hc c b y x); congruence. }
  assert (holds s' b n) as Hholds.
  { split; [done|]. exists x'. simpl. rewrite lookup_insert_eq. split_and!; [done|lia|done]. }
  assert (∀ c k, holds s c k → holds s' c k) as Hkeep.
  { intros c k Hh. destruct (decide (c = b)) as [->|Hne].
    - destruct Hh as [_ (y & Hy & Hry & <-)]. rewrite Hx in Hy. injection Hy as <-.
      destruct Hold as [[_ ->]|[? _]]; [done|done].
    - destruct Hh as [Hcb (y & Hy & ?)]. split; [done|]. exists y. simpl. by rewrite lookup_insert_ne. }
  split; [|by split]. split.
  - apply Hc.
  - apply Hc.
  - destruct (ca_order _ _ _ _ _ Hc) as (bs & Hcyc & Hbs). exists bs. split; [|done].
    eapply cyc_links; [|exact Hcyc]. by eapply links_insert_same.
  - intros c y Hcb Hy. simpl in Hy. destruct (decide (c = b)) as [->|Hne].
    + rewrite lookup_insert_eq in Hy. injection Hy as <-. split.
      * by rewrite Hdata.
      * lia.
      * by rewrite Hn.
      * intros _. by rewrite Hn, lookup_insert_eq.
      * rewrite Hl, Hn. simpl. split; [|done]. intros _. split; [lia|set_solver].
      * by rewrite Hl.
    + rewrite lookup_insert_ne in Hy by done. pose proof (ca_slot _ _ _ _ _ Hc c y Hcb Hy) as Hs.
      split; try apply Hs.
      * intros Hry. destruct (so_pin _ _ _ _ _ Hs Hry) as (? & Hdy & ?). split_and!; [done|done|].
        rewrite lookup_insert_ne; [done|]. intros ->. by eapply (Huniq c y).
      * rewrite (so_lock _ _ _ _ _ Hs). split; [set_solver|]. intros [Hry Hin]. split; [done|].
        destruct (so_pin _ _ _ _ _ Hs Hry) as (_ & Hdy & _).
        apply elem_of_union in Hin as [Hin%elem_of_singleton|]; [|done].
        exfalso. by eapply (Huniq c y).
  - intros c c' y y' Hcb Hcb' Hy Hy' Hdy Hdy' Heq. simpl in Hy, Hy'.
    destruct (decide (c = b)) as [->|Hne], (decide (c' = b)) as [->|Hne']; [done|..].
    + rewrite lookup_insert_eq in Hy. rewrite lookup_insert_ne in Hy' by done. injection Hy as <-.
      exfalso. eapply (Huniq c' y'); congruence.
    + rewrite lookup_insert_ne in Hy by done. rewrite lookup_insert_eq in Hy'. injection Hy' as <-.
      exfalso. eapply (Huniq c y); congruence.
    + rewrite lookup_insert_ne in Hy, Hy' by done. by eapply (ca_uniq _ _ _ _ _ Hc c c').
  - intros k r Hk. destruct (decide (k = n)) as [->|]; [by exists b|].
    rewrite lookup_insert_ne in Hk by done. destruct (ca_pins _ _ _ _ _ Hc k r Hk) as [c Hh].
    exists c. by apply Hkeep.
  - intros k d Hk. destruct (ca_disk _ _ _ _ _ Hc k d Hk) as [? Hclean]. split; [done|].
    intros Hnin. apply Hclean. set_solver.
Qed.

(** An unused buffer exists as long as fewer blocks are in use than buffers. *)
Lemma unused_exists V pins mine pid s bs :
  cache V pins mine pid s → cyc (bufs s) bs → (∀ b, b ∈ bs ↔ is_buf b) →
  Z.of_nat (size pins) < NBUF →
  ∃ b x, b ∈ bs ∧ bufs s !! b = Some x ∧ b_refcnt x = 0.
Proof.
  intros Hc [Hcyc Hnd] Hbs Hsz.
  destruct (decide (Exists (λ b, (b_refcnt <$> bufs s !! b) = Some 0) bs)) as [He|He].
  { apply Exists_exists in He as (b & Hin & Hb). destruct (bufs s !! b) as [x|] eqn:Hx; [|done].
    injection Hb as Hb. by exists b, x. }
  exfalso. apply NoDup_cons in Hnd as [_ Hnd].
  assert (∀ b, b ∈ bs → ∃ x, bufs s !! b = Some x ∧ b_refcnt x ≠ 0) as Hall.
  { intros b Hin. apply not_Exists_Forall in He; [|intros ?; apply _].
    rewrite Forall_forall in He. specialize (He b Hin).
    apply list_elem_of_split in Hin as (xs & ys & ->).
    destruct (cyc_cell (bufs s) xs b ys) as (x & Hx & _); [split; [done|]|].
    - apply NoDup_cons. split; [|done]. intros Hhd%Hbs. unfold is_buf, head in Hhd. lia.
    - exists x. split; [done|]. intros H0. apply He. by rewrite Hx, <- H0. }
  set (f := λ b, default 0 (b_blockno <$> bufs s !! b)).
  assert (NoDup (f <$> bs)) as Hndf.
  { apply NoDup_fmap_2_strong; [|done]. intros b b' Hin Hin' Heq. unfold f in Heq.
    destruct (Hall b Hin) as (x & Hx & Hr). destruct (Hall b' Hin') as (x' & Hx' & Hr').
    rewrite Hx, Hx' in Heq. simpl in Heq.
    destruct (so_pin _ _ _ _ _ (ca_slot _ _ _ _ _ Hc b x (proj1 (Hbs b) Hin) Hx) Hr) as (_ & ? & _).
    destruct (so_pin _ _ _ _ _ (ca_slot _ _ _ _ _ Hc b' x' (proj1 (Hbs b') Hin') Hx') Hr') as (_ & ? & _).
    eapply (ca_uniq _ _ _ _ _ Hc b b' x x'); try done; by apply Hbs. }
  assert (length bs = Z.to_nat NBUF) as Hlen.
  { assert (bs ≡ₚ seqZ 0 NBUF) as ->; [|by rewrite length_seqZ].
    apply NoDup_Permutation; [done|apply NoDup_seqZ|]. intros b. rewrite Hbs, elem_of_seqZ.
    unfold is_buf. lia. }
  assert (list_to_set (f <$> bs) ⊆ dom pins) as Hsub.
  { intros n Hn. apply elem_of_list_to_set, list_elem_of_fmap in Hn as (b & -> & Hin).
    destruct (Hall b Hin) as (x & Hx & Hr). unfold f. rewrite Hx. simpl.
    destruct (so_pin _ _ _ _ _ (ca_slot _ _ _ _ _ Hc b x (proj1 (Hbs b) Hin) Hx) Hr) as (_ & _ & Hp).
    by eapply elem_of_dom_2. }
  apply subseteq_size in Hsub. rewrite size_list_to_set, length_fmap, size_dom in Hsub by done.
  lia.
Qed.

(** What [bget] hands out. *)
Record got (V : Z → block) (pins : gmap Z Z) (pid n : Z) (s : biost) (b : Z) (x y : buf) : Prop := {
  g_buf : is_buf b;
  g_old : bufs s !! b = Some x;
  g_free : b_dev x = ROOTDEV ∧ b_blockno x = n ∨
    b_refcnt x = 0 ∧ ∀ c z, is_buf c → bufs s !! c = Some z → ¬ (b_dev z = ROOTDEV ∧ b_blockno z = n);
  g_dev : b_dev y = ROOTDEV;
  g_blockno : b_blockno y = n;
  g_refcnt : b_refcnt y = default 0 (pins !! n) + 1;
  g_lock : b_lock y = Sleeplock true pid;
  g_data : b_valid y = true → b_data y = V n;
  g_fresh : b_valid y = false → pins !! n = None;
  g_prev : b_prev y = b_prev x;
  g_next : b_next y = b_next x;
}.

Lemma bget_take V pins mine pid w s b x f Q :
  cache V pins mine pid s → is_buf b → bufs s !! b = Some x → sl_locked (b_lock x) = false →
  b_lock (f x) = b_lock x →
  Q b (set_bufs (<[b := with_lock (Sleeplock true pid) (f x)]> (bufs s)) s) →
  wp no_sleep (update_buf b f;;; release bcache_lock;;; acquiresleep w b;;; ret b) Q (set_held {[bcache_lock]} s).
Proof.
  intros Hc Hb Hx Hl Hy HQ. apply wp_bind. eapply wp_update_buf; [exact Hx|].
  apply wp_bind, wp_release; [simpl; set_solver|].
  set (s1 := set_held _ _).
  assert (s1 = set_bufs (<[b := f x]> (bufs s)) s) as ->.
  { subst s1. pose proof (ca_held _ _ _ _ _ Hc) as Hh. destruct s as [t m d ws].
    unfold set_bufs. simpl in *. f_equal. destruct t. unfold with_held. simpl in *. by rewrite Hh. }
  eapply wp_call; [apply (acquiresleep_free w b (b_lock (f x)))|].
  - apply Hc.
  - simpl. by rewrite lookup_insert_eq.
  - by rewrite Hy.
  - cbn beta. intros _ s2 ->. apply wp_ret. simpl. unfold set_bufs at 1. simpl.
    rewrite (ca_pid _ _ _ _ _ Hc). replace (alter _ _ _) with (<[b := with_lock (Sleeplock true pid) (f x)]> (bufs s)); [done|].
    apply map_eq. intros c. destruct (decide (c = b)) as [->|].
    + by rewrite lookup_alter_eq, !lookup_insert_eq.
    + by rewrite lookup_alter_ne, !lookup_insert_ne.
Qed.

Lemma bget_spec V pins mine pid w n s :
  cache V pins mine pid s → n ∉ mine → is_Some (pins !! n) ∨ Z.of_nat (size pins) < NBUF →
  default 0 (pins !! n) + 1 < 2 ^ 32 →
  returns (bget w ROOTDEV n)
    (λ b s', ∃ x y, got V pins pid n s b x y ∧ s' = set_bufs (<[b := y]> (bufs s)) s) s.
Proof.
  intros Hc Hmine Hroom Hmax. destruct (ca_order _ _ _ _ _ Hc) as (bs & Hcyc & Hbs).
  apply wp_bind, wp_acquire; [rewrite (ca_held _ _ _ _ _ Hc); set_solver|].
  rewrite (ca_held _ _ _ _ _ Hc), union_empty_r_L.
  destruct (cyc_head _ _ Hcyc) as (h & Hh & Hhn & Hhp). eapply wp_deref_buf; [exact Hh|].
  assert (length bs = Z.to_nat NBUF) as Hlen.
  { destruct Hcyc as [_ [_ Hnd]%NoDup_cons].
    assert (bs ≡ₚ seqZ 0 NBUF) as ->; [|by rewrite length_seqZ].
    apply NoDup_Permutation; [done|apply NoDup_seqZ|]. intros b. rewrite Hbs, elem_of_seqZ.
    unfold is_buf. lia. }
  eapply wp_call.
  { rewrite Hhn. apply (bget_find_spec _ ROOTDEV n (set_held {[bcache_lock]} s) [] bs); [done|lia]. }
  assert (∀ b x, is_buf b → bufs s !! b = Some x → b_refcnt x = 0 ∨ b_blockno x = n →
    sl_locked (b_lock x) = false) as Hunl.
  { intros b x Hb Hx Hor. pose proof (ca_slot _ _ _ _ _ Hc b x Hb Hx) as Hs.
    destruct (sl_locked (b_lock x)) eqn:Hl; [|done]. apply (so_lock _ _ _ _ _ Hs) in Hl as [? Hin].
    destruct Hor as [?|Heq]; [done|by subst n]. }
  intros [b|] s1 [-> Hr].
  - destruct Hr as (Hb%Hbs & x & Hx & Hd & Hn). cbn [bufs] in Hx.
    change (bufs s !! b = Some x) in Hx. pose proof (ca_slot _ _ _ _ _ Hc b x Hb Hx) as Hs.
    assert (b_refcnt x = default 0 (pins !! n)) as Href.
    { destruct (decide (b_refcnt x = 0)) as [H0|H0].
      - destruct (pins !! n) as [r|] eqn:Hp; [|done]. exfalso.
        destruct (ca_pins _ _ _ _ _ Hc n r Hp) as [c Hh2].
        destruct (holds_slot _ _ _ _ _ _ _ Hc Hh2) as (z & Hz & _ & Hzn & Hzd & _ & _ & Hzr).
        assert (c = b) as -> by (eapply (ca_uniq _ _ _ _ _ Hc c b z x); try done; [apply Hh2|congruence]).
        congruence.
      - destruct (so_pin _ _ _ _ _ Hs H0) as (_ & _ & Hp). rewrite Hn in Hp. by rewrite Hp. }
    eapply bget_take; [done|done|exact Hx|apply (Hunl b x Hb Hx); by right|done|].
    exists x. eexists. split; [|done]. split; simpl; try done.
    + by left.
    + rewrite u32_small, Href; [done|]. pose proof (so_ref _ _ _ _ _ Hs). lia.
    + intros Hv. rewrite (so_valid _ _ _ _ _ Hs Hv Hd). by rewrite Hn.
    + intros Hv. destruct (pins !! n) as [r|] eqn:Hp; [|done]. exfalso.
      destruct (so_pin _ _ _ _ _ Hs) as [Hv' _]; [|congruence].
      rewrite Href. simpl. destruct (ca_pins _ _ _ _ _ Hc n r Hp) as [c Hh2].
      destruct (holds_slot _ _ _ _ _ _ _ Hc Hh2) as (z & _ & _ & _ & _ & _ & Hzp & Hzr).
      congruence.
  - eapply wp_deref_buf; [exact Hh|]. eapply wp_call.
    { rewrite Hhp. apply (bget_unused_spec _ (set_held {[bcache_lock]} s) bs []); [|lia].
      by rewrite app_nil_r. }
    assert (pins !! n = None) as Hpn.
    { destruct (pins !! n) as [r|] eqn:Hp; [|done]. exfalso.
      destruct (ca_pins _ _ _ _ _ Hc n r Hp) as [c Hh2].
      destruct (holds_slot _ _ _ _ _ _ _ Hc Hh2) as (z & Hz & _ & Hzn & Hzd & _).
      eapply (Hr c z); [apply Hbs, Hh2|done|done]. }
    intros [b|] s2 [-> Hr2].
    + destruct Hr2 as (x & zs & ws & Hzw & Hx & H0 & _).
      change (bufs s !! b = Some x) in Hx.
      assert (is_buf b) as Hb by (apply Hbs; rewrite Hzw; set_solver).
      eapply bget_take; [done|done|exact Hx|apply (Hunl b x Hb Hx); by left|done|].
      exists x. eexists. split; [|done]. split; simpl; try done.
      * right. split; [done|]. intros c z Hcb Hz. apply (Hr c z); [by apply Hbs|done].
      * by rewrite Hpn.
    + destruct Hroom as [[r Hp]|Hsz]; [congruence|]. exfalso.
      destruct (unused_exists _ _ _ _ _ _ Hc Hcyc Hbs Hsz) as (b & x & Hin & Hx & H0).
      by eapply Hr2.
Qed.

(** [bread] hands out the buffer of a block, locked and holding its contents. *)
Lemma bread_spec V pins mine pid w n s :
  cache V pins mine pid s → n ∉ mine → is_Some (pins !! n) ∨ Z.of_nat (size pins) < NBUF →
  default 0 (pins !! n) + 1 < 2 ^ 32 → is_Some (disk s !! n) →
  returns (bread w ROOTDEV n)
    (λ b s', cache V (<[n := default 0 (pins !! n) + 1]> pins) ({[n]} ∪ mine) pid s' ∧
       holds s' b n ∧ (∀ c k, holds s c k → holds s' c k) ∧
       b_data <$> bufs s' !! b = Some (V n) ∧ disk s' = disk s ∧ dwrites s' = dwrites s) s.
Proof.
  intros Hc Hmine Hroom Hmax [d Hd]. eapply wp_call; [by eapply bget_spec|].
  intros b s1 (x & y & Hg & ->). pose proof (g_buf _ _ _ _ _ _ _ _ Hg) as Hb.
  pose proof (ca_slot _ _ _ _ _ Hc b x Hb (g_old _ _ _ _ _ _ _ _ Hg)) as Hs.
  assert (∀ z, z = with_valid true (with_data (V n) y) → length (V n) = Z.to_nat BSIZE →
    let s' := set_bufs (<[b := z]> (bufs s)) s in
    cache V (<[n := default 0 (pins !! n) + 1]> pins) ({[n]} ∪ mine) pid s' ∧
       holds s' b n ∧ (∀ c k, holds s c k → holds s' c k)) as Hfin.
  { intros z -> Hlen. destruct Hg.
    replace (default 0 (pins !! n) + 1) with (b_refcnt (with_valid true (with_data (V n) y))) by done.
    apply (cache_grab V pins mine pid s b n x); simpl; try done; lia. }
  eapply wp_deref_buf; [simpl; apply lookup_insert_eq|].
  assert (pins !! n = None → V n = d) as Hclean.
  { intros Hp. destruct (ca_disk _ _ _ _ _ Hc n d Hd) as [_ Hcl]. symmetry. apply Hcl.
    by apply not_elem_of_dom. }
  destruct (b_valid y) eqn:Hv; cbn [negb when].
  - apply wp_bind, wp_ret, wp_ret.
    assert (length (V n) = Z.to_nat BSIZE) as Hlen.
    { destruct (pins !! n) as [r|] eqn:Hp.
      - destruct (ca_pins _ _ _ _ _ Hc n r Hp) as [c Hh].
        destruct (holds_slot _ _ _ _ _ _ _ Hc Hh) as (z & Hz & Hsz & <- & Hzd & Hzv & _).
        rewrite <- (so_valid _ _ _ _ _ Hsz Hzv Hzd). apply Hsz.
      - rewrite Hclean by done. by apply (ca_disk _ _ _ _ _ Hc n d). }
    destruct (Hfin y) as (? & ? & ?); [|done|].
    + rewrite <- (g_data _ _ _ _ _ _ _ _ Hg Hv). clear -Hv. destruct y. simpl in *. by subst.
    + split_and!; [done..| |done|done]. simpl. rewrite lookup_insert_eq. simpl.
      by rewrite (g_data _ _ _ _ _ _ _ _ Hg Hv).
  - pose proof (g_fresh _ _ _ _ _ _ _ _ Hg Hv) as Hp. pose proof (Hclean Hp) as HV.
    apply wp_bind, wp_bind. unfold wp at 1, virtio_disk_rw. simpl.
    rewrite lookup_insert_eq, (g_blockno _ _ _ _ _ _ _ _ Hg), Hd. simpl.
    eapply wp_update_buf; [simpl; apply lookup_insert_eq|]. apply wp_ret. simpl.
    destruct (Hfin (with_valid true (with_data (V n) y))) as (H1 & H2 & H3); [done| |].
    { rewrite HV. by apply (ca_disk _ _ _ _ _ Hc n d). }
    rewrite <- HV. unfold set_bufs in *. simpl in *. rewrite !insert_insert_eq.
    split_and!; [done..| |done|done]. by rewrite lookup_insert_eq.
Qed.

(** ** A buffer in use changes *)
Lemma cache_put V V' pins pins' mine mine' pid s s' b n x x' :
  cache V pins mine pid s → holds s b n → bufs s !! b = Some x → bufs s' = <[b := x']> (bufs s) →
  th_pid (bio_thread s') = pid → held s' = ∅ →
  (∀ k d, disk s' !! k = Some d → length d = Z.to_nat BSIZE ∧ (k ∉ dom pins' → d = V' k)) →
  b_dev x' = b_dev x → b_blockno x' = b_blockno x → slot_ok V' pins' mine' pid x' →
  b_prev x' = b_prev x → b_next x' = b_next x →
  (∀ k, k ≠ n → V' k = V k) → (∀ k, k ≠ n → pins' !! k = pins !! k) →
  (∀ k, k ≠ n → k ∈ mine' ↔ k ∈ mine) → (is_Some (pins' !! n) → b_refcnt x' ≠ 0) →
  cache V' pins' mine' pid s' ∧ (∀ c k, k ≠ n → holds s c k → holds s' c k) ∧
  (b_refcnt x' ≠ 0 → holds s' b n).
Proof.
  intros Hc Hh Hx Hb' Hpid Hheld Hdisk Hdev Hbn Hs' Hp Hn HV Hpins Hmine Href.
  pose proof (proj1 Hh) as Hb.
  destruct (holds_slot _ _ _ _ _ _ _ Hc Hh) as (x0 & Hx0 & Hs & Hxn & Hxd & Hxv & Hxp & Hxr).
  rewrite Hx in Hx0. injection Hx0 as <-.
  assert (∀ c y, is_buf c → c ≠ b → bufs s !! c = Some y → b_dev y = ROOTDEV → b_blockno y ≠ n) as Huniq.
  { intros c y Hcb Hne Hy Hdy Hny. apply Hne.
    apply (ca_uniq _ _ _ _ _ Hc c b y x); congruence. }
  assert (∀ c k, k ≠ n → holds s c k → holds s' c k) as Hkeep.
  { intros c k Hk [Hcb (y & Hy & ?)]. split; [done|]. exists y. rewrite Hb'.
    rewrite lookup_insert_ne; [done|]. intros <-. rewrite Hx in Hy. injection Hy as <-. naive_solver. }
  assert (b_refcnt x' ≠ 0 → holds s' b n) as Hme.
  { intros ?. split; [done|]. exists x'. rewrite Hb', lookup_insert_eq. split_and!; [done..|congruence]. }
  split; [|by split]. split; [done|done| | | | |done].
  - destruct (ca_order _ _ _ _ _ Hc) as (bs & Hcyc & Hbs). exists bs. split; [|done].
    rewrite Hb'. eapply cyc_links; [|exact Hcyc]. by eapply links_insert_same.
  - intros c y Hcb Hy. rewrite Hb' in Hy. destruct (decide (c = b)) as [->|Hne].
    + rewrite lookup_insert_eq in Hy. by injection Hy as <-.
    + rewrite lookup_insert_ne in Hy by done. pose proof (ca_slot _ _ _ _ _ Hc c y Hcb Hy) as Hsy.
      split; try apply Hsy.
      * intros Hv Hd. rewrite HV by by eapply Huniq. by apply Hsy.
      * intros Hr. destruct (so_pin _ _ _ _ _ Hsy Hr) as (? & Hd & ?).
        split_and!; [done|done|]. rewrite Hpins; [done|]. by eapply Huniq.
      * rewrite (so_lock _ _ _ _ _ Hsy). split; intros [Hr Hin]; (split; [done|]);
          destruct (so_pin _ _ _ _ _ Hsy Hr) as (_ & Hd & _); apply Hmine; try done; by eapply Huniq.
  - intros c c' y y' Hcb Hcb' Hy Hy' Hdy Hdy' Heq. rewrite Hb' in Hy, Hy'.
    destruct (decide (c = b)) as [->|Hne], (decide (c' = b)) as [->|Hne']; [done|..];
      rewrite ?lookup_insert_eq, ?lookup_insert_ne in Hy by done;
      rewrite ?lookup_insert_eq, ?lookup_insert_ne in Hy' by done; simplify_eq.
    + exfalso. eapply (Huniq c' y'); try done. congruence.
    + exfalso. eapply (Huniq c y); try done. congruence.
    + by eapply (ca_uniq _ _ _ _ _ Hc c c').
  - intros k r Hk. destruct (decide (k = n)) as [->|Hne].
    + exists b. apply Hme, Href. by exists r.
    + rewrite Hpins in Hk by done. destruct (ca_pins _ _ _ _ _ Hc k r Hk) as [c Hhc].
      exists c. by apply Hkeep.
Qed.

(** Only the order of the list changes. *)
Definition core (x : buf) : buf := with_prev 0 (with_next 0 x).
Lemma cache_relink V pins mine pid s s' bs :
  cache V pins mine pid s → (∀ c, core <$> bufs s' !! c = core <$> bufs s !! c) →
  cyc (bufs s') bs → (∀ b, b ∈ bs ↔ is_buf b) →
  disk s' = disk s → th_pid (bio_thread s') = pid → held s' = ∅ →
  cache V pins mine pid s' ∧ ∀ c k, holds s c k → holds s' c k.
Proof.
  intros Hc Hcore Hcyc Hbs Hd Hpid Hheld.
  assert (∀ c y', bufs s' !! c = Some y' → ∃ y, bufs s !! c = Some y ∧ core y' = core y) as Hback.
  { intros c y' Hy'. specialize (Hcore c). rewrite Hy' in Hcore. simpl in Hcore.
    destruct (bufs s !! c) as [y|]; [|done]. injection Hcore. intros. exists y. split; [done|].
    unfold core, with_prev, with_next. simpl. congruence. }
  assert (∀ y y', core y' = core y → slot_ok V pins mine pid y → slot_ok V pins mine pid y') as Hslot.
  { intros [] [] He []. injection He. intros. simpl in *. subst. by split. }
  assert (∀ c k, holds s c k → holds s' c k) as Hkeep.
  { intros c k [Hcb (y & Hy & Hr & Hk)]. split; [done|]. specialize (Hcore c). rewrite Hy in Hcore.
    destruct (bufs s' !! c) as [y'|]; [|done]. injection Hcore. intros. exists y'.
    split_and!; [done|congruence|congruence]. }
  split; [|done]. split; [done|done|by exists bs| | | |].
  - intros c y' Hcb Hy'. destruct (Hback c y' Hy') as (y & Hy & He).
    eapply Hslot; [done|]. by eapply (ca_slot _ _ _ _ _ Hc c).
  - intros c c' y' z' Hcb Hcb' Hy' Hz' Hdy Hdz Heq.
    destruct (Hback c y' Hy') as (y & Hy & He). destruct (Hback c' z' Hz') as (z & Hz & He').
    injection He. injection He'. intros.
    eapply (ca_uniq _ _ _ _ _ Hc c c' y z); congruence.
  - intros k r Hk. destruct (ca_pins _ _ _ _ _ Hc k r Hk) as [c Hh]. exists c. by apply Hkeep.
  - rewrite Hd. apply Hc.
Qed.

(** Reading and changing the data of a locked buffer. *)
Lemma get_data_spec V pins mine pid b n s :
  cache V pins mine pid s → holds s b n → returns (get_data b) (λ d s', s' = s ∧ d = V n) s.
Proof.
  intros Hc Hh. destruct (holds_slot _ _ _ _ _ _ _ Hc Hh) as (x & Hx & Hs & <- & Hd & Hv & _).
  eapply wp_deref_buf; [done|]. apply wp_ret. split; [done|]. by apply Hs.
Qed.

Lemma set_data_spec V pins mine pid b n d s :
  cache V pins mine pid s → holds s b n → length d = Z.to_nat BSIZE →
  returns (set_data b d)
    (λ _ s', cache (<[n := d]> V) pins mine pid s' ∧ (∀ c k, holds s c k → holds s' c k) ∧
       disk s' = disk s ∧ dwrites s' = dwrites s) s.
Proof.
  intros Hc Hh Hlen. destruct (holds_slot _ _ _ _ _ _ _ Hc Hh) as (x & Hx & Hs & Hn & Hd & Hv & Hp & Hr).
  eapply wp_update_buf; [done|].
  destruct (cache_put V (<[n := d]> V) pins pins mine mine pid s
    (set_bufs (<[b := with_data d x]> (bufs s)) s) b n x (with_data d x)) as (H1 & H2 & H3); try done.
  - apply Hc.
  - apply Hc.
  - intros k e Hk. destruct (ca_disk _ _ _ _ _ Hc k e Hk) as [? Hcl]. split; [done|].
    intros Hnin. rewrite fn_lookup_insert_ne; [by apply Hcl|]. intros <-. by eapply not_elem_of_dom in Hnin; simplify_eq.
  - split; try apply Hs; simpl; [done|]. intros _ _. by rewrite Hn, fn_lookup_insert.
  - intros k Hk. by rewrite fn_lookup_insert_ne.
  - split_and!; [done| |done|done]. intros c k Hck. destruct (decide (k = n)) as [->|]; [|by apply H2].
    rewrite (holds_inj _ _ _ _ _ _ _ _ Hc Hck Hh). by apply H3.
Qed.
End specs.
