(* ===== verification/BioOps.v ===== *)
(** Writing, releasing and pinning buffers: the routines of bio.c that take a
    buffer, on the invariant of [BioSpecs]. *)

From stdpp Require Import functions.
From S2P Require Import Prelude Riscv Threads Sleeplock Lists ListChains Bio BioSpecs.
Local Open Scope Z_scope.

Section ops.
Implicit Types (s : biost) (b n : Z) (x : buf) (V : Z → block) (pins : gmap Z Z) (mine : gset Z).

(** The thread that locked a buffer passes the check of [bwrite] and [brelse]. *)
Lemma wp_holdingsleep {A} V pins mine pid b n s (f : bool → M biost A) Q :
  cache V pins mine pid s → holds s b n → n ∈ mine →
  wp no_sleep (f true) Q s → wp no_sleep (bind (holdingsleep b) f) Q s.
Proof.
  intros Hc Hh Hm HQ. destruct (holds_slot _ _ _ _ _ _ _ Hc Hh) as (x & Hx & Hs & Hn & _ & _ & _ & Hr).
  eapply wp_call; [apply (holdingsleep_spec b (b_lock x) s)|].
  - apply Hc.
  - simpl. by rewrite Hx.
  - assert (sl_locked (b_lock x) = true) as Hl by (apply (so_lock _ _ _ _ _ Hs); by rewrite Hn).
    intros r s' [-> ->]. rewrite Hl, (so_pid _ _ _ _ _ Hs Hl). simpl.
    rewrite (ca_pid _ _ _ _ _ Hc), Z.eqb_refl. exact HQ.
Qed.

Lemma bwrite_spec V pins mine pid b n s :
  cache V pins mine pid s → holds s b n → n ∈ mine → is_Some (disk s !! n) →
  returns (bwrite b)
    (λ _ s', cache V pins mine pid s' ∧ (∀ c k, holds s c k → holds s' c k) ∧
       disk s' = <[n := V n]> (disk s) ∧ dwrites s' = dwrites s ++ [(n, V n)]) s.
Proof.
  intros Hc Hh Hm [d Hd]. eapply wp_holdingsleep; [done..|]. cbn [negb].
  destruct (holds_slot _ _ _ _ _ _ _ Hc Hh) as (x & Hx & Hs & Hn & Hdv & Hv & _).
  unfold wp, virtio_disk_rw. rewrite Hx, Hn, Hd. simpl.
  assert (b_data x = V n) as HV by (rewrite (so_valid _ _ _ _ _ Hs Hv Hdv); by rewrite Hn).
  rewrite HV. split_and!; [|done|done|done].
  destruct Hc. split; try done. simpl. intros k e Hk. destruct (decide (k = n)) as [->|Hne].
  - rewrite lookup_insert_eq in Hk. injection Hk as <-. split; [|done]. rewrite <- HV. apply Hs.
  - rewrite lookup_insert_ne in Hk by done. by apply ca_disk.
Qed.

(** The state is the one before the lock was taken. *)
Lemma cache_thread V pins mine pid t s :
  cache V pins mine pid s → th_pid t = pid → th_held t = ∅ →
  cache V pins mine pid (set_thread t s).
Proof. intros [] ??. by split. Qed.

(** A change of the reference count under [bcache.lock]. *)
Lemma refcnt_spec V pins mine pid b n r' s :
  cache V pins mine pid s → holds s b n → 0 < r' < 2 ^ 32 →
  ∀ x, bufs s !! b = Some x →
  let s' := set_bufs (<[b := with_refcnt r' x]> (bufs s)) s in
  cache V (<[n := r']> pins) mine pid s' ∧ (∀ c k, holds s c k → holds s' c k).
Proof.
  intros Hc Hh Hr' x Hx s'.
  destruct (holds_slot _ _ _ _ _ _ _ Hc Hh) as (x0 & Hx0 & Hs & Hn & Hd & Hv & Hp & Hr).
  rewrite Hx in Hx0. injection Hx0 as <-.
  destruct (cache_put V V pins (<[n := r']> pins) mine mine pid s s' b n x (with_refcnt r' x))
    as (H1 & H2 & H3); try done.
  - apply Hc.
  - apply Hc.
  - intros k e Hk. destruct (ca_disk _ _ _ _ _ Hc k e Hk) as [? Hcl]. split; [done|].
    intros Hnin. apply Hcl. set_solver.
  - split; try apply Hs; simpl.
    + lia.
    + intros _. split_and!; [done|done|]. by rewrite Hn, lookup_insert_eq.
    + rewrite (so_lock _ _ _ _ _ Hs). split; intros [? ?]; split; try done; lia.
  - intros k Hk. by rewrite lookup_insert_ne.
  - simpl. lia.
  - split; [done|]. intros c k Hck. destruct (decide (k = n)) as [->|]; [|by apply H2].
    rewrite (holds_inj _ _ _ _ _ _ _ _ Hc Hck Hh). apply H3. simpl. lia.
Qed.

Lemma pin_critical V pins mine pid b n f r r' s Q :
  cache V pins mine pid s → holds s b n → pins !! n = Some r →
  (∀ x, b_refcnt x = r → f x = with_refcnt r' x) → 0 < r' < 2 ^ 32 →
  (∀ s', cache V (<[n := r']> pins) mine pid s' → (∀ c k, holds s c k → holds s' c k) →
     disk s' = disk s → dwrites s' = dwrites s → Q tt s') →
  wp no_sleep (acquire bcache_lock;;; update_buf b f;;; release bcache_lock) Q s.
Proof.
  intros Hc Hh Hr Hf Hr' HQ.
  destruct (holds_slot _ _ _ _ _ _ _ Hc Hh) as (x & Hx & Hs & Hn & Hd & Hv & Hp & Hrx).
  rewrite Hr in Hp. injection Hp as Hrr.
  apply wp_bind, wp_acquire; [rewrite (ca_held _ _ _ _ _ Hc); set_solver|].
  apply wp_bind. eapply wp_update_buf; [exact Hx|]. rewrite Hf by done.
  apply wp_release; [simpl; set_solver|].
  destruct (refcnt_spec _ _ _ _ _ _ r' s Hc Hh Hr' x Hx) as [H1 H2].
  eapply HQ; [|exact H2|done|done].
  refine (cache_thread _ _ _ _ (with_held _ _) _ H1 (ca_pid _ _ _ _ _ Hc) _).
  simpl. pose proof (ca_held _ _ _ _ _ Hc) as Hheld. simpl in Hheld. rewrite Hheld. set_solver.
Qed.

Lemma bpin_spec V pins mine pid b n r s :
  cache V pins mine pid s → holds s b n → pins !! n = Some r → r + 1 < 2 ^ 32 →
  returns (bpin b)
    (λ _ s', cache V (<[n := r + 1]> pins) mine pid s' ∧ (∀ c k, holds s c k → holds s' c k) ∧
       disk s' = disk s ∧ dwrites s' = dwrites s) s.
Proof.
  intros Hc Hh Hr Hmax.
  destruct (holds_slot _ _ _ _ _ _ _ Hc Hh) as (x & _ & Hs & _ & _ & _ & Hp & Hrx).
  rewrite Hr in Hp. injection Hp as ->. pose proof (so_ref _ _ _ _ _ Hs).
  apply (pin_critical V pins mine pid b n _ (b_refcnt x) (b_refcnt x + 1)); [done..| |lia|by auto].
  intros y ->. by rewrite u32_small by lia.
Qed.

Lemma bunpin_spec V pins mine pid b n r s :
  cache V pins mine pid s → holds s b n → pins !! n = Some r → 1 < r →
  returns (bunpin b)
    (λ _ s', cache V (<[n := r - 1]> pins) mine pid s' ∧ (∀ c k, holds s c k → holds s' c k) ∧
       disk s' = disk s ∧ dwrites s' = dwrites s) s.
Proof.
  intros Hc Hh Hr Hmin.
  destruct (holds_slot _ _ _ _ _ _ _ Hc Hh) as (x & _ & Hs & _ & _ & _ & Hp & Hrx).
  rewrite Hr in Hp. injection Hp as ->. pose proof (so_ref _ _ _ _ _ Hs).
  apply (pin_critical V pins mine pid b n _ (b_refcnt x) (b_refcnt x - 1)); [done..| |lia|by auto].
  intros y ->. by rewrite u32_small by lia.
Qed.

(** ** Release *)

Lemma wp_update_alter E b f s Q :
  is_Some (bufs s !! b) → Q tt (set_bufs (alter f b (bufs s)) s) → wp E (update_buf b f) Q s.
Proof. intros [x Hx] HQ. eapply wp_deref_buf; [done|]. by apply wp_modify. Qed.

Lemma alter_is_Some (m : gmap Z buf) f b c : is_Some (alter f b m !! c) ↔ is_Some (m !! c).
Proof. apply lookup_alter_is_Some. Qed.

(** The relinking of [brelse], which moves [b] to the front. *)
Lemma relink_spec s xs b ys :
  cyc (bufs s) (xs ++ b :: ys) →
  returns (let! x := deref_buf b in
           update_buf (b_next x) (with_prev (b_prev x));;;
           let! x := deref_buf b in
           update_buf (b_prev x) (with_next (b_next x));;;
           let! h := deref_buf head in
           update_buf b (with_next (b_next h));;;
           update_buf b (with_prev head);;;
           let! h := deref_buf head in
           update_buf (b_next h) (with_prev b);;;
           update_buf head (with_next b))
    (λ _ s', cyc (bufs s') (b :: xs ++ ys) ∧
       (∀ c, core <$> bufs s' !! c = core <$> bufs s !! c) ∧
       bio_thread s' = bio_thread s ∧ disk s' = disk s ∧ dwrites s' = dwrites s) s.
Proof.
  intros Hcyc. destruct (cyc_cell _ _ _ _ Hcyc) as (x & Hx & Hp & Hn).
  pose proof Hcyc as [Hs Hnd].
  assert (b ∉ head :: xs ++ ys ∧ NoDup (head :: xs ++ ys)) as [Hb Hnd'].
  { rewrite app_comm_cons in Hnd. by apply NoDup_middle in Hnd. }
  set (p := last_or head xs) in *. set (n := hd_or head ys) in *.
  assert (p ∈ head :: xs ++ ys) as Hpin.
  { subst p. pose proof (last_or_in head xs) as Hl. set_solver. }
  assert (n ∈ head :: xs ++ ys) as Hnin by (subst n; destruct ys; simpl; set_solver).
  assert (∀ c, c ∈ head :: xs ++ b :: ys → is_Some (bufs s !! c)) as Hsome.
  { intros c Hc. apply list_elem_of_split in Hc as (as_ & bs & Heq). rewrite Heq in Hs.
    apply dseg_lookup in Hs. rewrite lookup_links in Hs. destruct (bufs s !! c); [by eexists|done]. }
  assert (∀ c, c ∈ head :: xs ++ ys → is_Some (bufs s !! c)) as Hsome' by (intros; apply Hsome; set_solver).
  assert (p ≠ b ∧ n ≠ b ∧ head ≠ b) as (Hpb & Hnb & Hhb) by (split_and!; intros Heq; apply Hb; rewrite <- Heq; [done|done|apply list_elem_of_here]).
  eapply wp_deref_buf; [exact Hx|]. rewrite Hp, Hn.
  apply wp_bind, wp_update_alter; [by apply Hsome'|].
  eapply wp_deref_buf; [simpl; by rewrite lookup_alter_ne|]. rewrite Hp, Hn.
  apply wp_bind, wp_update_alter; [by apply alter_is_Some, Hsome'|]. simpl.
  set (m2 := alter _ p _). pose proof (dseg_unlink _ _ _ _ Hs Hnd) as Hu. fold p n in Hu.
  assert (cyc m2 (xs ++ ys)) as Hcyc2.
  { split; [|done]. unfold m2. by rewrite links_next, links_prev. }
  assert (∀ c, is_Some (m2 !! c) ↔ is_Some (bufs s !! c)) as Hm2.
  { intros c. unfold m2. by rewrite !alter_is_Some. }
  destruct (cyc_head _ _ Hcyc2) as (h & Hh & Hhn & _).
  eapply wp_deref_buf; [exact Hh|]. rewrite Hhn. set (n0 := hd_or head (xs ++ ys)) in *.
  apply wp_bind, wp_update_alter; [apply Hm2; by exists x|].
  apply wp_bind, wp_update_alter; [apply alter_is_Some, Hm2; by exists x|].
  eapply wp_deref_buf; [simpl; rewrite !lookup_alter_ne by done; exact Hh|]. rewrite Hhn.
  assert (n0 ∈ head :: xs ++ ys) as Hn0 by (unfold n0; destruct (xs ++ ys); simpl; set_solver).
  apply wp_bind, wp_update_alter; [apply alter_is_Some, alter_is_Some, Hm2; by apply Hsome'|].
  apply wp_update_alter; [apply alter_is_Some, alter_is_Some, alter_is_Some, Hm2, Hsome'; set_solver|].
  simpl. split_and!; [| |done..].
  - split.
    + rewrite links_next, links_prev, links_prev, links_next. apply dseg_push; [|done|done|apply Hcyc2].
      rewrite lookup_links. destruct (proj2 (Hm2 b)) as [y ->]; [by exists x|by eexists].
    + apply NoDup_cons in Hnd' as [Hhd Hnd2]. apply not_elem_of_cons in Hb as [Hb1 Hb2].
      apply NoDup_cons. split; [set_solver|]. by apply NoDup_cons.
  - intros c. unfold m2. rewrite <- !lookup_fmap. f_equal.
    assert (∀ f d (m : gmap Z buf), (∀ y, core (f y) = core y) → core <$> alter f d m = core <$> m) as Hcf.
    { intros f d m Hf. apply map_eq. intros e. rewrite !lookup_fmap.
      destruct (decide (e = d)) as [->|]; [|by rewrite lookup_alter_ne].
      rewrite lookup_alter_eq. destruct (m !! d); simpl; [by rewrite Hf|done]. }
    by rewrite !Hcf.
Qed.

Definition unpin (n r : Z) (pins : gmap Z Z) : gmap Z Z :=
  if r =? 1 then delete n pins else <[n := r - 1]> pins.

(** The released buffer, one user fewer. *)
Lemma release_slot V pins mine pid b n r x wk s :
  cache V pins mine pid s → holds s b n → bufs s !! b = Some x → pins !! n = Some r →
  (r = 1 → ∀ d, disk s !! n = Some d → d = V n) →
  let x' := with_refcnt (r - 1) (with_lock (Sleeplock false 0) x) in
  let s' := Biost (with_woken wk (bio_thread s)) (<[b := x']> (bufs s)) (disk s) (dwrites s) in
  cache V (unpin n r pins) (mine ∖ {[n]}) pid s' ∧
  (∀ c k, k ≠ n → holds s c k → holds s' c k) ∧ (r ≠ 1 → holds s' b n).
Proof.
  intros Hc Hh Hx Hr Hclean x' s'.
  destruct (holds_slot _ _ _ _ _ _ _ Hc Hh) as (x0 & Hx0 & Hs & Hn & Hd & Hv & Hp & Hr0).
  rewrite Hx in Hx0. injection Hx0 as <-. rewrite Hr in Hp. injection Hp as Hrx.
  pose proof (so_ref _ _ _ _ _ Hs) as Hrange.
  destruct (cache_put V V pins (unpin n r pins) mine (mine ∖ {[n]}) pid s s' b n x x')
    as (H1 & H2 & H3); try done.
  - apply Hc.
  - apply Hc.
  - intros k e Hk. destruct (ca_disk _ _ _ _ _ Hc k e Hk) as [? Hcl]. split; [done|].
    unfold unpin. destruct (Z.eqb_spec r 1) as [H1|H1]; intros Hnin.
    + destruct (decide (k = n)) as [->|]; [by apply Hclean|]. apply Hcl. set_solver.
    + apply Hcl. set_solver.
  - split; try apply Hs; simpl.
    + lia.
    + intros Hne. split_and!; [done|done|]. unfold unpin. rewrite (proj2 (Z.eqb_neq _ _)) by lia.
      by rewrite Hn, lookup_insert_eq.
    + rewrite Hn. split; [done|]. intros [_ Hin]. set_solver.
    + done.
  - intros k Hk. unfold unpin. case_match; [by rewrite lookup_delete_ne|by rewrite lookup_insert_ne].
  - intros k Hk. set_solver.
  - unfold unpin. destruct (Z.eqb_spec r 1) as [->|]; simpl; [|lia].
    rewrite lookup_delete_eq. by intros [].
  - split_and!; [done|done|]. intros ?. apply H3. simpl. lia.
Qed.

(** [brelse]: one user fewer; the buffer of the last one becomes the most
    recently used. *)
Lemma brelse_spec V pins mine pid b n r s xs ys :
  cache V pins mine pid s → holds s b n → n ∈ mine → pins !! n = Some r →
  (r = 1 → ∀ d, disk s !! n = Some d → d = V n) →
  cyc (bufs s) (xs ++ b :: ys) → (∀ c, c ∈ xs ++ b :: ys ↔ is_buf c) →
  returns (brelse b)
    (λ _ s', cache V (unpin n r pins) (mine ∖ {[n]}) pid s' ∧
       (∀ c k, k ≠ n → holds s c k → holds s' c k) ∧ (r ≠ 1 → holds s' b n) ∧
       disk s' = disk s ∧ dwrites s' = dwrites s ∧
       cyc (bufs s') (if r =? 1 then b :: xs ++ ys else xs ++ b :: ys)) s.
Proof.
  intros Hc Hh Hm Hr Hclean Hcyc Hbs. eapply wp_holdingsleep; [done..|]. cbn [negb].
  destruct (holds_slot _ _ _ _ _ _ _ Hc Hh) as (x & Hx & Hs & Hn & Hd & Hv & Hp & Hr0).
  rewrite Hr in Hp. injection Hp as Hrx. pose proof (so_ref _ _ _ _ _ Hs) as Hrange.
  eapply wp_call; [by apply releasesleep_spec, Hc|]. cbn beta. intros _ s1 ->.
  set (wk := {[b]} ∪ th_woken (the_thread s)).
  assert (set_thread (with_woken wk (the_thread s)) (sl_put b (Sleeplock false 0) s) =
    Biost (with_woken wk (bio_thread s)) (<[b := with_lock (Sleeplock false 0) x]> (bufs s)) (disk s) (dwrites s)) as ->.
  { simpl. f_equal. apply map_eq. intros c. destruct (decide (c = b)) as [->|].
    - by rewrite lookup_alter_eq, lookup_insert_eq, Hx.
    - by rewrite lookup_alter_ne, lookup_insert_ne. }
  pose proof (ca_held _ _ _ _ _ Hc) as Hheld. simpl in Hheld.
  destruct (release_slot V pins mine pid b n r x wk s Hc Hh Hx Hr Hclean) as (H1 & H2 & H3).
  set (x' := with_refcnt (r - 1) (with_lock (Sleeplock false 0) x)) in *.
  set (s2 := Biost _ _ _ _) in H1, H2, H3.
  apply wp_bind, wp_acquire; [simpl; rewrite Hheld; set_solver|]. simpl. rewrite Hheld.
  apply wp_bind. eapply wp_update_buf; [apply lookup_insert_eq|]. simpl. rewrite insert_insert_eq.
  replace (with_refcnt (u32 (b_refcnt x - 1)) _) with x'
    by (subst x'; rewrite Hrx, u32_small by lia; done).
  eapply wp_deref_buf; [apply lookup_insert_eq|]. simpl.
  assert (cyc (bufs s2) (xs ++ b :: ys)) as Hcyc2.
  { eapply cyc_links; [|exact Hcyc]. by eapply links_insert_same. }
  replace (r - 1 =? 0) with (r =? 1) by lia.
  apply wp_bind, wp_when; intros Hr1.
  - match goal with |- wp _ _ _ ?s0 =>
      eapply wp_mono; [apply (relink_spec s0 xs b ys Hcyc2)|] end.
    intros _ s3 (Hcyc3 & Hcore & Ht & Hd3 & Hw3).
    apply wp_release; [simpl; rewrite Ht; set_solver|].
    destruct (cache_relink V (unpin n r pins) (mine ∖ {[n]}) pid s2
      (set_held (held s3 ∖ {[bcache_lock]}) s3) (b :: xs ++ ys)) as [H4 H5]; try done.
    + intros c. rewrite <- Hbs. clear. set_solver.
    + simpl. rewrite Ht. apply H1.
    + simpl. rewrite Ht. simpl. set_solver.
    + split_and!; [done|by auto|by auto|done|done|]. by rewrite Hr1.
  - apply wp_release; [simpl; set_solver|]. rewrite Hr1.
    split_and!; [|exact H2|exact H3|done|done|exact Hcyc2].
    refine (cache_thread _ _ _ _ (with_held _ _) s2 H1 (ca_pid _ _ _ _ _ H1) _). simpl. set_solver.
Qed.

(** The same, whatever the order of the list. *)
Lemma brelse_cache V pins mine pid b n r s :
  cache V pins mine pid s → holds s b n → n ∈ mine → pins !! n = Some r →
  (r = 1 → ∀ d, disk s !! n = Some d → d = V n) →
  returns (brelse b)
    (λ _ s', cache V (unpin n r pins) (mine ∖ {[n]}) pid s' ∧
       (∀ c k, k ≠ n → holds s c k → holds s' c k) ∧ (r ≠ 1 → holds s' b n) ∧
       disk s' = disk s ∧ dwrites s' = dwrites s) s.
Proof.
  intros Hc Hh Hm Hr Hclean. destruct (ca_order _ _ _ _ _ Hc) as (bs & Hcyc & Hbs).
  assert (b ∈ bs) as Hb by apply Hbs, Hh. apply list_elem_of_split in Hb as (xs & ys & ->).
  eapply wp_mono; [by eapply brelse_spec|]. intros _ s' (? & ? & ? & ? & ? & _). by split_and!.
Qed.
End ops.
