(* ===== verification/BioTheorems.v ===== *)
(** The properties of the buffer cache: it starts consistent, [bread] returns
    the current contents, the buffer recycled is the least recently used one
    that is free, and running out of buffers is the only way [bget] fails. *)

From stdpp Require Import functions.
From S2P Require Import Prelude Riscv Threads Sleeplock Lists ListChains ListSpecs Bio BioSpecs BioOps.
Local Open Scope Z_scope.

(** Static storage: [NBUF] buffers and the list's cell, all zero. *)
Definition zero_buf : buf :=
  Buf false 0 0 (Sleeplock false 0) 0 0 0 (replicate (Z.to_nat BSIZE) 0).
Definition zero_bufs : gmap Z buf := gset_to_gmap zero_buf (list_to_set (seqZ 0 (NBUF + 1))).
Definition boot_bio (pid : Z) (d : gmap Z block) : biost := Biost (Thread pid pid 0 ∅ ∅ ∅) zero_bufs d [].
(** The contents of the disk as a function. *)
Definition contents (d : gmap Z block) (n : Z) : block := default [] (d !! n).

Section binit.
Implicit Types (s : biost) (b : Z) (bs : list Z).

Definition blank (s : biost) : Prop :=
  ∀ b, is_buf b ∨ b = head → ∃ p n, bufs s !! b = Some (with_prev p (with_next n zero_buf)).

Lemma blank_alter s b f :
  (∀ p n, ∃ p' n', f (with_prev p (with_next n zero_buf)) = with_prev p' (with_next n' zero_buf)) →
  blank s → blank (set_bufs (alter f b (bufs s)) s).
Proof.
  intros Hf Hs c Hc. destruct (Hs c Hc) as (p & n & Hp). simpl.
  destruct (decide (c = b)) as [->|]; [|by rewrite lookup_alter_ne; eauto].
  rewrite lookup_alter_eq, Hp. simpl. destruct (Hf p n) as (p' & n' & ->). by eauto.
Qed.

Lemma blank_prev s b q : blank s → blank (set_bufs (alter (with_prev q) b (bufs s)) s).
Proof. apply blank_alter. intros p n. by exists q, n. Qed.
Lemma blank_next s b q : blank s → blank (set_bufs (alter (with_next q) b (bufs s)) s).
Proof. apply blank_alter. intros p n. by exists p, q. Qed.

Lemma blank_is_Some s b : blank s → is_buf b ∨ b = head → is_Some (bufs s !! b).
Proof. intros Hs Hb. destruct (Hs b Hb) as (p & n & ->). by eexists. Qed.

(** What [binit] does not change. *)
Definition same_disk (s s' : biost) : Prop :=
  bio_thread s' = bio_thread s ∧ disk s' = disk s ∧ dwrites s' = dwrites s.

Lemma binit_one_spec s b bs :
  blank s → is_buf b → b ∉ bs → (∀ c, c ∈ bs → is_buf c) → cyc (bufs s) bs →
  returns (binit_one b) (λ _ s', blank s' ∧ cyc (bufs s') (b :: bs) ∧ same_disk s s') s.
Proof.
  intros Hs Hb Hnin Hbs Hcyc. destruct (cyc_head _ _ Hcyc) as (h & Hh & Hhn & _).
  assert (b ≠ head) as Hbh by (unfold is_buf, head in *; lia).
  eapply wp_deref_buf; [exact Hh|]. rewrite Hhn. set (n0 := hd_or head bs).
  assert (is_buf n0 ∨ n0 = head) as Hn0.
  { subst n0. destruct bs; simpl; [by right|]. left. apply Hbs. set_solver. }
  apply wp_bind, wp_update_alter; [apply blank_is_Some; auto|].
  set (s1 := set_bufs _ s).
  assert (blank s1) as Hs1 by (apply blank_alter; [intros p n; by exists head, n0|done]).
  apply wp_bind, wp_modify. set (s2 := sl_put b _ s1).
  assert (blank s2) as Hs2 by (apply (blank_alter s1); [intros p n; by exists p, n|done]).
  eapply wp_deref_buf.
  { subst s2 s1. simpl. rewrite !lookup_alter_ne by done. exact Hh. }
  rewrite Hhn. fold n0. apply wp_bind, wp_update_alter; [by apply blank_is_Some|].
  apply wp_update_alter; [apply alter_is_Some, blank_is_Some; auto|].
  split_and!; [| |done].
  - by apply (blank_next (set_bufs (alter (with_prev b) n0 (bufs s2)) s2)), blank_prev.
  - split; simpl.
    + rewrite links_next, links_prev, links_alter_same by done.
      replace (links (alter (λ x, with_prev head (with_next n0 x)) b (bufs s)))
        with (upd_prev b head (upd_next b n0 (links (bufs s)))).
      * apply (dseg_push _ b bs); [|set_solver|apply Hcyc|apply Hcyc].
        rewrite lookup_links. destruct (blank_is_Some s b Hs (or_introl Hb)) as [y ->]. by eexists.
      * apply map_eq. intros c. rewrite lookup_links. destruct (decide (c = b)) as [->|].
        -- unfold upd_prev, upd_next. rewrite !lookup_alter_eq, lookup_links. by destruct (bufs s !! b).
        -- by rewrite upd_prev_ne, upd_next_ne, lookup_alter_ne, lookup_links.
    + destruct Hcyc as [_ [Hhd Hnd]%NoDup_cons]. apply NoDup_cons. split; [set_solver|].
      by apply NoDup_cons.
Qed.

Lemma binit_loop_spec k s b bs :
  blank s → 0 ≤ b → b + Z.of_nat k = NBUF → (∀ c, c ∈ bs ↔ 0 ≤ c < b) → cyc (bufs s) bs →
  returns (binit_loop k b)
    (λ _ s', blank s' ∧ (∃ bs', cyc (bufs s') bs' ∧ ∀ c, c ∈ bs' ↔ is_buf c) ∧ same_disk s s') s.
Proof.
  revert s b bs. induction k as [|k IH]; intros s b bs Hs Hb Hk Hbs Hcyc; cbn [binit_loop].
  - apply wp_ret. split; [done|]. split; [|done]. exists bs. split; [done|].
    intros c. rewrite Hbs. unfold is_buf. replace b with NBUF by lia. done.
  - eapply wp_call; [apply (binit_one_spec s b bs); [done|unfold is_buf; lia| | |done]|].
    + rewrite Hbs. lia.
    + intros c Hc%Hbs. unfold is_buf. lia.
    + cbn beta. intros _ s1 (Hs1 & Hcyc1 & Ht1 & Hd1 & Hw1).
      eapply wp_mono; [apply (IH s1 (b + 1) (b :: bs)); [done|lia|lia| |done]|].
      * intros c. rewrite elem_of_cons, Hbs. lia.
      * intros _ s2 (? & ? & Ht2 & Hd2 & Hw2). split_and!; [done..|]. split_and!; congruence.
Qed.
End binit.

(** After [binit] the cache is consistent: the circular list holds every
    buffer once, no buffer is in use or locked, and what the cache and the disk
    hold together is what the disk holds. *)
Theorem binit_consistent (pid : Z) (d : gmap Z block) :
  map_Forall (λ _ bs, length bs = Z.to_nat BSIZE) d →
  returns binit (λ _ s', cache (contents d) ∅ ∅ pid s' ∧ disk s' = d ∧ dwrites s' = []) (boot_bio pid d).
Proof.
  intros Hlen. assert (blank (boot_bio pid d)) as Hblank.
  { intros b Hb. exists 0, 0. simpl. unfold zero_bufs. apply lookup_gset_to_gmap_Some.
    split; [|done]. apply elem_of_list_to_set, elem_of_seqZ. unfold is_buf, head in Hb.
    unfold NBUF, MAXOPBLOCKS in *. lia. }
  apply wp_bind, wp_update_alter; [apply blank_is_Some; auto|].
  assert (blank (set_bufs (alter (with_prev head) head (bufs (boot_bio pid d))) (boot_bio pid d))) as Hb1
    by by apply blank_prev.
  apply wp_bind, wp_update_alter; [apply blank_is_Some; auto|].
  set (s1 := set_bufs _ _).
  assert (blank s1) as Hb2 by by apply (blank_next (set_bufs (alter (with_prev head) head zero_bufs) (boot_bio pid d))).
  eapply wp_mono; [apply (binit_loop_spec _ s1 0 []); [done|lia|done| |]|].
  - intros c. split; [set_solver|lia].
  - split; [|apply NoDup_singleton]. simpl. split; [|done].
    rewrite links_next, links_prev. unfold upd_next, upd_prev. rewrite !lookup_alter_eq, lookup_links.
    destruct (blank_is_Some _ head Hblank (or_intror eq_refl)) as [y Hy].
    simpl in Hy. by rewrite Hy.
  - intros _ s2 (Hbl & Hord & Ht & Hd & Hw). split; [|done].
    assert (∀ b x, is_buf b → bufs s2 !! b = Some x → ∃ p n, x = with_prev p (with_next n zero_buf)) as Hz.
    { intros b x Hb Hx. destruct (Hbl b (or_introl Hb)) as (p & n & Hp). rewrite Hp in Hx.
      injection Hx as <-. by eexists _, _. }
    split.
    + by rewrite Ht.
    + simpl. by rewrite Ht.
    + done.
    + intros b x Hb Hx. destruct (Hz b x Hb Hx) as (p & n & ->). split; try done.
      split; [done|]. by intros [? ?].
    + intros b b' x x' Hb Hb' Hx Hx' Hdev. destruct (Hz b x Hb Hx) as (p & n & ->). done.
    + done.
    + intros n e He. rewrite Hd in He. simpl in He. split; [by eapply Hlen|].
      intros _. unfold contents. by rewrite He.
Qed.

(** Two blocks that are all 1 and all 2. *)
Definition demo_disk : gmap Z block :=
  {[ 5 := replicate (Z.to_nat BSIZE) 1; 9 := replicate (Z.to_nat BSIZE) 2 ]}.

Lemma demo_disk_len : map_Forall (λ _ bs, length bs = Z.to_nat BSIZE) demo_disk.
Proof.
  apply map_Forall_insert_2; [by rewrite length_replicate|].
  apply map_Forall_singleton. by rewrite length_replicate.
Qed.

Lemma binit_consistent_witness :
  returns binit (λ _ s', cache (contents demo_disk) ∅ ∅ 1 s' ∧ disk s' = demo_disk ∧ dwrites s' = [])
    (boot_bio 1 demo_disk).
Proof. apply (binit_consistent 1 demo_disk demo_disk_len). Defined.

(** C16: [bread] returns a buffer that is locked by the caller and holds the
    current contents of the block, those a pending log write has changed
    included, whether it was cached, waits for nobody else's buffer and changes
    neither the disk nor what any other buffer holds. *)
Theorem bread_current (V : Z → block) (pins : gmap Z Z) (mine : gset Z) (pid : Z) (w : nat) (n : Z)
    (s : biost) :
  cache V pins mine pid s → n ∉ mine → is_Some (pins !! n) ∨ Z.of_nat (size pins) < NBUF →
  default 0 (pins !! n) + 1 < 2 ^ 32 → is_Some (disk s !! n) →
  returns (bread w ROOTDEV n)
    (λ b s', cache V (<[n := default 0 (pins !! n) + 1]> pins) ({[n]} ∪ mine) pid s' ∧
       holds s' b n ∧ b_data <$> bufs s' !! b = Some (V n) ∧
       (∀ c k, holds s c k → holds s' c k) ∧ disk s' = disk s ∧ dwrites s' = dwrites s) s.
Proof.
  intros. eapply wp_mono; [by apply bread_spec|].
  intros b s' (? & ? & ? & ? & ? & ?). by split_and!.
Qed.

Lemma bread_current_witness :
  ∃ s, returns (bread 0 ROOTDEV 9)
    (λ b s', cache (contents demo_disk) (<[9 := default 0 ((∅ : gmap Z Z) !! 9) + 1]> ∅) ({[9]} ∪ ∅) 1 s' ∧ holds s' b 9 ∧
       b_data <$> bufs s' !! b = Some (contents demo_disk 9) ∧
       (∀ c k, holds s c k → holds s' c k) ∧ disk s' = disk s ∧ dwrites s' = dwrites s) s.
Proof.
  destruct (proj1 (wp_no_sleep _ _ _) (binit_consistent 1 demo_disk demo_disk_len)) as (? & s & _ & Hc & Hd & Hw).
  exists s. apply (bread_current (contents demo_disk) ∅ ∅ 1 0 9 s).
  - exact Hc.
  - set_solver.
  - right. by compute.
  - done.
  - rewrite Hd. by eexists.
Defined.

(** The buffers caching block [n], if any, and those in use. *)
Definition caches (s : biost) (n b : Z) : Prop :=
  ∃ x, bufs s !! b = Some x ∧ b_dev x = ROOTDEV ∧ b_blockno x = n.
Definition in_use (s : biost) (b : Z) : Prop := ∃ x, bufs s !! b = Some x ∧ b_refcnt x ≠ 0.

(** Replacement is least recently used: for a block that is not cached,
    [bget] recycles the unused buffer nearest the end of the list, to whose
    front [brelse] moves every buffer its last user releases; when every buffer
    is in use it panics with "bget: no buffers". *)
Theorem bget_recycles_lru (w : nat) (n : Z) (s : biost) (bs : list Z) :
  cyc (bufs s) bs → (length bs ≤ Z.to_nat NBUF)%nat → held s = ∅ →
  (∀ b, b ∈ bs → ¬ caches s n b) →
  (∀ zs b ws x, bs = zs ++ b :: ws → bufs s !! b = Some x → b_refcnt x = 0 →
     sl_locked (b_lock x) = false → (∀ c, c ∈ ws → in_use s c) →
     returns (bget w ROOTDEV n)
       (λ r s', r = b ∧ ∃ y, bufs s' = <[b := y]> (bufs s) ∧ b_blockno y = n ∧ b_dev y = ROOTDEV ∧
          b_valid y = false ∧ b_refcnt y = 1 ∧ sl_locked (b_lock y) = true) s) ∧
  ((∀ b, b ∈ bs → in_use s b) → bget w ROOTDEV n s = Panic "bget: no buffers").
Proof.
  intros Hcyc Hlen Hh Hnc. destruct (cyc_head _ _ Hcyc) as (h & Hhd & Hhn & Hhp).
  set (s1 := set_held {[bcache_lock]} s).
  assert (acquire bcache_lock s = Ok tt s1) as Hacq.
  { unfold acquire. rewrite decide_False by (rewrite Hh; set_solver).
    by rewrite Hh, union_empty_r_L. }
  assert (bget_find (Z.to_nat NBUF) ROOTDEV n (b_next h) s1 = Ok None s1) as Hfind.
  { rewrite Hhn. pose proof (bget_find_spec (Z.to_nat NBUF) ROOTDEV n s1 [] bs Hcyc Hlen) as Hf.
    apply wp_no_sleep in Hf as ([b|] & s2 & He & -> & Hr); [|done].
    destruct Hr as (Hin & x & ?). exfalso. apply (Hnc b Hin). by exists x. }
  pose proof (bget_unused_spec (Z.to_nat NBUF) s1 bs [] ltac:(by rewrite app_nil_r) Hlen) as Hun.
  apply wp_no_sleep in Hun as (r & s2 & Hun & -> & Hr). split.
  - intros zs b ws x -> Hx Hx0 Hl Hws.
    destruct r as [b'|]; [|exfalso; eapply (Hr b x); [set_solver|done|done]].
    destruct Hr as (x' & zs' & ws' & Heq & Hx' & Hx0' & Hws').
    change (bufs s1) with (bufs s) in *.
    assert (zs = zs' ∧ b = b' ∧ ws = ws') as (<- & <- & <-).
    { destruct (app_eq_inv _ _ _ _ Heq) as [(k & -> & Hk)|(k & -> & Hk)].
      - destruct k as [|c k]; [rewrite app_nil_r; by injection Hk|]. exfalso. injection Hk as -> ->.
        eapply (Hws' b x); [set_solver|done|done].
      - destruct k as [|c k]; [rewrite app_nil_r; by injection Hk|]. exfalso. injection Hk as -> ->.
        destruct (Hws b') as (y & Hy & Hyr); [set_solver|congruence]. }
    unfold bget. eapply wp_call; [eapply wp_ok; [exact Hacq|by instantiate (1 := λ _ s', s' = s1)]|].
    cbn beta. intros _ ? ->. eapply wp_deref_buf; [exact Hhd|].
    eapply wp_call; [eapply wp_ok; [exact Hfind|by instantiate (1 := λ r s', r = None ∧ s' = s1)]|].
    cbn beta. intros ? ? [-> ->]. eapply wp_deref_buf; [exact Hhd|]. rewrite Hhp.
    eapply wp_call; [eapply wp_ok; [exact Hun|by instantiate (1 := λ r s', r = Some b ∧ s' = s1)]|].
    cbn beta. intros ? ? [-> ->]. apply wp_bind. eapply wp_update_buf; [exact Hx|].
    apply wp_bind, wp_release; [simpl; set_solver|].
    eapply wp_call; [apply (acquiresleep_free w b (b_lock x))|].
    + simpl. set_solver.
    + simpl. by rewrite lookup_insert_eq.
    + done.
    + cbn beta. intros _ ? ->. apply wp_ret. split; [done|]. simpl.
      eexists. split; [apply alter_insert_eq|]. done.
  - intros Hall. destruct r as [b|].
    { exfalso. destruct Hr as (x & zs & ws & -> & Hx & Hx0 & _).
      destruct (Hall b) as (y & Hy & Hyr); [set_solver|].
      change (bufs s1) with (bufs s) in *. congruence. }
    unfold bget. rewrite (bind_Ok _ _ _ _ _ Hacq).
    assert (deref_buf head s1 = Ok h s1) as Hdh by (unfold deref_buf, get_some; simpl; by rewrite Hhd).
    rewrite (bind_Ok _ _ _ _ _ Hdh), (bind_Ok _ _ _ _ _ Hfind), (bind_Ok _ _ _ _ _ Hdh), Hhp.
    by rewrite (bind_Ok _ _ _ _ _ Hun).
Qed.

(** Three buffers, 0 most recently used; 1 is in use, 2 is free. *)
Definition demo_buf (n refcnt p nx : Z) : buf := Buf true ROOTDEV n (Sleeplock false 0) refcnt p nx [].
Definition demo_lru : biost := Biost (Thread 1 1 0 ∅ ∅ ∅)
  {[ head := demo_buf 0 0 1 0; 0 := demo_buf 5 0 head 2; 2 := demo_buf 9 0 0 1; 1 := demo_buf 7 1 2 head ]} ∅ [].

Lemma bget_recycles_lru_witness :
  returns (bget 0 ROOTDEV 8)
    (λ r s', r = 2 ∧ ∃ y, bufs s' = <[2 := y]> (bufs demo_lru) ∧ b_blockno y = 8 ∧ b_dev y = ROOTDEV ∧
       b_valid y = false ∧ b_refcnt y = 1 ∧ sl_locked (b_lock y) = true) demo_lru.
Proof.
  destruct (bget_recycles_lru 0 8 demo_lru [0; 2; 1]) as [H _].
  - split; by_compute.
  - by_compute.
  - reflexivity.
  - intros b Hb (x & Hx & _ & Hn). rewrite !elem_of_cons in Hb.
    destruct Hb as [->|[->|[->|[]%elem_of_nil]]]; vm_compute in Hx; injection Hx as <-; discriminate Hn.
  - eapply (H [0] 2 [1]); [reflexivity|vm_compute; reflexivity|reflexivity|reflexivity|].
    intros c ->%list_elem_of_singleton. eexists. split; [vm_compute; reflexivity|discriminate].
Defined.
