(* ===== verification/Virtio.v ===== *)
(** The driver of the virtio disk (kernel/virtio_disk.c, kernel/virtio.h).

    The three areas the driver shares with the device, the descriptors and the
    two rings, are arrays from index to entry, and so are the driver's own
    [free], [info] and [ops]; outside of an array an access faults.  The address
    in a descriptor names the object it points to.  A [struct buf] is its
    address, with the fields the driver and the device use.

    What a control register reads as, after the writes so far, is the argument
    [R]; the writes are recorded.  The device itself is in [VirtioSpec]. *)

From S2P Require Import Prelude Riscv Threads Sleeplock Bio.
Local Open Scope Z_scope.

(** * virtio.h *)

Definition NUM : Z := 8.
Definition VIRTIO_MMIO_MAGIC_VALUE : Z := 0x000.
Definition VIRTIO_MMIO_VERSION : Z := 0x004.
Definition VIRTIO_MMIO_DEVICE_ID : Z := 0x008.
Definition VIRTIO_MMIO_VENDOR_ID : Z := 0x00c.
Definition VIRTIO_MMIO_DEVICE_FEATURES : Z := 0x010.
Definition VIRTIO_MMIO_DRIVER_FEATURES : Z := 0x020.
Definition VIRTIO_MMIO_QUEUE_SEL : Z := 0x030.
Definition VIRTIO_MMIO_QUEUE_NUM_MAX : Z := 0x034.
Definition VIRTIO_MMIO_QUEUE_NUM : Z := 0x038.
Definition VIRTIO_MMIO_QUEUE_READY : Z := 0x044.
Definition VIRTIO_MMIO_QUEUE_NOTIFY : Z := 0x050.
Definition VIRTIO_MMIO_INTERRUPT_STATUS : Z := 0x060.
Definition VIRTIO_MMIO_INTERRUPT_ACK : Z := 0x064.
Definition VIRTIO_MMIO_STATUS : Z := 0x070.
Definition VIRTIO_MMIO_QUEUE_DESC_LOW : Z := 0x080.
Definition VIRTIO_MMIO_QUEUE_DESC_HIGH : Z := 0x084.
Definition VIRTIO_MMIO_DRIVER_DESC_LOW : Z := 0x090.
Definition VIRTIO_MMIO_DRIVER_DESC_HIGH : Z := 0x094.
Definition VIRTIO_MMIO_DEVICE_DESC_LOW : Z := 0x0a0.
Definition VIRTIO_MMIO_DEVICE_DESC_HIGH : Z := 0x0a4.
Definition VIRTIO_CONFIG_S_ACKNOWLEDGE : Z := 1.
Definition VIRTIO_CONFIG_S_DRIVER : Z := 2.
Definition VIRTIO_CONFIG_S_DRIVER_OK : Z := 4.
Definition VIRTIO_CONFIG_S_FEATURES_OK : Z := 8.
Definition VIRTIO_BLK_F_RO : Z := 5.
Definition VIRTIO_BLK_F_SCSI : Z := 7.
Definition VIRTIO_BLK_F_CONFIG_WCE : Z := 11.
Definition VIRTIO_BLK_F_MQ : Z := 12.
Definition VIRTIO_F_ANY_LAYOUT : Z := 27.
Definition VIRTIO_RING_F_INDIRECT_DESC : Z := 28.
Definition VIRTIO_RING_F_EVENT_IDX : Z := 29.
Definition VRING_DESC_F_NEXT : Z := 1.
Definition VRING_DESC_F_WRITE : Z := 2.
Definition VIRTIO_BLK_T_IN : Z := 0.
Definition VIRTIO_BLK_T_OUT : Z := 1.

(** What a descriptor points to: nothing, [disk.ops[i]], the data of the buffer
    [b], [disk.info[i].status]. *)
Inductive vaddr := ANull | AOps (i : Z) | AData (b : Z) | AStatus (i : Z).
Record virtq_desc := Desc { d_addr : vaddr; d_len : Z; d_flags : Z; d_next : Z }.
Record virtio_blk_req := Req { o_type : Z; o_reserved : Z; o_sector : Z }.
Definition sizeof_blk_req : Z := 16.
Record vinfo := Info { in_b : Z; in_status : Z }.
Record vbuf := Vbuf { vb_disk : Z; vb_blockno : Z; vb_data : block }.

(** The device: how far it has read the avail ring, the requests it has taken,
    and the disk, a block by its first sector. *)
Record vdev := Vdev { dv_seen : Z; dv_taken : list Z; platter : gmap Z block }.

Record vst := Vst {
  v_thread : thread;
  desc : gmap Z virtq_desc;
  avail_idx : Z;
  avail_ring : gmap Z Z;
  used_idx_dev : Z;               (* disk.used->idx *)
  used_ring : gmap Z Z;           (* the ids *)
  vfree : gmap Z bool;
  used_idx : Z;
  info : gmap Z vinfo;
  ops : gmap Z virtio_blk_req;
  vbufs : gmap Z vbuf;
  regs : list (Z * Z);
  dev : vdev;
}.
#[export] Instance vst_thread : HasThread vst.
Proof.
  refine {| the_thread := v_thread;
            set_thread := λ t s, Vst t (desc s) (avail_idx s) (avail_ring s) (used_idx_dev s) (used_ring s)
              (vfree s) (used_idx s) (info s) (ops s) (vbufs s) (regs s) (dev s) |}; try done. by intros [].
Defined.

Definition set_desc d (s : vst) : vst := Vst (v_thread s) d (avail_idx s) (avail_ring s) (used_idx_dev s)
  (used_ring s) (vfree s) (used_idx s) (info s) (ops s) (vbufs s) (regs s) (dev s).
Definition set_avail i r (s : vst) : vst := Vst (v_thread s) (desc s) i r (used_idx_dev s)
  (used_ring s) (vfree s) (used_idx s) (info s) (ops s) (vbufs s) (regs s) (dev s).
Definition set_used i r (s : vst) : vst := Vst (v_thread s) (desc s) (avail_idx s) (avail_ring s) i
  r (vfree s) (used_idx s) (info s) (ops s) (vbufs s) (regs s) (dev s).
Definition set_free f (s : vst) : vst := Vst (v_thread s) (desc s) (avail_idx s) (avail_ring s) (used_idx_dev s)
  (used_ring s) f (used_idx s) (info s) (ops s) (vbufs s) (regs s) (dev s).
Definition set_used_idx u (s : vst) : vst := Vst (v_thread s) (desc s) (avail_idx s) (avail_ring s) (used_idx_dev s)
  (used_ring s) (vfree s) u (info s) (ops s) (vbufs s) (regs s) (dev s).
Definition set_info m (s : vst) : vst := Vst (v_thread s) (desc s) (avail_idx s) (avail_ring s) (used_idx_dev s)
  (used_ring s) (vfree s) (used_idx s) m (ops s) (vbufs s) (regs s) (dev s).
Definition set_ops o (s : vst) : vst := Vst (v_thread s) (desc s) (avail_idx s) (avail_ring s) (used_idx_dev s)
  (used_ring s) (vfree s) (used_idx s) (info s) o (vbufs s) (regs s) (dev s).
Definition set_vbufs b (s : vst) : vst := Vst (v_thread s) (desc s) (avail_idx s) (avail_ring s) (used_idx_dev s)
  (used_ring s) (vfree s) (used_idx s) (info s) (ops s) b (regs s) (dev s).
Definition set_regs r (s : vst) : vst := Vst (v_thread s) (desc s) (avail_idx s) (avail_ring s) (used_idx_dev s)
  (used_ring s) (vfree s) (used_idx s) (info s) (ops s) (vbufs s) r (dev s).
Definition set_dev d (s : vst) : vst := Vst (v_thread s) (desc s) (avail_idx s) (avail_ring s) (used_idx_dev s)
  (used_ring s) (vfree s) (used_idx s) (info s) (ops s) (vbufs s) (regs s) d.

Definition vdisk_lock : Z := 110.
(** The channel [&disk.free[0]]. *)
Definition free_chan : Z := 111.

Definition get_at {A} (f : vst → gmap Z A) (i : Z) : M vst A := get_some (λ s, f s !! i).
(** An assignment to a field of an entry. *)
Definition put_desc (i : Z) (f : virtq_desc → virtq_desc) : M vst unit :=
  let! d := get_at desc i in modify (λ s, set_desc (<[i := f d]> (desc s)) s).
Definition put_free (i : Z) (v : bool) : M vst unit :=
  let! _ := get_at vfree i in modify (λ s, set_free (<[i := v]> (vfree s)) s).
Definition put_info (i : Z) (f : vinfo → vinfo) : M vst unit :=
  let! x := get_at info i in modify (λ s, set_info (<[i := f x]> (info s)) s).
Definition put_ops (i : Z) (r : virtio_blk_req) : M vst unit :=
  let! _ := get_at ops i in modify (λ s, set_ops (<[i := r]> (ops s)) s).
Definition put_buf_disk (b v : Z) : M vst unit :=
  let! x := get_at vbufs b in modify (λ s, set_vbufs (<[b := Vbuf v (vb_blockno x) (vb_data x)]> (vbufs s)) s).

(** * Descriptors *)

Fixpoint alloc_desc_loop (n : nat) (i : Z) : M vst Z :=
  match n with
  | O => ret (-1)
  | S n =>
      let! f := get_at vfree i in
      if f : bool then put_free i false;;; ret i else alloc_desc_loop n (i + 1)
  end.
Definition alloc_desc : M vst Z := alloc_desc_loop (Z.to_nat NUM) 0.

Definition free_desc (i : Z) : M vst unit :=
  if NUM <=? i then panic "free_desc 1" else
  let! f := get_at vfree i in
  if f : bool then panic "free_desc 2" else
  put_desc i (λ _, Desc ANull 0 0 0);;;
  put_free i true;;;
  wakeup free_chan.

(** A descriptor that is free already panics, so a chain has at most [NUM]. *)
Fixpoint free_chain (fuel : nat) (i : Z) : M vst unit :=
  match fuel with
  | O => out_of_fuel
  | S fuel =>
      let! d := get_at desc i in
      free_desc i;;;
      if negb (Z.land (d_flags d) VRING_DESC_F_NEXT =? 0) then free_chain fuel (d_next d) else ret tt
  end.

Fixpoint free_all (idx : list Z) : M vst unit :=
  match idx with [] => ret tt | i :: idx => free_desc i;;; free_all idx end.
(** [idx[i..2]], from the [i] descriptors allocated; [None] for -1. *)
Fixpoint alloc3_loop (n : nat) (idx : list Z) : M vst (option (list Z)) :=
  match n with
  | O => ret (Some idx)
  | S n =>
      let! i := alloc_desc in
      if i <? 0 then free_all idx;;; ret None
      else alloc3_loop n (idx ++ [i])
  end.
Definition alloc3_desc : M vst (option (list Z)) := alloc3_loop 3 [].

(** * Requests *)

Fixpoint rw_alloc (wakeups : nat) : M vst (list Z) :=
  let! r := alloc3_desc in
  match r with
  | Some idx => ret idx
  | None =>
      match wakeups with
      | O => blocked free_chan vdisk_lock
      | S wakeups => sleep free_chan vdisk_lock;;; rw_alloc wakeups
      end
  end.

Definition rw_submit (i0 i1 i2 b : Z) (write : bool) : M vst unit :=
  let! x := get_at vbufs b in
  let sector := u32 (vb_blockno x * (BSIZE / 512)) in
  put_ops i0 (Req (if write then VIRTIO_BLK_T_OUT else VIRTIO_BLK_T_IN) 0 sector);;;
  put_desc i0 (λ _, Desc (AOps i0) sizeof_blk_req VRING_DESC_F_NEXT i1);;;
  put_desc i1 (λ _, Desc (AData b) BSIZE (Z.lor (if write then 0 else VRING_DESC_F_WRITE) VRING_DESC_F_NEXT) i2);;;
  put_info i0 (λ x, Info (in_b x) 0xff);;;
  put_desc i2 (λ _, Desc (AStatus i0) 1 VRING_DESC_F_WRITE 0);;;
  put_buf_disk b 1;;;
  put_info i0 (λ x, Info b (in_status x));;;
  modify (λ s, set_avail (avail_idx s) (<[avail_idx s `mod` NUM := i0]> (avail_ring s)) s);;;
  modify (λ s, set_avail (u16 (avail_idx s + 1)) (avail_ring s) s);;;
  modify (λ s, set_regs ((VIRTIO_MMIO_QUEUE_NOTIFY, 0) :: regs s) s).

Fixpoint rw_wait (wakeups : nat) (b : Z) : M vst unit :=
  let! x := get_at vbufs b in
  if vb_disk x =? 1 then
    match wakeups with
    | O => blocked b vdisk_lock
    | S wakeups => sleep b vdisk_lock;;; rw_wait wakeups b
    end
  else ret tt.

Definition rw_finish (i0 : Z) : M vst unit :=
  put_info i0 (λ x, Info 0 (in_status x));;;
  free_chain (S (Z.to_nat NUM)) i0.

Definition virtio_disk_rw (wakeups : nat) (b : Z) (write : bool) : M vst unit :=
  acquire vdisk_lock;;;
  let! idx := rw_alloc wakeups in
  match idx with
  | [i0; i1; i2] =>
      rw_submit i0 i1 i2 b write;;;
      rw_wait wakeups b;;;
      rw_finish i0;;;
      release vdisk_lock
  | _ => fault
  end.

Section registers.
Context (R : Z → list (Z * Z) → Z).

Definition rd (r : Z) : M vst Z := gets (λ s, R r (regs s)).
Definition wr (r v : Z) : M vst unit := modify (λ s, set_regs ((r, v) :: regs s) s).

(** [fuel] bounds the entries; the device never has more than [NUM] of them. *)
Fixpoint intr_loop (fuel : nat) : M vst unit :=
  let! i := gets used_idx in
  let! di := gets used_idx_dev in
  if i =? di then ret tt else
  match fuel with
  | O => out_of_fuel
  | S fuel =>
      let! id := get_at used_ring (i `mod` NUM) in
      let! x := get_at info id in
      if negb (in_status x =? 0) then panic "virtio_disk_intr status" else
      put_buf_disk (in_b x) 0;;;
      wakeup (in_b x);;;
      modify (λ s, set_used_idx (u16 (i + 1)) s);;;
      intr_loop fuel
  end.
Definition virtio_disk_intr : M vst unit :=
  acquire vdisk_lock;;;
  let! st := rd VIRTIO_MMIO_INTERRUPT_STATUS in
  wr VIRTIO_MMIO_INTERRUPT_ACK (Z.land st 0x3);;;
  intr_loop (Z.to_nat NUM);;;
  release vdisk_lock.

(** * Initialisation *)

Definition clear_bit (features bit : Z) : Z := Z.land features (Z.lnot (Z.shiftl 1 bit)).
Definition zeroes {A} (a : A) : gmap Z A := list_to_map ((λ k, (k, a)) <$> seqZ 0 NUM).

(** [d], [a] and [u] are what the three calls of [kalloc] return. *)
Definition virtio_disk_init (d a u : Z) : M vst unit :=
  let! magic := rd VIRTIO_MMIO_MAGIC_VALUE in
  let! version := rd VIRTIO_MMIO_VERSION in
  let! id := rd VIRTIO_MMIO_DEVICE_ID in
  let! vendor := rd VIRTIO_MMIO_VENDOR_ID in
  if negb (magic =? 0x74726976) || negb (version =? 2) || negb (id =? 2) || negb (vendor =? 0x554d4551)
  then panic "could not find virtio disk" else
  wr VIRTIO_MMIO_STATUS 0;;;
  let status := VIRTIO_CONFIG_S_ACKNOWLEDGE in
  wr VIRTIO_MMIO_STATUS status;;;
  let status := Z.lor status VIRTIO_CONFIG_S_DRIVER in
  wr VIRTIO_MMIO_STATUS status;;;
  let! features := rd VIRTIO_MMIO_DEVICE_FEATURES in
  let features := foldl clear_bit features
    [VIRTIO_BLK_F_RO; VIRTIO_BLK_F_SCSI; VIRTIO_BLK_F_CONFIG_WCE; VIRTIO_BLK_F_MQ; VIRTIO_F_ANY_LAYOUT;
     VIRTIO_RING_F_EVENT_IDX; VIRTIO_RING_F_INDIRECT_DESC] in
  wr VIRTIO_MMIO_DRIVER_FEATURES features;;;
  let status := Z.lor status VIRTIO_CONFIG_S_FEATURES_OK in
  wr VIRTIO_MMIO_STATUS status;;;
  let! status := rd VIRTIO_MMIO_STATUS in
  if Z.land status VIRTIO_CONFIG_S_FEATURES_OK =? 0 then panic "virtio disk FEATURES_OK unset" else
  wr VIRTIO_MMIO_QUEUE_SEL 0;;;
  let! ready := rd VIRTIO_MMIO_QUEUE_READY in
  if negb (ready =? 0) then panic "virtio disk should not be ready" else
  let! max := rd VIRTIO_MMIO_QUEUE_NUM_MAX in
  if max =? 0 then panic "virtio disk has no queue 0" else
  if max <? NUM then panic "virtio disk max queue too short" else
  if (d =? 0) || (a =? 0) || (u =? 0) then panic "virtio disk kalloc" else
  modify (set_desc (zeroes (Desc ANull 0 0 0)));;;
  modify (set_avail 0 (zeroes 0));;;
  modify (set_used 0 (zeroes 0));;;
  wr VIRTIO_MMIO_QUEUE_NUM NUM;;;
  wr VIRTIO_MMIO_QUEUE_DESC_LOW (u32 d);;;
  wr VIRTIO_MMIO_QUEUE_DESC_HIGH (u32 (Z.shiftr d 32));;;
  wr VIRTIO_MMIO_DRIVER_DESC_LOW (u32 a);;;
  wr VIRTIO_MMIO_DRIVER_DESC_HIGH (u32 (Z.shiftr a 32));;;
  wr VIRTIO_MMIO_DEVICE_DESC_LOW (u32 u);;;
  wr VIRTIO_MMIO_DEVICE_DESC_HIGH (u32 (Z.shiftr u 32));;;
  wr VIRTIO_MMIO_QUEUE_READY 0x1;;;
  modify (set_free (zeroes true));;;
  wr VIRTIO_MMIO_STATUS (Z.lor status VIRTIO_CONFIG_S_DRIVER_OK).
End registers.
