(* ===== verification/VirtioSpec.v ===== *)
(** The disk driver with its device: the requests of several processes, the
    device that serves them in any order, and the interrupt handler.

    A state of [vsys] is the driver's and the device's memory with the requests
    that wait in [virtio_disk_rw].  A process runs from one sleep to the next, as
    [vdisk_lock] makes it; the handler runs as a whole; the device takes a request
    from the avail ring, and serves one it has taken, in steps of its own. *)

From S2P Require Import Prelude Riscv Threads Sleeplock Bio Virtio.
Local Open Scope Z_scope.

(** * The device

    As section 5.2 of the virtio specification has it: it follows the chain of
    three descriptors, moves the block in the direction of the type, reports 0 and
    puts the chain on the used ring. *)
Definition dev_fetch (s : vst) : option vst :=
  let d := dev s in
  if dv_seen d =? avail_idx s then None else
  h ← avail_ring s !! (dv_seen d `mod` NUM);
  Some (set_dev (Vdev (u16 (dv_seen d + 1)) (dv_taken d ++ [h]) (platter d)) s).

(** The parts of the request whose chain starts at [h]: the type, the sector, the
    buffer, and where the status goes. *)
Definition dev_decode (s : vst) (h : Z) : option (Z * Z * Z * Z) :=
  d0 ← desc s !! h;
  d1 ← desc s !! d_next d0;
  d2 ← desc s !! d_next d1;
  match d_addr d0, d_addr d1, d_addr d2 with
  | AOps o, AData b, AStatus i =>
      op ← ops s !! o;
      if (d_len d0 =? sizeof_blk_req) && (d_flags d0 =? VRING_DESC_F_NEXT) && (d_len d1 =? BSIZE) &&
         (d_flags d1 =? Z.lor VRING_DESC_F_NEXT (if o_type op =? VIRTIO_BLK_T_IN then VRING_DESC_F_WRITE else 0)) &&
         (d_len d2 =? 1) && (d_flags d2 =? VRING_DESC_F_WRITE)
      then Some (o_type op, o_sector op, b, i) else None
  | _, _, _ => None
  end.

Definition dev_serve (h : Z) (s : vst) : option vst :=
  let d := dev s in
  '(type, sector, b, i) ← dev_decode s h;
  x ← vbufs s !! b;
  old ← platter d !! sector;
  st ← info s !! i;
  let taken := list_difference (dv_taken d) [h] in
  let s := set_info (<[i := Info (in_b st) 0]> (info s)) s in
  let s := set_used (u16 (used_idx_dev s + 1)) (<[used_idx_dev s `mod` NUM := h]> (used_ring s)) s in
  Some (if type =? VIRTIO_BLK_T_IN
        then set_vbufs (<[b := Vbuf (vb_disk x) (vb_blockno x) old]> (vbufs s))
               (set_dev (Vdev (dv_seen d) taken (platter d)) s)
        else set_dev (Vdev (dv_seen d) taken (<[sector := vb_data x]> (platter d))) s).

(** * The system *)

(** A process in [virtio_disk_rw]: its descriptors, its arguments, and, for the
    statements only, what the disk and the buffer held when it came. *)
Record request := Request {
  r_0 : Z; r_1 : Z; r_2 : Z; r_b : Z; r_write : bool; r_sector : Z;
  r_disk : block; r_data : block;
}.
Definition r_idx (r : request) : list Z := [r_0 r; r_1 r; r_2 r].
Record vsys := Vsys { mem : vst; waiting : list request }.

Section steps.
Context (R : Z → list (Z * Z) → Z).

(** A process goes to sleep on [ch]: what was woken before does not wake it. *)
Definition asleep (ch : Z) (s : vst) : vst :=
  set_thread (with_woken (woken s ∖ {[ch]}) (the_thread s)) s.

(** A caller holds the sleep lock of its buffer, and the cache has one buffer
    for a block: no other request is about the buffer or the block. *)
Definition may_start (b sector : Z) (w : list request) : Prop :=
  b ∉ (r_b <$> w) ∧ sector ∉ (r_sector <$> w).

(** [V_start], [V_busy]: up to the sleep on the buffer, or on [free_chan] when the
    descriptors do not suffice.  A process runs again only when its buffer's channel
    has been woken since it fell asleep: [V_finish], or [V_again] if the buffer is
    busy still. *)
Inductive vstep : vsys → vsys → Prop :=
| V_start s w b write i0 i1 i2 x old s1 s2 :
    vbufs s !! b = Some x →
    platter (dev s) !! u32 (vb_blockno x * (BSIZE / 512)) = Some old →
    may_start b (u32 (vb_blockno x * (BSIZE / 512))) w →
    alloc3_desc s = Ok (Some [i0; i1; i2]) s1 →
    rw_submit i0 i1 i2 b write s1 = Ok tt s2 →
    vstep (Vsys s w)
      (Vsys (asleep b s2) (w ++ [Request i0 i1 i2 b write (u32 (vb_blockno x * (BSIZE / 512))) old (vb_data x)]))
| V_busy s w s' :
    alloc3_desc s = Ok None s' → vstep (Vsys s w) (Vsys s' w)
| V_fetch s w s' :
    dev_fetch s = Some s' → vstep (Vsys s w) (Vsys s' w)
| V_serve s w h s' :
    h ∈ dv_taken (dev s) → dev_serve h s = Some s' → vstep (Vsys s w) (Vsys s' w)
| V_intr s w s' :
    virtio_disk_intr R s = Ok tt s' → vstep (Vsys s w) (Vsys s' w)
| V_again s w r x :
    r ∈ w → r_b r ∈ woken s → vbufs s !! r_b r = Some x → vb_disk x = 1 →
    vstep (Vsys s w) (Vsys (asleep (r_b r) s) w)
| V_finish s w1 r w2 x s' :
    r_b r ∈ woken s → vbufs s !! r_b r = Some x → vb_disk x ≠ 1 →
    rw_finish (r_0 r) s = Ok tt s' →
    vstep (Vsys s (w1 ++ r :: w2)) (Vsys s' (w1 ++ w2)).

Inductive reachable (s0 : vsys) : vsys → Prop :=
| reach_refl : reachable s0 s0
| reach_step s s' : reachable s0 s → vstep s s' → reachable s0 s'.

(** * The invariant *)

(** The driver's descriptors, header and bookkeeping for a request. *)
Definition formatted (s : vst) (r : request) : Prop :=
  desc s !! r_0 r = Some (Desc (AOps (r_0 r)) sizeof_blk_req VRING_DESC_F_NEXT (r_1 r)) ∧
  desc s !! r_1 r = Some (Desc (AData (r_b r)) BSIZE
    (Z.lor (if r_write r then 0 else VRING_DESC_F_WRITE) VRING_DESC_F_NEXT) (r_2 r)) ∧
  desc s !! r_2 r = Some (Desc (AStatus (r_0 r)) 1 VRING_DESC_F_WRITE 0) ∧
  ops s !! r_0 r = Some (Req (if r_write r then VIRTIO_BLK_T_OUT else VIRTIO_BLK_T_IN) 0 (r_sector r)).

(** Before and after the device: the buffer, the block and the status. *)
Definition moved (s : vst) (r : request) (status : Z) (busy : Z) (data disk : block) : Prop :=
  info s !! r_0 r = Some (Info (r_b r) status) ∧
  (∃ bn, vbufs s !! r_b r = Some (Vbuf busy bn data)) ∧
  platter (dev s) !! r_sector r = Some disk.
Definition new_block (r : request) : block := if r_write r then r_data r else r_disk r.

Definition pending (s : vst) (r : request) : Prop := formatted s r ∧ moved s r 0xff 1 (r_data r) (r_disk r).
Definition served (s : vst) (busy : Z) (r : request) : Prop :=
  formatted s r ∧ moved s r 0 busy (new_block r) (new_block r) ∧ (busy = 0 → r_b r ∈ woken s).

(** The entries of a ring from the counter [lo]. *)
Definition ring_holds (ring : gmap Z Z) (lo hi : Z) (rs : list request) : Prop :=
  hi = u16 (lo + Z.of_nat (length rs)) ∧
  ∀ k r, rs !! k = Some r → ring !! ((lo + Z.of_nat k) `mod` NUM) = Some (r_0 r).

Definition slots {A} (m : gmap Z A) : Prop := ∀ i, 0 ≤ i < NUM → is_Some (m !! i).
Definition counter (c : Z) : Prop := 0 ≤ c < 2 ^ 16.

(** [av]: on the avail ring; [tk]: taken by the device; [us]: on the used ring;
    [dn]: seen by the handler, which has woken the process. *)
Record parts (s : vst) (av tk us dn : list request) : Prop := {
  p_avail : ring_holds (avail_ring s) (dv_seen (dev s)) (avail_idx s) av;
  p_taken : dv_taken (dev s) = r_0 <$> tk;
  p_used : ring_holds (used_ring s) (used_idx s) (used_idx_dev s) us;
  p_pending : Forall (pending s) (av ++ tk);
  p_served : Forall (served s 1) us;
  p_done : Forall (served s 0) dn;
}.
Record arrays (s : vst) : Prop := {
  a_desc : slots (desc s); a_avail : slots (avail_ring s); a_used : slots (used_ring s);
  a_info : slots (info s); a_ops : slots (ops s);
  a_seen : counter (dv_seen (dev s)); a_uidx : counter (used_idx s);
}.
(** The descriptors in use are those of the requests. *)
Record owned (s : vst) (w : list request) : Prop := {
  o_nodup : NoDup (w ≫= r_idx);
  o_range : ∀ i, i ∈ (w ≫= r_idx) → 0 ≤ i < NUM;
  o_free : ∀ i, 0 ≤ i < NUM → vfree s !! i = Some (bool_decide (i ∉ (w ≫= r_idx)));
  o_bufs : NoDup (r_b <$> w);
  o_sectors : NoDup (r_sector <$> w);
}.
Definition vinv (S : vsys) : Prop :=
  held (mem S) = ∅ ∧ arrays (mem S) ∧ owned (mem S) (waiting S) ∧
  ∃ av tk us dn, waiting S ≡ₚ av ++ tk ++ us ++ dn ∧ parts (mem S) av tk us dn.
End steps.

(** * Rings and descriptors *)

Lemma NoDup_range_length (xs : list Z) n : NoDup xs → (∀ x, x ∈ xs → 0 ≤ x < n) → (length xs ≤ Z.to_nat n)%nat.
Proof.
  intros Hnd Hr. rewrite <- (length_seqZ 0 n). apply submseteq_length, NoDup_submseteq; [done|].
  intros x Hx. apply elem_of_seqZ. specialize (Hr x Hx). lia.
Qed.

Lemma length_idx (w : list request) : length (w ≫= r_idx) = (3 * length w)%nat.
Proof. induction w as [|r w IH]; [done|]. cbn [mbind list_bind]. rewrite length_app, IH. simpl. lia. Qed.

Lemma idx_perm (w w' : list request) : w ≡ₚ w' → w ≫= r_idx ≡ₚ w' ≫= r_idx.
Proof. intros Hw. by rewrite Hw. Qed.

Section rings.
Implicit Types (ring : gmap Z Z) (lo hi : Z) (rs : list request).

Lemma u16_mod_NUM x : u16 x `mod` NUM = x `mod` NUM.
Proof. unfold u16, NUM. change (2 ^ 16) with (8 * 8192). rewrite Z.rem_mul_r by lia.
  rewrite Z.mul_comm, Z.mod_add by lia. apply Z.mod_mod. lia. Qed.
Lemma u16_u16 x y : u16 (u16 x + y) = u16 (x + y).
Proof. unfold u16. by rewrite Zplus_mod_idemp_l. Qed.
Lemma u16_id x : counter x → u16 x = x.
Proof. intros Hx. by apply Z.mod_small. Qed.
Lemma counter_u16 x : counter (u16 x).
Proof. apply Z.mod_pos_bound. lia. Qed.

Lemma ring_slots_differ lo j k : (j < k < Z.to_nat NUM)%nat →
  (lo + Z.of_nat j) `mod` NUM ≠ (lo + Z.of_nat k) `mod` NUM.
Proof.
  unfold NUM. intros Hjk He. assert ((Z.of_nat k - Z.of_nat j) `mod` 8 = 0) as Hm.
  { replace (Z.of_nat k - Z.of_nat j) with ((lo + Z.of_nat k) - (lo + Z.of_nat j)) by lia.
    rewrite Zminus_mod, He, Z.sub_diag. done. }
  rewrite Z.mod_small in Hm; lia.
Qed.

Lemma vring_push ring lo hi rs r : ring_holds ring lo hi rs → (length rs < Z.to_nat NUM)%nat →
  ring_holds (<[hi `mod` NUM := r_0 r]> ring) lo (u16 (hi + 1)) (rs ++ [r]).
Proof.
  intros [-> Hr] Hn. split.
  - rewrite u16_u16, length_app. simpl. f_equal. lia.
  - intros k q Hk. rewrite u16_mod_NUM. apply lookup_app_Some in Hk as [Hk|[Hk Hq]].
    + pose proof (lookup_lt_Some _ _ _ Hk). rewrite lookup_insert_ne; [by apply Hr|].
      intros He. by apply (ring_slots_differ lo k (length rs)); [lia|].
    + apply list_lookup_singleton_Some in Hq as [Hk0 <-]. replace k with (length rs) by lia. apply lookup_insert_eq.
Qed.
Lemma vring_head ring lo hi r rs : ring_holds ring lo hi (r :: rs) → ring !! (lo `mod` NUM) = Some (r_0 r).
Proof. intros [_ Hr]. specialize (Hr O r eq_refl). by rewrite Z.add_0_r in Hr. Qed.
Lemma vring_pop ring lo hi r rs : ring_holds ring lo hi (r :: rs) → ring_holds ring (u16 (lo + 1)) hi rs.
Proof.
  intros [Hhi Hr]. split.
  - rewrite u16_u16. rewrite Hhi. f_equal. simpl length. lia.
  - intros k q Hk. specialize (Hr (S k) q Hk).
    replace ((u16 (lo + 1) + Z.of_nat k) `mod` NUM) with ((lo + Z.of_nat (S k)) `mod` NUM); [done|].
    rewrite <- (u16_mod_NUM (u16 (lo + 1) + _)), u16_u16, u16_mod_NUM. f_equal. lia.
Qed.
Lemma vring_empty ring lo hi rs : counter lo → (length rs < Z.to_nat NUM)%nat → ring_holds ring lo hi rs →
  lo = hi ↔ rs = [].
Proof.
  unfold counter, NUM. intros Hlo Hn [-> _]. split; [|intros ->; rewrite Z.add_0_r; by rewrite u16_id].
  intros He. destruct rs as [|r rs]; [done|]. exfalso. simpl length in *. unfold u16 in He.
  destruct (decide (lo + Z.of_nat (S (length rs)) < 2 ^ 16)); [rewrite Z.mod_small in He; lia|].
  rewrite <- (Z.mod_unique (lo + Z.of_nat (S (length rs))) (2 ^ 16) 1 (lo + Z.of_nat (S (length rs)) - 2 ^ 16)) in He; lia.
Qed.
End rings.

(** * What a request depends on *)

Definition same_for (r : request) (s s' : vst) : Prop :=
  (∀ i, i ∈ r_idx r → desc s' !! i = desc s !! i) ∧ ops s' !! r_0 r = ops s !! r_0 r ∧
  info s' !! r_0 r = info s !! r_0 r ∧ vbufs s' !! r_b r = vbufs s !! r_b r ∧
  platter (dev s') !! r_sector r = platter (dev s) !! r_sector r ∧
  (r_b r ∈ woken s → r_b r ∈ woken s').

Lemma formatted_frame r s s' : same_for r s s' → formatted s r → formatted s' r.
Proof.
  unfold formatted. intros (Hd & Ho & _) (H0 & H1 & H2 & H3).
  by rewrite Ho, !Hd by (unfold r_idx; rewrite !elem_of_cons; auto).
Qed.
Lemma moved_frame r s s' st busy d1 d2 : same_for r s s' → moved s r st busy d1 d2 → moved s' r st busy d1 d2.
Proof. unfold moved. by intros (_ & _ & -> & -> & -> & _). Qed.
Lemma pending_frame s s' rs : (∀ r, r ∈ rs → same_for r s s') → Forall (pending s) rs → Forall (pending s') rs.
Proof.
  rewrite !Forall_forall. intros Hs Hp r Hr. destruct (Hp r Hr).
  split; [eapply formatted_frame|eapply moved_frame]; eauto.
Qed.
Lemma served_frame s s' busy rs : (∀ r, r ∈ rs → same_for r s s') → Forall (served s busy) rs → Forall (served s' busy) rs.
Proof.
  rewrite !Forall_forall. intros Hs Hp r Hr. destruct (Hp r Hr) as (F & M & W).
  destruct (Hs r Hr) as (_ & _ & _ & _ & _ & Hw).
  split_and!; [eapply formatted_frame|eapply moved_frame|]; eauto.
Qed.

Lemma parts_frame s s' av tk us dn :
  (∀ r, r ∈ av ++ tk ++ us ++ dn → same_for r s s') →
  avail_ring s' = avail_ring s → avail_idx s' = avail_idx s → used_ring s' = used_ring s →
  used_idx_dev s' = used_idx_dev s → used_idx s' = used_idx s → dv_seen (dev s') = dv_seen (dev s) →
  dv_taken (dev s') = dv_taken (dev s) →
  parts s av tk us dn → parts s' av tk us dn.
Proof.
  intros Hs E1 E2 E3 E4 E5 E6 E7 [? ? ? Hp Hu Hd]. split; rewrite ?E1, ?E2, ?E3, ?E4, ?E5, ?E6, ?E7; try done.
  - eapply pending_frame, Hp. intros r Hr. apply Hs. rewrite !elem_of_app in *. tauto.
  - eapply served_frame, Hu. intros r Hr. apply Hs. rewrite !elem_of_app. tauto.
  - eapply served_frame, Hd. intros r Hr. apply Hs. rewrite !elem_of_app. tauto.
Qed.
