(* ===== verification/VirtioOps.v ===== *)
(** What the operations of the disk driver do to the shared memory, and that they
    keep the invariant of [VirtioSpec]. *)

From S2P Require Import Prelude Riscv Threads Sleeplock Bio Virtio VirtioSpec.
Local Open Scope Z_scope.

(** * The operations, run on a state *)

Section runs.
Implicit Types (s : vst) (i b : Z) (d : virtq_desc).

Lemma get_at_ok {A} (f : vst → gmap Z A) i s a : f s !! i = Some a → get_at f i s = Ok a s.
Proof. unfold get_at, get_some. by intros ->. Qed.
Lemma put_desc_ok i f s d : desc s !! i = Some d → put_desc i f s = Ok tt (set_desc (<[i := f d]> (desc s)) s).
Proof. intros Hd. unfold put_desc. by rewrite (bind_Ok _ _ _ _ _ (get_at_ok _ _ _ _ Hd)). Qed.
Lemma put_free_ok i v s v0 : vfree s !! i = Some v0 → put_free i v s = Ok tt (set_free (<[i := v]> (vfree s)) s).
Proof. intros Hd. unfold put_free. by rewrite (bind_Ok _ _ _ _ _ (get_at_ok _ _ _ _ Hd)). Qed.
Lemma put_info_ok i f s x : info s !! i = Some x → put_info i f s = Ok tt (set_info (<[i := f x]> (info s)) s).
Proof. intros Hd. unfold put_info. by rewrite (bind_Ok _ _ _ _ _ (get_at_ok _ _ _ _ Hd)). Qed.
Lemma put_ops_ok i r s x : ops s !! i = Some x → put_ops i r s = Ok tt (set_ops (<[i := r]> (ops s)) s).
Proof. intros Hd. unfold put_ops. by rewrite (bind_Ok _ _ _ _ _ (get_at_ok _ _ _ _ Hd)). Qed.
Lemma put_buf_disk_ok b v s x : vbufs s !! b = Some x →
  put_buf_disk b v s = Ok tt (set_vbufs (<[b := Vbuf v (vb_blockno x) (vb_data x)]> (vbufs s)) s).
Proof. intros Hd. unfold put_buf_disk. by rewrite (bind_Ok _ _ _ _ _ (get_at_ok _ _ _ _ Hd)). Qed.

(** ** Allocation *)

Definition take_desc i s : vst := set_free (<[i := false]> (vfree s)) s.
Definition drop_desc i s : vst :=
  let s1 := set_free (<[i := true]> (vfree s)) (set_desc (<[i := Desc ANull 0 0 0]> (desc s)) s) in
  set_thread (with_woken ({[free_chan]} ∪ th_woken (the_thread s1)) (the_thread s1)) s1.

Lemma take_desc_free (is_ : list Z) : ∀ s j,
  vfree (foldl (λ s i, take_desc i s) s is_) !! j = if decide (j ∈ is_) then Some false else vfree s !! j.
Proof.
  induction is_ as [|i is_ IH]; intros s j; cbn [foldl].
  - destruct (decide (j ∈ [])) as [Hj|]; [by apply elem_of_nil in Hj|done].
  - rewrite IH. assert (j ∈ i :: is_ ↔ j = i ∨ j ∈ is_) as He by apply elem_of_cons.
    destruct (decide (j ∈ is_)), (decide (j ∈ i :: is_)); try tauto; simpl.
    + destruct (decide (j = i)) as [->|]; [apply lookup_insert_eq|tauto].
    + apply lookup_insert_ne. intros Hi. symmetry in Hi. tauto.
Qed.

Lemma alloc_desc_loop_spec n : ∀ i s, (∀ j, i ≤ j < i + Z.of_nat n → is_Some (vfree s !! j)) →
  (∃ j, i ≤ j < i + Z.of_nat n ∧ vfree s !! j = Some true ∧ alloc_desc_loop n i s = Ok j (take_desc j s)) ∨
  alloc_desc_loop n i s = Ok (-1) s ∧ ∀ j, i ≤ j < i + Z.of_nat n → vfree s !! j = Some false.
Proof.
  induction n as [|n IH]; intros i s Hs; [right; split; [done|lia]|]. cbn [alloc_desc_loop].
  destruct (Hs i) as [f Hf]; [lia|]. rewrite (bind_Ok _ _ _ _ _ (get_at_ok vfree i s f Hf)). destruct f.
  - left. exists i. split_and!; [lia..|done|]. by rewrite (bind_Ok _ _ _ _ _ (put_free_ok i false s _ Hf)).
  - destruct (IH (i + 1) s) as [(j & Hj & Hjf & He)|[He Hn]]; [intros j Hj; apply Hs; lia| |].
    2:{ right. split; [done|]. intros j Hj. destruct (decide (j = i)) as [->|]; [done|]. apply Hn. lia. }
    left. exists j. split_and!; [lia..|done|done].
Qed.
Lemma alloc_desc_spec s : slots (vfree s) →
  (∃ j, 0 ≤ j < NUM ∧ vfree s !! j = Some true ∧ alloc_desc s = Ok j (take_desc j s)) ∨
  alloc_desc s = Ok (-1) s ∧ ∀ j, 0 ≤ j < NUM → vfree s !! j = Some false.
Proof. intros Hs. apply (alloc_desc_loop_spec (Z.to_nat NUM) 0 s). intros j Hj. apply Hs. lia. Qed.

Lemma free_desc_ok i s : 0 ≤ i < NUM → vfree s !! i = Some false → is_Some (desc s !! i) →
  free_desc i s = Ok tt (drop_desc i s).
Proof.
  intros Hi Hf [d Hd]. unfold free_desc. destruct (Z.leb_spec NUM i); [lia|].
  rewrite (bind_Ok _ _ _ _ _ (get_at_ok vfree i s _ Hf)).
  rewrite (bind_Ok _ _ _ _ _ (put_desc_ok i _ s d Hd)).
  erewrite (bind_Ok (put_free i true)); [|by apply (put_free_ok i true _ false)]. done.
Qed.

Fixpoint dropped (idx : list Z) s : vst :=
  match idx with [] => s | i :: idx => dropped idx (drop_desc i s) end.
Lemma free_all_ok idx : ∀ s, NoDup idx → (∀ i, i ∈ idx → 0 ≤ i < NUM ∧ vfree s !! i = Some false ∧ is_Some (desc s !! i)) →
  free_all idx s = Ok tt (dropped idx s).
Proof.
  induction idx as [|i idx IH]; intros s Hnd Hi; [done|]. apply NoDup_cons in Hnd as [Hni Hnd].
  destruct (Hi i) as (Hr & Hf & Hd); [left|]. cbn [free_all].
  rewrite (bind_Ok _ _ _ _ _ (free_desc_ok i s Hr Hf Hd)). apply IH; [done|].
  intros j Hj. assert (j ≠ i) by congruence. destruct (Hi j) as (? & ? & ?); [by right|].
  unfold drop_desc. simpl. by rewrite !lookup_insert_ne by done.
Qed.

(** What a failed attempt leaves: free descriptors that are cleared. *)
Definition only_free s s' : Prop :=
  ∃ t D, s' = set_thread t (set_desc D s) ∧ th_held t = held s ∧ woken s ⊆ th_woken t ∧
    (∀ i, vfree s !! i ≠ Some true → D !! i = desc s !! i) ∧ (slots (desc s) → slots D).

(** Any three free descriptors are not all different. *)
Definition few_free s : Prop :=
  ∀ is_, (∀ i, i ∈ is_ → 0 ≤ i < NUM ∧ vfree s !! i = Some true) → NoDup is_ → (length is_ ≤ 2)%nat.
Lemma few_free_by s js : (length js ≤ 2)%nat →
  (∀ j, 0 ≤ j < NUM → vfree (foldl (λ s i, take_desc i s) s js) !! j = Some false) → few_free s.
Proof.
  intros Hl Hf is_ Hi Hnd. transitivity (length js); [|done]. apply submseteq_length, NoDup_submseteq; [done|].
  intros i His. destruct (Hi i His) as [Hr Ht]. specialize (Hf i Hr). rewrite take_desc_free in Hf.
  destruct (decide (i ∈ js)); [done|]. congruence.
Qed.

Lemma slots_insert {A} (m : gmap Z A) i a : slots m → slots (<[i := a]> m).
Proof. intros Hm j Hj. apply lookup_insert_is_Some'. right. by apply Hm. Qed.

Lemma alloc3_desc_spec s : slots (vfree s) → slots (desc s) →
  (∃ i0 i1 i2, alloc3_desc s = Ok (Some [i0; i1; i2]) (take_desc i2 (take_desc i1 (take_desc i0 s))) ∧
     NoDup [i0; i1; i2] ∧ ∀ i, i ∈ [i0; i1; i2] → 0 ≤ i < NUM ∧ vfree s !! i = Some true) ∨
  (∃ s', alloc3_desc s = Ok None s' ∧ only_free s s' ∧ few_free s).
Proof.
  intros Hs Hd. unfold alloc3_desc. cbn [alloc3_loop].
  destruct (alloc_desc_spec s Hs) as [(i0 & Hi0 & Hf0 & E0)|[E0 Hnone]]; rewrite (bind_Ok _ _ _ _ _ E0).
  2:{ right. change (-1 <? 0) with true. exists s. split_and!; [done| |apply (few_free_by s []); [simpl; lia|exact Hnone]].
      exists (the_thread s), (desc s). split_and!; try done. by destruct s. }
  destruct (Z.ltb_spec i0 0); [lia|]. cbn [alloc3_loop app].
  set (s1 := take_desc i0 s) in *. assert (slots (vfree s1)) as Hs1 by by apply slots_insert.
  destruct (alloc_desc_spec s1 Hs1) as [(i1 & Hi1 & Hf1 & E1)|[E1 Hnone]]; rewrite (bind_Ok _ _ _ _ _ E1).
  2:{ right. change (-1 <? 0) with true. cbn iota. erewrite bind_Ok.
      2:{ apply (free_all_ok [i0]); [apply NoDup_singleton|]. intros i ->%list_elem_of_singleton.
          split_and!; [lia..|apply lookup_insert_eq|by apply Hd]. }
      eexists. split_and!; [reflexivity| |apply (few_free_by s [i0]); [simpl; lia|exact Hnone]].
      exists (the_thread (drop_desc i0 s1)), (<[i0 := Desc ANull 0 0 0]> (desc s)).
      split_and!; [|done|apply union_subseteq_r| |intros; by apply slots_insert].
      - cbn [dropped]. unfold drop_desc, s1, take_desc. simpl. rewrite insert_insert_eq, (insert_id (vfree s)) by done. by destruct s.
      - intros i Hi. apply lookup_insert_ne. by intros <-. }
  assert (i1 ≠ i0 ∧ vfree s !! i1 = Some true) as [Hne1 Hf1'].
  { unfold s1, take_desc in Hf1. simpl in Hf1. destruct (decide (i1 = i0)) as [->|Hn]; [by rewrite lookup_insert_eq in Hf1|].
    by rewrite lookup_insert_ne in Hf1 by done. }
  destruct (Z.ltb_spec i1 0); [lia|]. cbn [alloc3_loop app].
  set (s2 := take_desc i1 s1) in *. assert (slots (vfree s2)) as Hs2 by by apply slots_insert.
  destruct (alloc_desc_spec s2 Hs2) as [(i2 & Hi2 & Hf2 & E2)|[E2 Hnone]]; rewrite (bind_Ok _ _ _ _ _ E2).
  2:{ right. change (-1 <? 0) with true. cbn iota. erewrite bind_Ok.
      2:{ apply (free_all_ok [i0; i1]); [by apply NoDup_cons; split; [set_solver|apply NoDup_singleton]|].
          intros i. rewrite elem_of_cons, list_elem_of_singleton.
          intros [->| ->]; (split_and!; [lia..| |by apply Hd]); simpl.
          - rewrite lookup_insert_ne by done. apply lookup_insert_eq.
          - apply lookup_insert_eq. }
      eexists. split_and!; [reflexivity| |apply (few_free_by s [i0; i1]); [simpl; lia|exact Hnone]].
      exists (the_thread (drop_desc i1 (drop_desc i0 s2))), (<[i1 := Desc ANull 0 0 0]> (<[i0 := Desc ANull 0 0 0]> (desc s))).
      split_and!; [|done|simpl; clear; set_solver| |intros; by do 2 apply slots_insert].
      - cbn [dropped]. unfold drop_desc, s2, s1, take_desc. simpl.
        rewrite (insert_insert_ne _ i0 i1 true false), !insert_insert_eq by done.
        rewrite (insert_id (vfree s) i0), (insert_id (vfree s) i1) by done. by destruct s.
      - intros i Hi. rewrite !lookup_insert_ne; [done|by intros <-|by intros <-]. }
  assert (i2 ≠ i1 ∧ i2 ≠ i0 ∧ vfree s !! i2 = Some true) as (Hne2 & Hne3 & Hf2').
  { unfold s2, s1, take_desc in Hf2. simpl in Hf2.
    destruct (decide (i2 = i1)) as [->|Hn]; [by rewrite lookup_insert_eq in Hf2|].
    rewrite lookup_insert_ne in Hf2 by done.
    destruct (decide (i2 = i0)) as [->|Hn']; [by rewrite lookup_insert_eq in Hf2|].
    by rewrite lookup_insert_ne in Hf2 by done. }
  destruct (Z.ltb_spec i2 0); [lia|]. left. exists i0, i1, i2. split_and!; [done| |].
  - repeat apply NoDup_cons_2; [..|apply NoDup_nil_2]; rewrite ?elem_of_cons, elem_of_nil; clear -Hne1 Hne2 Hne3; intuition congruence.
  - intros i. rewrite !elem_of_cons, elem_of_nil. clear -Hi0 Hf0 Hi1 Hf1' Hi2 Hf2'.
    by intros [->|[->|[->|[]]]].
Qed.

(** ** Submission and completion *)

Definition submitted (r : request) (bn : Z) s : vst :=
  set_regs ((VIRTIO_MMIO_QUEUE_NOTIFY, 0) :: regs s)
    (set_avail (u16 (avail_idx s + 1)) (<[avail_idx s `mod` NUM := r_0 r]> (avail_ring s))
      (set_vbufs (<[r_b r := Vbuf 1 bn (r_data r)]> (vbufs s))
        (set_info (<[r_0 r := Info (r_b r) 0xff]> (info s))
          (set_desc (<[r_2 r := Desc (AStatus (r_0 r)) 1 VRING_DESC_F_WRITE 0]>
                     (<[r_1 r := Desc (AData (r_b r)) BSIZE (Z.lor (if r_write r then 0 else VRING_DESC_F_WRITE) VRING_DESC_F_NEXT) (r_2 r)]>
                      (<[r_0 r := Desc (AOps (r_0 r)) sizeof_blk_req VRING_DESC_F_NEXT (r_1 r)]> (desc s))))
            (set_ops (<[r_0 r := Req (if r_write r then VIRTIO_BLK_T_OUT else VIRTIO_BLK_T_IN) 0 (r_sector r)]> (ops s)) s))))).

Lemma woken_submitted r bn s is_ : woken (submitted r bn (foldl (λ s i, take_desc i s) s is_)) = woken s.
Proof. revert s. induction is_ as [|i is_ IH]; intros s; [done|]. apply (IH (take_desc i s)). Qed.

Lemma slots_lookup {A} (m : gmap Z A) i : slots m → 0 ≤ i < NUM → ∃ a, m !! i = Some a.
Proof. intros Hm Hi. apply (Hm i Hi). Qed.

Lemma rw_submit_ok (r : request) x s :
  slots (desc s) → slots (info s) → slots (ops s) → (∀ i, i ∈ r_idx r → 0 ≤ i < NUM) →
  vbufs s !! r_b r = Some x → r_sector r = u32 (vb_blockno x * (BSIZE / 512)) → r_data r = vb_data x →
  rw_submit (r_0 r) (r_1 r) (r_2 r) (r_b r) (r_write r) s = Ok tt (submitted r (vb_blockno x) s).
Proof.
  intros Hd Hi Ho Hr Hb Hsec Hdata. unfold r_idx in Hr.
  assert (0 ≤ r_0 r < NUM ∧ 0 ≤ r_1 r < NUM ∧ 0 ≤ r_2 r < NUM) as (H0 & H1 & H2)
    by (split_and!; apply Hr; rewrite !elem_of_cons; auto).
  destruct (slots_lookup _ _ Ho H0) as [o Eo]. destruct (slots_lookup _ _ Hi H0) as [y Ey].
  unfold rw_submit. rewrite (bind_Ok _ _ _ _ _ (get_at_ok vbufs _ s x Hb)). rewrite <- Hsec.
  rewrite (bind_Ok _ _ _ _ _ (put_ops_ok _ _ s o Eo)).
  destruct (slots_lookup _ _ Hd H0) as [d0 E0].
  erewrite (bind_Ok (put_desc (r_0 r) _)) by (apply put_desc_ok; exact E0).
  destruct (slots_lookup _ _ (slots_insert _ (r_0 r) (Desc (AOps (r_0 r)) sizeof_blk_req VRING_DESC_F_NEXT (r_1 r)) Hd) H1) as [d1 E1].
  erewrite (bind_Ok (put_desc (r_1 r) _)) by (apply put_desc_ok; exact E1).
  erewrite (bind_Ok (put_info (r_0 r) _)) by (apply put_info_ok; exact Ey).
  match goal with |- bind (put_desc _ _) _ ?s1 = _ =>
    destruct (slots_lookup (desc s1) _ (slots_insert _ _ _ (slots_insert _ _ _ Hd)) H2) as [d2 E2] end.
  erewrite (bind_Ok (put_desc (r_2 r) _)) by (apply put_desc_ok; exact E2).
  erewrite (bind_Ok (put_buf_disk _ _)) by (apply put_buf_disk_ok; exact Hb).
  erewrite (bind_Ok (put_info (r_0 r) _)) by (apply put_info_ok, lookup_insert_eq).
  unfold submitted. rewrite Hdata. unfold bind, modify. simpl. by rewrite insert_insert_eq.
Qed.

(** The chain of a request that is done. *)
Definition finished (r : request) s : vst :=
  dropped (r_idx r) (set_info (<[r_0 r := Info 0 0]> (info s)) s).

Lemma free_chain_ok (r : request) fuel s : (3 ≤ fuel)%nat → formatted s r → NoDup (r_idx r) →
  (∀ i, i ∈ r_idx r → 0 ≤ i < NUM ∧ vfree s !! i = Some false) →
  free_chain fuel (r_0 r) s = Ok tt (dropped (r_idx r) s).
Proof.
  intros Hf (H0 & H1 & H2 & _) Hnd Hi. destruct fuel as [|[|[|fuel]]]; [lia..|]. unfold r_idx in *.
  apply NoDup_cons in Hnd as [Hn0 [Hn1 _]%NoDup_cons].
  assert (r_1 r ≠ r_0 r ∧ r_2 r ≠ r_0 r ∧ r_2 r ≠ r_1 r) as (N1 & N2 & N3) by (clear -Hn0 Hn1; set_solver).
  destruct (Hi (r_0 r)) as [R0 F0]; [left|]. destruct (Hi (r_1 r)) as [R1 F1]; [right; left|].
  destruct (Hi (r_2 r)) as [R2 F2]; [right; right; left|]. clear Hi Hn0 Hn1.
  cbn [free_chain]. rewrite (bind_Ok _ _ _ _ _ (get_at_ok desc _ s _ H0)).
  rewrite (bind_Ok _ _ _ _ _ (free_desc_ok _ s R0 F0 (ex_intro _ _ H0))). cbn [d_flags d_next].
  change (negb (Z.land VRING_DESC_F_NEXT VRING_DESC_F_NEXT =? 0)) with true. cbn iota.
  set (s1 := drop_desc (r_0 r) s).
  assert (desc s1 !! r_1 r = Some (Desc (AData (r_b r)) BSIZE (Z.lor (if r_write r then 0 else VRING_DESC_F_WRITE) VRING_DESC_F_NEXT) (r_2 r))) as H1'
    by (simpl; by rewrite lookup_insert_ne).
  assert (vfree s1 !! r_1 r = Some false) as F1' by (simpl; by rewrite lookup_insert_ne).
  rewrite (bind_Ok _ _ _ _ _ (get_at_ok desc _ s1 _ H1')).
  rewrite (bind_Ok _ _ _ _ _ (free_desc_ok _ s1 R1 F1' (ex_intro _ _ H1'))). cbn [d_flags d_next].
  replace (negb (Z.land (Z.lor (if r_write r then 0 else VRING_DESC_F_WRITE) VRING_DESC_F_NEXT) VRING_DESC_F_NEXT =? 0))
    with true by by destruct (r_write r). cbn iota.
  set (s2 := drop_desc (r_1 r) s1).
  assert (desc s2 !! r_2 r = Some (Desc (AStatus (r_0 r)) 1 VRING_DESC_F_WRITE 0)) as H2'
    by (simpl; by rewrite !lookup_insert_ne).
  assert (vfree s2 !! r_2 r = Some false) as F2' by (simpl; by rewrite !lookup_insert_ne).
  rewrite (bind_Ok _ _ _ _ _ (get_at_ok desc _ s2 _ H2')).
  by rewrite (bind_Ok _ _ _ _ _ (free_desc_ok _ s2 R2 F2' (ex_intro _ _ H2'))).
Qed.

Lemma rw_finish_ok (r : request) s : formatted s r → info s !! r_0 r = Some (Info (r_b r) 0) → NoDup (r_idx r) →
  (∀ i, i ∈ r_idx r → 0 ≤ i < NUM ∧ vfree s !! i = Some false) → rw_finish (r_0 r) s = Ok tt (finished r s).
Proof.
  intros Hf Hi Hnd Hr. unfold rw_finish. rewrite (bind_Ok _ _ _ _ _ (put_info_ok _ _ s _ Hi)).
  apply free_chain_ok; [unfold NUM; lia|exact Hf|done|exact Hr].
Qed.

(** What dropping descriptors changes. *)
Lemma dropped_other idx : ∀ s i, i ∉ idx → desc (dropped idx s) !! i = desc s !! i ∧ vfree (dropped idx s) !! i = vfree s !! i.
Proof.
  induction idx as [|j idx IH]; intros s i Hi; [done|]. apply not_elem_of_cons in Hi as [Hne Hi].
  destruct (IH (drop_desc j s) i Hi) as [E1 E2]. cbn [dropped]. rewrite E1, E2. simpl. by rewrite !lookup_insert_ne.
Qed.
Lemma dropped_freed idx : ∀ s i, i ∈ idx → vfree (dropped idx s) !! i = Some true.
Proof.
  induction idx as [|j idx IH]; intros s i Hi; [by apply elem_of_nil in Hi|]. cbn [dropped].
  destruct (decide (i ∈ idx)) as [Hin|Hin]; [by apply IH|]. apply elem_of_cons in Hi as [->|Hi]; [|done].
  rewrite (proj2 (dropped_other idx _ _ Hin)). apply lookup_insert_eq.
Qed.
Lemma dropped_same idx : ∀ s, let s' := dropped idx s in
  avail_idx s' = avail_idx s ∧ avail_ring s' = avail_ring s ∧ used_idx_dev s' = used_idx_dev s ∧
  used_ring s' = used_ring s ∧ used_idx s' = used_idx s ∧ info s' = info s ∧ ops s' = ops s ∧
  vbufs s' = vbufs s ∧ dev s' = dev s ∧ held s' = held s ∧ (slots (desc s) → slots (desc s')) ∧
  woken s ⊆ woken s' ∧ (idx ≠ [] → free_chan ∈ woken s').
Proof.
  induction idx as [|j idx IH]; intros s; [done|]. destruct (IH (drop_desc j s)) as (E1 & E2 & E3 & E4 & E5 & E6 & E7 & E8 & E9 & E10 & E11 & E12 & _).
  cbn [dropped]. cbn zeta. rewrite E1, E2, E3, E4, E5, E6, E7, E8, E9, E10. split_and!; try done.
  - intros Hs. apply E11. by apply slots_insert.
  - etransitivity; [|exact E12]. apply union_subseteq_r.
  - intros _. apply E12. apply elem_of_union_l, elem_of_singleton_2, eq_refl.
Qed.
End runs.
