(* ===== verification/VirtioTheorems.v ===== *)
(** The disk driver is safe and loses no request: the invariant of [VirtioSpec]
    holds in every state that can be reached, and what follows from it. *)

From stdpp Require Import list_tactics.
From S2P Require Import Prelude Riscv Threads Sleeplock Bio Virtio VirtioSpec VirtioOps.
Local Open Scope Z_scope.

(** * The requests own their descriptors *)

Section owned.
Implicit Types (s : vst) (w : list request) (r q : request).

Lemma owned_perm s w w' : w ≡ₚ w' → owned s w → owned s w'.
Proof.
  intros Hw [O1 O2 O3 O4 O5]. split.
  - by rewrite <- Hw.
  - intros i. rewrite <- Hw. apply O2.
  - intros i Hi. rewrite (O3 i Hi). f_equal. apply bool_decide_ext. by rewrite Hw.
  - by rewrite <- Hw.
  - by rewrite <- Hw.
Qed.

Lemma owned_length s w : owned s w → (length w ≤ 2)%nat.
Proof.
  intros Ho. pose proof (NoDup_range_length _ NUM (o_nodup _ _ Ho) (o_range _ _ Ho)) as Hl.
  rewrite length_idx in Hl. unfold NUM in Hl. lia.
Qed.

Lemma owned_one s w r : owned s (r :: w) →
  NoDup (r_idx r) ∧ (∀ i, i ∈ r_idx r → 0 ≤ i < NUM ∧ vfree s !! i = Some false) ∧
  ∀ q, q ∈ w → r_b q ≠ r_b r ∧ r_sector q ≠ r_sector r ∧ ∀ i, i ∈ r_idx q → i ∉ r_idx r.
Proof.
  intros [O1 O2 O3 O4 O5]. cbn [mbind list_bind] in *. apply NoDup_app in O1 as (N1 & N2 & N3).
  rewrite fmap_cons in O4, O5. apply NoDup_cons in O4 as [B1 _]. apply NoDup_cons in O5 as [S1 _].
  split_and!; [done| |].
  - intros i Hi. assert (0 ≤ i < NUM) as Hr by (apply O2, elem_of_app; by left). split; [done|].
    rewrite (O3 i Hr), bool_decide_false; [done|]. intros Hn. apply Hn, elem_of_app. by left.
  - intros q Hq. split_and!.
    + intros He. apply B1. rewrite <- He. by apply list_elem_of_fmap_2.
    + intros He. apply S1. rewrite <- He. by apply list_elem_of_fmap_2.
    + intros i Hi Hi'. apply (N2 i Hi'). apply list_elem_of_bind. eauto.
Qed.

Lemma idx_0 r : r_0 r ∈ r_idx r.
Proof. left. Qed.

Lemma owned_grow s s' w r :
  owned s w → NoDup (r_idx r) → (∀ i, i ∈ r_idx r → 0 ≤ i < NUM ∧ vfree s !! i = Some true) →
  r_b r ∉ (r_b <$> w) → r_sector r ∉ (r_sector <$> w) →
  (∀ i, vfree s' !! i = if decide (i ∈ r_idx r) then Some false else vfree s !! i) →
  owned s' (r :: w).
Proof.
  intros [O1 O2 O3 O4 O5] Hnd Hi Hb Hs Hf.
  assert (∀ i, i ∈ r_idx r → i ∉ w ≫= r_idx) as Hnew.
  { intros i Hir Hiw. destruct (Hi i Hir) as [Hr Ht]. rewrite (O3 i Hr), bool_decide_false in Ht; [done|tauto]. }
  split; cbn [mbind list_bind].
  - apply NoDup_app. auto.
  - intros i [Hir|Hiw]%elem_of_app; [by apply Hi|by apply O2].
  - intros i Hr. rewrite Hf. destruct (decide (i ∈ r_idx r)) as [Hir|Hir].
    + symmetry. f_equal. apply bool_decide_eq_false. intros Hn. apply Hn, elem_of_app. by left.
    + rewrite (O3 i Hr). f_equal. apply bool_decide_ext. rewrite elem_of_app.
      change (list_bind _ _ r_idx w) with (w ≫= r_idx). tauto.
  - by apply NoDup_cons.
  - by apply NoDup_cons.
Qed.
Lemma owned_shrink s s' w r :
  owned s (r :: w) → (∀ i, vfree s' !! i = if decide (i ∈ r_idx r) then Some true else vfree s !! i) → owned s' w.
Proof.
  intros Ho Hf. destruct (owned_one _ _ _ Ho) as (_ & _ & Hdisj). destruct Ho as [O1 O2 O3 O4 O5].
  cbn [mbind list_bind] in *. apply NoDup_app in O1 as (N1 & N2 & N3).
  split; [done| | |by apply NoDup_cons in O4 as []|by apply NoDup_cons in O5 as []].
  - intros i Hi. apply O2, elem_of_app. by right.
  - intros i Hr. rewrite Hf. destruct (decide (i ∈ r_idx r)) as [Hir|Hir].
    + symmetry. f_equal. apply bool_decide_eq_true. by apply N2.
    + rewrite (O3 i Hr). f_equal. apply bool_decide_ext. rewrite elem_of_app.
      change (list_bind _ _ r_idx w) with (w ≫= r_idx). tauto.
Qed.
Lemma owned_frame s s' w : (∀ i, vfree s' !! i = vfree s !! i) → owned s w → owned s' w.
Proof. intros Hf [O1 O2 O3 O4 O5]. split; try done. intros i Hi. rewrite Hf. by apply O3. Qed.
End owned.

(** * Every step keeps the invariant *)

Section keep.
Implicit Types (s : vst) (w av tk us dn : list request) (r q : request).

(** The invariant with its parts, without the lock. *)
Record core s w av tk us dn : Prop := {
  c_arrays : arrays s;
  c_owned : owned s w;
  c_perm : w ≡ₚ av ++ tk ++ us ++ dn;
  c_parts : parts s av tk us dn;
}.
Lemma vinv_core s w : vinv (Vsys s w) ↔ held s = ∅ ∧ ∃ av tk us dn, core s w av tk us dn.
Proof.
  split.
  - intros (Hh & Ha & Ho & av & tk & us & dn & Hw & Hp). split; [done|]. by exists av, tk, us, dn.
  - intros (Hh & av & tk & us & dn & [Ha Ho Hw Hp]). split_and!; [done..|]. by exists av, tk, us, dn.
Qed.

(** The registers do not matter, and of the thread only what has been woken. *)
Lemma core_thread t s w av tk us dn : (∀ r, r ∈ dn → r_b r ∈ woken s → r_b r ∈ th_woken t) →
  core s w av tk us dn → core (set_thread t s) w av tk us dn.
Proof.
  intros Ht [A O P [P1 P2 P3 P4 P5 P6]]. split; [by destruct A|by destruct O|done|]. split; try done.
  - eapply Forall_impl; [exact P5|]. by intros r (F & M & _).
  - rewrite Forall_forall in *. intros r Hr. destruct (P6 r Hr) as (F & M & W). split_and!; [done..|].
    intros Hb. by apply Ht, W.
Qed.
Lemma core_regs rs s w av tk us dn : core s w av tk us dn → core (set_regs rs s) w av tk us dn.
Proof. intros [A O P Q]. split; [by destruct A|by destruct O|done|destruct Q; split; assumption]. Qed.

Lemma core_lengths s w av tk us dn : core s w av tk us dn →
  (length av < Z.to_nat NUM ∧ length us < Z.to_nat NUM)%nat.
Proof.
  intros C. pose proof (owned_length _ _ (c_owned _ _ _ _ _ _ C)) as Hl.
  rewrite (c_perm _ _ _ _ _ _ C), !length_app in Hl. unfold NUM. lia.
Qed.

Lemma core_fetch s s' w av tk us dn : core s w av tk us dn → dev_fetch s = Some s' →
  ∃ r av', av = r :: av' ∧ core s' w av' (tk ++ [r]) us dn ∧ held s' = held s.
Proof.
  intros C Hf. pose proof C as [Ha Ho Hw Hp]. pose proof (core_lengths _ _ _ _ _ _ C) as [Hl _].
  unfold dev_fetch in Hf. destruct (Z.eqb_spec (dv_seen (dev s)) (avail_idx s)) as [|Hne]; [done|].
  destruct av as [|r av]; [destruct Hne; by apply (vring_empty _ _ _ _ (a_seen _ Ha) Hl (p_avail _ _ _ _ _ Hp))|].
  exists r, av. split; [done|].
  rewrite (vring_head _ _ _ _ _ (p_avail _ _ _ _ _ Hp)) in Hf. simpl in Hf. injection Hf as <-.
  split; [|done]. split.
  - destruct Ha. split; try done. apply counter_u16.
  - by apply (owned_frame s).
  - rewrite Hw. solve_Permutation.
  - destruct Hp as [P1 P2 P3 P4 P5 P6]. split; try done.
    + apply (vring_pop _ _ _ _ _ P1).
    + simpl. by rewrite P2, fmap_app.
    + simpl in P4. rewrite Forall_cons, Forall_app in P4. rewrite !Forall_app, Forall_singleton. tauto.
Qed.

(** What the device does for a request it has taken. *)
Definition serve r s : vst :=
  let d := dev s in
  let taken := list_difference (dv_taken d) [r_0 r] in
  let s1 := set_used (u16 (used_idx_dev s + 1)) (<[used_idx_dev s `mod` NUM := r_0 r]> (used_ring s))
              (set_info (<[r_0 r := Info (r_b r) 0]> (info s)) s) in
  if r_write r
  then set_dev (Vdev (dv_seen d) taken (<[r_sector r := r_data r]> (platter d))) s1
  else match vbufs s !! r_b r with
       | Some x => set_vbufs (<[r_b r := Vbuf (vb_disk x) (vb_blockno x) (r_disk r)]> (vbufs s1))
                     (set_dev (Vdev (dv_seen d) taken (platter d)) s1)
       | None => s1
       end.
Lemma dev_serve_ok r s : pending s r → dev_serve (r_0 r) s = Some (serve r s).
Proof.
  intros [(F0 & F1 & F2 & F3) (I & (bn & B) & P)]. unfold dev_serve, serve.
  assert (dev_decode s (r_0 r) = Some (if r_write r then VIRTIO_BLK_T_OUT else VIRTIO_BLK_T_IN, r_sector r, r_b r, r_0 r)) as ->.
  { unfold dev_decode. rewrite F0. cbn [mbind option_bind d_next d_addr]. rewrite F1. cbn [mbind option_bind d_next d_addr].
    rewrite F2. cbn [mbind option_bind d_next d_addr]. rewrite F3. cbn. by destruct (r_write r). }
  cbn [mbind option_bind]. rewrite B. cbn [mbind option_bind]. rewrite P. cbn [mbind option_bind]. rewrite I.
  cbn [mbind option_bind in_b]. by destruct (r_write r).
Qed.

Lemma list_difference_one (xs ys : list Z) h : NoDup (xs ++ h :: ys) → list_difference (xs ++ h :: ys) [h] = xs ++ ys.
Proof.
  assert (∀ zs, h ∉ zs → list_difference zs [h] = zs) as Hid.
  { induction zs as [|z zs IH]; [done|]. intros Hn. apply not_elem_of_cons in Hn as [Hz Hn]. simpl.
    destruct (decide_rel _ z [h]) as [Hin|]; [by apply list_elem_of_singleton in Hin|]. by rewrite IH. }
  induction xs as [|x xs IH]; intros Hnd; simpl.
  - destruct (decide_rel _ h [h]) as [|Hn]; [|destruct Hn; left]. apply Hid. by apply NoDup_cons in Hnd as [].
  - apply NoDup_cons in Hnd as [Hx Hnd]. destruct (decide_rel _ x [h]) as [Hin|]; [|by rewrite IH].
    apply list_elem_of_singleton in Hin. subst x. destruct Hx. apply elem_of_app. right. left.
Qed.

Lemma heads_nodup w : NoDup (w ≫= r_idx) → NoDup (r_0 <$> w).
Proof.
  induction w as [|r w IH]; intros Hnd; [apply NoDup_nil_2|]. rewrite fmap_cons.
  cbn [mbind list_bind] in Hnd. apply NoDup_app in Hnd as (_ & Hd & Hnd). apply NoDup_cons. split; [|by apply IH].
  intros (q & He & Hq)%list_elem_of_fmap. apply (Hd (r_0 r) (idx_0 r)). rewrite He.
  apply list_elem_of_bind. exists q. split; [apply idx_0|done].
Qed.

(** A request keeps its state when another one changes. *)
Lemma core_others s s' w av tk us dn r w' :
  core s w av tk us dn → w ≡ₚ r :: w' → (∀ i, desc s' !! i = desc s !! i ∨ i ∈ r_idx r) →
  (∀ i, ops s' !! i = ops s !! i ∨ i = r_0 r) → (∀ i, info s' !! i = info s !! i ∨ i = r_0 r) →
  (∀ b, vbufs s' !! b = vbufs s !! b ∨ b = r_b r) →
  (∀ c, platter (dev s') !! c = platter (dev s) !! c ∨ c = r_sector r) → woken s ⊆ woken s' →
  ∀ q, q ∈ w' → same_for q s s'.
Proof.
  intros C Hw Ed Eo Ei Eb Ep Ew q Hq.
  destruct (owned_one s w' r) as (_ & _ & Hd); [by apply (owned_perm s w); [done|apply C]|].
  destruct (Hd q Hq) as (Hb & Hs & Hi). split_and!.
  - intros i Hiq. destruct (Ed i) as [|Hir]; [done|]. by destruct (Hi i Hiq).
  - destruct (Eo (r_0 q)) as [|He]; [done|]. destruct (Hi (r_0 q) (idx_0 q)). rewrite He. apply idx_0.
  - destruct (Ei (r_0 q)) as [|He]; [done|]. destruct (Hi (r_0 q) (idx_0 q)). rewrite He. apply idx_0.
  - destruct (Eb (r_b q)); [done|congruence].
  - destruct (Ep (r_sector q)); [done|congruence].
  - apply Ew.
Qed.
Lemma insert_or {A} (m : gmap Z A) i a j : <[i := a]> m !! j = m !! j ∨ j = i.
Proof. destruct (decide (j = i)); [by right|left; by apply lookup_insert_ne]. Qed.

Lemma core_serve s w av tk1 r tk2 us dn : core s w av (tk1 ++ r :: tk2) us dn →
  core (serve r s) w av (tk1 ++ tk2) (us ++ [r]) dn ∧ held (serve r s) = held s.
Proof.
  intros C. pose proof (core_lengths _ _ _ _ _ _ C) as [_ Hl]. pose proof C as [Ha Ho Hw Hp].
  assert (w ≡ₚ r :: av ++ tk1 ++ tk2 ++ us ++ dn) as Hw'.
  { rewrite Hw. solve_Permutation. }
  destruct Hp as [P1 P2 P3 P4 P5 P6].
  assert (pending s r) as Hr.
  { rewrite Forall_forall in P4. apply P4. rewrite !elem_of_app, elem_of_cons. tauto. }
  destruct Hr as [Fr (Ir & (bn & Br) & Pr)].
  assert (∀ q, q ∈ av ++ tk1 ++ tk2 ++ us ++ dn → same_for q s (serve r s)) as Hsame.
  { apply (core_others s (serve r s) w av (tk1 ++ r :: tk2) us dn r); [done|done|..]; unfold serve; rewrite Br;
      destruct (r_write r); simpl; auto using insert_or. }
  assert (served (serve r s) 1 r) as Hserved.
  { split_and!; [| |done].
    - unfold serve. rewrite Br. by destruct (r_write r).
    - unfold moved, serve, new_block. rewrite Br. destruct (r_write r) eqn:Hwr; simpl; split_and!.
      all: try apply lookup_insert_eq; try (exists bn; by rewrite ?lookup_insert_eq); done. }
  assert (dv_taken (dev (serve r s)) = r_0 <$> (tk1 ++ tk2)) as Htk.
  { assert (dv_taken (dev (serve r s)) = list_difference (dv_taken (dev s)) [r_0 r]) as ->
      by (unfold serve; rewrite Br; by destruct (r_write r)).
    rewrite P2, !fmap_app. apply list_difference_one. rewrite <- (fmap_cons r_0 r tk2), <- fmap_app.
    pose proof (heads_nodup _ (o_nodup _ _ (owned_perm _ _ _ Hw Ho))) as Hnd. rewrite !fmap_app in *.
    apply NoDup_app in Hnd as (_ & _ & Hnd). by apply NoDup_app in Hnd as (? & _). }
  split; [|unfold serve; rewrite Br; by destruct (r_write r)]. split.
  - unfold serve. rewrite Br. destruct Ha. destruct (r_write r); split; try done; by apply slots_insert.
  - apply (owned_frame s); [|done]. intros i. unfold serve. rewrite Br. by destruct (r_write r).
  - rewrite Hw'. solve_Permutation.
  - split.
    + unfold serve. rewrite Br. by destruct (r_write r).
    + exact Htk.
    + replace (used_ring (serve r s)) with (<[used_idx_dev s `mod` NUM := r_0 r]> (used_ring s))
        by (unfold serve; rewrite Br; by destruct (r_write r)).
      replace (used_idx (serve r s)) with (used_idx s) by (unfold serve; rewrite Br; by destruct (r_write r)).
      replace (used_idx_dev (serve r s)) with (u16 (used_idx_dev s + 1)) by (unfold serve; rewrite Br; by destruct (r_write r)).
      by apply vring_push.
    + apply (pending_frame s); [intros q Hq; apply Hsame; rewrite !elem_of_app in *; tauto|].
      rewrite Forall_app, Forall_app, Forall_cons in P4. rewrite !Forall_app. tauto.
    + apply Forall_app. split; [|by apply Forall_singleton].
      apply (served_frame s); [intros q Hq; apply Hsame; rewrite !elem_of_app in *; tauto|done].
    + apply (served_frame s); [intros q Hq; apply Hsame; rewrite !elem_of_app in *; tauto|done].
Qed.

(** One entry of the used ring: the request is done. *)
Definition seen r bn s : vst :=
  let s1 := set_vbufs (<[r_b r := Vbuf 0 bn (new_block r)]> (vbufs s)) s in
  set_used_idx (u16 (used_idx s + 1))
    (set_thread (with_woken ({[r_b r]} ∪ th_woken (the_thread s1)) (the_thread s1)) s1).
Lemma core_seen s w av tk r us dn bn : vbufs s !! r_b r = Some (Vbuf 1 bn (new_block r)) →
  core s w av tk (r :: us) dn → core (seen r bn s) w av tk us (dn ++ [r]).
Proof.
  intros B C. pose proof C as [Ha Ho Hw Hp]. destruct Hp as [P1 P2 P3 P4 P5 P6].
  assert (∀ q, q ∈ av ++ tk ++ us ++ dn → same_for q s (seen r bn s)) as Hsame.
  { apply (core_others s (seen r bn s) w av tk (r :: us) dn r); [done|rewrite Hw; solve_Permutation|..]; simpl;
      auto using insert_or. apply union_subseteq_r. }
  apply Forall_cons in P5 as [(Fr & (Ir & _ & Pr) & _) P5]. split.
  - destruct Ha. split; try done. apply counter_u16.
  - by apply (owned_frame s).
  - rewrite Hw. solve_Permutation.
  - split; try done.
    + apply (vring_pop _ _ _ _ _ P3).
    + apply (pending_frame s); [intros q Hq; apply Hsame; rewrite !elem_of_app in *; tauto|done].
    + apply (served_frame s); [intros q Hq; apply Hsame; rewrite !elem_of_app; tauto|done].
    + apply Forall_app. split.
      * apply (served_frame s); [intros q Hq; apply Hsame; rewrite !elem_of_app; tauto|done].
      * apply Forall_singleton. split_and!; [exact Fr| |intros _; apply elem_of_union_l, elem_of_singleton_2, eq_refl].
        split_and!; [exact Ir|exists bn; apply lookup_insert_eq|exact Pr].
Qed.

Lemma intr_loop_nil n s : used_idx s = used_idx_dev s → intr_loop n s = Ok tt s.
Proof. intros He. destruct n; cbn [intr_loop]; unfold bind, gets; simpl; by rewrite He, Z.eqb_refl. Qed.
Lemma intr_loop_cons n s id x y : used_idx s ≠ used_idx_dev s → used_ring s !! (used_idx s `mod` NUM) = Some id →
  info s !! id = Some x → in_status x = 0 → vbufs s !! in_b x = Some y →
  intr_loop (S n) s =
    (wakeup (in_b x);;; modify (λ s1, set_used_idx (u16 (used_idx s + 1)) s1);;; intr_loop n)
      (set_vbufs (<[in_b x := Vbuf 0 (vb_blockno y) (vb_data y)]> (vbufs s)) s).
Proof.
  intros He%Z.eqb_neq Hid Hx Hst Hy. cbn [intr_loop]. unfold bind at 1 2, gets. cbn [bind_res]. rewrite He.
  rewrite (bind_Ok _ _ _ _ _ (get_at_ok used_ring _ s _ Hid)), (bind_Ok _ _ _ _ _ (get_at_ok info _ s _ Hx)), Hst.
  change (negb (0 =? 0)) with false. cbn iota. by rewrite (bind_Ok _ _ _ _ _ (put_buf_disk_ok _ 0 s _ Hy)).
Qed.
Lemma intr_loop_ok us : ∀ n s w av tk dn, core s w av tk us dn → (length us ≤ n)%nat →
  ∃ s', intr_loop n s = Ok tt s' ∧ core s' w av tk [] (dn ++ us) ∧ held s' = held s.
Proof.
  induction us as [|r us IH]; intros n s w av tk dn C Hn;
    pose proof (proj2 (core_lengths _ _ _ _ _ _ C)) as Hl;
    pose proof (vring_empty _ _ _ _ (a_uidx _ (c_arrays _ _ _ _ _ _ C)) Hl (p_used _ _ _ _ _ (c_parts _ _ _ _ _ _ C))) as He.
  - exists s. rewrite app_nil_r. split; [|done]. by apply intr_loop_nil, He.
  - destruct n as [|n]; [simpl in Hn; lia|].
    pose proof (c_parts _ _ _ _ _ _ C) as [P1 P2 P3 P4 P5 P6].
    pose proof (vring_head _ _ _ _ _ P3) as Hh. apply Forall_cons in P5 as [(Fr & (Ir & (bn & Br) & Pr) & _) P5].
    assert (used_idx s ≠ used_idx_dev s) as Hne by (intros Heq; by discriminate (proj1 He Heq)).
    rewrite (intr_loop_cons n s _ _ _ Hne Hh Ir eq_refl Br).
    destruct (IH n (seen r bn s) w av tk (dn ++ [r])) as (s' & Hs' & C' & Hh'); [by apply core_seen|simpl in Hn; lia|].
    exists s'. split; [exact Hs'|]. rewrite <- app_assoc in C'. by split.
Qed.

Lemma idx_differ r : NoDup (r_idx r) → r_1 r ≠ r_0 r ∧ r_2 r ≠ r_0 r ∧ r_2 r ≠ r_1 r.
Proof. intros [N0 [N1 _]%NoDup_cons]%NoDup_cons. clear -N0 N1. set_solver. Qed.
Lemma core_start s w av tk us dn r x :
  core s w av tk us dn → NoDup (r_idx r) → (∀ i, i ∈ r_idx r → 0 ≤ i < NUM ∧ vfree s !! i = Some true) →
  may_start (r_b r) (r_sector r) w → vbufs s !! r_b r = Some x → r_data r = vb_data x →
  platter (dev s) !! r_sector r = Some (r_disk r) →
  core (submitted r (vb_blockno x) (foldl (λ s i, take_desc i s) s (r_idx r))) (w ++ [r]) (av ++ [r]) tk us dn.
Proof.
  intros C Hnd Hi [Hb Hsec] Hbuf Hdata Hdisk. set (s1 := foldl _ s _). set (s' := submitted r (vb_blockno x) s1).
  assert (∀ j, vfree s' !! j = if decide (j ∈ r_idx r) then Some false else vfree s !! j) as Hfree
    by apply take_desc_free.
  pose proof (core_lengths _ _ _ _ _ _ C) as [Hl _]. pose proof C as [Ha Ho Hw Hp].
  assert (owned s' (r :: w)) as Ho' by by apply (owned_grow s).
  destruct (owned_one _ _ _ Ho') as (_ & _ & Hd).
  assert (∀ q, q ∈ av ++ tk ++ us ++ dn → same_for q s s') as Hsame.
  { intros q Hq. rewrite <- Hw in Hq. destruct (Hd q Hq) as (Hqb & Hqs & Hqi).
    assert (r_0 q ∉ r_idx r) as Hq0 by apply Hqi, idx_0. split_and!; simpl.
    - intros i Hiq. specialize (Hqi i Hiq). clear -Hqi. unfold r_idx in Hqi. rewrite !lookup_insert_ne; [done|set_solver..].
    - apply lookup_insert_ne. intros He. apply Hq0. rewrite <- He. apply idx_0.
    - apply lookup_insert_ne. intros He. apply Hq0. rewrite <- He. apply idx_0.
    - by apply lookup_insert_ne.
    - done.
    - intros Hqw. unfold s', s1. by rewrite woken_submitted. }
  destruct Hp as [P1 P2 P3 P4 P5 P6]. split.
  - destruct Ha. split; try done; simpl; by repeat apply slots_insert.
  - eapply owned_perm, Ho'. solve_Permutation.
  - rewrite Hw. solve_Permutation.
  - split; try done.
    + by apply (vring_push (avail_ring s)).
    + rewrite <- app_assoc, Forall_app, Forall_app, Forall_singleton. rewrite Forall_app in P4. destruct P4 as [P4a P4b].
      split_and!.
      * apply (pending_frame s); [intros q Hq; apply Hsame; rewrite !elem_of_app; tauto|done].
      * apply idx_differ in Hnd as (N1 & N2 & N3). split.
        -- unfold formatted. simpl. split_and!.
           ++ rewrite !lookup_insert_ne by done. apply lookup_insert_eq.
           ++ rewrite lookup_insert_ne by done. apply lookup_insert_eq.
           ++ apply lookup_insert_eq.
           ++ apply lookup_insert_eq.
        -- unfold moved. simpl. split_and!; [apply lookup_insert_eq|exists (vb_blockno x); apply lookup_insert_eq|done].
      * apply (pending_frame s); [intros q Hq; apply Hsame; rewrite !elem_of_app; tauto|done].
    + apply (served_frame s); [intros q Hq; apply Hsame; rewrite !elem_of_app; tauto|done].
    + apply (served_frame s); [intros q Hq; apply Hsame; rewrite !elem_of_app; tauto|done].
Qed.

Lemma owned_used s w q i : owned s w → q ∈ w → i ∈ r_idx q → vfree s !! i = Some false.
Proof.
  intros Ho Hq Hi. assert (i ∈ w ≫= r_idx) as Hin by (apply list_elem_of_bind; eauto).
  rewrite (o_free _ _ Ho i (o_range _ _ Ho i Hin)), bool_decide_false; [done|tauto].
Qed.

Lemma core_busy s s' w av tk us dn : core s w av tk us dn → only_free s s' → core s' w av tk us dn ∧ held s' = held s.
Proof.
  intros [Ha Ho Hw Hp] (t & D & -> & Ht & Hwk & HD & Hslots). split; [|done].
  apply core_thread; [by intros r _ Hr; apply Hwk|]. split.
  - destruct Ha. split; try done. by apply Hslots.
  - by apply (owned_frame s).
  - done.
  - apply (parts_frame s); try done. intros q Hq. rewrite <- Hw in Hq. split_and!; try done.
    intros i Hi. apply HD. by rewrite (owned_used s w q i).
Qed.

Lemma core_finish s w av tk us dn1 r dn2 w' : core s w av tk us (dn1 ++ r :: dn2) → w ≡ₚ r :: w' →
  rw_finish (r_0 r) s = Ok tt (finished r s) ∧ core (finished r s) w' av tk us (dn1 ++ dn2) ∧
  held (finished r s) = held s ∧ free_chan ∈ woken (finished r s) ∧
  ∀ i, i ∈ r_idx r → vfree (finished r s) !! i = Some true.
Proof.
  intros C Hr. pose proof C as [Ha Ho Hw Hp]. destruct Hp as [P1 P2 P3 P4 P5 P6].
  apply (owned_perm _ _ _ Hr) in Ho as Ho'. destruct (owned_one _ _ _ Ho') as (Hnd & Hi & _).
  rewrite Forall_app, Forall_cons in P6. destruct P6 as (P6 & (Fr & (Ir & Br & Pr) & _) & P7).
  set (s1 := set_info (<[r_0 r := Info 0 0]> (info s)) s).
  destruct (dropped_same (r_idx r) s1) as (E1 & E2 & E3 & E4 & E5 & E6 & E7 & E8 & E9 & E10 & E11 & E12 & E13).
  change (dropped (r_idx r) s1) with (finished r s) in *.
  split; [by apply rw_finish_ok|]. split_and!; [|by rewrite E10|by apply E13|by apply dropped_freed].
  assert (w' ≡ₚ av ++ tk ++ us ++ dn1 ++ dn2) as Hw'.
  { apply (Permutation_cons_inv (a := r)). rewrite <- Hr, Hw. solve_Permutation. }
  assert (∀ q, q ∈ av ++ tk ++ us ++ dn1 ++ dn2 → same_for q s (finished r s)) as Hsame.
  { intros q Hq. rewrite <- Hw' in Hq.
    refine (core_others s (finished r s) w av tk us (dn1 ++ r :: dn2) r w' C Hr _ _ _ _ _ _ q Hq).
    - intros i. destruct (decide (i ∈ r_idx r)) as [|Hn]; [by right|left]. exact (proj1 (dropped_other (r_idx r) s1 i Hn)).
    - rewrite E7. by left.
    - rewrite E6. apply insert_or.
    - rewrite E8. by left.
    - rewrite E9. by left.
    - exact E12. }
  split.
  - destruct Ha. split; rewrite ?E2, ?E4, ?E6, ?E7, ?E5, ?E9; try done; [by apply E11|by apply slots_insert].
  - apply (owned_shrink s _ _ r); [done|]. intros i. destruct (decide (i ∈ r_idx r)) as [Hir|Hir].
    + by apply dropped_freed.
    + exact (proj2 (dropped_other (r_idx r) s1 i Hir)).
  - done.
  - split; rewrite ?E1, ?E2, ?E3, ?E4, ?E5, ?E9; try done.
    + apply (pending_frame s); [intros q Hq; apply Hsame; rewrite !elem_of_app in *; tauto|done].
    + apply (served_frame s); [intros q Hq; apply Hsame; rewrite !elem_of_app; tauto|done].
    + apply (served_frame s); [intros q Hq; apply Hsame; rewrite !elem_of_app in *; tauto|].
      by apply Forall_app.
Qed.

(** A request whose buffer is not busy has been seen by the handler. *)
Lemma core_done s w av tk us dn r x : core s w av tk us dn → r ∈ w → vbufs s !! r_b r = Some x → vb_disk x ≠ 1 →
  ∃ dn1 dn2, dn = dn1 ++ r :: dn2.
Proof.
  intros [Ha Ho Hw [P1 P2 P3 P4 P5 P6]] Hr Hb Hx. apply list_elem_of_split.
  assert (∀ st data disk, ¬ moved s r st 1 data disk) as Hno.
  { intros st data disk (_ & (bn & B) & _). rewrite Hb in B. by injection B as ->. }
  rewrite Hw, !elem_of_app in Hr. rewrite Forall_forall in P4, P5.
  destruct Hr as [Hr|[Hr|[Hr|Hr]]]; [exfalso|exfalso|exfalso|done].
  - destruct (P4 r) as [_ Hm]; [apply elem_of_app; by left|]. by apply Hno in Hm.
  - destruct (P4 r) as [_ Hm]; [apply elem_of_app; by right|]. by apply Hno in Hm.
  - destruct (P5 r Hr) as (_ & Hm & _). by apply Hno in Hm.
Qed.
(** A process that sleeps on a busy buffer is no one else's business. *)
Lemma core_asleep s w av tk us dn b : core s w av tk us dn → (∀ r, r ∈ dn → r_b r ≠ b) →
  core (asleep b s) w av tk us dn ∧ held (asleep b s) = held s.
Proof.
  intros C Hb. split; [|done]. apply core_thread; [|done]. intros r Hr Hw.
  apply elem_of_difference. split; [done|]. rewrite elem_of_singleton. by apply Hb.
Qed.

Context (R : Z → list (Z * Z) → Z).
Lemma core_intr s w av tk us dn : held s = ∅ → core s w av tk us dn →
  ∃ s', virtio_disk_intr R s = Ok tt s' ∧ core s' w av tk [] (dn ++ us) ∧ held s' = ∅.
Proof.
  intros Hh C. pose proof (core_lengths _ _ _ _ _ _ C) as [_ Hl]. unfold virtio_disk_intr.
  assert (acquire vdisk_lock s = Ok tt (set_held {[vdisk_lock]} s)) as Hacq.
  { unfold acquire. rewrite Hh. rewrite decide_False by apply not_elem_of_empty. by rewrite union_empty_r_L. }
  rewrite (bind_Ok _ _ _ _ _ Hacq). set (s1 := set_held {[vdisk_lock]} s).
  set (s2 := set_regs ((VIRTIO_MMIO_INTERRUPT_ACK, Z.land (R VIRTIO_MMIO_INTERRUPT_STATUS (regs s1)) 0x3) :: regs s1) s1).
  change ((let! st := rd R VIRTIO_MMIO_INTERRUPT_STATUS in wr VIRTIO_MMIO_INTERRUPT_ACK (Z.land st 0x3);;;
    intr_loop (Z.to_nat NUM);;; release vdisk_lock) s1) with ((intr_loop (Z.to_nat NUM);;; release vdisk_lock) s2).
  destruct (intr_loop_ok us (Z.to_nat NUM) s2 w av tk dn) as (s3 & H3 & C3 & Hh3); [|lia|].
  { apply core_regs, core_thread; [done|exact C]. }
  rewrite (bind_Ok _ _ _ _ _ H3).
  assert (held s3 = {[vdisk_lock]}) as Hs3 by (rewrite Hh3; done).
  exists (set_held ∅ s3). split_and!; [|by apply core_thread|apply held_set].
  unfold release. rewrite Hs3, decide_True by apply elem_of_singleton_2, eq_refl.
  by replace ({[vdisk_lock]} ∖ {[vdisk_lock]}) with (∅ : gset Z) by set_solver.
Qed.

Lemma vinv_step S S' : vinv S → vstep R S S' → vinv S'.
Proof.
  intros Hv Hs. destruct Hs as [s w b wr i0 i1 i2 x old s1 s2 Hb Hold Hmay Hal Hsub|s w s' Hal|s w s' Hf|s w h s' Hin Hsv|s w s' Hi|s w r x Hr Hwk Hb Hx|s w1 r w2 x s' Hwk Hb Hx Hfin];
    apply vinv_core in Hv as (Hh & av & tk & us & dn & C); apply vinv_core.
  - set (r := Request i0 i1 i2 b wr (u32 (vb_blockno x * (BSIZE / 512))) old (vb_data x)).
    pose proof (c_arrays _ _ _ _ _ _ C) as Ha. pose proof (c_owned _ _ _ _ _ _ C) as Ho.
    destruct (alloc3_desc_spec s) as [(j0 & j1 & j2 & He & Hnd & Hj)|(s' & He & _ & _)];
      [intros i Hi; rewrite (o_free _ _ Ho i Hi); eauto|apply Ha| |by rewrite He in Hal].
    rewrite He in Hal. injection Hal as -> -> -> <-.
    rewrite (rw_submit_ok r x) in Hsub; try done; try apply Ha; [|by intros i Hi; apply Hj].
    injection Hsub as <-. destruct (core_asleep _ _ _ _ _ _ b (core_start s w av tk us dn r x C Hnd Hj Hmay Hb eq_refl Hold)) as [C' Hh'].
    { intros q Hq He'. apply (proj1 Hmay). rewrite <- He'. apply list_elem_of_fmap_2. rewrite (c_perm _ _ _ _ _ _ C), !elem_of_app. tauto. }
    split; [exact (eq_trans Hh' Hh)|]. by exists (av ++ [r]), tk, us, dn.
  - destruct (alloc3_desc_spec s) as [(j0 & j1 & j2 & He & _)|(s1 & He & Hf & _)];
      [intros i Hi; rewrite (o_free _ _ (c_owned _ _ _ _ _ _ C) i Hi); eauto|apply (c_arrays _ _ _ _ _ _ C)|by rewrite He in Hal|].
    rewrite He in Hal. injection Hal as <-. destruct (core_busy _ _ _ _ _ _ _ C Hf) as [C' Hh'].
    split; [by rewrite Hh'|]. by exists av, tk, us, dn.
  - destruct (core_fetch _ _ _ _ _ _ _ C Hf) as (r & av' & -> & C' & Hh').
    split; [by rewrite Hh'|]. by exists av', (tk ++ [r]), us, dn.
  - rewrite (p_taken _ _ _ _ _ (c_parts _ _ _ _ _ _ C)) in Hin. apply list_elem_of_fmap in Hin as (r & -> & Hr).
    apply list_elem_of_split in Hr as (tk1 & tk2 & ->).
    assert (pending s r) as Hp.
    { pose proof (p_pending _ _ _ _ _ (c_parts _ _ _ _ _ _ C)) as Hp. rewrite Forall_forall in Hp. apply Hp.
      rewrite !elem_of_app, elem_of_cons. tauto. }
    rewrite (dev_serve_ok r s Hp) in Hsv. injection Hsv as <-. destruct (core_serve _ _ _ _ _ _ _ _ C) as [C' Hh'].
    split; [by rewrite Hh'|]. by exists av, (tk1 ++ tk2), (us ++ [r]), dn.
  - destruct (core_intr _ _ _ _ _ _ Hh C) as (s1 & He & C' & Hh'). rewrite He in Hi. injection Hi as <-.
    split; [done|]. by exists av, tk, [], (dn ++ us).
  - destruct (core_asleep _ _ _ _ _ _ (r_b r) C) as [C' Hh'].
    { intros q Hq He. pose proof (p_done _ _ _ _ _ (c_parts _ _ _ _ _ _ C)) as Hd. rewrite Forall_forall in Hd.
      destruct (Hd q Hq) as (_ & (_ & (bn & B) & _) & _). rewrite He, Hb in B. injection B as ->. done. }
    split; [by rewrite Hh'|]. by exists av, tk, us, dn.
  - destruct (core_done s (w1 ++ r :: w2) av tk us dn r x C) as (dn1 & dn2 & ->); [apply elem_of_app; right; left|done..|].
    destruct (core_finish s _ av tk us dn1 r dn2 (w1 ++ w2) C) as (He & C' & Hh' & _); [solve_Permutation|].
    rewrite He in Hfin. injection Hfin as <-. split; [by rewrite Hh'|]. by exists av, tk, us, (dn1 ++ dn2).
Qed.
Lemma vinv_reachable S0 S : vinv S0 → reachable R S0 S → vinv S.
Proof. intros H0 Hr. induction Hr as [|S S' _ IH Hs]; [done|]. by eapply vinv_step. Qed.
End keep.

(** * What follows *)

(** The memory at boot: the static objects are zero, the device is idle. *)
Record at_boot (s : vst) : Prop := {
  b_held : held s = ∅; b_info : slots (info s); b_ops : slots (ops s);
  b_idx : used_idx s = 0; b_seen : dv_seen (dev s) = 0; b_taken : dv_taken (dev s) = [];
}.

Lemma zeroes_lookup {A} (a : A) i : 0 ≤ i < NUM → zeroes a !! i = Some a.
Proof.
  intros Hi. apply elem_of_list_to_map; [rewrite <- list_fmap_compose, list_fmap_id; apply NoDup_seqZ|].
  apply list_elem_of_fmap. exists i. split; [done|]. apply elem_of_seqZ. lia.
Qed.

Lemma init_vinv R d a u s s' : at_boot s → virtio_disk_init R d a u s = Ok tt s' → vinv (Vsys s' []).
Proof.
  intros [Bh Bi Bo Bx Bs Bt] Hinit. destruct s as [th de ai ar ui ur vf ux inf op vb rg dv]. simpl in Bi, Bo, Bx, Bs, Bt.
  unfold virtio_disk_init, rd, wr, bind, gets, modify, panic in Hinit.
  do 6 (cbn [bind_res set_regs regs v_thread desc avail_idx avail_ring used_idx_dev used_ring vfree used_idx info ops vbufs dev
          set_desc set_avail set_used set_free] in Hinit;
        match type of Hinit with (if ?c then _ else _) _ = _ => destruct c; [done|] end).
  cbn [bind_res set_regs regs v_thread desc avail_idx avail_ring used_idx_dev used_ring vfree used_idx info ops vbufs dev
    set_desc set_avail set_used set_free] in Hinit.
  injection Hinit as <-. split_and!; [exact Bh| | |].
  - split; try (intros i Hi; simpl; rewrite zeroes_lookup by done; eauto); simpl; rewrite ?Bx, ?Bs; done.
  - split; [apply NoDup_nil_2|intros i Hi; by apply elem_of_nil in Hi| |apply NoDup_nil_2..].
    intros i Hi. simpl. by rewrite zeroes_lookup.
  - exists [], [], [], []. split; [done|]. split; try done; simpl; rewrite ?Bx, ?Bs; done.
Qed.

(** Up to its first sleep, [virtio_disk_rw] holds the lock and no other. *)
Lemma vdisk_acquire s : held s = ∅ → acquire vdisk_lock s = Ok tt (set_held {[vdisk_lock]} s).
Proof. intros Hh. unfold acquire. rewrite Hh, decide_False by apply not_elem_of_empty. by rewrite union_empty_r_L. Qed.
Lemma vdisk_sleep ch s : held s = {[vdisk_lock]} →
  ∃ k, sleep ch vdisk_lock s = Sleep ch (set_held ∅ s) k.
Proof.
  intros Hh. unfold sleep, release, bind at 1. rewrite Hh, decide_True by apply elem_of_singleton_2, eq_refl.
  replace ({[vdisk_lock]} ∖ {[vdisk_lock]}) with (∅ : gset Z) by set_solver. cbn [bind_res].
  unfold bind, switch. rewrite held_set, decide_True by done. cbn [bind_res]. eauto.
Qed.

(** A process that comes with the buffer [b]: it leaves the lock and sleeps. *)
Inductive comes (s : vst) (b : Z) (write : bool) (x : vbuf) : Z → vst → Prop :=
| comes_start s' i0 i1 i2 :
    NoDup [i0; i1; i2] → (∀ i, i ∈ [i0; i1; i2] → 0 ≤ i < NUM ∧ vfree s !! i = Some true) →
    (∀ i, vfree s' !! i = if decide (i ∈ [i0; i1; i2]) then Some false else vfree s !! i) →
    vbufs s' = <[b := Vbuf 1 (vb_blockno x) (vb_data x)]> (vbufs s) →
    avail_ring s' = <[avail_idx s `mod` NUM := i0]> (avail_ring s) → avail_idx s' = u16 (avail_idx s + 1) →
    formatted s' (Request i0 i1 i2 b write (u32 (vb_blockno x * (BSIZE / 512))) [] []) →
    info s' !! i0 = Some (Info b 0xff) →
    comes s b write x b s'
| comes_busy s' :
    few_free s → (∀ i, vfree s' !! i = vfree s !! i) → vbufs s' = vbufs s →
    avail_ring s' = avail_ring s → avail_idx s' = avail_idx s →
    comes s b write x free_chan s'.

Lemma submitted_formatted r bn s : NoDup (r_idx r) → formatted (submitted r bn s) r.
Proof.
  intros (N1 & N2 & N3)%idx_differ. unfold formatted. simpl. split_and!.
  - rewrite !lookup_insert_ne by done. apply lookup_insert_eq.
  - rewrite lookup_insert_ne by done. apply lookup_insert_eq.
  - apply lookup_insert_eq.
  - apply lookup_insert_eq.
Qed.

Lemma core_comes s w av tk us dn n b write x : held s = ∅ → core s w av tk us dn → vbufs s !! b = Some x →
  ∃ ch s' k, virtio_disk_rw (S n) b write s = Sleep ch s' k ∧ held s' = ∅ ∧ comes s b write x ch s'.
Proof.
  intros Hh C Hx. pose proof (c_arrays _ _ _ _ _ _ C) as Ha. pose proof (c_owned _ _ _ _ _ _ C) as Ho.
  unfold virtio_disk_rw. rewrite (bind_Ok _ _ _ _ _ (vdisk_acquire s Hh)). set (s1 := set_held {[vdisk_lock]} s).
  destruct (alloc3_desc_spec s1) as [(i0 & i1 & i2 & He & Hnd & Hi)|(s2 & He & Hf & Hfew)];
    [intros i Hi; rewrite (o_free _ _ Ho i Hi : vfree s1 !! i = _); eauto|apply Ha|..].
  - assert (rw_alloc (S n) s1 = Ok [i0; i1; i2] (take_desc i2 (take_desc i1 (take_desc i0 s1)))) as Hal
      by (cbn [rw_alloc]; by rewrite (bind_Ok _ _ _ _ _ He)).
    rewrite (bind_Ok _ _ _ _ _ Hal). set (s2 := take_desc i2 _).
    set (r := Request i0 i1 i2 b write (u32 (vb_blockno x * (BSIZE / 512))) [] (vb_data x)).
    rewrite (bind_Ok _ _ _ _ _ (rw_submit_ok r x s2 (a_desc _ Ha) (a_info _ Ha) (a_ops _ Ha)
      (λ i H, proj1 (Hi i H)) Hx eq_refl eq_refl)).
    set (s3 := submitted r _ s2). destruct (vdisk_sleep b s3) as [k Hk]; [exact (held_set {[vdisk_lock]} s)|].
    assert (∃ k', rw_wait (S n) b s3 = Sleep b (set_held ∅ s3) k') as [k' Hk'].
    { cbn [rw_wait]. erewrite (bind_Ok (get_at vbufs b)) by (apply get_at_ok, lookup_insert_eq). cbn [vb_disk].
      change (1 =? 1) with true. cbn iota. unfold bind. rewrite Hk. cbn [bind_res]. eauto. }
    unfold bind at 1. rewrite Hk'. cbn [bind_res]. do 3 eexists. split; [reflexivity|]. split; [apply held_set|].
    apply (comes_start _ _ _ _ _ i0 i1 i2); try done.
    + intros i. apply (take_desc_free [i0; i1; i2] s1 i).
    + exact (submitted_formatted r (vb_blockno x) s2 Hnd).
    + apply lookup_insert_eq.
  - destruct Hf as (t & D & -> & Ht & _).
    destruct (vdisk_sleep free_chan (set_thread t (set_desc D s1))) as [k Hk].
    { unfold held. simpl. rewrite Ht. apply held_set. }
    unfold bind at 1. cbn [rw_alloc]. rewrite (bind_Ok _ _ _ _ _ He). unfold bind at 1. rewrite Hk.
    cbn [bind_res]. do 3 eexists. split; [reflexivity|].
    split; [apply held_set|]. by apply comes_busy.
Qed.

(** C2: the driver with its device never panics and never confuses requests.  In
    every state that can be reached, however the device orders its work: a process
    that comes with a buffer gets three different free descriptors, formats them,
    marks the buffer busy and sleeps on it, or, when no three are free, gives back
    what it took and sleeps until some are freed; a request whose buffer is no
    longer busy has been carried out, the block is in the buffer and on the disk,
    and its process can leave and frees its descriptors; the interrupt handler finds
    no bad status; and every request the device has taken is well-formed. *)
Theorem virtio_requests R d a u boot s0 S :
  at_boot boot → virtio_disk_init R d a u boot = Ok tt s0 → reachable R (Vsys s0 []) S →
  (∀ n b write x, vbufs (mem S) !! b = Some x →
     ∃ ch s' k, virtio_disk_rw (Datatypes.S n) b write (mem S) = Sleep ch s' k ∧ held s' = ∅ ∧
       comes (mem S) b write x ch s') ∧
  (∀ r x, r ∈ waiting S → vbufs (mem S) !! r_b r = Some x → vb_disk x ≠ 1 →
     vb_data x = new_block r ∧ platter (dev (mem S)) !! r_sector r = Some (new_block r) ∧
     ∃ s', rw_finish (r_0 r) (mem S) = Ok tt s' ∧ ∀ i, i ∈ r_idx r → vfree s' !! i = Some true) ∧
  (∃ s', virtio_disk_intr R (mem S) = Ok tt s') ∧
  (∀ h, h ∈ dv_taken (dev (mem S)) → is_Some (dev_serve h (mem S))).
Proof.
  intros Hb Hinit Hr. pose proof (vinv_reachable R _ _ (init_vinv _ _ _ _ _ _ Hb Hinit) Hr) as Hv.
  destruct S as [s w]. apply vinv_core in Hv as (Hh & av & tk & us & dn & C). simpl. split_and!.
  - intros n b write x. by apply (core_comes s w av tk us dn).
  - intros r x Hrw Hx Hd. destruct (core_done s w av tk us dn r x C Hrw Hx Hd) as (dn1 & dn2 & ->).
    pose proof (p_done _ _ _ _ _ (c_parts _ _ _ _ _ _ C)) as Hdone. rewrite Forall_app, Forall_cons in Hdone.
    destruct Hdone as (_ & (_ & (_ & (bn & B) & P) & _) & _). rewrite Hx in B. injection B as ->. split_and!; [done..|].
    apply list_elem_of_split in Hrw as (w1 & w2 & ->).
    destruct (core_finish s _ av tk us dn1 r dn2 (w1 ++ w2) C) as (He & _ & _ & _ & Hf); [solve_Permutation|]. eauto.
  - destruct (core_intr R _ _ _ _ _ _ Hh C) as (s' & He & _). eauto.
  - intros h Hh'. rewrite (p_taken _ _ _ _ _ (c_parts _ _ _ _ _ _ C)) in Hh'.
    apply list_elem_of_fmap in Hh' as (r & -> & Hr').
    pose proof (p_pending _ _ _ _ _ (c_parts _ _ _ _ _ _ C)) as Hp. rewrite Forall_forall in Hp.
    eexists. apply dev_serve_ok, Hp, elem_of_app. by right.
Qed.

(** Steps of the device and of the handler: no process comes or goes. *)
Definition dstep R (S S' : vsys) : Prop := vstep R S S' ∧ waiting S' = waiting S.

Lemma core_fetch_all R av : ∀ s w tk us dn, core s w av tk us dn →
  ∃ s', rtc (dstep R) (Vsys s w) (Vsys s' w) ∧ core s' w [] (tk ++ av) us dn ∧ held s' = held s.
Proof.
  induction av as [|r av IH]; intros s w tk us dn C; [exists s; rewrite app_nil_r; by split_and!; [apply rtc_refl|..]|].
  assert (∃ s1, dev_fetch s = Some s1) as [s1 Hf].
  { unfold dev_fetch. pose proof (c_parts _ _ _ _ _ _ C) as [P1 _ _ _ _ _].
    pose proof (proj1 (core_lengths _ _ _ _ _ _ C)) as Hl.
    destruct (Z.eqb_spec (dv_seen (dev s)) (avail_idx s)) as [He|_].
    - by apply (vring_empty _ _ _ _ (a_seen _ (c_arrays _ _ _ _ _ _ C)) Hl P1) in He.
    - rewrite (vring_head _ _ _ _ _ P1). simpl. eauto. }
  destruct (core_fetch _ _ _ _ _ _ _ C Hf) as (r' & av' & [= <- <-] & C' & Hh).
  destruct (IH s1 w (tk ++ [r]) us dn C') as (s' & Hs & C'' & Hh'). exists s'. rewrite <- app_assoc in C''.
  split_and!; [|done|congruence]. eapply rtc_l; [|exact Hs]. split; [by constructor|done].
Qed.

(** The device and the handler bring a request that waits to its end. *)
Lemma core_completes R s w av tk us dn r : held s = ∅ → core s w av tk us dn → r ∈ w →
  ∃ s2 av2 tk2 us2 dn2, rtc (dstep R) (Vsys s w) (Vsys s2 w) ∧ held s2 = ∅ ∧
    core s2 w av2 tk2 us2 dn2 ∧ r ∈ dn2.
Proof.
  intros Hh C Hr.
  assert (∃ s1 tk' us', rtc (dstep R) (Vsys s w) (Vsys s1 w) ∧ held s1 = ∅ ∧ core s1 w [] tk' us' dn ∧ (r ∈ us' ∨ r ∈ dn))
    as (s1 & tk' & us' & Hs1 & Hh1 & C1 & Hr1).
  { destruct (core_fetch_all R av s w tk us dn C) as (s1 & Hs1 & C1 & Hh1). rewrite Hh in Hh1.
    assert (r ∈ tk ++ av ∨ r ∈ us ∨ r ∈ dn) as [Hin|Hin].
    { pose proof Hr as Hr'. rewrite (c_perm _ _ _ _ _ _ C), !elem_of_app in Hr'. rewrite elem_of_app. tauto. }
    - apply list_elem_of_split in Hin as (t1 & t2 & Ht). rewrite Ht in C1.
      destruct (core_serve _ _ _ _ _ _ _ _ C1) as [C2 Hh2]. exists (serve r s1), (t1 ++ t2), (us ++ [r]).
      split_and!; [|by rewrite Hh2|done|left; apply elem_of_app; right; left].
      eapply rtc_r; [exact Hs1|]. split; [|done]. apply (V_serve R _ _ (r_0 r)).
      + rewrite (p_taken _ _ _ _ _ (c_parts _ _ _ _ _ _ C1)). apply list_elem_of_fmap_2, elem_of_app. right. left.
      + apply dev_serve_ok. pose proof (p_pending _ _ _ _ _ (c_parts _ _ _ _ _ _ C1)) as Hp.
        rewrite Forall_forall in Hp. apply Hp. simpl. apply elem_of_app. right. left.
    - by exists s1, (tk ++ av), us. }
  destruct (core_intr R _ _ _ _ _ _ Hh1 C1) as (s2 & He & C2 & Hh2).
  exists s2, [], tk', [], (dn ++ us'). split_and!; [|done..|apply elem_of_app; tauto].
  eapply rtc_r; [exact Hs1|]. split; [by constructor|done].
Qed.

(** C10: no request is lost: from every state that can be reached, the device and the
    handler can bring any request that waits to its end.  Its buffer is then no
    longer busy and holds the block, its process has been woken since it fell
    asleep, and that process can run: it leaves [virtio_disk_rw] with its three
    descriptors freed, and wakes those that wait for descriptors. *)
Theorem virtio_completes R d a u boot s0 S r :
  at_boot boot → virtio_disk_init R d a u boot = Ok tt s0 → reachable R (Vsys s0 []) S → r ∈ waiting S →
  ∃ s1 s2 w1 w2 x, rtc (dstep R) S (Vsys s1 (w1 ++ r :: w2)) ∧
    vbufs s1 !! r_b r = Some x ∧ vb_disk x = 0 ∧ vb_data x = new_block r ∧ r_b r ∈ woken s1 ∧
    vstep R (Vsys s1 (w1 ++ r :: w2)) (Vsys s2 (w1 ++ w2)) ∧
    (∀ i, i ∈ r_idx r → vfree s2 !! i = Some true) ∧ free_chan ∈ woken s2.
Proof.
  intros Hb Hinit Hreach Hr. pose proof (vinv_reachable R _ _ (init_vinv _ _ _ _ _ _ Hb Hinit) Hreach) as Hv.
  destruct S as [s w]. apply vinv_core in Hv as (Hh & av & tk & us & dn & C). simpl in Hr.
  destruct (core_completes R s w av tk us dn r Hh C Hr) as (s1 & av1 & tk1 & us1 & dn1 & Hs1 & Hh1 & C1 & Hdn).
  pose proof (p_done _ _ _ _ _ (c_parts _ _ _ _ _ _ C1)) as Hd. rewrite Forall_forall in Hd.
  destruct (Hd r Hdn) as (_ & (_ & (bn & B) & _) & W).
  apply list_elem_of_split in Hdn as (dn2 & dn3 & ->). apply list_elem_of_split in Hr as (w1 & w2 & ->).
  destruct (core_finish s1 _ av1 tk1 us1 dn2 r dn3 (w1 ++ w2) C1) as (He & _ & _ & Hfree & Hf); [solve_Permutation|].
  exists s1, (finished r s1), w1, w2, (Vbuf 0 bn (new_block r)). split_and!; try done; [by apply W|].
  eapply V_finish; [by apply W|exact B|done|exact He].
Qed.

(** * A run: two processes, and the device serves the second one first *)

Definition demo_R (r : Z) (log : list (Z * Z)) : Z :=
  if r =? VIRTIO_MMIO_MAGIC_VALUE then 0x74726976 else
  if (r =? VIRTIO_MMIO_VERSION) || (r =? VIRTIO_MMIO_DEVICE_ID) then 2 else
  if r =? VIRTIO_MMIO_VENDOR_ID then 0x554d4551 else
  if r =? VIRTIO_MMIO_QUEUE_NUM_MAX then 1024 else
  if r =? VIRTIO_MMIO_INTERRUPT_STATUS then 1 else
  if r =? VIRTIO_MMIO_STATUS then match list_find (λ w, w.1 = r) log with Some (_, w) => w.2 | None => 0 end
  else 0.
Definition boot : vst :=
  Vst (Thread 1 1 0 ∅ ∅ ∅) ∅ 0 ∅ 0 ∅ ∅ 0 (zeroes (Info 0 0)) (zeroes (Req 0 0 0))
    {[500 := Vbuf 0 3 [0; 0]; 600 := Vbuf 0 4 [8; 8]]} [] (Vdev 0 [] {[6 := [7; 7]; 8 := [1; 1]]}).
Definition after {A} (m : M vst A) (s : vst) : vst := match m s with Ok _ s' => s' | _ => s end.
Definition booted : vst := after (virtio_disk_init demo_R 0x80100000 0x80101000 0x80102000) boot.
Definition read_sent : vst := asleep 500 (after (rw_submit 0 1 2 500 false) (after alloc3_desc booted)).
Definition both_sent : vst := asleep 600 (after (rw_submit 3 4 5 600 true) (after alloc3_desc read_sent)).
Definition both_taken : vst := default both_sent (dev_fetch (default both_sent (dev_fetch both_sent))).
Definition write_served : vst := default both_taken (dev_serve 3 both_taken).
Definition write_done : vst := after (virtio_disk_intr demo_R) write_served.
Definition demo_read : request := Request 0 1 2 500 false 6 [7; 7] [0; 0].
Definition demo_write : request := Request 3 4 5 600 true 8 [1; 1] [8; 8].

Lemma vboot_ok : at_boot boot.
Proof. split; try reflexivity; intros i Hi; simpl; rewrite zeroes_lookup by done; eauto. Qed.
Lemma write_done_reached : reachable demo_R (Vsys booted []) (Vsys write_done [demo_read; demo_write]).
Proof.
  eapply reach_step; [|apply (V_intr demo_R write_served); vm_compute; reflexivity].
  eapply reach_step; [|apply (V_serve demo_R both_taken _ 3); [by_compute|vm_compute; reflexivity]].
  eapply reach_step; [|apply (V_fetch demo_R (default both_sent (dev_fetch both_sent))); vm_compute; reflexivity].
  eapply reach_step; [|apply (V_fetch demo_R both_sent); vm_compute; reflexivity].
  eapply reach_step; [|apply (V_start demo_R read_sent [demo_read] 600 true 3 4 5 (Vbuf 0 4 [8; 8]) [1; 1] (after alloc3_desc read_sent));
    [vm_compute; reflexivity..|split; by_compute|vm_compute; reflexivity|vm_compute; reflexivity]].
  eapply reach_step; [|apply (V_start demo_R booted [] 500 false 0 1 2 (Vbuf 0 3 [0; 0]) [7; 7] (after alloc3_desc booted));
    [vm_compute; reflexivity..|split; by_compute|vm_compute; reflexivity|vm_compute; reflexivity]].
  apply reach_refl.
Qed.

#[local] Opaque write_done.
Lemma virtio_requests_witness :
  (* the write is done, the read has not been served; a third process comes *)
  vbufs write_done !! 600 = Some (Vbuf 0 4 [8; 8]) ∧ vbufs write_done !! 500 = Some (Vbuf 1 3 [0; 0]) ∧
  (∃ ch s' k, virtio_disk_rw 1 600 false write_done = Sleep ch s' k ∧ held s' = ∅ ∧
     comes write_done 600 false (Vbuf 0 4 [8; 8]) ch s') ∧
  platter (dev write_done) !! 8 = Some [8; 8] ∧
  (∃ s', rw_finish 3 write_done = Ok tt s' ∧ ∀ i, i ∈ [3; 4; 5] → vfree s' !! i = Some true) ∧
  is_Some (dev_serve 0 write_done).
Proof.
  assert (virtio_disk_init demo_R 0x80100000 0x80101000 0x80102000 boot = Ok tt booted) as Hi by (vm_compute; reflexivity).
  destruct (virtio_requests demo_R 0x80100000 0x80101000 0x80102000 boot booted _ vboot_ok Hi write_done_reached) as (H0 & H1 & _ & H3).
  split; [reflexivity|]. split; [reflexivity|]. split; [apply (H0 O 600 false); reflexivity|].
  destruct (H1 demo_write (Vbuf 0 4 [8; 8])) as (_ & H4 & H5); [right; left|reflexivity|done|].
  split; [exact H4|]. split; [exact H5|]. apply H3. by_compute.
Defined.

Lemma virtio_completes_witness :
  ∃ s1 s2 w1 w2 x, rtc (dstep demo_R) (Vsys write_done [demo_read; demo_write]) (Vsys s1 (w1 ++ demo_read :: w2)) ∧
    vbufs s1 !! 500 = Some x ∧ vb_disk x = 0 ∧ vb_data x = [7; 7] ∧ 500 ∈ woken s1 ∧
    vstep demo_R (Vsys s1 (w1 ++ demo_read :: w2)) (Vsys s2 (w1 ++ w2)) ∧
    (∀ i, i ∈ [0; 1; 2] → vfree s2 !! i = Some true) ∧ free_chan ∈ woken s2.
Proof.
  assert (virtio_disk_init demo_R 0x80100000 0x80101000 0x80102000 boot = Ok tt booted) as Hi by (vm_compute; reflexivity).
  apply (virtio_completes demo_R 0x80100000 0x80101000 0x80102000 boot booted _ demo_read vboot_ok Hi write_done_reached).
  left.
Defined.
