(* ===== verification/Log.v ===== *)
(** The write-ahead log (kernel/log.c). *)

From S2P Require Import Prelude Riscv Mem Threads Sleeplock Bio.
Local Open Scope Z_scope.

(** fs.h: the superblock, of which the log uses two fields. *)
Record superblock := Superblock {
  sb_magic : Z;
  sb_size : Z;
  sb_nblocks : Z;
  sb_ninodes : Z;
  sb_nlog : Z;
  sb_logstart : Z;
  sb_inodestart : Z;
  sb_bmapstart : Z;
}.

Record logst := Logst {
  lg_bio : biost;
  lg_start : Z;
  lg_size : Z;
  lg_outstanding : Z;
  lg_committing : bool;
  lg_dev : Z;
  lh_n : Z;
  lh_block : list Z;
}.
Definition set_bio (b : biost) (s : logst) : logst :=
  Logst b (lg_start s) (lg_size s) (lg_outstanding s) (lg_committing s) (lg_dev s) (lh_n s) (lh_block s).
Definition set_outstanding (o : Z) (c : bool) (s : logst) : logst :=
  Logst (lg_bio s) (lg_start s) (lg_size s) o c (lg_dev s) (lh_n s) (lh_block s).
Definition set_lh (n : Z) (bl : list Z) (s : logst) : logst :=
  Logst (lg_bio s) (lg_start s) (lg_size s) (lg_outstanding s) (lg_committing s) (lg_dev s) n bl.

#[export] Instance logst_thread : HasThread logst.
Proof.
  refine {| the_thread := λ s, bio_thread (lg_bio s);
            set_thread := λ t s, set_bio (set_thread t (lg_bio s)) s |}; try done.
  by intros [[]].
Defined.

(** [log.lock] and the channel [&log]. *)
Definition log_lock : Z := 101.
Definition log_chan : Z := 101.

(** A 32-bit little-endian integer in a block. *)
Definition load32 (d : block) (off : Z) : Z := s32 (le_decode (take 4 (drop (Z.to_nat off) d))).
Definition store32 (d : block) (off v : Z) : block :=
  take (Z.to_nat off) d ++ le_encode 4 (u32 v) ++ drop (Z.to_nat off + 4) d.
Definition sizeof_logheader : Z := 4 + 4 * LOGSIZE.

Section log.
Context (wakeups : nat).
Local Abbreviation St := logst.

Definition on_bio {A} (m : M biost A) : M St A := zoom lg_bio set_bio m.
Definition lh_get (i : Z) : M St Z :=
  if i <? 0 then fault else get_some (λ s, lh_block s !! Z.to_nat i).
(** [log.lh.block[i] = v] *)
Definition lh_set (i v : Z) : M St unit :=
  let! _ := lh_get i in modify (λ s, set_lh (lh_n s) (<[Z.to_nat i := v]> (lh_block s)) s).
Definition set_n (n : Z) : M St unit := modify (λ s, set_lh n (lh_block s) s).

(** One round of the loop of [install_trans]. *)
Definition install_one (recovering : bool) (tail : Z) : M St unit :=
  let! dev := gets lg_dev in
  let! start := gets lg_start in
  let! lbuf := on_bio (bread wakeups dev (start + tail + 1)) in
  let! dst := lh_get tail in
  let! dbuf := on_bio (bread wakeups dev dst) in
  let! d := on_bio (get_data lbuf) in
  on_bio (set_data dbuf d);;;
  on_bio (bwrite dbuf);;;
  when (negb recovering) (on_bio (bunpin dbuf));;;
  on_bio (brelse lbuf);;;
  on_bio (brelse dbuf).
Fixpoint install_loop (recovering : bool) (n : nat) (tail : Z) : M St unit :=
  match n with
  | O => ret tt
  | S n => install_one recovering tail;;; install_loop recovering n (tail + 1)
  end.
Definition install_trans (recovering : bool) : M St unit :=
  let! n := gets lh_n in install_loop recovering (Z.to_nat n) 0.

Fixpoint read_head_loop (d : block) (n : nat) (i : Z) : M St unit :=
  match n with
  | O => ret tt
  | S n => lh_set i (load32 d (4 + 4 * i));;; read_head_loop d n (i + 1)
  end.
Definition read_head : M St unit :=
  let! dev := gets lg_dev in
  let! start := gets lg_start in
  let! b := on_bio (bread wakeups dev start) in
  let! d := on_bio (get_data b) in
  set_n (load32 d 0);;;
  let! n := gets lh_n in
  read_head_loop d (Z.to_nat n) 0;;;
  on_bio (brelse b).

Fixpoint write_head_loop (b : Z) (n : nat) (i : Z) : M St unit :=
  match n with
  | O => ret tt
  | S n =>
      let! v := lh_get i in
      let! d := on_bio (get_data b) in
      on_bio (set_data b (store32 d (4 + 4 * i) v));;;
      write_head_loop b n (i + 1)
  end.
Definition write_head : M St unit :=
  let! dev := gets lg_dev in
  let! start := gets lg_start in
  let! b := on_bio (bread wakeups dev start) in
  let! n := gets lh_n in
  let! d := on_bio (get_data b) in
  on_bio (set_data b (store32 d 0 n));;;
  write_head_loop b (Z.to_nat n) 0;;;
  on_bio (bwrite b);;;
  on_bio (brelse b).

Definition recover_from_log : M St unit :=
  read_head;;;
  install_trans true;;;
  set_n 0;;;
  write_head.

Definition initlog (dev : Z) (sb : superblock) : M St unit :=
  if BSIZE <=? sizeof_logheader then panic "initlog: too big logheader" else
  modify (λ s, Logst (lg_bio s) (sb_logstart sb) (sb_nlog sb) (lg_outstanding s) (lg_committing s)
                 dev (lh_n s) (lh_block s));;;
  recover_from_log.

(** [n] is how often the caller may be woken to find the log still full. *)
Fixpoint begin_op_loop (n : nat) : M St unit :=
  let! c := gets lg_committing in
  let! hn := gets lh_n in
  let! o := gets lg_outstanding in
  if c || (LOGSIZE <? hn + (o + 1) * MAXOPBLOCKS) then
    match n with
    | O => blocked log_chan log_lock
    | S n => sleep log_chan log_lock;;; begin_op_loop n
    end
  else
    modify (set_outstanding (o + 1) c);;;
    release log_lock.
Definition begin_op : M St unit := acquire log_lock;;; begin_op_loop wakeups.

Definition write_log_one (tail : Z) : M St unit :=
  let! dev := gets lg_dev in
  let! start := gets lg_start in
  let! to := on_bio (bread wakeups dev (start + tail + 1)) in
  let! src := lh_get tail in
  let! from := on_bio (bread wakeups dev src) in
  let! d := on_bio (get_data from) in
  on_bio (set_data to d);;;
  on_bio (bwrite to);;;
  on_bio (brelse from);;;
  on_bio (brelse to).
Fixpoint write_log_loop (n : nat) (tail : Z) : M St unit :=
  match n with
  | O => ret tt
  | S n => write_log_one tail;;; write_log_loop n (tail + 1)
  end.
Definition write_log : M St unit :=
  let! n := gets lh_n in write_log_loop (Z.to_nat n) 0.

Definition commit : M St unit :=
  let! n := gets lh_n in
  when (0 <? n) (
    write_log;;;
    write_head;;;
    install_trans false;;;
    set_n 0;;;
    write_head).

Definition end_op : M St unit :=
  acquire log_lock;;;
  let! o := gets lg_outstanding in
  let! c := gets lg_committing in
  modify (set_outstanding (o - 1) c);;;
  if c then panic "log.committing" else
  let do_commit := o - 1 =? 0 in
  (if do_commit then modify (set_outstanding (o - 1) true) else wakeup log_chan);;;
  release log_lock;;;
  when do_commit (
    commit;;;
    acquire log_lock;;;
    let! o := gets lg_outstanding in
    modify (set_outstanding o false);;;
    wakeup log_chan;;;
    release log_lock).

(** The search for log absorption: the first entry for the block, or [n]. *)
Fixpoint log_find (blockno : Z) (n : nat) (i : Z) : M St Z :=
  match n with
  | O => ret i
  | S n =>
      let! v := lh_get i in
      if v =? blockno then ret i else log_find blockno n (i + 1)
  end.
Definition log_write (b : Z) : M St unit :=
  acquire log_lock;;;
  let! n := gets lh_n in
  let! size := gets lg_size in
  let! o := gets lg_outstanding in
  if (LOGSIZE <=? n) || (size - 1 <=? n) then panic "too big a transaction" else
  if o <? 1 then panic "log_write outside of trans" else
  let! x := on_bio (deref_buf b) in
  let! i := log_find (b_blockno x) (Z.to_nat n) 0 in
  lh_set i (b_blockno x);;;
  when (i =? n) (
    on_bio (bpin b);;;
    set_n (n + 1));;;
  release log_lock.
End log.
