(* ===== verification/LogSpecs.v ===== *)
(** The steps of the log on the invariant of the buffer cache: copying one
    block, writing the header, and what a header block says. *)

From stdpp Require Import functions.
From S2P Require Import Prelude Riscv Mem Threads Sleeplock Bio BioSpecs BioOps Log.
Local Open Scope Z_scope.

(** * Header blocks *)

(** The data of the header block after the loop of [write_head]. *)
Fixpoint put_blocks (d : block) (bl : list Z) (i : Z) : block :=
  match bl with
  | [] => d
  | v :: bl => put_blocks (store32 d (4 + 4 * i) v) bl (i + 1)
  end.
Definition header (d : block) (bl : list Z) : block :=
  put_blocks (store32 d 0 (Z.of_nat (length bl))) bl 0.
(** What [read_head] finds. *)
Definition header_n (d : block) : Z := load32 d 0.
Definition header_blocks (d : block) : list Z :=
  (λ i, load32 d (4 + 4 * Z.of_nat i)) <$> seq 0 (Z.to_nat (header_n d)).

Section header.
Implicit Types (d : block) (v off i : Z) (bl : list Z).

Lemma store32_length d off v :
  0 ≤ off → off + 4 ≤ Z.of_nat (length d) → length (store32 d off v) = length d.
Proof.
  intros. unfold store32. rewrite !length_app, length_take, length_drop, le_encode_length. lia.
Qed.

Lemma load32_store32 d off v :
  0 ≤ off → off + 4 ≤ Z.of_nat (length d) → - 2 ^ 31 ≤ v < 2 ^ 31 →
  load32 (store32 d off v) off = v.
Proof.
  intros. unfold load32, store32.
  rewrite drop_app_length' by (rewrite length_take; lia).
  rewrite take_app_length' by by rewrite le_encode_length.
  rewrite le_decode_encode by (change (256 ^ Z.of_nat 4) with (2 ^ 32); apply u32_range).
  unfold s32, u32. rewrite Zplus_mod_idemp_l. rewrite Z.mod_small; lia.
Qed.

Lemma load32_store32_ne d off off' v :
  0 ≤ off → off + 4 ≤ Z.of_nat (length d) → 0 ≤ off' → off' + 4 ≤ off ∨ off + 4 ≤ off' →
  load32 (store32 d off v) off' = load32 d off'.
Proof.
  intros H1 H2 H3 Hor. unfold load32. do 2 f_equal. unfold store32.
  apply list_eq. intros j. destruct (decide (j < 4)%nat) as [Hj|]; [|rewrite !lookup_take_ge by lia; done].
  rewrite !lookup_take_lt, !lookup_drop by done.
  destruct Hor.
  - rewrite lookup_app_l by (rewrite length_take; lia). by rewrite lookup_take_lt by lia.
  - rewrite lookup_app_r by (rewrite length_take; lia).
    rewrite lookup_app_r by (rewrite length_take, le_encode_length; lia).
    rewrite lookup_drop. f_equal. rewrite length_take, le_encode_length. lia.
Qed.

Lemma put_blocks_length d bl i :
  0 ≤ i → 4 + 4 * (i + Z.of_nat (length bl)) ≤ Z.of_nat (length d) →
  length (put_blocks d bl i) = length d.
Proof.
  revert d i. induction bl as [|v bl IH]; intros d i Hi Hlen; simpl in *; [done|].
  rewrite IH; rewrite ?store32_length; lia.
Qed.

Lemma put_blocks_before d bl i off :
  0 ≤ i → 4 + 4 * (i + Z.of_nat (length bl)) ≤ Z.of_nat (length d) →
  0 ≤ off → off + 4 ≤ 4 + 4 * i → load32 (put_blocks d bl i) off = load32 d off.
Proof.
  revert d i. induction bl as [|v bl IH]; intros d i Hi Hlen Ho1 Ho2; simpl in *; [done|].
  rewrite IH; rewrite ?store32_length; try lia. apply load32_store32_ne; lia.
Qed.

Lemma put_blocks_lookup d bl i j v :
  0 ≤ i → 4 + 4 * (i + Z.of_nat (length bl)) ≤ Z.of_nat (length d) →
  Forall (λ v, - 2 ^ 31 ≤ v < 2 ^ 31) bl → bl !! j = Some v →
  load32 (put_blocks d bl i) (4 + 4 * (i + Z.of_nat j)) = v.
Proof.
  revert d i j. induction bl as [|w bl IH]; intros d i j Hi Hlen Hb Hj; simpl in *; [done|].
  apply Forall_cons_1 in Hb as [Hw Hb]. destruct j as [|j]; simpl in Hj.
  - injection Hj as ->. rewrite Z.add_0_r, put_blocks_before; rewrite ?store32_length; try lia.
    apply load32_store32; lia.
  - replace (i + Z.of_nat (S j)) with (i + 1 + Z.of_nat j) by lia.
    apply IH; rewrite ?store32_length; (lia || done).
Qed.

Lemma header_length d bl :
  4 + 4 * Z.of_nat (length bl) ≤ Z.of_nat (length d) → length (header d bl) = length d.
Proof.
  intros. unfold header. rewrite put_blocks_length; rewrite ?store32_length; lia.
Qed.

(** Reading back a header that was written. *)
Lemma header_roundtrip d bl :
  4 + 4 * Z.of_nat (length bl) ≤ Z.of_nat (length d) → Z.of_nat (length bl) < 2 ^ 31 →
  Forall (λ v, - 2 ^ 31 ≤ v < 2 ^ 31) bl →
  header_n (header d bl) = Z.of_nat (length bl) ∧ header_blocks (header d bl) = bl.
Proof.
  intros Hlen Hn Hb. assert (header_n (header d bl) = Z.of_nat (length bl)) as Hhn.
  { unfold header_n, header. rewrite put_blocks_before; rewrite ?store32_length; try lia.
    apply load32_store32; lia. }
  split; [done|]. unfold header_blocks. rewrite Hhn, Nat2Z.id. apply list_eq. intros j.
  rewrite list_lookup_fmap. destruct (decide (j < length bl)%nat) as [Hj|Hj].
  - rewrite lookup_seq_lt by done. destruct (lookup_lt_is_Some_2 _ _ Hj) as [v Hv]. rewrite Hv. simpl.
    f_equal. pose proof (put_blocks_lookup (store32 d 0 (Z.of_nat (length bl))) bl 0 j v) as Hp.
    rewrite Z.add_0_l in Hp. apply Hp; rewrite ?store32_length; (lia || done).
  - rewrite lookup_seq_ge, lookup_ge_None_2 by lia. done.
Qed.
End header.

(** * Running the buffer cache under the log *)

Section steps.
Context (w : nat) (pid : Z).
Implicit Types (s : logst) (V : Z → block) (pins : gmap Z Z) (n L B : Z).

(** What the routines below keep of the log's own state. *)
Definition same_log s s' : Prop := s' = set_bio (lg_bio s') s.

(** The log's entries are [bl]. *)
Definition logged (s : logst) (bl : list Z) : Prop :=
  lh_n s = Z.of_nat (length bl) ∧ length (lh_block s) = Z.to_nat LOGSIZE ∧
  ∀ i B, bl !! i = Some B → lh_block s !! i = Some B.

Lemma same_log_refl s : same_log s s.
Proof. by destruct s. Qed.
Lemma same_log_set b s : same_log s (set_bio b s).
Proof. done. Qed.
Lemma same_log_trans s1 s2 s3 : same_log s1 s2 → same_log s2 s3 → same_log s1 s3.
Proof. unfold same_log. intros -> ->. done. Qed.

Lemma wp_bio {A C} (m : M biost A) (f : A → M logst C) P Q s :
  returns m P (lg_bio s) → (∀ a b, P a b → wp no_sleep (f a) Q (set_bio b s)) →
  wp no_sleep (bind (on_bio m) f) Q s.
Proof. intros Hm HQ. apply wp_bind. by eapply wp_zoom_returns. Qed.

Lemma wp_bio_last {A} (m : M biost A) P Q s :
  returns m P (lg_bio s) → (∀ a b, P a b → Q a (set_bio b s)) → wp no_sleep (on_bio m) Q s.
Proof. apply wp_zoom_returns. Qed.

Lemma lh_get_spec {C} i v (f : Z → M logst C) Q s :
  0 ≤ i → lh_block s !! Z.to_nat i = Some v → wp no_sleep (f v) Q s →
  wp no_sleep (bind (lh_get i) f) Q s.
Proof.
  intros Hi Hv HQ. apply wp_bind. unfold lh_get. rewrite (proj2 (Z.ltb_ge _ _)) by lia.
  by eapply wp_get_some.
Qed.

(** [write_log]'s round: the pinned block [B] is copied to the log block [L]. *)
Lemma write_log_one_spec V pins s t B :
  cache V pins ∅ pid (lg_bio s) → lg_dev s = ROOTDEV → 0 ≤ t →
  lh_block s !! Z.to_nat t = Some B → let L := lg_start s + t + 1 in
  pins !! L = None → pins !! B = Some 1 → Z.of_nat (size pins) < NBUF →
  is_Some (disk (lg_bio s) !! L) → is_Some (disk (lg_bio s) !! B) →
  returns (write_log_one w t)
    (λ _ s', same_log s s' ∧ cache (<[L := V B]> V) pins ∅ pid (lg_bio s') ∧
       disk (lg_bio s') = <[L := V B]> (disk (lg_bio s)) ∧
       dwrites (lg_bio s') = dwrites (lg_bio s) ++ [(L, V B)]) s.
Proof.
  intros Hc Hdev Ht HB L HL Hp Hsz HdL HdB.
  assert (L ≠ B) as Hne by congruence.
  apply wp_bind, wp_gets, wp_bind, wp_gets. rewrite Hdev. fold L.
  eapply wp_bio; [apply (bread_spec V pins ∅ pid w L); try done; [by right|by rewrite HL]|].
  intros to b1 (Hc1 & Hto1 & _ & _ & Hd1 & Hw1). cbn [lg_bio set_bio] in *. rewrite HL in Hc1. change (default 0 None + 1) with 1 in Hc1.
  eapply lh_get_spec; [done|exact HB|].
  assert (<[L := 1]> pins !! B = Some 1) as HpB by by rewrite lookup_insert_ne.
  eapply wp_bio; [apply (bread_spec _ _ _ _ w B b1 Hc1); rewrite ?HpB; [set_solver|by left; eexists|by compute|by cbn [lg_bio set_bio]; rewrite Hd1]|].
  intros from b2 (Hc2 & Hfrom2 & Hk2 & _ & Hd2 & Hw2). cbn [lg_bio set_bio] in *. rewrite HpB in Hc2. change (default 0 (Some 1) + 1) with 2 in Hc2.
  pose proof (Hk2 _ _ Hto1) as Hto2.
  eapply wp_bio; [by eapply get_data_spec|]. intros ? b3 [-> ->].
  destruct (holds_slot _ _ _ _ _ _ _ Hc2 Hfrom2) as (x & Hx & Hs & HxB & Hxd & Hxv & _).
  assert (length (V B) = Z.to_nat BSIZE) as HlenB.
  { rewrite <- HxB, <- (so_valid _ _ _ _ _ Hs Hxv Hxd). apply Hs. }
  eapply wp_bio; [by eapply set_data_spec|]. intros _ b3 (Hc3 & Hk3 & Hd3 & Hw3). cbn [lg_bio set_bio] in *.
  pose proof (Hk3 _ _ Hto2) as Hto3. pose proof (Hk3 _ _ Hfrom2) as Hfrom3.
  eapply wp_bio; [eapply bwrite_spec; [done|done|set_solver|by cbn [lg_bio set_bio]; rewrite Hd3, Hd2, Hd1]|].
  intros _ b4 (Hc4 & Hk4 & Hd4 & Hw4). cbn [lg_bio set_bio] in *. rewrite fn_lookup_insert in Hd4, Hw4.
  pose proof (Hk4 _ _ Hto3) as Hto4. pose proof (Hk4 _ _ Hfrom3) as Hfrom4.
  eapply wp_bio; [eapply (brelse_cache _ _ _ _ from B 2); [done|done|set_solver|by rewrite lookup_insert_eq|lia]|].
  intros _ b5 (Hc5 & Hk5 & _ & Hd5 & Hw5). cbn [lg_bio set_bio] in *. pose proof (Hk5 _ _ Hne Hto4) as Hto5.
  unfold unpin in Hc5. simpl in Hc5. rewrite insert_insert_eq in Hc5.
  eapply wp_bio_last; [eapply (brelse_cache _ _ _ _ to L 1); [done|done|set_solver| |]|].
  - rewrite lookup_insert_ne by done. by rewrite lookup_insert_eq.
  - intros _ d. cbn [lg_bio set_bio]. rewrite Hd5, Hd4, lookup_insert_eq, fn_lookup_insert. by intros [= <-].
  - intros _ b6 (Hc6 & _ & _ & Hd6 & Hw6). cbn [lg_bio set_bio] in *. split_and!.
    + done.
    + cbn [lg_bio set_bio]. unfold unpin in Hc6. simpl in Hc6.
      rewrite delete_insert_ne, delete_insert_id in Hc6 by done.
      rewrite (insert_id pins) in Hc6 by done.
      replace (({[B]} ∪ ({[L]} ∪ ∅)) ∖ {[B]} ∖ {[L]}) with (∅ : gset Z) in Hc6 by set_solver.
      exact Hc6.
    + cbn [lg_bio set_bio]. by rewrite Hd6, Hd5, Hd4, Hd3, Hd2, Hd1.
    + cbn [lg_bio set_bio]. by rewrite Hw6, Hw5, Hw4, Hw3, Hw2, Hw1.
Qed.

(** [install_trans]'s round: the log block [L] is copied home to [B]; a block
    pinned by its log write ([recovering] is false) is unpinned. *)
Lemma install_one_spec V pins s t B (recovering : bool) :
  cache V pins ∅ pid (lg_bio s) → lg_dev s = ROOTDEV → 0 ≤ t →
  lh_block s !! Z.to_nat t = Some B → let L := lg_start s + t + 1 in
  pins !! L = None → L ≠ B → pins !! B = (if recovering then None else Some 1) →
  Z.of_nat (size pins) + (if recovering then 1 else 0) < NBUF →
  is_Some (disk (lg_bio s) !! L) → is_Some (disk (lg_bio s) !! B) →
  returns (install_one w recovering t)
    (λ _ s', same_log s s' ∧ cache (<[B := V L]> V) (delete B pins) ∅ pid (lg_bio s') ∧
       disk (lg_bio s') = <[B := V L]> (disk (lg_bio s)) ∧
       dwrites (lg_bio s') = dwrites (lg_bio s) ++ [(B, V L)]) s.
Proof.
  intros Hc Hdev Ht HB L HL Hne Hp Hsz HdL HdB.
  set (r := if recovering then 1 else 2).
  assert (default 0 (pins !! B) + 1 = r) as Hr by (rewrite Hp; by destruct recovering).
  assert (∀ d, disk (lg_bio s) !! L = Some d → d = V L ∧ length d = Z.to_nat BSIZE) as HVL.
  { intros d Hd. destruct (ca_disk _ _ _ _ _ Hc L d Hd) as [? Hcl]. split; [|done].
    apply Hcl. by apply not_elem_of_dom. }
  apply wp_bind, wp_gets, wp_bind, wp_gets. rewrite Hdev. fold L.
  eapply wp_bio; [apply (bread_spec V pins ∅ pid w L); try done; [right; by destruct recovering; lia|by rewrite HL]|].
  intros lbuf b1 (Hc1 & Hl1 & _ & _ & Hd1 & Hw1). cbn [lg_bio set_bio] in *. rewrite HL in Hc1. change (default 0 None + 1) with 1 in Hc1.
  eapply lh_get_spec; [done|exact HB|].
  assert (<[L := 1]> pins !! B = pins !! B) as HpB by by rewrite lookup_insert_ne.
  eapply wp_bio.
  { apply (bread_spec _ _ _ _ w B b1 Hc1); rewrite ?HpB, ?Hr; [set_solver| |by subst r; destruct recovering|by cbn [lg_bio set_bio]; rewrite Hd1].
    rewrite Hp. destruct recovering; [right|left; by eexists].
    rewrite map_size_insert_None by done. cbn [set_bio lg_bio]. lia. }
  intros dbuf b2 (Hc2 & Hd2 & Hk2 & _ & Hdd2 & Hw2). cbn [lg_bio set_bio] in *. rewrite HpB, Hr in Hc2.
  pose proof (Hk2 _ _ Hl1) as Hl2.
  eapply wp_bio; [by eapply get_data_spec|]. intros ? b3 [-> ->].
  assert (length (V L) = Z.to_nat BSIZE) as HlenL.
  { destruct HdL as [d Hd]. destruct (HVL d Hd) as [<- ?]. done. }
  eapply wp_bio; [by eapply set_data_spec|]. intros _ b3 (Hc3 & Hk3 & Hd3 & Hw3). cbn [lg_bio set_bio] in *.
  pose proof (Hk3 _ _ Hl2) as Hl3. pose proof (Hk3 _ _ Hd2) as Hdb3.
  eapply wp_bio; [eapply bwrite_spec; [done|done|set_solver|by cbn [lg_bio set_bio]; rewrite Hd3, Hdd2, Hd1]|].
  intros _ b4 (Hc4 & Hk4 & Hd4 & Hw4). cbn [lg_bio set_bio] in *. rewrite fn_lookup_insert in Hd4, Hw4.
  pose proof (Hk4 _ _ Hl3) as Hl4. pose proof (Hk4 _ _ Hdb3) as Hdb4.
  eapply wp_call with (P := λ _ s4, ∃ b5, s4 = set_bio b5 s ∧
    cache (<[B := V L]> V) (<[B := 1]> (<[L := 1]> pins)) ({[B]} ∪ ({[L]} ∪ ∅)) pid b5 ∧
    holds b5 lbuf L ∧ holds b5 dbuf B ∧ disk b5 = disk b4 ∧ dwrites b5 = dwrites b4).
  { destruct recovering; cbn [negb when].
    - apply wp_ret. exists b4. split_and!; try done.
    - eapply wp_bio_last.
      { eapply (bunpin_spec _ _ _ _ dbuf B 2); [done|done|by rewrite lookup_insert_eq|lia]. }
      intros _ b5 (Hc5 & Hk5 & Hd5 & Hw5). cbn [lg_bio set_bio] in *. exists b5. rewrite insert_insert_eq in Hc5.
      split_and!; try done; by apply Hk5. }
  intros _ ? (b5 & -> & Hc5 & Hl5 & Hdb5 & Hd5 & Hw5). cbn [lg_bio set_bio] in *.
  eapply wp_bio.
  { eapply (brelse_cache _ _ _ _ lbuf L 1); [done|done|set_solver| |].
    - rewrite lookup_insert_ne by done. by rewrite lookup_insert_eq.
    - intros _ d. cbn [lg_bio set_bio]. rewrite Hd5, Hd4, Hd3, Hdd2, Hd1.
      rewrite lookup_insert_ne, fn_lookup_insert_ne by done. intros Hd. by apply HVL. }
  intros _ b6 (Hc6 & Hk6 & _ & Hd6 & Hw6). cbn [lg_bio set_bio] in *. pose proof (Hk6 _ _ (not_eq_sym Hne) Hdb5) as Hdb6.
  unfold unpin in Hc6. simpl in Hc6.
  rewrite delete_insert_ne, delete_insert_id in Hc6 by done.
  eapply wp_bio_last.
  { eapply (brelse_cache _ _ _ _ dbuf B 1); [done|done|set_solver|by rewrite lookup_insert_eq|].
    intros _ d. cbn [lg_bio set_bio]. rewrite Hd6, Hd5, Hd4, lookup_insert_eq, fn_lookup_insert. by intros [= <-]. }
  intros _ b7 (Hc7 & _ & _ & Hd7 & Hw7). cbn [lg_bio set_bio] in *. split_and!.
  - done.
  - unfold unpin in Hc7. simpl in Hc7. rewrite delete_insert_eq in Hc7.
    replace (({[B]} ∪ ({[L]} ∪ ∅)) ∖ {[L]} ∖ {[B]}) with (∅ : gset Z) in Hc7 by set_solver.
    exact Hc7.
  - by rewrite Hd7, Hd6, Hd5, Hd4, Hd3, Hdd2, Hd1.
  - by rewrite Hw7, Hw6, Hw5, Hw4, Hw3, Hw2, Hw1.
Qed.
End steps.
