(* ===== verification/LogSteps.v ===== *)
(** The loops of the log, and [commit] and recovery as sequences of disk
    writes. *)

From stdpp Require Import functions.
From S2P Require Import Prelude Riscv Mem Threads Sleeplock Bio BioSpecs BioOps Log LogSpecs.
Local Open Scope Z_scope.

(** A sequence of block writes, applied to contents and to a disk. *)
Definition apply_writes (ws : list (Z * block)) (d : gmap Z block) : gmap Z block :=
  foldl (λ d '(n, b), <[n := b]> d) d ws.
Definition update_contents (ws : list (Z * block)) (V : Z → block) : Z → block :=
  foldl (λ V '(n, b), <[n := b]> V) V ws.

(** The writes of [write_log] and of [install_trans] for the blocks [bl], from
    index [t] on. *)
Fixpoint log_writes (V : Z → block) (start t : Z) (bl : list Z) : list (Z * block) :=
  match bl with
  | [] => []
  | B :: bl => (start + t + 1, V B) :: log_writes V start (t + 1) bl
  end.
Fixpoint install_writes (V : Z → block) (start t : Z) (bl : list Z) : list (Z * block) :=
  match bl with
  | [] => []
  | B :: bl => (B, V (start + t + 1)) :: install_writes V start (t + 1) bl
  end.

(** A block of the file system proper: not the header nor a log block. *)
Definition home (start : Z) (n : Z) : Prop := n < start ∨ start + LOGSIZE < n.

Section steps.
Context (w : nat) (pid : Z).
Implicit Types (s : logst) (V : Z → block) (pins : gmap Z Z) (n L B : Z) (bl : list Z).

Lemma log_writes_ext V V' start t bl :
  (∀ B, B ∈ bl → V' B = V B) → log_writes V' start t bl = log_writes V start t bl.
Proof.
  revert t. induction bl as [|B bl IH]; intros t HV; simpl; [done|].
  rewrite HV by set_solver. by rewrite IH by set_solver.
Qed.

Lemma install_writes_ext V V' start t bl :
  (∀ i, start + t < i ≤ start + t + Z.of_nat (length bl) → V' i = V i) →
  install_writes V' start t bl = install_writes V start t bl.
Proof.
  revert t. induction bl as [|B bl IH]; intros t HV; simpl; [done|].
  rewrite HV by (simpl; lia). rewrite IH; [done|]. intros i Hi. apply HV. simpl. lia.
Qed.

(** The log and the disk are large enough. *)
Definition area_ok (s : logst) (pins : gmap Z Z) : Prop :=
  lg_dev s = ROOTDEV ∧
  ∀ n, lg_start s ≤ n ≤ lg_start s + LOGSIZE → pins !! n = None ∧ is_Some (disk (lg_bio s) !! n).
Definition home_ok (s : logst) (bl : list Z) : Prop :=
  ∀ B, B ∈ bl → home (lg_start s) B ∧ is_Some (disk (lg_bio s) !! B).

Lemma same_log_fields s s' :
  same_log s s' → lg_dev s' = lg_dev s ∧ lg_start s' = lg_start s ∧ lh_block s' = lh_block s ∧
    lh_n s' = lh_n s.
Proof. unfold same_log. intros ->. done. Qed.

Lemma write_log_loop_spec V pins s t bl :
  cache V pins ∅ pid (lg_bio s) → area_ok s pins → home_ok s bl → Z.of_nat (size pins) < NBUF →
  0 ≤ t → t + Z.of_nat (length bl) ≤ LOGSIZE → (∀ B, B ∈ bl → pins !! B = Some 1) →
  (∀ i B, bl !! i = Some B → lh_block s !! (Z.to_nat t + i)%nat = Some B) →
  let ws := log_writes V (lg_start s) t bl in
  returns (write_log_loop w (length bl) t)
    (λ _ s', same_log s s' ∧ cache (update_contents ws V) pins ∅ pid (lg_bio s') ∧
       disk (lg_bio s') = apply_writes ws (disk (lg_bio s)) ∧
       dwrites (lg_bio s') = dwrites (lg_bio s) ++ ws) s.
Proof.
  revert V s t. induction bl as [|B bl IH]; intros V s t Hc [Hdev Ha] Hh Hsz Ht Hmax Hp Hlh; simpl.
  { apply wp_ret. split_and!; [apply same_log_refl|done|done|by rewrite app_nil_r]. }
  destruct (Hh B) as [HB HdB]; [set_solver|]. cbn [length] in Hmax.
  destruct (Ha (lg_start s + t + 1)) as [HpL HdL]; [lia|].
  assert (∀ B', B' ∈ bl → B' ≠ lg_start s + t + 1) as HneL.
  { intros B' Hin. destruct (Hh B') as [[|] _]; [set_solver|lia|lia]. }
  eapply wp_call.
  { apply (write_log_one_spec w pid V pins s t B); try done; [|by apply Hp; set_solver].
    rewrite <- (Hlh 0%nat B eq_refl). by rewrite Nat.add_0_r. }
  intros _ s1 (Hs1 & Hc1 & Hd1 & Hw1). destruct (same_log_fields _ _ Hs1) as (F1 & F2 & F3 & F4).
  eapply wp_mono; [apply (IH (<[lg_start s + t + 1 := V B]> V) s1 (t + 1))|].
  - done.
  - split; [congruence|]. rewrite F2, Hd1. intros n Hn. destruct (Ha n Hn) as [? ?]. split; [done|].
    apply lookup_insert_is_Some'. by right.
  - intros B' Hin. rewrite F2, Hd1. destruct (Hh B') as [? ?]; [set_solver|]. split; [done|].
    apply lookup_insert_is_Some'. by right.
  - done.
  - lia.
  - lia.
  - intros B' ?. apply Hp. set_solver.
  - intros i B' Hi. rewrite F3, <- (Hlh (S i) B' Hi). f_equal. lia.
  - rewrite F2, (log_writes_ext V)
      by (intros B' Hin; rewrite fn_lookup_insert_ne; [done|by apply not_eq_sym, HneL]).
    intros _ s2 (Hs2 & Hc2 & Hd2 & Hw2). split_and!; [by eapply same_log_trans|done| |].
    + by rewrite Hd2, Hd1.
    + by rewrite Hw2, Hw1, <- app_assoc.
Qed.

Lemma install_loop_spec V pins s t bl (recovering : bool) :
  cache V pins ∅ pid (lg_bio s) → area_ok s pins → home_ok s bl →
  Z.of_nat (size pins) + (if recovering then 1 else 0) < NBUF →
  0 ≤ t → t + Z.of_nat (length bl) ≤ LOGSIZE → (recovering = false → NoDup bl) →
  (∀ B, B ∈ bl → pins !! B = if recovering then None else Some 1) →
  (∀ i B, bl !! i = Some B → lh_block s !! (Z.to_nat t + i)%nat = Some B) →
  let ws := install_writes V (lg_start s) t bl in
  returns (install_loop w recovering (length bl) t)
    (λ _ s', same_log s s' ∧ cache (update_contents ws V) (foldl (λ p B, delete B p) pins bl) ∅ pid (lg_bio s') ∧
       disk (lg_bio s') = apply_writes ws (disk (lg_bio s)) ∧
       dwrites (lg_bio s') = dwrites (lg_bio s) ++ ws) s.
Proof.
  revert V pins s t. induction bl as [|B bl IH]; intros V pins s t Hc [Hdev Ha] Hh Hsz Ht Hmax Hnd Hp Hlh; simpl.
  { apply wp_ret. split_and!; [apply same_log_refl|done|done|by rewrite app_nil_r]. }
  destruct (Hh B) as [HB HdB]; [set_solver|]. cbn [length] in Hmax.
  destruct (Ha (lg_start s + t + 1)) as [HpL HdL]; [lia|].
  eapply wp_call.
  { apply (install_one_spec w pid V pins s t B recovering); try done; [| |by apply Hp; set_solver].
    - rewrite <- (Hlh 0%nat B eq_refl). by rewrite Nat.add_0_r.
    - destruct HB; lia. }
  intros _ s1 (Hs1 & Hc1 & Hd1 & Hw1). destruct (same_log_fields _ _ Hs1) as (F1 & F2 & F3 & F4).
  eapply wp_mono; [apply (IH (<[B := V (lg_start s + t + 1)]> V) (delete B pins) s1 (t + 1))|].
  - done.
  - split; [congruence|]. rewrite F2, Hd1. intros n Hn. destruct (Ha n Hn) as [Hpn ?]. split.
    + apply lookup_delete_None. by right.
    + apply lookup_insert_is_Some'. by right.
  - intros B' Hin. rewrite F2, Hd1. destruct (Hh B') as [? ?]; [set_solver|]. split; [done|].
    apply lookup_insert_is_Some'. by right.
  - rewrite map_size_delete. destruct (pins !! B); simpl; destruct recovering; lia.
  - lia.
  - lia.
  - intros Hr. specialize (Hnd Hr). by apply NoDup_cons in Hnd as [_ ?].
  - intros B' Hin. destruct recovering; [apply lookup_delete_None; right; apply Hp; set_solver|].
    specialize (Hnd eq_refl). apply NoDup_cons in Hnd as [HnB _].
    rewrite lookup_delete_ne by (intros ->; done). apply Hp. set_solver.
  - intros i B' Hi. rewrite F3, <- (Hlh (S i) B' Hi). f_equal. lia.
  - rewrite F2, (install_writes_ext V)
      by (intros i Hi; rewrite fn_lookup_insert_ne; [done|]; destruct HB; lia).
    intros _ s2 (Hs2 & Hc2 & Hd2 & Hw2). split_and!; [by eapply same_log_trans|done| |].
    + by rewrite Hd2, Hd1.
    + by rewrite Hw2, Hw1, <- app_assoc.
Qed.

(** ** The header *)

Lemma write_head_loop_spec V pins mine s b bl i :
  cache V pins mine pid (lg_bio s) → holds (lg_bio s) b (lg_start s) → 0 ≤ i →
  4 + 4 * (i + Z.of_nat (length bl)) ≤ BSIZE → length (V (lg_start s)) = Z.to_nat BSIZE →
  (∀ j B, bl !! j = Some B → lh_block s !! (Z.to_nat i + j)%nat = Some B) →
  returns (write_head_loop b (length bl) i)
    (λ _ s', same_log s s' ∧
       cache (<[lg_start s := put_blocks (V (lg_start s)) bl i]> V) pins mine pid (lg_bio s') ∧
       (∀ c k, holds (lg_bio s) c k → holds (lg_bio s') c k) ∧
       disk (lg_bio s') = disk (lg_bio s) ∧ dwrites (lg_bio s') = dwrites (lg_bio s)) s.
Proof.
  revert V s i. induction bl as [|v bl IH]; intros V s i Hc Hb Hi Hmax Hlen Hlh; simpl.
  { apply wp_ret. split_and!; [apply same_log_refl| |done..]. revert Hc. apply cache_ext.
    intros n. destruct (decide (n = lg_start s)) as [->|?]; by rewrite ?fn_lookup_insert, ?fn_lookup_insert_ne. }
  cbn [length] in Hmax. eapply lh_get_spec; [done| |].
  { rewrite <- (Nat.add_0_r (Z.to_nat i)). by apply (Hlh 0%nat). }
  eapply wp_bio; [by eapply get_data_spec|]. intros ? b1 [-> ->].
  assert (length (store32 (V (lg_start s)) (4 + 4 * i) v) = Z.to_nat BSIZE) as Hlen1.
  { rewrite store32_length; [done|lia|]. rewrite Hlen. unfold BSIZE in *. lia. }
  eapply wp_bio; [by eapply set_data_spec|]. intros _ b1 (Hc1 & Hk1 & Hd1 & Hw1).
  cbn [lg_bio set_bio] in *.
  eapply wp_mono; [apply (IH _ (set_bio b1 s) (i + 1) Hc1)|]; cbn [lg_bio set_bio lg_start lh_block].
  - by apply Hk1.
  - lia.
  - lia.
  - by rewrite fn_lookup_insert.
  - intros j B Hj. rewrite <- (Hlh (S j) B Hj). f_equal. lia.
  - intros _ s2 (Hs2 & Hc2 & Hk2 & Hd2 & Hw2). split_and!; [| |by auto|congruence|congruence].
    + eapply same_log_trans; [|exact Hs2]. done.
    + revert Hc2. apply cache_ext. intros n. rewrite fn_lookup_insert.
      destruct (decide (n = lg_start s)) as [->|?]; by rewrite ?fn_lookup_insert, ?fn_lookup_insert_ne.
Qed.

(** A block of the log area is what the disk holds. *)
Lemma area_block V pins mine s n :
  cache V pins mine pid (lg_bio s) → area_ok s pins → lg_start s ≤ n ≤ lg_start s + LOGSIZE →
  length (V n) = Z.to_nat BSIZE ∧ disk (lg_bio s) !! n = Some (V n).
Proof.
  intros Hc [_ Ha] Hn. destruct (Ha n Hn) as [Hp [d Hd]].
  destruct (ca_disk _ _ _ _ _ Hc n d Hd) as [Hlen Hcl].
  rewrite Hcl in Hd, Hlen by by apply not_elem_of_dom. done.
Qed.

Lemma write_head_spec V pins s bl :
  cache V pins ∅ pid (lg_bio s) → area_ok s pins → Z.of_nat (size pins) < NBUF →
  lh_n s = Z.of_nat (length bl) → Z.of_nat (length bl) ≤ LOGSIZE →
  (∀ i B, bl !! i = Some B → lh_block s !! i = Some B) →
  let h := header (V (lg_start s)) bl in
  returns (write_head w)
    (λ _ s', same_log s s' ∧ cache (<[lg_start s := h]> V) pins ∅ pid (lg_bio s') ∧
       disk (lg_bio s') = <[lg_start s := h]> (disk (lg_bio s)) ∧
       dwrites (lg_bio s') = dwrites (lg_bio s) ++ [(lg_start s, h)]) s.
Proof.
  intros Hc Ha Hsz Hn Hmax Hlh h. set (S := lg_start s).
  destruct (area_block V pins ∅ s S Hc Ha) as [HlenS HdS]; [unfold LOGSIZE, MAXOPBLOCKS; lia|].
  destruct Ha as [Hdev Ha]. destruct (Ha S) as [HpS _]; [unfold LOGSIZE, MAXOPBLOCKS; lia|].
  apply wp_bind, wp_gets, wp_bind, wp_gets. rewrite Hdev. fold S.
  eapply wp_bio; [apply (bread_spec V pins ∅ pid w S); try done; [by right|by rewrite HpS]|].
  intros b b1 (Hc1 & Hb1 & _ & _ & Hd1 & Hw1). rewrite HpS in Hc1. change (default 0 None + 1) with 1 in Hc1.
  apply wp_bind, wp_gets. cbn [lh_n set_bio]. rewrite Hn, Nat2Z.id.
  eapply wp_bio; [by eapply get_data_spec|]. intros ? b2 [-> ->].
  assert (4 + 4 * LOGSIZE ≤ BSIZE) as Hfit by by compute.
  assert (length (store32 (V S) 0 (Z.of_nat (length bl))) = Z.to_nat BSIZE) as Hlen1.
  { rewrite store32_length; [done|lia|]. rewrite HlenS. unfold BSIZE in *. lia. }
  eapply wp_bio; [by eapply set_data_spec|].
  intros _ b2 (Hc2 & Hk2 & Hd2 & Hw2). cbn [lg_bio set_bio] in *.
  pose proof (Hk2 _ _ Hb1) as Hb2.
  eapply wp_call.
  { apply (write_head_loop_spec _ _ _ (set_bio b2 s) b bl 0 Hc2); cbn [lg_bio set_bio lg_start lh_block].
    - done.
    - done.
    - lia.
    - by rewrite fn_lookup_insert.
    - intros j B Hj. by apply Hlh. }
  cbn [lg_bio set_bio lg_start] in *. fold S. rewrite fn_lookup_insert. fold (header (V S) bl). fold h.
  intros _ s3 (Hs3 & Hc3 & Hk3 & Hd3 & Hw3).
  assert (same_log s s3) as Hs by by eapply same_log_trans; [|exact Hs3].
  assert (cache (<[S:=h]> V) (<[S:=1]> pins) ({[S]} ∪ ∅) pid (lg_bio s3)) as Hc3'.
  { revert Hc3. apply cache_ext. intros n.
    destruct (decide (n = S)) as [->|?]; by rewrite ?fn_lookup_insert, ?fn_lookup_insert_ne. }
  clear Hc3. pose proof (Hk3 _ _ Hb2) as Hb3.
  eapply wp_bio; [eapply bwrite_spec; [done|done|set_solver|by rewrite Hd3, Hd2, Hd1; cbn [lg_bio set_bio]; rewrite HdS]|].
  intros _ b4 (Hc4 & Hk4 & Hd4 & Hw4). rewrite fn_lookup_insert in Hd4, Hw4.
  eapply wp_bio_last; [eapply (brelse_cache _ _ _ _ b S 1); [done|by apply Hk4|set_solver|by rewrite lookup_insert_eq|]|].
  { intros _ d. cbn [lg_bio set_bio]. rewrite Hd4, lookup_insert_eq, fn_lookup_insert. by intros [= <-]. }
  intros _ b5 (Hc5 & _ & _ & Hd5 & Hw5). cbn [lg_bio set_bio] in *. split_and!.
  - unfold same_log in *. rewrite Hs. done.
  - unfold unpin in Hc5. simpl in Hc5. rewrite delete_insert_eq, delete_id in Hc5 by done.
    replace (({[S]} ∪ ∅) ∖ {[S]}) with (∅ : gset Z) in Hc5 by set_solver. exact Hc5.
  - by rewrite Hd5, Hd4, Hd3, Hd2, Hd1.
  - by rewrite Hw5, Hw4, Hw3, Hw2, Hw1.
Qed.

Lemma read_head_loop_spec d (n : nat) i s :
  0 ≤ i → i + Z.of_nat n ≤ Z.of_nat (length (lh_block s)) →
  returns (read_head_loop d n i)
    (λ _ s', ∃ bl, s' = set_lh (lh_n s) bl s ∧ length bl = length (lh_block s) ∧
       (∀ j, (j < Z.to_nat i)%nat → bl !! j = lh_block s !! j) ∧
       (∀ j, (j < n)%nat → bl !! (Z.to_nat i + j)%nat = Some (load32 d (4 + 4 * (i + Z.of_nat j))))) s.
Proof.
  revert s i. induction n as [|n IH]; intros s i Hi Hlen; simpl.
  { apply wp_ret. exists (lh_block s). split_and!; [by destruct s|done|done|lia]. }
  destruct (lookup_lt_is_Some_2 (lh_block s) (Z.to_nat i)) as [v Hv]; [lia|].
  eapply wp_call with (P := λ _ s1, s1 = set_lh (lh_n s) (<[Z.to_nat i := load32 d (4 + 4 * i)]> (lh_block s)) s).
  { eapply lh_get_spec; [done|exact Hv|]. apply wp_modify. done. }
  intros _ ? ->. eapply wp_mono; [apply IH; cbn [lh_block set_lh]; rewrite ?length_insert; lia|].
  cbn [lh_block set_lh lh_n]. intros _ s' (bl & -> & Hbl & Hold & Hnew). exists bl. split_and!.
  - done.
  - by rewrite Hbl, length_insert.
  - intros j Hj. rewrite Hold by lia. by rewrite list_lookup_insert_ne by lia.
  - intros [|j] Hj.
    + rewrite !Nat.add_0_r, Z.add_0_r, Hold by lia. apply list_lookup_insert_eq. lia.
    + specialize (Hnew j ltac:(lia)).
      replace (Z.to_nat i + S j)%nat with (Z.to_nat (i + 1) + j)%nat by lia.
      rewrite Hnew. do 2 f_equal. lia.
Qed.

Lemma read_head_spec V pins s :
  cache V pins ∅ pid (lg_bio s) → area_ok s pins → Z.of_nat (size pins) < NBUF →
  let n := header_n (V (lg_start s)) in
  n ≤ Z.of_nat (length (lh_block s)) →
  returns (read_head w)
    (λ _ s', (∃ b bl, s' = set_lh n bl (set_bio b s) ∧ length bl = length (lh_block s) ∧
         ∀ i B, header_blocks (V (lg_start s)) !! i = Some B → bl !! i = Some B) ∧
       cache V pins ∅ pid (lg_bio s') ∧
       disk (lg_bio s') = disk (lg_bio s) ∧ dwrites (lg_bio s') = dwrites (lg_bio s)) s.
Proof.
  intros Hc Ha Hsz n Hmax. set (S := lg_start s).
  destruct (area_block V pins ∅ s S Hc Ha) as [HlenS HdS]; [unfold LOGSIZE, MAXOPBLOCKS; lia|].
  destruct Ha as [Hdev Ha]. destruct (Ha S) as [HpS _]; [unfold LOGSIZE, MAXOPBLOCKS; lia|].
  apply wp_bind, wp_gets, wp_bind, wp_gets. rewrite Hdev. fold S.
  eapply wp_bio; [apply (bread_spec V pins ∅ pid w S); try done; [by right|by rewrite HpS]|].
  intros b b1 (Hc1 & Hb1 & _ & _ & Hd1 & Hw1). rewrite HpS in Hc1. change (default 0 None + 1) with 1 in Hc1.
  eapply wp_bio; [by eapply get_data_spec|]. intros ? b2 [-> ->].
  apply wp_bind, wp_modify, wp_bind, wp_gets. cbn [lh_n lh_block set_bio set_lh].
  change (load32 (V S) 0) with n.
  eapply wp_call; [apply read_head_loop_spec; [done|cbn [lh_block set_lh set_bio]; lia]|].
  cbn [lh_n lh_block set_lh set_bio]. intros _ ? (bl & -> & Hbl & _ & Hnew).
  eapply wp_bio_last; [eapply (brelse_cache _ _ _ _ b S 1); [done|done|set_solver|by rewrite lookup_insert_eq|]|].
  { intros _ d. cbn [lg_bio set_bio set_lh]. rewrite Hd1, HdS. by intros [= <-]. }
  intros _ b5 (Hc5 & _ & _ & Hd5 & Hw5). cbn [lg_bio set_bio set_lh] in *. split_and!.
  - exists b5, bl. split_and!; [done|done|]. intros i B HB. unfold header_blocks in HB.
    rewrite list_lookup_fmap in HB. change (header_n (V S)) with n in HB.
    destruct (decide (i < Z.to_nat n)%nat) as [Hi|Hi]; [|by rewrite lookup_seq_ge in HB by lia].
    rewrite lookup_seq_lt in HB by done. injection HB as <-. exact (Hnew i Hi).
  - unfold unpin in Hc5. simpl in Hc5. rewrite delete_insert_eq, delete_id in Hc5 by done.
    replace (({[S]} ∪ ∅) ∖ {[S]}) with (∅ : gset Z) in Hc5 by set_solver. exact Hc5.
  - by rewrite Hd5, Hd1.
  - by rewrite Hw5, Hw1.
Qed.
End steps.
