(* ===== verification/LogCrash.v ===== *)
(** What a crash can leave on the disk and what recovery makes of it: sequences
    of block writes, their prefixes, and the specifications of [commit] and of
    recovery as such sequences. *)

From stdpp Require Import functions.
From S2P Require Import Prelude Riscv Mem Threads Sleeplock Bio BioSpecs BioOps BioTheorems Log LogSpecs LogSteps.
Local Open Scope Z_scope.

(** * Writes as data *)

Section writes.
Implicit Types (ws : list (Z * block)) (d : gmap Z block) (V : Z → block) (n start t : Z) (bl : list Z).

Lemma apply_writes_app ws ws' d : apply_writes (ws ++ ws') d = apply_writes ws' (apply_writes ws d).
Proof. apply foldl_app. Qed.

Lemma apply_writes_ne ws d n : n ∉ ws.*1 → apply_writes ws d !! n = d !! n.
Proof.
  revert d. induction ws as [|[m b] ws IH]; intros d Hn; simpl in *; [done|].
  apply not_elem_of_cons in Hn as [? ?]. rewrite IH by done. by apply lookup_insert_ne.
Qed.

Lemma apply_writes_in ws d d' n : n ∈ ws.*1 → apply_writes ws d !! n = apply_writes ws d' !! n.
Proof.
  revert d d'. induction ws as [|[m b] ws IH]; intros d d' Hn; simpl in *; [by apply elem_of_nil in Hn|].
  destruct (decide (n ∈ ws.*1)) as [|Hnot]; [by apply IH|].
  rewrite !apply_writes_ne by done. apply elem_of_cons in Hn as [->|]; [|done].
  by rewrite !lookup_insert_eq.
Qed.

(** Writing the same again, from any prefix on, changes nothing more. *)
Lemma apply_writes_twice ws k d : apply_writes ws (apply_writes (take k ws) d) = apply_writes ws d.
Proof.
  apply map_eq. intros n. destruct (decide (n ∈ ws.*1)) as [|Hn]; [by apply apply_writes_in|].
  rewrite !apply_writes_ne; try done. intros Hin. apply Hn.
  rewrite fmap_take in Hin. apply elem_of_take in Hin as (i & ? & _). by eapply list_elem_of_lookup_2.
Qed.

Lemma apply_writes_lookup ws d n b : NoDup ws.*1 → (n, b) ∈ ws → apply_writes ws d !! n = Some b.
Proof.
  revert d. induction ws as [|[m c] ws IH]; intros d Hnd Hin; simpl in *; [by apply elem_of_nil in Hin|].
  apply NoDup_cons in Hnd as [Hm Hnd]. apply elem_of_cons in Hin as [[= -> ->]|Hin]; [|by apply IH].
  rewrite apply_writes_ne by done. apply lookup_insert_eq.
Qed.

Lemma apply_writes_is_Some ws d n : is_Some (d !! n) → is_Some (apply_writes ws d !! n).
Proof.
  revert d. induction ws as [|[m b] ws IH]; intros d Hn; simpl; [done|]. apply IH.
  apply lookup_insert_is_Some'. by right.
Qed.

Lemma apply_writes_len ws d :
  map_Forall (λ _ b, length b = Z.to_nat BSIZE) d → Forall (λ w, length w.2 = Z.to_nat BSIZE) ws →
  map_Forall (λ _ b, length b = Z.to_nat BSIZE) (apply_writes ws d).
Proof.
  revert d. induction ws as [|[m b] ws IH]; intros d Hd Hw; simpl; [done|].
  apply Forall_cons_1 in Hw as [? ?]. apply IH; [|done]. by apply map_Forall_insert_2.
Qed.

Lemma update_contents_app ws ws' V : update_contents (ws ++ ws') V = update_contents ws' (update_contents ws V).
Proof. apply foldl_app. Qed.

Lemma update_contents_ne ws V n : n ∉ ws.*1 → update_contents ws V n = V n.
Proof.
  revert V. induction ws as [|[m b] ws IH]; intros V Hn; simpl in *; [done|].
  apply not_elem_of_cons in Hn as [? ?]. rewrite IH by done. by apply fn_lookup_insert_ne.
Qed.

Lemma update_contents_lookup ws V n b : NoDup ws.*1 → (n, b) ∈ ws → update_contents ws V n = b.
Proof.
  revert V. induction ws as [|[m c] ws IH]; intros V Hnd Hin; simpl in *; [by apply elem_of_nil in Hin|].
  apply NoDup_cons in Hnd as [Hm Hnd]. apply elem_of_cons in Hin as [[= -> ->]|Hin]; [|by apply IH].
  rewrite update_contents_ne by done. apply fn_lookup_insert.
Qed.

(** ** The writes of the log *)

Lemma log_writes_keys V start t bl :
  (log_writes V start t bl).*1 = (λ i, start + t + 1 + Z.of_nat i) <$> seq 0 (length bl).
Proof.
  revert t. induction bl as [|B bl IH]; intros t; simpl; [done|]. f_equal; [lia|].
  rewrite IH, <- fmap_S_seq, <- list_fmap_compose. apply list_fmap_ext. intros i x _. simpl. lia.
Qed.

Lemma log_writes_key_range V start t bl n :
  n ∈ (log_writes V start t bl).*1 → start + t < n ≤ start + t + Z.of_nat (length bl).
Proof.
  rewrite log_writes_keys. intros (i & -> & Hi%elem_of_seq)%list_elem_of_fmap. lia.
Qed.

Lemma log_writes_NoDup V start t bl : NoDup (log_writes V start t bl).*1.
Proof.
  rewrite log_writes_keys. apply NoDup_fmap_2; [|apply NoDup_seq]. intros i j. lia.
Qed.

Lemma log_writes_elem V start t bl i B :
  bl !! i = Some B → (start + t + 1 + Z.of_nat i, V B) ∈ log_writes V start t bl.
Proof.
  revert t i. induction bl as [|C bl IH]; intros t i Hi; [done|]. destruct i as [|i]; simpl in *.
  - injection Hi as ->. rewrite Z.add_0_r. apply list_elem_of_here.
  - apply elem_of_cons. right. replace (start + t + 1 + Z.of_nat (S i)) with (start + (t + 1) + 1 + Z.of_nat i) by lia.
    by apply IH.
Qed.

Lemma install_writes_keys V start t bl : (install_writes V start t bl).*1 = bl.
Proof. revert t. induction bl as [|B bl IH]; intros t; simpl; [done|]. by rewrite IH. Qed.

(** Installing what was logged writes the logged contents home. *)
Lemma install_logged V V' start t bl :
  (∀ i B, bl !! i = Some B → V' (start + t + 1 + Z.of_nat i) = V B) →
  install_writes V' start t bl = (λ B, (B, V B)) <$> bl.
Proof.
  revert t. induction bl as [|B bl IH]; intros t HV; simpl; [done|]. f_equal.
  - f_equal. rewrite <- (HV 0%nat B eq_refl). f_equal. lia.
  - apply IH. intros i C Hi. rewrite <- (HV (S i) C Hi). f_equal. lia.
Qed.

Lemma home_keys V bl : ((λ B, (B, V B)) <$> bl).*1 = bl.
Proof. rewrite <- list_fmap_compose. by apply list_fmap_id. Qed.
End writes.

(** * Recovery and commit *)

(** What the writes of a committed log make of a disk. *)
Definition logged_writes (start : Z) (d : gmap Z block) : list (Z * block) :=
  install_writes (contents d) start 0 (header_blocks (contents d start)).
Definition replay (start : Z) (d : gmap Z block) : gmap Z block := apply_writes (logged_writes start d) d.
Definition recovery_writes (start : Z) (d : gmap Z block) : list (Z * block) :=
  logged_writes start d ++ [(start, header (contents d start) [])].

(** A disk that recovery can start from. *)
Record log_disk (start : Z) (d : gmap Z block) : Prop := {
  ld_len : map_Forall (λ _ b, length b = Z.to_nat BSIZE) d;
  ld_area n : start ≤ n ≤ start + LOGSIZE → is_Some (d !! n);
  ld_n : header_n (contents d start) ≤ LOGSIZE;
  ld_home B : B ∈ header_blocks (contents d start) → home start B ∧ is_Some (d !! B);
}.

(** A machine after a reset: nothing but the disk is left. *)
Definition boot_log (pid : Z) (d : gmap Z block) : logst :=
  Logst (boot_bio pid d) 0 0 0 false 0 0 (replicate (Z.to_nat LOGSIZE) 0).
Definition reboot (wakeups : nat) (sb : superblock) : M logst unit :=
  on_bio binit;;; initlog wakeups ROOTDEV sb.

Section specs.
Context (w : nat) (pid : Z).
Implicit Types (s : logst) (V : Z → block) (pins : gmap Z Z) (n start : Z) (bl : list Z) (d : gmap Z block).

Lemma delete_all_empty bl : foldl (λ p B, delete B p) (∅ : gmap Z Z) bl = ∅.
Proof. induction bl as [|B bl IH]; simpl; [done|]. by rewrite delete_empty. Qed.

Lemma header_blocks_length b : length (header_blocks b) = Z.to_nat (header_n b).
Proof. unfold header_blocks. by rewrite length_fmap, length_seq. Qed.

Lemma header_empty b : length b = Z.to_nat BSIZE → header_n (header b []) = 0 ∧ length (header b []) = Z.to_nat BSIZE.
Proof.
  intros Hlen. assert (4 ≤ BSIZE) by by compute.
  destruct (header_roundtrip b []) as [Hn _]; [cbn [length]; lia|by compute|done|].
  split; [done|]. rewrite header_length; cbn [length]; lia.
Qed.

Lemma recover_spec V s :
  cache V ∅ ∅ pid (lg_bio s) → area_ok s ∅ → length (lh_block s) = Z.to_nat LOGSIZE →
  header_n (V (lg_start s)) ≤ LOGSIZE → home_ok s (header_blocks (V (lg_start s))) →
  let iw := install_writes V (lg_start s) 0 (header_blocks (V (lg_start s))) in
  let h := header (V (lg_start s)) [] in
  let ws := iw ++ [(lg_start s, h)] in
  returns (recover_from_log w)
    (λ _ s', s' = set_lh 0 (lh_block s') (set_bio (lg_bio s') s) ∧
       length (lh_block s') = Z.to_nat LOGSIZE ∧ cache (update_contents ws V) ∅ ∅ pid (lg_bio s') ∧
       disk (lg_bio s') = apply_writes ws (disk (lg_bio s)) ∧
       dwrites (lg_bio s') = dwrites (lg_bio s) ++ ws) s.
Proof.
  intros Hc Ha Hlen Hmax Hh iw h ws.
  assert (0 ≤ LOGSIZE ∧ 0 < NBUF) as [? ?] by (split; by compute).
  eapply wp_call; [apply (read_head_spec w pid V ∅ s Hc Ha); [by compute|lia]|].
  intros _ s1 (Hs1 & Hc1 & Hd1 & Hw1).
  destruct Hs1 as (b & bl & -> & Hbl & Hlook). cbn [lg_bio set_lh set_bio] in *.
  eapply wp_call.
  { unfold install_trans. apply wp_bind, wp_gets. cbn [lh_n set_lh]. rewrite <- header_blocks_length.
    apply (install_loop_spec w pid V ∅ _ 0 (header_blocks (V (lg_start s))) true);
      cbn [lg_bio set_lh set_bio lg_start lh_block].
    - done.
    - destruct Ha as [? Ha]. split; [done|]. cbn. rewrite Hd1. exact Ha.
    - intros B HB. cbn. rewrite Hd1. by apply Hh.
    - by compute.
    - done.
    - rewrite header_blocks_length. lia.
    - done.
    - done.
    - intros i B HB. by apply Hlook. }
  cbn beta. cbn [lg_bio set_lh set_bio lg_start]. fold iw. rewrite delete_all_empty.
  intros _ s2 (Hs2 & Hc2 & Hd2 & Hw2). destruct (same_log_fields _ _ Hs2) as (F1 & F2 & F3 & F4).
  cbn in F1, F2, F3, F4. apply wp_bind, wp_modify.
  set (s3 := set_lh 0 (lh_block s2) s2).
  assert (update_contents iw V (lg_start s) = V (lg_start s)) as HV.
  { apply update_contents_ne. unfold iw. rewrite install_writes_keys. intros Hin.
    destruct (Hh _ Hin) as [[|] _]; unfold LOGSIZE, MAXOPBLOCKS in *; lia. }
  eapply wp_mono; [apply (write_head_spec w pid (update_contents iw V) ∅ s3 [])|].
  - done.
  - destruct Ha as [? Ha]. split; [cbn; congruence|]. cbn. rewrite F2, Hd2, Hd1. intros n Hn.
    destruct (Ha n Hn). split; [done|]. by apply apply_writes_is_Some.
  - by compute.
  - done.
  - by compute.
  - done.
  - subst s3. cbn [lg_start set_lh lg_bio]. rewrite F2, HV. fold h.
    intros _ s4 (Hs4 & Hc4 & Hd4 & Hw4). destruct (same_log_fields _ _ Hs4) as (G1 & G2 & G3 & G4).
    cbn in G1, G2, G3, G4. split_and!.
    + unfold same_log in *. rewrite Hs4, Hs2. done.
    + congruence.
    + unfold ws. rewrite update_contents_app. exact Hc4.
    + unfold ws. by rewrite apply_writes_app, Hd4, Hd2, Hd1.
    + unfold ws. by rewrite Hw4, Hw2, Hw1, app_assoc.
Qed.

Lemma reboot_spec sb d :
  log_disk (sb_logstart sb) d →
  let ws := recovery_writes (sb_logstart sb) d in
  returns (reboot w sb)
    (λ _ s', logged s' [] ∧ lg_outstanding s' = 0 ∧ lg_committing s' = false ∧ lg_dev s' = ROOTDEV ∧
       lg_start s' = sb_logstart sb ∧ lg_size s' = sb_nlog sb ∧ cache (update_contents ws (contents d)) ∅ ∅ pid (lg_bio s') ∧
       disk (lg_bio s') = apply_writes ws d ∧ dwrites (lg_bio s') = ws) (boot_log pid d).
Proof.
  intros [Hlen Harea Hn Hh] ws.
  eapply wp_bio; [by apply (binit_consistent pid d)|].
  intros _ b (Hc & Hd & Hw). unfold initlog.
  replace (BSIZE <=? sizeof_logheader) with false by by compute.
  apply wp_bind, wp_modify.
  eapply wp_mono; [apply recover_spec|]; cbn [lg_start lg_bio lh_block set_bio boot_log]; try done.
  - split; [done|]. cbn. rewrite Hd. by intros n ?; split; [|apply Harea].
  - intros B HB. cbn. rewrite Hd. by apply Hh.
  - cbn. rewrite Hd, Hw. intros _ s' (Hs & Hl & ? & ? & ?). split; [by rewrite Hs|]. by rewrite Hs.
Qed.

(** ** Commit *)

(** The pins of the blocks in the log. *)
Definition pinned bl : gmap Z Z := gset_to_gmap 1 (list_to_set bl).

(** A transaction that wrote the blocks [bl], whose contents are [V]. *)
Record pending V s bl : Prop := {
  pe_cache : cache V (pinned bl) ∅ pid (lg_bio s);
  pe_area : area_ok s ∅;
  pe_home : home_ok s bl;
  pe_nodup : NoDup bl;
  pe_n : lh_n s = Z.of_nat (length bl);
  pe_room : Z.of_nat (length bl) < NBUF;
  pe_block i B : bl !! i = Some B → lh_block s !! i = Some B;
}.

Lemma pinned_in bl B : B ∈ bl → pinned bl !! B = Some 1.
Proof. intros. apply lookup_gset_to_gmap_Some. by rewrite elem_of_list_to_set. Qed.
Lemma pinned_out bl B : B ∉ bl → pinned bl !! B = None.
Proof. intros. apply lookup_gset_to_gmap_None. by rewrite elem_of_list_to_set. Qed.
Lemma pinned_size bl : NoDup bl → size (pinned bl) = length bl.
Proof.
  intros. rewrite <- (size_dom (D := gset Z)). unfold pinned.
  rewrite dom_gset_to_gmap. by apply size_list_to_set.
Qed.
Lemma delete_pinned bl : foldl (λ p B, delete B p) (pinned bl) bl = ∅.
Proof.
  assert (∀ bl (p : gmap Z Z) n, foldl (λ p B, delete B p) p bl !! n = if decide (n ∈ bl) then None else p !! n)
    as Hdel.
  { clear. induction bl as [|B bl IH]; intros p n; simpl; [done|]. rewrite IH.
    destruct (decide (n ∈ bl)); [by rewrite decide_True by set_solver|].
    destruct (decide (n = B)) as [->|]; [by rewrite lookup_delete_eq, decide_True by set_solver|].
    by rewrite lookup_delete_ne, decide_False by set_solver. }
  apply map_eq. intros n. rewrite Hdel, lookup_empty. destruct (decide (n ∈ bl)); [done|]. by apply pinned_out.
Qed.

Lemma home_not_log V s bl n : home_ok s bl → n ∈ bl → n ∉ (log_writes V (lg_start s) 0 bl).*1 ∨ LOGSIZE < Z.of_nat (length bl).
Proof.
  intros Hh Hin. destruct (decide (LOGSIZE < Z.of_nat (length bl))); [by right|left].
  intros Hk%log_writes_key_range. destruct (Hh n Hin) as [[|] _]; lia.
Qed.

(** The writes of [commit]: the log, the header, the home blocks, the header. *)
Definition commit_writes V start bl : list (Z * block) :=
  let h := header (V start) bl in
  log_writes V start 0 bl ++ [(start, h)] ++ ((λ B, (B, V B)) <$> bl) ++ [(start, header h [])].

Lemma area_pinned V s bl : pending V s bl → area_ok s (pinned bl).
Proof.
  intros [_ [Hdev Ha] Hh _ _ _ _]. split; [done|]. intros n Hn. split; [|by apply Ha].
  apply pinned_out. intros Hin. destruct (Hh n Hin) as [[|] _]; lia.
Qed.

Lemma area_ok_disk s s' pins pins' ws :
  area_ok s pins → lg_dev s' = lg_dev s → lg_start s' = lg_start s →
  disk (lg_bio s') = apply_writes ws (disk (lg_bio s)) →
  (∀ n, lg_start s ≤ n ≤ lg_start s + LOGSIZE → pins' !! n = None) → area_ok s' pins'.
Proof.
  intros [Hdev Ha] Hd Hs Hdk Hp. split; [congruence|]. rewrite Hs, Hdk. intros n Hn.
  split; [by apply Hp|]. by apply apply_writes_is_Some, Ha.
Qed.
Lemma home_ok_disk s s' bl ws :
  home_ok s bl → lg_start s' = lg_start s → disk (lg_bio s') = apply_writes ws (disk (lg_bio s)) → home_ok s' bl.
Proof.
  intros Hh Hs Hdk B HB. rewrite Hs, Hdk. destruct (Hh B HB). split; [done|]. by apply apply_writes_is_Some.
Qed.

Lemma commit_spec V s bl :
  pending V s bl →
  let ws := if decide (bl = []) then [] else commit_writes V (lg_start s) bl in
  returns (commit w)
    (λ _ s', s' = set_lh 0 (lh_block s) (set_bio (lg_bio s') s) ∧
       cache (update_contents ws V) ∅ ∅ pid (lg_bio s') ∧
       disk (lg_bio s') = apply_writes ws (disk (lg_bio s)) ∧
       dwrites (lg_bio s') = dwrites (lg_bio s) ++ ws) s.
Proof.
  intros Hp. pose proof (area_pinned V s bl Hp) as Hap. destruct Hp as [Hc Ha Hh Hnd Hn Hroom Hblk].
  set (st := lg_start s). intros ws. assert (NBUF ≤ LOGSIZE) as HL by by compute.
  apply wp_bind, wp_gets. rewrite Hn. apply wp_when; intros Hlen.
  2: { assert (bl = []) as -> by (apply Z.ltb_ge in Hlen; destruct bl; [done|cbn [length] in Hlen; lia]).
       unfold ws. simpl. rewrite app_nil_r. split_and!; try done. cbn in Hn. clear -Hn. destruct s. cbn in *. by subst. }
  assert (bl ≠ []) as Hne by (intros ->; done). unfold ws. rewrite decide_False by done. clear ws Hlen.
  set (lw := log_writes V st 0 bl). set (h := header (V st) bl). set (bw := (λ B, (B, V B)) <$> bl).
  assert (st ∉ lw.*1) as Hst by (intros ?%log_writes_key_range; lia).
  assert (st ∉ bl) as Hstb by (intros Hin; destruct (Hh _ Hin) as [[|] _]; unfold LOGSIZE, MAXOPBLOCKS in *; lia).
  assert (Z.of_nat (size (pinned bl)) < NBUF) as Hsz by by rewrite pinned_size.
  (* the log *)
  eapply wp_call.
  { unfold write_log. apply wp_bind, wp_gets. rewrite Hn, Nat2Z.id.
    apply (write_log_loop_spec w pid V (pinned bl) s 0 bl); try done; [lia|by apply pinned_in]. }
  fold st. fold lw. intros _ s1 (Hs1 & Hc1 & Hd1 & Hw1).
  destruct (same_log_fields _ _ Hs1) as (E1 & E2 & E3 & E4).
  pose proof (area_ok_disk s s1 _ _ lw Hap E1 E2 Hd1 (λ n Hr, proj1 (proj2 Hap n Hr))) as Ha1.
  assert (update_contents lw V st = V st) as HV1 by by apply update_contents_ne.
  (* the header: the commit point *)
  eapply wp_call.
  { apply (write_head_spec w pid _ (pinned bl) s1 bl Hc1 Ha1); [done|congruence|lia|].
    intros i B Hi. rewrite E3. by apply Hblk. }
  rewrite E2. fold st. rewrite HV1. fold h. intros _ s2 (Hs2 & Hc2 & Hd2 & Hw2).
  destruct (same_log_fields _ _ Hs2) as (F1 & F2 & F3 & F4).
  set (V2 := <[st:=h]> (update_contents lw V)) in *.
  (* home *)
  assert (install_writes V2 st 0 bl = bw) as Hbw.
  { apply install_logged. intros i B Hi. unfold V2. rewrite fn_lookup_insert_ne by lia.
    apply update_contents_lookup; [apply log_writes_NoDup|by apply log_writes_elem]. }
  eapply wp_call.
  { unfold install_trans. apply wp_bind, wp_gets. rewrite F4, E4, Hn, Nat2Z.id.
    apply (install_loop_spec w pid V2 (pinned bl) s2 0 bl false Hc2); try done.
    - apply (area_ok_disk s1 s2 _ _ [(st, h)] Ha1); [done..|]. rewrite E2. intros n Hr. by apply Hap.
    - apply (home_ok_disk s1 s2 bl [(st, h)]); [|done..]. by apply (home_ok_disk s s1 bl lw).
    - lia.
    - lia.
    - by apply pinned_in.
    - intros i B Hi. rewrite F3, E3. by apply Hblk. }
  cbn beta. rewrite F2, E2. fold st. rewrite Hbw, delete_pinned. intros _ s3 (Hs3 & Hc3 & Hd3 & Hw3).
  destruct (same_log_fields _ _ Hs3) as (G1 & G2 & G3 & G4). apply wp_bind, wp_modify.
  assert (update_contents bw V2 st = h) as HV3.
  { rewrite update_contents_ne; [apply fn_lookup_insert|]. unfold bw. by rewrite home_keys. }
  assert (disk (lg_bio s3) = apply_writes (lw ++ [(st, h)] ++ bw) (disk (lg_bio s))) as Hd03.
  { by rewrite Hd3, Hd2, Hd1, !apply_writes_app. }
  (* the erasure *)
  eapply wp_mono.
  { apply (write_head_spec w pid (update_contents bw V2) ∅ (set_lh 0 (lh_block s3) s3) [] Hc3); try done.
    apply (area_ok_disk s _ _ _ (lw ++ [(st, h)] ++ bw) Ha); [cbn; congruence|cbn; congruence|done|done]. }
  cbn [lg_start set_lh lg_bio]. rewrite G2, F2, E2. fold st. rewrite HV3.
  intros _ s4 (Hs4 & Hc4 & Hd4 & Hw4). unfold commit_writes. cbv zeta. fold st lw h bw. split_and!.
  - unfold same_log in *. rewrite Hs4, G3, F3, E3, Hs3, Hs2, Hs1. done.
  - rewrite !update_contents_app. exact Hc4.
  - rewrite Hd4, Hd03. by rewrite !apply_writes_app.
  - by rewrite Hw4, Hw3, Hw2, Hw1, <- !app_assoc.
Qed.

(** ** Crashes *)

Lemma contents_apply ws d n b : apply_writes ws d !! n = Some b → contents (apply_writes ws d) n = b.
Proof. unfold contents. by intros ->. Qed.

Lemma take_keys (ws : list (Z * block)) k n : n ∉ ws.*1 → n ∉ (take k ws).*1.
Proof.
  intros Hn Hin. apply Hn. rewrite fmap_take in Hin. apply elem_of_take in Hin as (i & ? & _).
  by eapply list_elem_of_lookup_2.
Qed.

Lemma pinned_length V s bl B : pending V s bl → B ∈ bl → length (V B) = Z.to_nat BSIZE.
Proof.
  intros Hp HB. destruct (ca_pins _ _ _ _ _ (pe_cache _ _ _ Hp) B 1) as [b Hb]; [by apply pinned_in|].
  destruct (holds_slot _ _ _ _ _ _ _ (pe_cache _ _ _ Hp) Hb) as (x & _ & Hs & <- & Hd & Hv & _).
  rewrite <- (so_valid _ _ _ _ _ Hs Hv Hd). apply Hs.
Qed.

Lemma home_bounds V s bl B :
  pending V s bl → B ∈ bl → home (lg_start s) B ∧ is_Some (disk (lg_bio s) !! B).
Proof. intros Hp. apply (pe_home _ _ _ Hp). Qed.

(** What [commit] needs of the disk: an empty log, and 32-bit block numbers. *)
Record committable V s bl : Prop := {
  cm_pending : pending V s bl;
  cm_empty : header_n (V (lg_start s)) = 0;
  cm_range : Forall (λ v, - 2 ^ 31 ≤ v < 2 ^ 31) bl;
}.

Section crash.
Context (V : Z → block) (s : logst) (bl : list Z) (Hcm : committable V s bl).
Let st := lg_start s.
Let D := disk (lg_bio s).
Let h := header (V st) bl.
Let lw := log_writes V st 0 bl.
Let bw : list (Z * block) := (λ B, (B, V B)) <$> bl.

Local Lemma crash_facts :
  length (V st) = Z.to_nat BSIZE ∧ D !! st = Some (V st) ∧ Z.of_nat (length bl) ≤ LOGSIZE ∧
  length h = Z.to_nat BSIZE ∧ header_n h = Z.of_nat (length bl) ∧ header_blocks h = bl.
Proof.
  destruct Hcm as [Hp _ Hr]. assert (NBUF ≤ LOGSIZE ∧ 4 + 4 * LOGSIZE ≤ BSIZE) as [? ?] by (split; by compute).
  destruct (area_block pid V _ ∅ s st (pe_cache _ _ _ Hp) (area_pinned _ _ _ Hp)) as [Hlen HD];
    [unfold LOGSIZE, MAXOPBLOCKS; subst st; lia|].
  pose proof (pe_room _ _ _ Hp). assert (4 + 4 * Z.of_nat (length bl) ≤ Z.of_nat (length (V st))).
  { rewrite Hlen. unfold BSIZE in *. lia. }
  destruct (header_roundtrip (V st) bl) as [? ?]; [done|unfold NBUF, LOGSIZE, MAXOPBLOCKS in *; lia|done|].
  split_and!; try done; [lia|]. unfold h. by rewrite header_length.
Qed.

Local Lemma crash_len ws :
  Forall (λ w, w ∈ commit_writes V st bl) ws →
  map_Forall (λ _ b, length b = Z.to_nat BSIZE) (apply_writes ws D).
Proof.
  intros Hws. destruct crash_facts as (Hlen & _ & _ & Hh & _). destruct Hcm as [Hp _ _]. apply apply_writes_len.
  { intros n d Hd. apply (ca_disk _ _ _ _ _ (pe_cache _ _ _ Hp) n d Hd). }
  eapply Forall_impl; [exact Hws|]. intros [n b] Hin. unfold commit_writes in Hin. cbv zeta in Hin.
  fold h lw bw in Hin. rewrite !elem_of_app, !list_elem_of_singleton in Hin. simpl.
  destruct Hin as [Hin|[[= _ ->]|[Hin|[= _ ->]]]]; [|done| |by apply header_empty].
  - unfold lw in Hin. assert (∀ t, (n, b) ∈ log_writes V st t bl → ∃ B, B ∈ bl ∧ b = V B) as Hex.
    { clear. induction bl as [|C l IH]; intros t Hin; simpl in Hin; [by apply elem_of_nil in Hin|].
      apply elem_of_cons in Hin as [[= _ ->]|Hin]; [exists C; set_solver|].
      destruct (IH _ Hin) as (B & ? & ->). exists B. set_solver. }
    destruct (Hex 0 Hin) as (B & HB & ->). by eapply pinned_length.
  - unfold bw in Hin. apply list_elem_of_fmap in Hin as (B & [= -> ->] & HB). by eapply pinned_length.
Qed.

Local Lemma crash_before k :
  let d := apply_writes (take k lw) D in
  log_disk st d ∧ ∀ n, home st n → replay st d !! n = D !! n.
Proof.
  intros d. destruct crash_facts as (Hlen & HD & Hmax & _). destruct Hcm as [Hp He _]. fold st in He.
  assert (contents d st = V st) as Hc.
  { apply contents_apply. rewrite apply_writes_ne; [done|]. apply take_keys. intros ?%log_writes_key_range. lia. }
  assert (header_blocks (contents d st) = []) as Hb by (unfold header_blocks; by rewrite Hc, He).
  split.
  - split.
    + apply crash_len, Forall_take, Forall_forall. intros p ?. unfold commit_writes. set_solver.
    + intros n Hn. apply apply_writes_is_Some. by apply (pe_area _ _ _ Hp).
    + rewrite Hc, He. by compute.
    + rewrite Hb. by intros B ?%elem_of_nil.
  - intros n Hn. unfold replay, logged_writes. rewrite Hb. simpl. apply apply_writes_ne, take_keys.
    intros ?%log_writes_key_range. destruct Hn; lia.
Qed.

Local Lemma home_written d n :
  apply_writes bw d !! n = if decide (n ∈ bl) then Some (V n) else d !! n.
Proof.
  destruct Hcm as [Hp _ _]. case_decide as Hin.
  - apply apply_writes_lookup; [unfold bw; rewrite home_keys; apply Hp|]. unfold bw. set_solver.
  - apply apply_writes_ne. unfold bw. by rewrite home_keys.
Qed.

Local Lemma log_home n : home st n → apply_writes (lw ++ [(st, h)]) D !! n = D !! n.
Proof.
  destruct crash_facts as (_ & _ & Hmax & _). assert (0 ≤ LOGSIZE) by by compute.
  intros Hn. apply apply_writes_ne. rewrite fmap_app. simpl. rewrite elem_of_app, list_elem_of_singleton.
  intros [?%log_writes_key_range|?]; destruct Hn; simpl in *; lia.
Qed.

Local Lemma crash_after k :
  let d := apply_writes (lw ++ [(st, h)] ++ take k bw) D in
  log_disk st d ∧ ∀ n, home st n → replay st d !! n = if decide (n ∈ bl) then Some (V n) else D !! n.
Proof.
  intros d. destruct crash_facts as (Hlen & HD & Hmax & _ & Hn & Hb). assert (0 ≤ LOGSIZE) by by compute.
  pose proof (cm_pending _ _ _ Hcm) as Hp.
  assert (∀ n, home st n → n ∉ bl → d !! n = D !! n) as Hout.
  { intros n Hhome Hni. unfold d. rewrite app_assoc, apply_writes_app, apply_writes_ne; [by apply log_home|].
    apply take_keys. unfold bw. by rewrite home_keys. }
  assert (∀ n, st ≤ n ≤ st + LOGSIZE → n ∉ (take k bw).*1) as Harea.
  { intros n Hr. apply take_keys. unfold bw. rewrite home_keys. intros Hin.
    destruct (home_bounds _ _ _ _ Hp Hin) as [[|] _]; subst st; lia. }
  assert (contents d st = h) as Hc.
  { apply contents_apply. rewrite app_assoc, apply_writes_app, apply_writes_ne by (apply Harea; lia).
    rewrite apply_writes_app. apply lookup_insert_eq. }
  assert (logged_writes st d = bw) as Hlw.
  { unfold logged_writes. rewrite Hc, Hb. apply install_logged. intros i B Hi.
    assert (i < length bl)%nat by by eapply lookup_lt_Some.
    apply contents_apply. rewrite !apply_writes_app, apply_writes_ne by (apply Harea; lia). simpl.
    rewrite lookup_insert_ne by lia.
    apply apply_writes_lookup; [apply log_writes_NoDup|by apply log_writes_elem]. }
  split.
  - split.
    + apply crash_len. rewrite !Forall_app. split_and!; [|by apply Forall_singleton; set_solver|apply Forall_take];
        apply Forall_forall; intros p ?; unfold commit_writes; cbv zeta; fold h lw bw; set_solver.
    + intros n Hr. apply apply_writes_is_Some. by apply (pe_area _ _ _ Hp).
    + rewrite Hc, Hn. done.
    + rewrite Hc, Hb. intros B HB. destruct (home_bounds _ _ _ _ Hp HB). split; [done|].
      by apply apply_writes_is_Some.
  - intros n Hhome. unfold replay. rewrite Hlw, home_written. case_decide; [done|]. by apply Hout.
Qed.

(** The disk after the whole of [commit]. *)
Lemma commit_home n :
  home st n → apply_writes (commit_writes V st bl) D !! n = if decide (n ∈ bl) then Some (V n) else D !! n.
Proof.
  assert (0 ≤ LOGSIZE) by by compute. intros Hn.
  unfold commit_writes. cbv zeta. fold h lw bw. rewrite app_assoc, apply_writes_app, apply_writes_app. simpl.
  rewrite lookup_insert_ne by (destruct Hn; lia). rewrite home_written. case_decide; [done|]. by apply log_home.
Qed.

Local Lemma crash_done :
  let d := apply_writes (commit_writes V st bl) D in
  log_disk st d ∧ ∀ n, home st n → replay st d !! n = if decide (n ∈ bl) then Some (V n) else D !! n.
Proof.
  intros d. destruct crash_facts as (Hlen & HD & Hmax & Hlh & _). assert (0 ≤ LOGSIZE) by by compute.
  pose proof (cm_pending _ _ _ Hcm) as Hp.
  assert (contents d st = header h []) as Hc.
  { unfold contents, d, commit_writes. cbv zeta. fold h lw bw. rewrite !apply_writes_app. simpl.
    by rewrite lookup_insert_eq. }
  destruct (header_empty h Hlh) as [H0 _].
  assert (header_blocks (contents d st) = []) as Hb by (unfold header_blocks; by rewrite Hc, H0).
  split.
  - split.
    + apply crash_len, Forall_forall. done.
    + intros n Hr. apply apply_writes_is_Some. by apply (pe_area _ _ _ Hp).
    + by rewrite Hc, H0.
    + rewrite Hb. by intros B ?%elem_of_nil.
  - intros n Hn. unfold replay, logged_writes. rewrite Hb. simpl. by apply commit_home.
Qed.

(** The commit point is the write of the header: a prefix of the writes of
    [commit] that does not reach it replays to the old blocks, one that does
    to the new ones. *)
Lemma crash_commit k :
  let d := apply_writes (take k (commit_writes V st bl)) D in
  log_disk st d ∧ ∀ n, home st n →
    replay st d !! n = if decide (length bl < k)%nat then if decide (n ∈ bl) then Some (V n) else D !! n else D !! n.
Proof.
  assert (length lw = length bl) as Hlw.
  { unfold lw. rewrite <- (length_fmap fst). by rewrite log_writes_keys, length_fmap, length_seq. }
  assert (length bw = length bl) as Hbw by apply length_fmap.
  unfold commit_writes. cbv zeta. fold h lw bw. destruct (decide (length bl < k)%nat) as [Hk|Hk].
  - rewrite take_app_ge by lia. replace (k - length lw)%nat with (S (k - length bl - 1))%nat by lia. simpl.
    destruct (decide (k - length bl - 1 ≤ length bw)%nat) as [Hk2|Hk2].
    + rewrite take_app_le by done. apply (crash_after (k - length bl - 1)).
    + rewrite take_ge by (rewrite length_app; simpl; lia). exact crash_done.
  - rewrite take_app_le by lia. apply crash_before.
Qed.
End crash.

(** ** Crashes during recovery *)

Lemma header_keeps d k start :
  log_disk start d → let ws := logged_writes start d in let d' := apply_writes (take k ws) d in
  log_disk start d' ∧ logged_writes start d' = ws.
Proof.
  intros [Hlen Harea Hn Hh] ws d'. assert (0 ≤ LOGSIZE) by by compute.
  assert (∀ n, start ≤ n ≤ start + LOGSIZE → contents d' n = contents d n) as Hc.
  { intros n Hr. unfold contents, d'. rewrite apply_writes_ne; [done|]. apply take_keys.
    unfold ws, logged_writes. rewrite install_writes_keys. intros Hin.
    destruct (Hh n Hin) as [[|] _]; lia. }
  split.
  - split.
    + apply apply_writes_len; [done|]. apply Forall_take. unfold ws, logged_writes.
      assert (Z.of_nat (length (header_blocks (contents d start))) ≤ LOGSIZE) as Hmax by (rewrite header_blocks_length; lia).
      revert Hmax. generalize (header_blocks (contents d start)). intros bl.
      assert (∀ t, 0 ≤ t → t + Z.of_nat (length bl) ≤ LOGSIZE →
        Forall (λ w0, length w0.2 = Z.to_nat BSIZE) (install_writes (contents d) start t bl)) as Hf; [|intros; by apply Hf; lia].
      induction bl as [|B bl IH]; intros t Ht Hm; simpl in *; constructor; [|apply IH; lia]. simpl.
      destruct (Harea (start + t + 1)) as [b Hb]; [lia|]. unfold contents. rewrite Hb. by apply (Hlen _ _ Hb).
    + intros n Hr. apply apply_writes_is_Some. by apply Harea.
    + by rewrite Hc by lia.
    + rewrite Hc by lia. intros B HB. destruct (Hh B HB). split; [done|]. by apply apply_writes_is_Some.
  - unfold ws, logged_writes. rewrite Hc by lia. apply install_writes_ext.
    rewrite header_blocks_length. intros i Hi. apply Hc. lia.
Qed.

Lemma crash_recovery d k start :
  log_disk start d → let d' := apply_writes (take k (recovery_writes start d)) d in
  log_disk start d' ∧ ∀ n, home start n → replay start d' !! n = replay start d !! n.
Proof.
  intros Hd d'. assert (0 ≤ LOGSIZE) by by compute. unfold recovery_writes in d'.
  destruct (decide (k ≤ length (logged_writes start d))%nat) as [Hk|Hk].
  - subst d'. rewrite take_app_le by done. destruct (header_keeps d k start Hd) as [Hl Hw]. split; [done|].
    intros n _. unfold replay at 1. by rewrite Hw, apply_writes_twice.
  - destruct (header_keeps d (length (logged_writes start d)) start Hd) as [[Hlen Harea Hn Hh] _].
    rewrite take_ge in Hlen, Harea, Hn, Hh by done.
    destruct (ld_area _ _ Hd start) as [b Hb]; [lia|].
    pose proof (ld_len _ _ Hd start b Hb) as Hlb. simpl in Hlb.
    assert (contents d start = b) as Hcd by (unfold contents; by rewrite Hb).
    assert (d' = <[start := header b []]> (replay start d)) as ->.
    { subst d'. rewrite take_ge by (rewrite length_app; simpl; lia). by rewrite apply_writes_app, Hcd. }
    destruct (header_empty b Hlb) as [H0 H1].
    assert (contents (<[start := header b []]> (replay start d)) start = header b []) as Hc.
    { unfold contents. by rewrite lookup_insert_eq. }
    assert (header_blocks (contents (<[start := header b []]> (replay start d)) start) = []) as Hbl
      by (unfold header_blocks; by rewrite Hc, H0).
    split.
    + split.
      * by apply map_Forall_insert_2.
      * intros n Hr. apply lookup_insert_is_Some'. right. by apply Harea.
      * by rewrite Hc, H0.
      * rewrite Hbl. by intros B ?%elem_of_nil.
    + intros n Hhn. unfold replay at 1, logged_writes. rewrite Hbl. simpl.
      apply lookup_insert_ne. destruct Hhn; lia.
Qed.
End specs.
