(* ===== verification/LogWrite.v ===== *)
(** [log_write] and [begin_op]: what an operation on the file system does to the
    log. *)

From stdpp Require Import functions.
From S2P Require Import Prelude Riscv Mem Threads Sleeplock Bio BioSpecs BioOps Log LogSpecs.
Local Open Scope Z_scope.

Section log_write.
Context (pid : Z).
Implicit Types (s : logst) (V : Z → block) (pins : gmap Z Z) (mine : gset Z) (n b B : Z) (bl : list Z).

(** [bpin] under another spinlock. *)
Lemma bpin_locked V pins mine b n r lk (t : biost) :
  cache V pins mine pid t → holds t b n → pins !! n = Some r → r + 1 < 2 ^ 32 → lk ≠ bcache_lock →
  returns (bpin b)
    (λ _ t', ∃ t1, t' = set_held {[lk]} t1 ∧ cache V (<[n := r + 1]> pins) mine pid t1 ∧
       (∀ c k, holds t c k → holds t1 c k) ∧ disk t1 = disk t ∧ dwrites t1 = dwrites t)
    (set_held {[lk]} t).
Proof.
  intros Hc Hh Hr Hmax Hlk.
  destruct (proj1 (wp_no_sleep _ _ _) (bpin_spec V pins mine pid b n r t Hc Hh Hr Hmax)) as ([] & t1 & He & H1 & H2 & H3 & H4).
  destruct (holds_slot _ _ _ _ _ _ _ Hc Hh) as (x & Hx & _).
  apply wp_bind, wp_acquire; [cbn; set_solver|]. apply wp_bind. eapply wp_update_buf; [exact Hx|].
  apply wp_release; [cbn; set_solver|]. exists t1. split; [|done].
  revert He. unfold bpin, bind, acquire. rewrite decide_False by (rewrite (ca_held _ _ _ _ _ Hc); set_solver).
  cbn -[release with_refcnt]. unfold update_buf, bind, deref_buf, get_some. cbn -[release with_refcnt]. rewrite Hx.
  cbn -[release with_refcnt]. unfold release. rewrite decide_True by (cbn; set_solver). intros [= <-].
  cbn. unfold with_held. cbn. f_equal; [f_equal; set_solver|].
  apply map_eq. intros c. destruct (decide (c = b)) as [->|].
  - by rewrite lookup_insert_eq, lookup_alter_eq, Hx.
  - by rewrite lookup_insert_ne, lookup_alter_ne.
Qed.

(** The search stops at the block's entry, or after the last one. *)
Lemma log_find_spec B s bl k :
  (∀ i C, bl !! i = Some C → lh_block s !! (k + i)%nat = Some C) →
  returns (log_find B (length bl) (Z.of_nat k))
    (λ i s', s' = s ∧ ∃ j, i = Z.of_nat (k + j) ∧ (j ≤ length bl)%nat ∧
       if decide (j = length bl) then B ∉ bl else bl !! j = Some B) s.
Proof.
  revert k. induction bl as [|C bl IH]; intros k Hlh; simpl.
  { apply wp_ret. split; [done|]. exists 0%nat. split_and!; [lia|done|]. simpl. set_solver. }
  eapply lh_get_spec; [lia| |].
  { rewrite Nat2Z.id, <- (Nat.add_0_r k). by apply (Hlh 0%nat). }
  destruct (C =? B) eqn:HCB.
  - apply Z.eqb_eq in HCB as ->. apply wp_ret. split; [done|]. exists 0%nat. split_and!; [lia|lia|done].
  - apply Z.eqb_neq in HCB. replace (Z.of_nat k + 1) with (Z.of_nat (S k)) by lia.
    eapply wp_mono; [apply IH; intros i D Hi; specialize (Hlh (S i) D Hi); by rewrite Nat.add_succ_r in Hlh|].
    intros i s' (-> & j & -> & Hj & Hif). split; [done|]. exists (S j). split_and!; [lia|lia|].
    destruct (decide (j = length bl)) as [->|].
    + rewrite decide_True by done. set_solver.
    + rewrite decide_False by lia. done.
Qed.

(** The entries after a write of block [B]. *)
Definition absorb (B : Z) (bl : list Z) : list Z := if decide (B ∈ bl) then bl else bl ++ [B].

Lemma logged_snoc s bl B (b : biost) :
  logged s bl → Z.of_nat (length bl) < LOGSIZE →
  logged (set_lh (lh_n s + 1) (<[length bl := B]> (lh_block s)) (set_bio b s)) (bl ++ [B]).
Proof.
  intros (Hn & Hlen & Hlh) Hmax. split_and!; cbn.
  - rewrite Hn, length_app. simpl. lia.
  - by rewrite length_insert.
  - intros i C Hi. destruct (decide (i = length bl)) as [->|].
    + rewrite lookup_app_r, Nat.sub_diag in Hi by done. simplify_eq/=. apply list_lookup_insert_eq. lia.
    + rewrite list_lookup_insert_ne by done. apply Hlh. apply lookup_app_Some in Hi as [?|[? Hi]]; [done|].
      apply list_lookup_singleton_Some in Hi as [? _]. lia.
Qed.

Lemma log_write_spec V pins mine b B r s bl :
  cache V pins mine pid (lg_bio s) → holds (lg_bio s) b B → pins !! B = Some r → r + 1 < 2 ^ 32 →
  logged s bl → Z.of_nat (length bl) < LOGSIZE → Z.of_nat (length bl) < lg_size s - 1 → 1 ≤ lg_outstanding s →
  returns (log_write b)
    (λ _ s', cache V (if decide (B ∈ bl) then pins else <[B := r + 1]> pins) mine pid (lg_bio s') ∧
       logged s' (absorb B bl) ∧ s' = set_lh (lh_n s') (lh_block s') (set_bio (lg_bio s') s) ∧
       (∀ c k, holds (lg_bio s) c k → holds (lg_bio s') c k) ∧
       disk (lg_bio s') = disk (lg_bio s) ∧ dwrites (lg_bio s') = dwrites (lg_bio s)) s.
Proof.
  intros Hc Hh Hr Hmax Hlog Hl1 Hl2 Ho. pose proof Hlog as (Hn & Hlen & Hlh).
  pose proof (ca_held _ _ _ _ _ Hc) as Hheld.
  destruct (holds_slot _ _ _ _ _ _ _ Hc Hh) as (x & Hx & _ & HxB & _).
  apply wp_bind, wp_acquire; [cbn in *; rewrite Hheld; set_solver|].
  cbn in Hheld. cbn [held locks_thread the_thread logst_thread biost_thread]. rewrite Hheld, union_empty_r_L.
  apply wp_bind, wp_gets, wp_bind, wp_gets, wp_bind, wp_gets. cbn -[log_find lh_set on_bio bpin when release].
  rewrite Hn. replace (_ || _) with false by lia. replace (lg_outstanding s <? 1) with false by lia.
  eapply wp_bio; [eapply (wp_get_some _ _ (λ y t', y = x ∧ t' = set_held {[log_lock]} (lg_bio s))); [exact Hx|done]|].
  intros ? ? [-> ->]. rewrite HxB, Nat2Z.id.
  eapply wp_call; [by apply (log_find_spec B _ bl 0); intros i C Hi; apply Hlh|]. simpl.
  intros ? ? (-> & j & -> & Hj & Hif). unfold absorb.
  assert (j < length (lh_block s))%nat as Hjl by (rewrite Hlen; lia).
  destruct (lookup_lt_is_Some_2 _ _ Hjl) as [v Hv].
  eapply wp_call with (P := λ _ s1, s1 = set_lh (lh_n s) (<[j := B]> (lh_block s)) (set_held {[log_lock]} s)).
  { eapply lh_get_spec; [lia|by rewrite Nat2Z.id|]. apply wp_modify. by rewrite Nat2Z.id. }
  intros _ ? ->. destruct (decide (j = length bl)) as [->|Hne].
  - rewrite Z.eqb_refl. cbn [when]. rewrite !decide_False by done.
    eapply wp_call with (P := λ _ s1, ∃ t1, s1 = set_lh (lh_n s + 1) (<[length bl := B]> (lh_block s)) (set_bio (set_held {[log_lock]} t1) s) ∧
      cache V (<[B := r + 1]> pins) mine pid t1 ∧ (∀ c k, holds (lg_bio s) c k → holds t1 c k) ∧
      disk t1 = disk (lg_bio s) ∧ dwrites t1 = dwrites (lg_bio s)).
    { eapply wp_bio; [by apply (bpin_locked V pins mine b B r log_lock (lg_bio s) Hc Hh Hr Hmax)|].
      intros _ ? (t1 & -> & ? & ? & ? & ?). apply wp_modify. exists t1. rewrite Hn. done. }
    intros _ ? (t1 & -> & Hc1 & ? & ? & ?). apply wp_release; [cbn; set_solver|].
    split_and!; try done.
    + eapply (cache_thread _ _ _ _ _ t1); [exact Hc1|..]; cbn; [apply Hc1|set_solver].
    + exact (logged_snoc s bl B _ Hlog Hl1).
  - rewrite (proj2 (Z.eqb_neq _ _)) by lia. cbn [when].
    assert (B ∈ bl) as Hin by by eapply list_elem_of_lookup_2. rewrite !decide_True by done.
    apply wp_bind, wp_ret, wp_release; [cbn; set_solver|].
    assert (<[j := B]> (lh_block s) = lh_block s) as -> by (apply list_insert_id; by apply Hlh).
    split_and!; try done. eapply (cache_thread _ _ _ _ _ (lg_bio s)); [exact Hc|..]; cbn; [apply Hc|set_solver].
Qed.
End log_write.
