(* ===== verification/LogTheorems.v ===== *)
(** The properties of the log: transactions are atomic with respect to crashes,
    recovery can itself be interrupted, log writes are absorbed, and an
    operation is admitted only when its blocks can be reserved. *)

From stdpp Require Import functions.
From S2P Require Import Prelude Riscv Mem Threads Sleeplock Bio BioSpecs BioOps BioTheorems Log LogSpecs LogSteps LogCrash LogWrite.
Local Open Scope Z_scope.

Section end_op.
Context (w : nat) (pid : Z).
Implicit Types (s : logst) (V : Z → block) (bl : list Z).

Lemma pending_thread V s bl t o c :
  pending pid V s bl → th_pid t = pid → th_held t = ∅ →
  pending pid V (set_outstanding o c (set_bio (set_thread t (lg_bio s)) s)) bl.
Proof. intros [] ??. split; try done. by apply cache_thread. Qed.

(** The lock is taken and given back around a change of the log's fields. *)
Lemma wp_log_critical {A} (f : M logst A) Q s :
  held s = ∅ → wp no_sleep f Q (set_held {[log_lock]} s) → wp no_sleep (acquire log_lock;;; f) Q s.
Proof.
  intros Hh Hf. apply wp_bind, wp_acquire; [rewrite Hh; set_solver|].
  by rewrite Hh, union_empty_r_L.
Qed.

Lemma end_op_spec V s bl :
  pending pid V s bl → lg_outstanding s = 1 → lg_committing s = false →
  let ws := if decide (bl = []) then [] else commit_writes V (lg_start s) bl in
  returns (end_op w)
    (λ _ s', lg_outstanding s' = 0 ∧ lg_committing s' = false ∧ lh_n s' = 0 ∧
       log_chan ∈ woken s' ∧ cache (update_contents ws V) ∅ ∅ pid (lg_bio s') ∧
       disk (lg_bio s') = apply_writes ws (disk (lg_bio s)) ∧
       dwrites (lg_bio s') = dwrites (lg_bio s) ++ ws) s.
Proof.
  intros Hp Ho Hc. pose proof (pe_cache _ _ _ _ Hp) as Hca.
  apply wp_log_critical; [apply Hca|]. apply wp_bind, wp_gets, wp_bind, wp_gets, wp_bind, wp_modify.
  cbn [lg_committing lg_outstanding set_held locks_thread logst_thread set_thread set_bio].
  rewrite Hc, Ho. cbn -[commit set_outstanding]. apply wp_bind, wp_modify, wp_bind, wp_release; [cbn; set_solver|].
  set (s1 := set_held _ _).
  set (t1 := with_held ({[log_lock]} ∖ {[log_lock]}) (bio_thread (lg_bio s))).
  assert (pending pid V s1 bl) as Hp1.
  { apply (pending_thread V s bl t1 0 true); [done|apply Hca|]. cbn. set_solver. }
  eapply wp_call; [apply (commit_spec w pid V s1 bl Hp1)|]. cbn beta zeta.
  change (lg_start s1) with (lg_start s). change (disk (lg_bio s1)) with (disk (lg_bio s)).
  change (dwrites (lg_bio s1)) with (dwrites (lg_bio s)).
  intros _ s2 (Hs2 & Hc2 & Hd2 & Hw2). pose proof (ca_held _ _ _ _ _ Hc2) as Hh2.
  apply wp_log_critical; [exact Hh2|].
  apply wp_bind, wp_gets, wp_bind, wp_modify, wp_bind, wp_modify, wp_release; [cbn; set_solver|].
  split_and!; try (rewrite Hs2; done).
  - cbn. set_solver.
  - eapply (cache_thread _ _ _ _ _ (lg_bio s2)); [exact Hc2|..]; cbn; [apply Hc2|set_solver].
Qed.
End end_op.

(** * Crash safety *)

(** C1: A transaction is atomic with respect to crashes.  The last [end_op] of a
    transaction that wrote the blocks [bl], with contents [V], makes a sequence
    of disk writes; whatever number of them reach the disk before the machine
    stops, [binit] and [initlog] of the next boot leave every block outside the
    log as it was before the transaction, or every one as the transaction left
    it, and the latter as soon as the header was written. *)
Theorem end_op_atomic (w w' : nat) (pid pid' : Z) (V : Z → block) (s : logst) (bl : list Z) (sb : superblock) :
  committable pid V s bl → lg_outstanding s = 1 → lg_committing s = false →
  sb_logstart sb = lg_start s →
  ∃ ws, returns (end_op w)
      (λ _ s', disk (lg_bio s') = apply_writes ws (disk (lg_bio s)) ∧
         dwrites (lg_bio s') = dwrites (lg_bio s) ++ ws ∧
         (∀ n, home (lg_start s) n → n ∈ bl → disk (lg_bio s') !! n = Some (V n))) s ∧
    ∀ k, returns (reboot w' sb)
      (λ _ s', ∀ n, home (lg_start s) n → disk (lg_bio s') !! n =
         if decide (length bl < k)%nat then if decide (n ∈ bl) then Some (V n) else disk (lg_bio s) !! n
         else disk (lg_bio s) !! n) (boot_log pid' (apply_writes (take k ws) (disk (lg_bio s)))).
Proof.
  intros Hcm Ho Hc Hsb. set (ws := if decide (bl = []) then [] else commit_writes V (lg_start s) bl).
  assert (∀ k, let d := apply_writes (take k ws) (disk (lg_bio s)) in
    log_disk (lg_start s) d ∧ ∀ n, home (lg_start s) n → replay (lg_start s) d !! n =
      if decide (length bl < k)%nat then if decide (n ∈ bl) then Some (V n) else disk (lg_bio s) !! n
      else disk (lg_bio s) !! n) as Hk.
  { intros k. subst ws. destruct (decide (bl = [])) as [->|]; [|by apply (crash_commit pid)].
    destruct (crash_commit pid V s [] Hcm 0) as [Hl Hr]. rewrite take_nil. split; [done|].
    intros n Hn. specialize (Hr n Hn). simpl in *. rewrite Hr. by destruct (decide (0 < k)%nat). }
  exists ws. split.
  - eapply wp_mono; [by apply (end_op_spec w pid V s bl (cm_pending _ _ _ _ Hcm))|].
    cbn beta zeta. fold ws. intros _ s' (_ & _ & _ & _ & _ & Hd & Hw). split_and!; [done..|].
    intros n Hn Hin. rewrite Hd. subst ws. rewrite decide_False by (intros ->; by apply elem_of_nil in Hin).
    rewrite (commit_home pid V s bl Hcm n Hn). by rewrite decide_True.
  - intros k. destruct (Hk k) as [Hl Hr]. eapply wp_mono; [apply (reboot_spec w' pid' sb); by rewrite Hsb|].
    cbn beta zeta. rewrite Hsb. intros _ s' (_ & _ & _ & _ & _ & _ & _ & Hd & _) n Hn.
    rewrite <- Hr by done. rewrite Hd. unfold recovery_writes. rewrite apply_writes_app. simpl.
    apply lookup_insert_ne. destruct Hn; unfold LOGSIZE, MAXOPBLOCKS in *; lia.
Qed.

(** C18: Recovery can be interrupted.  [initlog] writes the logged blocks home and
    then clears the header; if the machine stops after any number [k] of these
    writes, the next boot's recovery leaves the blocks outside the log as the
    first one would have left them, and the log empty. *)
Theorem recovery_idempotent (w k : nat) (pid : Z) (sb : superblock) (d : gmap Z block) :
  log_disk (sb_logstart sb) d →
  ∃ ws, returns (reboot w sb)
      (λ _ s', disk (lg_bio s') = apply_writes ws d ∧ dwrites (lg_bio s') = ws) (boot_log pid d) ∧
    returns (reboot w sb)
      (λ _ s', header_n (contents (disk (lg_bio s')) (sb_logstart sb)) = 0 ∧
         ∀ n, home (sb_logstart sb) n → disk (lg_bio s') !! n = replay (sb_logstart sb) d !! n)
      (boot_log pid (apply_writes (take k ws) d)).
Proof.
  intros Hd. set (st := sb_logstart sb). exists (recovery_writes st d). split.
  { eapply wp_mono; [by apply (reboot_spec w pid sb d)|]. intros _ s' (_ & _ & _ & _ & _ & _ & _ & ? & ?). done. }
  destruct (crash_recovery d k st Hd) as [Hl Hr].
  eapply wp_mono; [apply (reboot_spec w pid sb _ Hl)|]. cbn beta zeta. fold st.
  intros _ s' (_ & _ & _ & _ & _ & _ & _ & Hdk & _).
  revert Hl Hr Hdk. generalize (apply_writes (take k (recovery_writes st d)) d). intros d' Hl Hr ->.
  unfold recovery_writes. rewrite apply_writes_app. simpl. split.
  - unfold contents at 1. rewrite lookup_insert_eq. simpl. apply header_empty.
    assert (0 ≤ LOGSIZE) by by compute. destruct (ld_area _ _ Hl st) as [b Hb]; [lia|].
    unfold contents. rewrite Hb. apply (ld_len _ _ Hl _ _ Hb).
  - intros n Hn. rewrite lookup_insert_ne; [by apply Hr|]. destruct Hn; unfold LOGSIZE, MAXOPBLOCKS in *; lia.
Qed.

(** * Log space *)

(** [log_write] records a modified block once: a block that the transaction
    wrote before is absorbed, another one is appended to the log and its buffer
    pinned; the buffers in use stay with their blocks and nothing is written to
    the disk.  Outside a transaction, and when the log is full, it panics. *)
Theorem log_write_absorbs (pid : Z) (V : Z → block) (pins : gmap Z Z) (mine : gset Z) (b B r : Z)
    (s : logst) (bl : list Z) :
  cache V pins mine pid (lg_bio s) → holds (lg_bio s) b B → pins !! B = Some r → r + 1 < 2 ^ 32 →
  logged s bl →
  if (LOGSIZE <=? Z.of_nat (length bl)) || (lg_size s - 1 <=? Z.of_nat (length bl))
  then log_write b s = Panic "too big a transaction"
  else if lg_outstanding s <? 1 then log_write b s = Panic "log_write outside of trans"
  else returns (log_write b)
    (λ _ s', cache V (if decide (B ∈ bl) then pins else <[B := r + 1]> pins) mine pid (lg_bio s') ∧
       logged s' (absorb B bl) ∧ (∀ c k, holds (lg_bio s) c k → holds (lg_bio s') c k) ∧
       disk (lg_bio s') = disk (lg_bio s) ∧ dwrites (lg_bio s') = dwrites (lg_bio s)) s.
Proof.
  intros Hc Hh Hr Hmax Hlog. pose proof (ca_held _ _ _ _ _ Hc) as Hheld. pose proof Hlog as (Hn & _).
  assert (acquire log_lock s = Ok tt (set_held {[log_lock]} s)) as Ha.
  { unfold acquire. cbn in *. rewrite decide_False by (rewrite Hheld; set_solver). by rewrite Hheld, union_empty_r_L. }
  destruct (_ || _) eqn:Hfull; [|destruct (lg_outstanding s <? 1) eqn:Ho].
  - unfold log_write. rewrite (bind_Ok _ _ _ _ _ Ha). unfold bind, gets. cbn -[Z.leb]. by rewrite Hn, Hfull.
  - unfold log_write. rewrite (bind_Ok _ _ _ _ _ Ha). unfold bind, gets. cbn -[Z.leb Z.ltb]. by rewrite Hn, Hfull, Ho.
  - eapply wp_mono; [eapply (log_write_spec pid V pins mine b B r s bl); (done || lia)|].
    intros _ s' (? & ? & _ & ? & ? & ?). done.
Qed.

(** With room and no commit under way, [begin_op] only counts the operation. *)
Lemma begin_op_room (w : nat) (s : logst) :
  held s = ∅ → lg_committing s = false → lh_n s + (lg_outstanding s + 1) * MAXOPBLOCKS ≤ LOGSIZE →
  returns (begin_op w)
    (λ _ s', s' = set_held ∅ (set_outstanding (lg_outstanding s + 1) false s)) s.
Proof.
  intros Hh Hc Hroom. apply wp_log_critical; [done|].
  destruct w; apply wp_bind, wp_gets, wp_bind, wp_gets, wp_bind, wp_gets; cbn -[MAXOPBLOCKS LOGSIZE sleep release blocked];
    rewrite Hc, (proj2 (Z.ltb_ge _ _)) by lia; cbn [orb];
    (apply wp_bind, wp_modify, wp_release; [cbn; set_solver|]; unfold set_outstanding; cbn; by rewrite difference_diag_L).
Qed.

(** No other thread holds the log's lock while one sleeps. *)
Definition unlocked (s : logst) : Prop := held s = ∅.

(** The blocks written so far, and those the operations under way may write. *)
Definition reserved (s : logst) : Z := lh_n s + lg_outstanding s * MAXOPBLOCKS.

Lemma begin_op_admits (w : nat) (s : logst) : unlocked s →
  wp (shared_env unlocked) (begin_op w) (λ _ s', unlocked s' ∧ lg_committing s' = false ∧ reserved s' ≤ LOGSIZE) s.
Proof.
  intros Hh. apply wp_bind, wp_acquire; [rewrite Hh; set_solver|]. rewrite Hh, union_empty_r_L.
  clear Hh. revert s. induction w as [|w IH]; intros s;
    apply wp_bind, wp_gets, wp_bind, wp_gets, wp_bind, wp_gets; cbn -[MAXOPBLOCKS LOGSIZE sleep release blocked];
    destruct (lg_committing s || _) eqn:Hw.
  - apply wp_blocked; [done|]. done.
  - apply wp_bind, wp_modify, wp_release; [cbn; set_solver|]. apply orb_false_iff in Hw as [-> ?%Z.ltb_ge].
    split_and!; [|done|done]. unfold unlocked. cbn. set_solver.
  - apply wp_bind, wp_sleep; [done|done|]. intros s' _ _. apply IH.
  - apply wp_bind, wp_modify, wp_release; [cbn; set_solver|]. apply orb_false_iff in Hw as [-> ?%Z.ltb_ge].
    split_and!; [|done|done]. unfold unlocked. cbn. set_solver.
Qed.

(** C32: [begin_op] counts an operation only when the blocks written so far and
    [MAXOPBLOCKS] for it and for every other operation under way are at most
    [LOGSIZE], whatever the other threads do while it waits; it does not wait when
    they are and no commit is in progress.  The bound is the constant, not the size
    of the log on the disk: a [log_write] within the reservation succeeds when the
    log has more than [LOGSIZE] blocks, and panics at the last block of a log that
    is not larger. *)
Theorem begin_op_reserves (w : nat) (s : logst) :
  unlocked s →
  wp (shared_env unlocked) (begin_op w)
    (λ _ s', unlocked s' ∧ lg_committing s' = false ∧ reserved s' ≤ LOGSIZE ∧
       ∀ (s'' : logst) pid V pins mine b B r bl, Z.of_nat (length bl) < reserved s' →
         cache V pins mine pid (lg_bio s'') → holds (lg_bio s'') b B → pins !! B = Some r → r + 1 < 2 ^ 32 →
         logged s'' bl → 1 ≤ lg_outstanding s'' →
         (LOGSIZE < lg_size s'' → returns (log_write b) (λ _ t, logged t (absorb B bl)) s'') ∧
         (lg_size s'' ≤ Z.of_nat (length bl) + 1 → log_write b s'' = Panic "too big a transaction")) s ∧
  (lg_committing s = false → lh_n s + (lg_outstanding s + 1) * MAXOPBLOCKS ≤ LOGSIZE →
   returns (begin_op w)
     (λ _ s', s' = set_held ∅ (set_outstanding (lg_outstanding s + 1) false s)) s).
Proof.
  intros Hh. split; [|intros Hc Hroom; by apply begin_op_room].
  eapply wp_mono; [by apply begin_op_admits|]. cbn beta. intros _ s' (H1 & H2 & H3). split_and!; [done..|].
  intros s'' pid V pins mine b B r bl Hlen Hc Hb Hr Hmax Hlog Ho.
  pose proof (log_write_absorbs pid V pins mine b B r s'' bl Hc Hb Hr Hmax Hlog) as Hw.
  rewrite (proj2 (Z.leb_gt LOGSIZE _)), (proj2 (Z.ltb_ge _ 1)) in Hw by lia. cbn [orb] in Hw. split; intros Hsz.
  - rewrite (proj2 (Z.leb_gt _ _)) in Hw by lia. eapply wp_mono; [exact Hw|]. cbn beta. intros _ t (_ & ? & _). done.
  - rewrite (proj2 (Z.leb_le _ _)) in Hw by lia. exact Hw.
Qed.

(** * A file system that was used once *)

Definition demo_sb : superblock := Superblock 0 64 0 0 31 2 0 0.
Definition zero_block : block := replicate (Z.to_nat BSIZE) 0.
Definition demo_log_disk : gmap Z block := gset_to_gmap zero_block (list_to_set (seqZ 0 64)).
(** A crash after the commit of a transaction that wrote block 40. *)
Definition demo_committed : gmap Z block := <[2 := header zero_block [40]]> demo_log_disk.

Lemma zero_block_len : length zero_block = Z.to_nat BSIZE.
Proof. apply length_replicate. Qed.

Lemma demo_log_disk_lookup n : 0 ≤ n < 64 → demo_log_disk !! n = Some zero_block.
Proof. intros. apply lookup_gset_to_gmap_Some. by rewrite elem_of_list_to_set, elem_of_seqZ. Qed.

Lemma demo_log_disk_len : map_Forall (λ _ b, length b = Z.to_nat BSIZE) demo_log_disk.
Proof. intros n b [_ <-]%lookup_gset_to_gmap_Some. apply zero_block_len. Qed.

Lemma demo_log_ok : log_disk 2 demo_log_disk.
Proof.
  assert (contents demo_log_disk 2 = zero_block) as Hc by (unfold contents; by rewrite demo_log_disk_lookup by lia).
  assert (header_n zero_block = 0) as H0 by (vm_compute; done).
  split.
  - apply demo_log_disk_len.
  - intros n Hn. unfold LOGSIZE, MAXOPBLOCKS in Hn. rewrite demo_log_disk_lookup by lia. by eexists.
  - by rewrite Hc, H0.
  - unfold header_blocks. rewrite Hc, H0. by intros B ?%elem_of_nil.
Qed.

Lemma demo_committed_ok : log_disk 2 demo_committed.
Proof.
  pose proof zero_block_len as Hlen. assert (8 ≤ BSIZE) as Hb by by compute.
  destruct (header_roundtrip zero_block [40]) as [Hn Hbl].
  { rewrite Hlen. cbn [length]. lia. } { by compute. } { by apply Forall_singleton. }
  assert (contents demo_committed 2 = header zero_block [40]) as Hc.
  { unfold contents, demo_committed. by rewrite lookup_insert_eq. }
  split.
  - apply map_Forall_insert_2; [|apply demo_log_disk_len].
    rewrite header_length; [done|]. rewrite Hlen. cbn [length]. lia.
  - intros n Hr. apply lookup_insert_is_Some'. right. by apply demo_log_ok.
  - by rewrite Hc, Hn.
  - rewrite Hc, Hbl. intros B ->%list_elem_of_singleton. split; [right; by compute|].
    apply lookup_insert_is_Some'. right. rewrite demo_log_disk_lookup by lia. by eexists.
Qed.

Lemma recovery_idempotent_witness :
  ∃ ws, returns (reboot 0 demo_sb)
      (λ _ s', disk (lg_bio s') = apply_writes ws demo_committed ∧ dwrites (lg_bio s') = ws) (boot_log 1 demo_committed) ∧
    returns (reboot 0 demo_sb)
      (λ _ s', header_n (contents (disk (lg_bio s')) 2) = 0 ∧
         ∀ n, home 2 n → disk (lg_bio s') !! n = replay 2 demo_committed !! n)
      (boot_log 1 (apply_writes (take 1 ws) demo_committed)).
Proof. exact (recovery_idempotent 0 1 1 demo_sb demo_committed demo_committed_ok). Defined.

Definition demo_start : gmap Z block := apply_writes (recovery_writes 2 demo_log_disk) demo_log_disk.

Lemma demo_start_empty : header_n (contents demo_start 2) = 0 ∧ ∀ n, 0 ≤ n < 64 → is_Some (demo_start !! n).
Proof.
  assert (∀ ws h (d : gmap Z block), apply_writes (ws ++ [(2, h)]) d = <[2 := h]> (apply_writes ws d)) as Hsnoc.
  { intros. by rewrite apply_writes_app. }
  unfold demo_start, recovery_writes. rewrite Hsnoc. split.
  - unfold contents at 1. rewrite lookup_insert_eq. apply header_empty.
    unfold contents. rewrite demo_log_disk_lookup by lia. apply zero_block_len.
  - intros n Hn. apply lookup_insert_is_Some'. right. apply apply_writes_is_Some.
    rewrite demo_log_disk_lookup by lia. by eexists.
Qed.

(** The state before [log_write] of a transaction that changes block 40. *)
Lemma demo_modified :
  ∃ V b s, cache V (<[40 := 1]> ∅) {[40]} 1 (lg_bio s) ∧ holds (lg_bio s) b 40 ∧ logged s [] ∧
    lg_outstanding s = 1 ∧ lg_committing s = false ∧ lg_start s = 2 ∧ lg_size s = 31 ∧ lg_dev s = ROOTDEV ∧
    disk (lg_bio s) = demo_start.
Proof.
  destruct (proj1 (wp_no_sleep _ _ _) (reboot_spec 0 1 demo_sb demo_log_disk demo_log_ok))
    as (_ & s0 & _ & Hl & Ho & Hco & Hdev & Hst & Hsz & Hc & Hd & _).
  destruct (proj1 (wp_no_sleep _ _ _) (begin_op_room 0 s0 (ca_held _ _ _ _ _ Hc) Hco ltac:(rewrite Ho, (proj1 Hl); by compute)))
    as (_ & s1 & _ & Hs1).
  assert (cache (update_contents (recovery_writes 2 demo_log_disk) (contents demo_log_disk)) ∅ ∅ 1 (lg_bio s1)) as Hc1.
  { rewrite Hs1. eapply (cache_thread _ _ _ _ _ (lg_bio s0)); [exact Hc|apply Hc|done]. }
  assert (disk (lg_bio s1) = demo_start) as Hd1 by by rewrite Hs1.
  assert (is_Some (disk (lg_bio s1) !! 40)) as H40 by (rewrite Hd1; apply (proj2 demo_start_empty); lia).
  revert Hc1. generalize (update_contents (recovery_writes 2 demo_log_disk) (contents demo_log_disk)). intros V Hc1.
  pose proof (bread_spec V ∅ ∅ 1 0 40 (lg_bio s1) Hc1 (not_elem_of_empty _) (or_intror eq_refl) eq_refl H40) as Hr.
  apply wp_no_sleep in Hr as (b & t2 & _ & Hc2 & Hb2 & _ & _ & Hd2 & _).
  eexists _, b, (set_bio t2 s1).
  assert (({[40]} : gset Z) ∪ ∅ = {[40]}) as Hset by set_solver. rewrite Hset in Hc2.
  split_and!; [exact Hc2|done|..]; try (rewrite Hs1; cbn; done).
  - rewrite Hs1. cbn. by rewrite Ho.
  - cbn. by rewrite Hd2.
Qed.

Lemma log_write_absorbs_witness :
  ∃ V b s, logged s [] ∧ returns (log_write b)
    (λ _ s', cache V (if decide (40 ∈ []) then <[40 := 1]> ∅ else <[40 := 1 + 1]> (<[40 := 1]> ∅)) {[40]} 1 (lg_bio s') ∧
       logged s' (absorb 40 []) ∧ (∀ c k, holds (lg_bio s) c k → holds (lg_bio s') c k) ∧
       disk (lg_bio s') = disk (lg_bio s) ∧ dwrites (lg_bio s') = dwrites (lg_bio s)) s.
Proof.
  destruct demo_modified as (V & b & s & Hc & Hb & Hl & Ho & Hco & Hst & Hsz & Hdev & Hd).
  exists V, b, s. split; [exact Hl|].
  pose proof (log_write_absorbs 1 V (<[40 := 1]> ∅) {[40]} b 40 1 s [] Hc Hb eq_refl eq_refl Hl) as Hw.
  rewrite Hsz, Ho in Hw. exact Hw.
Defined.

Lemma begin_op_reserves_witness :
  wp (shared_env unlocked) (begin_op 3)
    (λ _ s', unlocked s' ∧ lg_committing s' = false ∧ reserved s' ≤ LOGSIZE ∧
       ∀ (s'' : logst) pid V pins mine b B r bl, Z.of_nat (length bl) < reserved s' →
         cache V pins mine pid (lg_bio s'') → holds (lg_bio s'') b B → pins !! B = Some r → r + 1 < 2 ^ 32 →
         logged s'' bl → 1 ≤ lg_outstanding s'' →
         (LOGSIZE < lg_size s'' → returns (log_write b) (λ _ t, logged t (absorb B bl)) s'') ∧
         (lg_size s'' ≤ Z.of_nat (length bl) + 1 → log_write b s'' = Panic "too big a transaction"))
    (set_lh 25 [] (boot_log 1 ∅)).
Proof. exact (proj1 (begin_op_reserves 3 (set_lh 25 [] (boot_log 1 ∅)) eq_refl)). Defined.

(** The transaction that wrote block 40, before its [end_op]. *)
Lemma demo_committable : ∃ V s, committable 1 V s [40] ∧ lg_outstanding s = 1 ∧ lg_committing s = false ∧ lg_start s = 2.
Proof.
  destruct demo_modified as (V & b & s & Hc & Hb & Hl & Ho & Hco & Hst & Hsz & Hdev & Hd).
  destruct (proj1 (wp_no_sleep _ _ _) (log_write_spec 1 V (<[40 := 1]> ∅) {[40]} b 40 1 s [] Hc Hb eq_refl eq_refl Hl
    eq_refl ltac:(rewrite Hsz; by compute) ltac:(lia))) as (_ & s1 & _ & Hc1 & Hl1 & Hs1 & Hk1 & Hd1 & _).
  rewrite decide_False in Hc1 by (apply not_elem_of_nil). rewrite insert_insert_eq in Hc1.
  destruct (proj1 (wp_no_sleep _ _ _) (brelse_cache V _ _ 1 b 40 2 (lg_bio s1) Hc1 (Hk1 _ _ Hb) ltac:(set_solver) eq_refl
    ltac:(done))) as (_ & t2 & _ & Hc2 & _ & _ & Hd2 & _).
  assert (V 2 = contents demo_start 2) as HV2.
  { unfold contents. destruct (proj2 demo_start_empty 2) as [d Hd']; [lia|]. rewrite Hd'. symmetry.
    rewrite <- Hd in Hd'. destruct (ca_disk _ _ _ _ _ Hc 2 d Hd') as [_ Hcl]. apply Hcl. set_solver. }
  exists V, (set_bio t2 s1). rewrite Hs1. cbn. split_and!; [|exact Ho|exact Hco|exact Hst]. split.
  - split.
    + cbn. replace (pinned [40]) with (unpin 40 2 (<[40 := 1 + 1]> (∅ : gmap Z Z))) by (vm_compute; done).
      replace (∅ : gset Z) with (({[40]} : gset Z) ∖ {[40]}) by set_solver. exact Hc2.
    + split; [done|]. cbn. rewrite Hst, Hd2, Hd1, Hd. intros n Hn. unfold LOGSIZE, MAXOPBLOCKS in Hn.
      split; [done|]. apply (proj2 demo_start_empty). lia.
    + intros B ->%list_elem_of_singleton. cbn. rewrite Hst, Hd2, Hd1, Hd. split; [right; by compute|].
      apply (proj2 demo_start_empty). lia.
    + apply NoDup_singleton.
    + cbn. apply Hl1.
    + by compute.
    + apply Hl1.
  - cbn. rewrite Hst, HV2. exact (proj1 demo_start_empty).
  - by apply Forall_singleton.
Qed.

Lemma end_op_atomic_witness :
  ∃ V s, committable 1 V s [40] ∧ ∃ ws, returns (end_op 0)
      (λ _ s', disk (lg_bio s') = apply_writes ws (disk (lg_bio s)) ∧
         dwrites (lg_bio s') = dwrites (lg_bio s) ++ ws ∧
         (∀ n, home (lg_start s) n → n ∈ [40] → disk (lg_bio s') !! n = Some (V n))) s ∧
    ∀ k, returns (reboot 0 demo_sb)
      (λ _ s', ∀ n, home (lg_start s) n → disk (lg_bio s') !! n =
         if decide (length [40] < k)%nat then if decide (n ∈ [40]) then Some (V n) else disk (lg_bio s) !! n
         else disk (lg_bio s) !! n) (boot_log 7 (apply_writes (take k ws) (disk (lg_bio s)))).
Proof.
  destruct demo_committable as (V & s & Hcm & Ho & Hc & Hst). exists V, s. split; [exact Hcm|].
  exact (end_op_atomic 0 0 1 7 V s [40] demo_sb Hcm Ho Hc (eq_sym Hst)).
Defined.
