(* ===== verification/Fs.v ===== *)
(** The file system (kernel/fs.c, the on-disk structures of kernel/fs.h and the
    in-memory inode of kernel/file.h).

    An inode pointer is its index in [itable.inode] plus one, [NULL] is 0.  A
    path or file name is the list of its characters, without the NUL; a name
    buffer is a list of [DIRSIZ] characters.  [de] is the address of the local
    [struct dirent] of [dirlookup] and [dirlink], which [readi] and [writei] reach
    as a kernel address.  The messages the routines print are left out. *)

From S2P Require Import Prelude Riscv Mem CString Threads Sleeplock Bio Log.
Local Open Scope Z_scope.

(** * fs.h, file.h, stat.h *)

Definition ROOTINO : Z := 1.
Definition FSMAGIC : Z := 0x10203040.
Definition NDIRECT : Z := 12.
Definition NINDIRECT : Z := BSIZE / 4.
Definition MAXFILE : Z := NDIRECT + NINDIRECT.
Definition DIRSIZ : Z := 14.
Definition T_DIR : Z := 1.
Definition T_FILE : Z := 2.
Definition T_DEVICE : Z := 3.

Record dinode := Dinode {
  di_type : Z;
  di_major : Z;
  di_minor : Z;
  di_nlink : Z;
  di_size : Z;
  di_addrs : list Z;
}.
Definition sizeof_dinode : Z := 64.
Definition sizeof_dirent : Z := 16.
Definition IPB : Z := BSIZE / sizeof_dinode.
Definition IBLOCK (i : Z) (sb : superblock) : Z := u32 (i / IPB + sb_inodestart sb).
Definition BPB : Z := BSIZE * 8.
Definition BBLOCK (b : Z) (sb : superblock) : Z := u32 (b / BPB + sb_bmapstart sb).

(** The in-memory inode; [i_d] are the fields that are copies of the disk's. *)
Record inode := Inode {
  i_dev : Z;
  i_inum : Z;
  i_ref : Z;
  i_lock : sleeplock;
  i_valid : bool;
  i_d : dinode;
}.

Record stat := Stat { st_dev : Z; st_ino : Z; st_type : Z; st_nlink : Z; st_size : Z }.

(** Unsigned little-endian integers in a block. *)
Definition loadu (n : nat) (d : block) (off : Z) : Z := le_decode (take n (drop (Z.to_nat off) d)).
Definition storeu (n : nat) (d : block) (off v : Z) : block :=
  take (Z.to_nat off) d ++ le_encode n (v `mod` 256 ^ Z.of_nat n) ++ drop (Z.to_nat off + n) d.

(** The [dinode] at index [k] of an inode block. *)
Definition get_addrs (d : block) (off : Z) (n : nat) : list Z :=
  (λ i, loadu 4 d (off + 4 * Z.of_nat i)) <$> seq 0 n.
Fixpoint put_addrs (d : block) (off : Z) (addrs : list Z) : block :=
  match addrs with
  | [] => d
  | a :: addrs => put_addrs (storeu 4 d off a) (off + 4) addrs
  end.
Definition get_dinode (d : block) (k : Z) : dinode :=
  let o := k * sizeof_dinode in
  Dinode (s16 (loadu 2 d o)) (s16 (loadu 2 d (o + 2))) (s16 (loadu 2 d (o + 4))) (s16 (loadu 2 d (o + 6)))
    (loadu 4 d (o + 8)) (get_addrs d (o + 12) (Z.to_nat NDIRECT + 1)).
Definition put_dinode (d : block) (k : Z) (x : dinode) : block :=
  let o := k * sizeof_dinode in
  let d := storeu 2 d o (di_type x) in
  let d := storeu 2 d (o + 2) (di_major x) in
  let d := storeu 2 d (o + 4) (di_minor x) in
  let d := storeu 2 d (o + 6) (di_nlink x) in
  let d := storeu 4 d (o + 8) (di_size x) in
  put_addrs d (o + 12) (di_addrs x).

(** The superblock as it is on the disk. *)
Definition get_superblock (d : block) : superblock :=
  Superblock (loadu 4 d 0) (loadu 4 d 4) (loadu 4 d 8) (loadu 4 d 12)
    (loadu 4 d 16) (loadu 4 d 20) (loadu 4 d 24) (loadu 4 d 28).

Definition with_type (t : Z) (x : dinode) : dinode :=
  Dinode t (di_major x) (di_minor x) (di_nlink x) (di_size x) (di_addrs x).
Definition with_nlink (n : Z) (x : dinode) : dinode :=
  Dinode (di_type x) (di_major x) (di_minor x) n (di_size x) (di_addrs x).
Definition with_size (n : Z) (x : dinode) : dinode :=
  Dinode (di_type x) (di_major x) (di_minor x) (di_nlink x) n (di_addrs x).
Definition with_addr (i a : Z) (x : dinode) : dinode :=
  Dinode (di_type x) (di_major x) (di_minor x) (di_nlink x) (di_size x) (<[Z.to_nat i := a]> (di_addrs x)).

Definition with_ilock (l : sleeplock) (x : inode) : inode :=
  Inode (i_dev x) (i_inum x) (i_ref x) l (i_valid x) (i_d x).
Definition with_ref (r : Z) (x : inode) : inode :=
  Inode (i_dev x) (i_inum x) r (i_lock x) (i_valid x) (i_d x).
Definition with_ivalid (v : bool) (x : inode) : inode :=
  Inode (i_dev x) (i_inum x) (i_ref x) (i_lock x) v (i_d x).
Definition with_dinode (f : dinode → dinode) (x : inode) : inode :=
  Inode (i_dev x) (i_inum x) (i_ref x) (i_lock x) (i_valid x) (f (i_d x)).
Definition reuse_inode (dev inum : Z) (x : inode) : inode :=
  Inode dev inum 1 (i_lock x) false (i_d x).

(** * The state *)

Record fsst (U : Type) := Fsst {
  fs_log : logst;
  fs_sb : superblock;
  itab : gmap Z inode;
  fs_cwd : gmap Z Z;        (* the cwd of every process *)
  fs_mem : U;
}.
Arguments Fsst {U} _ _ _ _ _.
Arguments fs_log {U} _.
Arguments fs_sb {U} _.
Arguments itab {U} _.
Arguments fs_cwd {U} _.
Arguments fs_mem {U} _.

Definition set_log {U} (l : logst) (s : fsst U) : fsst U := Fsst l (fs_sb s) (itab s) (fs_cwd s) (fs_mem s).
Definition set_sb {U} (b : superblock) (s : fsst U) : fsst U := Fsst (fs_log s) b (itab s) (fs_cwd s) (fs_mem s).
Definition set_itab {U} (m : gmap Z inode) (s : fsst U) : fsst U := Fsst (fs_log s) (fs_sb s) m (fs_cwd s) (fs_mem s).
Definition set_fmem {U} (u : U) (s : fsst U) : fsst U := Fsst (fs_log s) (fs_sb s) (itab s) (fs_cwd s) u.

#[export] Instance fsst_thread U : HasThread (fsst U).
Proof.
  refine {| the_thread := λ s, the_thread (fs_log s);
            set_thread := λ t s, set_log (set_thread t (fs_log s)) s |}; try done.
  by intros [[[]]].
Defined.

Definition itable_lock : Z := 102.
(** The sleep lock of an inode. *)
Definition ilk (ip : Z) : Z := 200 + ip.

#[export] Instance fsst_locks U : HasSleeplocks (fsst U).
Proof.
  refine {| sl_get := λ lk s, i_lock <$> itab s !! (lk - 200);
            sl_put := λ lk l s, set_itab (alter (with_ilock l) (lk - 200) (itab s)) s |}; try done.
  intros lk l s [l' Hl]. simpl. rewrite lookup_alter_eq. by destruct (itab s !! (lk - 200)).
Defined.

Section fs.
Context {U : Type} `{UserMem U} (wakeups : nat) (de : Z).
Local Abbreviation St := (fsst U).

Definition on_log {A} (m : M logst A) : M St A := zoom fs_log set_log m.
Definition on_umem {A} (m : M U A) : M St A := zoom fs_mem set_fmem m.
(** The buffer cache and the log as the file system calls them. *)
Definition fs_bread (dev blockno : Z) : M St Z := on_log (on_bio (bread wakeups dev blockno)).
Definition fs_brelse (b : Z) : M St unit := on_log (on_bio (brelse b)).
Definition fs_log_write (b : Z) : M St unit := on_log (log_write b).
Definition buf_data (b : Z) : M St block := on_log (on_bio (get_data b)).
Definition set_buf_data (b : Z) (d : block) : M St unit := on_log (on_bio (set_data b d)).
Definition data_byte (d : block) (i : Z) : M St Z := get_some (λ _, d !! Z.to_nat i).

Definition deref_inode (ip : Z) : M St inode := get_some (λ s, itab s !! ip).
Definition update_inode (ip : Z) (f : inode → inode) : M St unit :=
  let! _ := deref_inode ip in modify (λ s, set_itab (alter f ip (itab s)) s).

(** * Blocks *)

Definition readsb (dev : Z) : M St unit :=
  let! bp := fs_bread dev 1 in
  let! d := buf_data bp in
  modify (set_sb (get_superblock d));;;
  fs_brelse bp.

Definition fsinit (dev : Z) : M St unit :=
  readsb dev;;;
  let! sb := gets fs_sb in
  if negb (sb_magic sb =? FSMAGIC) then panic "invalid file system" else
  on_log (initlog wakeups dev sb).

Definition bzero (dev bno : Z) : M St unit :=
  let! bp := fs_bread dev bno in
  set_buf_data bp (replicate (Z.to_nat BSIZE) 0);;;
  fs_log_write bp;;;
  fs_brelse bp.

(** The inner loop of [balloc]: bits [bi] on of the bitmap block in [bp]. *)
Fixpoint balloc_bits (n : nat) (dev bp b bi : Z) : M St (option Z) :=
  match n with
  | O => ret None
  | S n =>
      let m := Z.shiftl 1 (bi `mod` 8) in
      let! d := buf_data bp in
      let! x := data_byte d (bi / 8) in
      if Z.land x m =? 0 then
        set_buf_data bp (<[Z.to_nat (bi / 8) := u8 (Z.lor x m)]> d);;;
        fs_log_write bp;;;
        fs_brelse bp;;;
        bzero dev (b + bi);;;
        ret (Some (b + bi))
      else balloc_bits n dev bp b (bi + 1)
  end.
Fixpoint balloc_loop (fuel : nat) (dev b : Z) : M St Z :=
  let! sb := gets fs_sb in
  if negb (b <? sb_size sb) then ret 0 else
  match fuel with
  | O => out_of_fuel
  | S fuel =>
      let! bp := fs_bread dev (BBLOCK b sb) in
      let! r := balloc_bits (Z.to_nat (BPB `min` (sb_size sb - b))) dev bp b 0 in
      match r with
      | Some a => ret a
      | None => fs_brelse bp;;; balloc_loop fuel dev (b + BPB)
      end
  end.
Definition balloc (dev : Z) : M St Z :=
  let! sb := gets fs_sb in balloc_loop (S (Z.to_nat (sb_size sb / BPB))) dev 0.

Definition bfree (dev b : Z) : M St unit :=
  let! sb := gets fs_sb in
  let! bp := fs_bread dev (BBLOCK b sb) in
  let bi := b `mod` BPB in
  let m := Z.shiftl 1 (bi `mod` 8) in
  let! d := buf_data bp in
  let! x := data_byte d (bi / 8) in
  if Z.land x m =? 0 then panic "freeing free block" else
  set_buf_data bp (<[Z.to_nat (bi / 8) := Z.land x (Z.lnot m)]> d);;;
  fs_log_write bp;;;
  fs_brelse bp.

(** * Inodes *)

Fixpoint iinit_loop (n : nat) (ip : Z) : M St unit :=
  match n with O => ret tt | S n => initsleeplock (ilk ip);;; iinit_loop n (ip + 1) end.
Definition iinit : M St unit := iinit_loop (Z.to_nat NINODE) 1.

(** The search of [iget] from entry [ip] on. *)
Fixpoint iget_loop (n : nat) (dev inum empty ip : Z) : M St (Z + Z) :=
  match n with
  | O => ret (inr empty)
  | S n =>
      let! x := deref_inode ip in
      if (0 <? i_ref x) && (i_dev x =? dev) && (i_inum x =? inum) then ret (inl ip) else
      iget_loop n dev inum (if (empty =? 0) && (i_ref x =? 0) then ip else empty) (ip + 1)
  end.
Definition iget (dev inum : Z) : M St Z :=
  acquire itable_lock;;;
  let! r := iget_loop (Z.to_nat NINODE) dev inum 0 1 in
  match r with
  | inl ip =>
      update_inode ip (λ x, with_ref (i_ref x + 1) x);;;
      release itable_lock;;;
      ret ip
  | inr empty =>
      if empty =? 0 then panic "iget: no inodes" else
      update_inode empty (reuse_inode dev inum);;;
      release itable_lock;;;
      ret empty
  end.

Fixpoint ialloc_loop (n : nat) (dev type inum : Z) : M St Z :=
  match n with
  | O => ret 0
  | S n =>
      let! sb := gets fs_sb in
      let! bp := fs_bread dev (IBLOCK inum sb) in
      let! d := buf_data bp in
      if di_type (get_dinode d (inum `mod` IPB)) =? 0 then
        set_buf_data bp (put_dinode d (inum `mod` IPB) (Dinode type 0 0 0 0 (replicate (Z.to_nat NDIRECT + 1) 0)));;;
        fs_log_write bp;;;
        fs_brelse bp;;;
        iget dev inum
      else fs_brelse bp;;; ialloc_loop n dev type (inum + 1)
  end.
Definition ialloc (dev type : Z) : M St Z :=
  let! sb := gets fs_sb in ialloc_loop (Z.to_nat (sb_ninodes sb - 1)) dev type 1.

Definition iupdate (ip : Z) : M St unit :=
  let! x := deref_inode ip in
  let! sb := gets fs_sb in
  let! bp := fs_bread (i_dev x) (IBLOCK (i_inum x) sb) in
  let! d := buf_data bp in
  let! x := deref_inode ip in
  set_buf_data bp (put_dinode d (i_inum x `mod` IPB) (i_d x));;;
  fs_log_write bp;;;
  fs_brelse bp.

Definition idup (ip : Z) : M St Z :=
  acquire itable_lock;;;
  update_inode ip (λ x, with_ref (i_ref x + 1) x);;;
  release itable_lock;;;
  ret ip.

Definition ilock (ip : Z) : M St unit :=
  if ip =? 0 then panic "ilock" else
  let! x := deref_inode ip in
  if i_ref x <? 1 then panic "ilock" else
  acquiresleep wakeups (ilk ip);;;
  let! x := deref_inode ip in
  when (negb (i_valid x)) (
    let! sb := gets fs_sb in
    let! bp := fs_bread (i_dev x) (IBLOCK (i_inum x) sb) in
    let! d := buf_data bp in
    update_inode ip (with_dinode (λ _, get_dinode d (i_inum x `mod` IPB)));;;
    fs_brelse bp;;;
    update_inode ip (with_ivalid true);;;
    let! x := deref_inode ip in
    if di_type (i_d x) =? 0 then panic "ilock: no type" else ret tt).

Definition iunlock (ip : Z) : M St unit :=
  if ip =? 0 then panic "iunlock" else
  let! h := holdingsleep (ilk ip) in
  if negb h then panic "iunlock" else
  let! x := deref_inode ip in
  if i_ref x <? 1 then panic "iunlock" else
  releasesleep (ilk ip).

(** * Inode content *)

Definition bmap (ip bn : Z) : M St Z :=
  let! x := deref_inode ip in
  if bn <? NDIRECT then
    let! addr := get_some (λ _, di_addrs (i_d x) !! Z.to_nat bn) in
    if addr =? 0 then
      let! addr := balloc (i_dev x) in
      if addr =? 0 then ret 0 else
      update_inode ip (with_dinode (with_addr bn addr));;;
      ret addr
    else ret addr
  else
    let bn := bn - NDIRECT in
    if negb (bn <? NINDIRECT) then panic "bmap: out of range" else
    let! addr := get_some (λ _, di_addrs (i_d x) !! Z.to_nat NDIRECT) in
    let! addr := (if addr =? 0 then
                    let! addr := balloc (i_dev x) in
                    when (negb (addr =? 0)) (update_inode ip (with_dinode (with_addr NDIRECT addr)));;;
                    ret addr
                  else ret addr) in
    if addr =? 0 then ret 0 else
    let! bp := fs_bread (i_dev x) addr in
    let! d := buf_data bp in
    let addr := loadu 4 d (4 * bn) in
    let! addr := (if addr =? 0 then
                    let! addr := balloc (i_dev x) in
                    when (negb (addr =? 0)) (
                      let! d := buf_data bp in
                      set_buf_data bp (storeu 4 d (4 * bn) addr);;;
                      fs_log_write bp);;;
                    ret addr
                  else ret addr) in
    fs_brelse bp;;;
    ret addr.

Fixpoint itrunc_direct (n : nat) (ip i : Z) : M St unit :=
  match n with
  | O => ret tt
  | S n =>
      let! x := deref_inode ip in
      let! a := get_some (λ _, di_addrs (i_d x) !! Z.to_nat i) in
      when (negb (a =? 0)) (
        bfree (i_dev x) a;;;
        update_inode ip (with_dinode (with_addr i 0)));;;
      itrunc_direct n ip (i + 1)
  end.
Fixpoint itrunc_indirect (n : nat) (dev bp j : Z) : M St unit :=
  match n with
  | O => ret tt
  | S n =>
      let! d := buf_data bp in
      let a := loadu 4 d (4 * j) in
      when (negb (a =? 0)) (bfree dev a);;;
      itrunc_indirect n dev bp (j + 1)
  end.
Definition itrunc (ip : Z) : M St unit :=
  itrunc_direct (Z.to_nat NDIRECT) ip 0;;;
  let! x := deref_inode ip in
  let! a := get_some (λ _, di_addrs (i_d x) !! Z.to_nat NDIRECT) in
  when (negb (a =? 0)) (
    let! bp := fs_bread (i_dev x) a in
    itrunc_indirect (Z.to_nat NINDIRECT) (i_dev x) bp 0;;;
    fs_brelse bp;;;
    bfree (i_dev x) a;;;
    update_inode ip (with_dinode (with_addr NDIRECT 0)));;;
  update_inode ip (with_dinode (with_size 0));;;
  iupdate ip.

Definition iput (ip : Z) : M St unit :=
  acquire itable_lock;;;
  let! x := deref_inode ip in
  when ((i_ref x =? 1) && i_valid x && (di_nlink (i_d x) =? 0)) (
    acquiresleep wakeups (ilk ip);;;
    release itable_lock;;;
    itrunc ip;;;
    update_inode ip (with_dinode (with_type 0));;;
    iupdate ip;;;
    update_inode ip (with_ivalid false);;;
    releasesleep (ilk ip);;;
    acquire itable_lock);;;
  update_inode ip (λ x, with_ref (i_ref x - 1) x);;;
  release itable_lock.

Definition iunlockput (ip : Z) : M St unit := iunlock ip;;; iput ip.

Definition stati (ip : Z) : M St stat :=
  let! x := deref_inode ip in
  ret (Stat (i_dev x) (i_inum x) (di_type (i_d x)) (di_nlink (i_d x)) (di_size (i_d x))).

(** Every round copies at least one byte. *)
Fixpoint readi_loop (fuel : nat) (ip : Z) (user_dst : bool) (dst off n tot : Z) : M St Z :=
  if negb (tot <? n) then ret (s32 tot) else
  match fuel with
  | O => out_of_fuel
  | S fuel =>
      let! addr := bmap ip (off / BSIZE) in
      if addr =? 0 then ret (s32 tot) else
      let! x := deref_inode ip in
      let! bp := fs_bread (i_dev x) addr in
      let m := (n - tot) `min` (BSIZE - off `mod` BSIZE) in
      let! d := buf_data bp in
      let! pt := mypagetable in
      let! ok := on_umem (either_copyout pt user_dst dst (take (Z.to_nat m) (drop (Z.to_nat (off `mod` BSIZE)) d))) in
      fs_brelse bp;;;
      if ok then readi_loop fuel ip user_dst (u64 (dst + m)) (u32 (off + m)) n (tot + m)
      else ret (-1)
  end.
Definition readi (ip : Z) (user_dst : bool) (dst off n : Z) : M St Z :=
  let! x := deref_inode ip in
  let size := di_size (i_d x) in
  if (size <? off) || (u32 (off + n) <? off) then ret 0 else
  let n := if size <? u32 (off + n) then size - off else n in
  readi_loop (Z.to_nat n) ip user_dst dst off n 0.

Fixpoint writei_loop (fuel : nat) (ip : Z) (user_src : bool) (src off n tot : Z) : M St (Z * Z) :=
  if negb (tot <? n) then ret (tot, off) else
  match fuel with
  | O => out_of_fuel
  | S fuel =>
      let! addr := bmap ip (off / BSIZE) in
      if addr =? 0 then ret (tot, off) else
      let! x := deref_inode ip in
      let! bp := fs_bread (i_dev x) addr in
      let m := (n - tot) `min` (BSIZE - off `mod` BSIZE) in
      let o := Z.to_nat (off `mod` BSIZE) in
      let! d := buf_data bp in
      let! pt := mypagetable in
      let! bs := on_umem (either_copyin_part pt user_src src (Z.to_nat m)) in
      set_buf_data bp (take o d ++ bs ++ drop (o + length bs) d);;;
      if Z.of_nat (length bs) <? m then fs_brelse bp;;; ret (tot, off) else
      fs_log_write bp;;;
      fs_brelse bp;;;
      writei_loop fuel ip user_src (u64 (src + m)) (u32 (off + m)) n (tot + m)
  end.
Definition writei (ip : Z) (user_src : bool) (src off n : Z) : M St Z :=
  let! x := deref_inode ip in
  if (di_size (i_d x) <? off) || (u32 (off + n) <? off) then ret (-1) else
  if MAXFILE * BSIZE <? u32 (off + n) then ret (-1) else
  let! r := writei_loop (Z.to_nat n) ip user_src src off n 0 in
  let '(tot, off) := r in
  let! x := deref_inode ip in
  when (di_size (i_d x) <? off) (update_inode ip (with_dinode (with_size off)));;;
  iupdate ip;;;
  ret (s32 tot).

(** * Directories *)

(** A [struct dirent] in memory: the inode number and the name. *)
Definition de_inum (bs : list Z) : Z := le_decode (take 2 bs).
Definition de_name (bs : list Z) : list Z := drop 2 bs.
Definition dirent (inum : Z) (name : list Z) : list Z := le_encode 2 (u16 inum) ++ name.

Definition namecmp (s t : list Z) : Z := strncmp_bytes (Z.to_nat DIRSIZ) s t.

(** [readi] into [de], then a look at it. *)
Definition read_dirent (ip off : Z) (msg : string) : M St (list Z) :=
  let! n := readi ip false de off sizeof_dirent in
  if negb (n =? sizeof_dirent) then panic msg else
  on_umem (kernel_read de (Z.to_nat sizeof_dirent)).

(** Returns the inode and the offset of the entry; (0, 0) if there is none. *)
Fixpoint dirlookup_loop (fuel : nat) (dp : Z) (name : list Z) (off : Z) : M St (Z * Z) :=
  let! x := deref_inode dp in
  if negb (off <? di_size (i_d x)) then ret (0, 0) else
  match fuel with
  | O => out_of_fuel
  | S fuel =>
      let! e := read_dirent dp off "dirlookup read" in
      if de_inum e =? 0 then dirlookup_loop fuel dp name (u32 (off + sizeof_dirent)) else
      if namecmp name (de_name e) =? 0 then
        let! ip := iget (i_dev x) (de_inum e) in ret (ip, off)
      else dirlookup_loop fuel dp name (u32 (off + sizeof_dirent))
  end.
Definition dirlookup (dp : Z) (name : list Z) : M St (Z * Z) :=
  let! x := deref_inode dp in
  if negb (di_type (i_d x) =? T_DIR) then panic "dirlookup not DIR" else
  dirlookup_loop (S (Z.to_nat (di_size (i_d x) / sizeof_dirent))) dp name 0.

Fixpoint dirlink_loop (fuel : nat) (dp off : Z) : M St Z :=
  let! x := deref_inode dp in
  if negb (off <? di_size (i_d x)) then ret off else
  match fuel with
  | O => out_of_fuel
  | S fuel =>
      let! e := read_dirent dp off "dirlink read" in
      if de_inum e =? 0 then ret off else dirlink_loop fuel dp (off + sizeof_dirent)
  end.
(** [strncpy(de.name, name, DIRSIZ)] *)
Definition dirent_name (name : list Z) : list Z :=
  take (Z.to_nat DIRSIZ) (name ++ replicate (Z.to_nat DIRSIZ) 0).
Definition dirlink (dp : Z) (name : list Z) (inum : Z) : M St Z :=
  let! r := dirlookup dp name in
  let '(ip, _) := r in
  if negb (ip =? 0) then iput ip;;; ret (-1) else
  let! x := deref_inode dp in
  let! off := dirlink_loop (S (Z.to_nat (di_size (i_d x) / sizeof_dirent))) dp 0 in
  on_umem (kernel_write de (dirent inum (dirent_name name)));;;
  let! n := writei dp false de off sizeof_dirent in
  if negb (n =? sizeof_dirent) then ret (-1) else ret 0.

(** * Paths *)

Definition slash : Z := 47.
Fixpoint skip_slashes (path : list Z) : list Z :=
  match path with c :: rest => if c =? slash then skip_slashes rest else path | [] => [] end.
(** The element [path] starts with, and what follows it. *)
Fixpoint take_elem (path : list Z) : list Z * list Z :=
  match path with
  | c :: rest => if c =? slash then ([], path) else let '(e, rest) := take_elem rest in (c :: e, rest)
  | [] => ([], [])
  end.
(** What [memmove] and the NUL leave in [name]. *)
Definition fill_name (e name : list Z) : list Z :=
  if DIRSIZ <=? Z.of_nat (length e) then take (Z.to_nat DIRSIZ) e
  else e ++ [0] ++ drop (length e + 1) name.
Definition skipelem (path name : list Z) : option (list Z * list Z) :=
  match skip_slashes path with
  | [] => None
  | path =>
      let '(e, rest) := take_elem path in
      Some (skip_slashes rest, fill_name e name)
  end.

Fixpoint namex_loop (fuel : nat) (nameiparent : bool) (ip : Z) (path name : list Z) : M St (Z * list Z) :=
  match skipelem path name with
  | None => if nameiparent then iput ip;;; ret (0, name) else ret (ip, name)
  | Some (path, name) =>
      match fuel with
      | O => out_of_fuel
      | S fuel =>
          ilock ip;;;
          let! x := deref_inode ip in
          if negb (di_type (i_d x) =? T_DIR) then iunlockput ip;;; ret (0, name) else
          if nameiparent && bool_decide (path = []) then iunlock ip;;; ret (ip, name) else
          let! r := dirlookup ip name in
          let '(next, _) := r in
          if next =? 0 then iunlockput ip;;; ret (0, name) else
          iunlockput ip;;;
          namex_loop fuel nameiparent next path name
      end
  end.
Definition namex (path : list Z) (nameiparent : bool) (name : list Z) : M St (Z * list Z) :=
  let! ip := (if bool_decide (path !! 0%nat = Some slash) then iget ROOTDEV ROOTINO
              else let! me := gets (λ s, th_proc (the_thread s)) in
                   let! cwd := get_some (λ s, fs_cwd s !! me) in idup cwd) in
  namex_loop (length path) nameiparent ip path name.

Definition namei (path : list Z) : M St Z :=
  let! r := namex path false (replicate (Z.to_nat DIRSIZ) 0) in ret (fst r).
(** Returns the inode and the name buffer. *)
Definition nameiparent (path name : list Z) : M St (Z * list Z) := namex path true name.
End fs.
