(* ===== verification/FsTx.v ===== *)
(** The file system inside a transaction: what the buffer cache and the log
    promise to fs.c.

    [tx V bl hb dirty l]: the current contents of the disk's blocks are [V]; the
    transaction has logged the blocks [bl]; the caller has locked the buffers
    [hb], a map from block number to buffer, and has changed those of the blocks
    [dirty] without logging them yet; [nops] operations are under way, without
    one nothing can be logged.  The disk [D] itself does not change before the
    commit. *)

From stdpp Require Import functions.
From S2P Require Import Prelude Riscv Mem Threads Sleeplock Bio BioSpecs BioOps Log LogSpecs LogWrite Fs.
Local Open Scope Z_scope.

(** * The routines called keep the identity of the thread *)

Section keeps.
Context (w : nat) (b dev n : Z).

Lemma keeps_update_buf c f : keeps_ident (update_buf c f).
Proof. unfold update_buf, deref_buf. keeps. Qed.
#[local] Hint Resolve keeps_update_buf : keeps.

Lemma keeps_acquiresleep `{HasSleeplocks St} k lk : keeps_ident (acquiresleep k lk).
Proof.
  assert (keeps_ident (acquiresleep_loop k lk)) by (induction k as [|k IH]; simpl; keeps).
  unfold acquiresleep, mypid. keeps. apply keeps_modify. intros s. by rewrite sl_thread.
Qed.
Lemma keeps_releasesleep `{HasSleeplocks St} lk : keeps_ident (releasesleep lk).
Proof. unfold releasesleep. keeps. apply keeps_modify. intros s. by rewrite sl_thread. Qed.
Lemma keeps_holdingsleep `{HasSleeplocks St} lk : keeps_ident (holdingsleep lk).
Proof. unfold holdingsleep, mypid. keeps. Qed.
#[local] Hint Resolve keeps_acquiresleep keeps_releasesleep keeps_holdingsleep : keeps.

Lemma keeps_bget_find fuel c : keeps_ident (bget_find fuel dev n c).
Proof. revert c. induction fuel as [|fuel IH]; intros c; simpl; unfold deref_buf; keeps. Qed.
Lemma keeps_bget_unused fuel c : keeps_ident (bget_unused fuel c).
Proof. revert c. induction fuel as [|fuel IH]; intros c; simpl; unfold deref_buf; keeps. Qed.
Lemma keeps_virtio c wr : keeps_ident (virtio_disk_rw c wr).
Proof.
  intros s a s'. unfold virtio_disk_rw. repeat case_match; try done; by intros [= _ <-].
Qed.
#[local] Hint Resolve keeps_bget_find keeps_bget_unused keeps_virtio : keeps.

Lemma keeps_bread : keeps_ident (bread w dev n).
Proof. unfold bread, bget, deref_buf. keeps. Qed.
Lemma keeps_brelse : keeps_ident (brelse b).
Proof. unfold brelse, deref_buf. keeps. Qed.
Lemma keeps_get_data : keeps_ident (get_data b).
Proof. unfold get_data, deref_buf. keeps. Qed.
Lemma keeps_set_data d : keeps_ident (set_data b d).
Proof. unfold set_data. keeps. Qed.

Lemma keeps_log_find B k i : keeps_ident (log_find B k i).
Proof. revert i. induction k as [|k IH]; intros i; simpl; unfold lh_get; keeps. Qed.
Lemma keeps_on_bio {A} (m : M biost A) : keeps_ident m → keeps_ident (on_bio m).
Proof. by apply keeps_zoom. Qed.
#[local] Hint Resolve keeps_log_find keeps_on_bio : keeps.
Lemma keeps_log_write : keeps_ident (log_write b).
Proof. unfold log_write, lh_set, lh_get, set_n, deref_buf, bpin. keeps. apply keeps_on_bio. keeps. Qed.
End keeps.
#[export] Hint Resolve keeps_bread keeps_brelse keeps_get_data keeps_set_data keeps_log_write
  keeps_acquiresleep keeps_releasesleep keeps_holdingsleep : keeps.

Definition pincount (l m : bool) : option Z :=
  match l, m with true, true => Some 2 | false, false => None | _, _ => Some 1 end.

Section tx.
Context (me : identity) (D : gmap Z block) (logsize nops : Z) (w : nat).
Implicit Types (V : Z → block) (bl : list Z) (hb : gmap Z Z) (dirty : gset Z) (l : logst) (b n : Z).

Record tx V bl hb dirty l : Prop := {
  tx_cache : ∃ pins, cache V pins (dom hb) (id_pid me) (lg_bio l) ∧
    ∀ n, pins !! n = pincount (bool_decide (n ∈ bl)) (bool_decide (n ∈ dom hb));
  tx_ident : ident (bio_thread (lg_bio l)) = me;
  tx_holds n b : hb !! n = Some b → holds (lg_bio l) b n;
  tx_logged : logged l bl;
  tx_nodup : NoDup bl;
  tx_open : lg_outstanding l = nops;
  tx_size : lg_size l = logsize;
  tx_disk : disk (lg_bio l) = D;
  tx_clean n d : n ∉ bl → n ∉ dirty → D !! n = Some d → d = V n;
}.

Lemma elem_of_absorb k n bl : k ∈ absorb n bl ↔ k = n ∨ k ∈ bl.
Proof.
  unfold absorb. destruct (decide (n ∈ bl)); [|rewrite elem_of_app, list_elem_of_singleton; tauto].
  split; [tauto|]. by intros [->|].
Qed.

Lemma absorb_length n bl : (length bl ≤ length (absorb n bl) ≤ S (length bl))%nat.
Proof. unfold absorb. destruct (decide _); rewrite ?length_app; simpl; lia. Qed.

(** There is room for one more block in the log. *)
Definition log_room bl : Prop := 1 ≤ nops ∧ Z.of_nat (length bl) < LOGSIZE `min` (logsize - 1).

Lemma pins_size bl hb (pins : gmap Z Z) :
  NoDup bl → (∀ n, pins !! n = pincount (bool_decide (n ∈ bl)) (bool_decide (n ∈ dom hb))) →
  (size pins ≤ length bl + size hb)%nat.
Proof.
  intros Hnd Hp. rewrite <- (size_dom (D := gset Z) pins), <- (size_dom (D := gset Z) hb).
  rewrite <- (size_list_to_set (C := gset Z) bl Hnd).
  assert (dom pins ⊆ list_to_set bl ∪ dom hb) as Hsub.
  { intros n [r Hr]%elem_of_dom. rewrite Hp in Hr. rewrite elem_of_union, elem_of_list_to_set.
    destruct (decide (n ∈ bl)); [by left|]. right. destruct (decide (n ∈ dom hb)); [done|].
    by rewrite !bool_decide_false in Hr. }
  pose proof (subseteq_size _ _ Hsub) as Hsz. rewrite size_union_alt in Hsz.
  assert (dom hb ∖ list_to_set bl ⊆ dom hb) as Hd%subseteq_size by set_solver. lia.
Qed.

(** A larger state with a log in it. *)
Context {U : Type} `{UserMem U}.
Local Abbreviation St := (fsst U).
Implicit Types (s : St) (Q : Z → St → Prop).

Lemma wp_fs_bio {A} (m : M biost A) (P : A → biost → Prop) (R : A → St → Prop) s :
  keeps_ident m → returns m P (lg_bio (fs_log s)) →
  (∀ a t, P a t → ident (bio_thread t) = ident (bio_thread (lg_bio (fs_log s))) → R a (set_log (set_bio t (fs_log s)) s)) →
  wp no_sleep (on_log (on_bio m)) R s.
Proof.
  intros Hk Hm HR. eapply wp_zoom_returns.
  { eapply wp_zoom_returns with (Q := λ a l, ∃ t, l = set_bio t (fs_log s) ∧ P a t ∧ ident (bio_thread t) = ident (bio_thread (lg_bio (fs_log s))));
      [by apply (returns_keeps _ _ _ Hk Hm)|eauto]. }
  intros a l (t & -> & Hp & Hi). by apply HR.
Qed.

Lemma pin_none V bl hb dirty n pins :
  (∀ n, pins !! n = pincount (bool_decide (n ∈ bl)) (bool_decide (n ∈ dom hb))) → hb !! n = None →
  (pins : gmap Z Z) !! n = if bool_decide (n ∈ bl) then Some 1 else None.
Proof.
  intros Hp Hn. rewrite Hp. rewrite (bool_decide_false (n ∈ dom hb)) by by apply not_elem_of_dom.
  by destruct (bool_decide _).
Qed.

(** A buffer is locked and holds the current contents of its block. *)
Lemma wp_fs_bread V bl hb dirty n s Q :
  tx V bl hb dirty (fs_log s) → hb !! n = None → Z.of_nat (length bl) + Z.of_nat (size hb) < NBUF →
  is_Some (D !! n) →
  (∀ b l, tx V bl (<[n := b]> hb) dirty l → Q b (set_log l s)) → wp no_sleep (fs_bread w ROOTDEV n) Q s.
Proof.
  intros Ht Hn Hsz HD HQ. destruct (tx_cache _ _ _ _ _ Ht) as (pins & Hc & Hp).
  pose proof (pins_size _ _ _ (tx_nodup _ _ _ _ _ Ht) Hp).
  pose proof (pin_none V bl hb dirty n pins Hp Hn) as Hpn.
  assert (default 0 (pins !! n) + 1 = if bool_decide (n ∈ bl) then 2 else 1) as Hr.
  { rewrite Hpn. by destruct (bool_decide _). }
  eapply wp_fs_bio; [by auto with keeps| |].
  { apply (bread_spec V pins (dom hb) (id_pid me) w n _ Hc); [by apply not_elem_of_dom|right; lia| |].
    - rewrite Hr. by destruct (bool_decide _).
    - by rewrite (tx_disk _ _ _ _ _ Ht). }
  intros b t (Hc' & Hb & Hk & _ & Hd & _) Hid. apply HQ. rewrite Hr in Hc'.
  destruct Ht as [_ Hme Hh Hl Hnd Ho Hs Hdk Hcl]. split; try done; try (cbn; congruence).
  - exists (<[n := if bool_decide (n ∈ bl) then 2 else 1]> pins). rewrite dom_insert_L. split; [done|].
    intros k. destruct (decide (k = n)) as [->|Hne].
    + rewrite lookup_insert_eq, (bool_decide_true (n ∈ {[n]} ∪ dom hb)) by (apply elem_of_union_l, elem_of_singleton_2; done).
      by destruct (bool_decide _).
    + rewrite lookup_insert_ne, Hp by done. f_equal. apply bool_decide_ext.
      rewrite elem_of_union, elem_of_singleton. tauto.
  - intros k c Hkc. destruct (decide (k = n)) as [->|Hne].
    + rewrite lookup_insert_eq in Hkc. by injection Hkc as <-.
    + rewrite lookup_insert_ne in Hkc by done. by apply Hk, Hh.
Qed.

Lemma wp_buf_data V bl hb dirty n b s (R : block → St → Prop) :
  tx V bl hb dirty (fs_log s) → hb !! n = Some b → R (V n) s → wp no_sleep (buf_data b) R s.
Proof.
  intros Ht Hn HR. destruct (tx_cache _ _ _ _ _ Ht) as (pins & Hc & _).
  eapply wp_fs_bio; [by auto with keeps|by eapply get_data_spec, (tx_holds _ _ _ _ _ Ht)|].
  intros ? t [-> ->] _. by destruct s as [[]].
Qed.

Lemma wp_set_buf_data V bl hb dirty n b d s (R : unit → St → Prop) :
  tx V bl hb dirty (fs_log s) → hb !! n = Some b → length d = Z.to_nat BSIZE →
  (∀ l, tx (<[n := d]> V) bl hb ({[n]} ∪ dirty) l → R tt (set_log l s)) →
  wp no_sleep (set_buf_data b d) R s.
Proof.
  intros Ht Hn Hlen HR. destruct (tx_cache _ _ _ _ _ Ht) as (pins & Hc & Hp).
  eapply wp_fs_bio; [by auto with keeps|by eapply set_data_spec, Hlen; [exact Hc|apply (tx_holds _ _ _ _ _ Ht)]|].
  intros [] t (Hc' & Hk & Hd & _) Hid. apply HR. destruct Ht as [_ Hme Hh Hl Hnd Ho Hs Hdk Hcl]. split; try done; try (cbn; congruence).
  - eauto.
  - intros k c Hkc. by apply Hk, Hh.
  - intros k e Hbl Hdt HDk. rewrite fn_lookup_insert_ne by set_solver. apply Hcl; [done|set_solver|done].
Qed.

Lemma wp_fs_log_write V bl hb dirty n b s (R : unit → St → Prop) :
  tx V bl hb dirty (fs_log s) → hb !! n = Some b → log_room bl →
  (∀ l, tx V (absorb n bl) hb (dirty ∖ {[n]}) l → R tt (set_log l s)) →
  wp no_sleep (fs_log_write b) R s.
Proof.
  intros Ht Hn Hroom HR. destruct (tx_cache _ _ _ _ _ Ht) as (pins & Hc & Hp).
  assert (n ∈ dom hb) as Hin by by apply elem_of_dom_2 in Hn.
  pose proof (Hp n) as Hpn. rewrite (bool_decide_true (n ∈ dom hb)) in Hpn by done.
  set (r := if bool_decide (n ∈ bl) then 2 else 1).
  assert (pins !! n = Some r) as Hr by (rewrite Hpn; by subst r; destruct (bool_decide _)).
  pose proof Ht as [_ Hme Hh Hl Hnd Ho Hs Hdk Hcl]. unfold log_room in Hroom.
  eapply wp_zoom_returns.
  { apply returns_keeps; [by auto with keeps|].
    apply (log_write_spec (id_pid me) V pins (dom hb) b n r (fs_log s) bl); try done.
    - by apply Hh.
    - subst r. by destruct (bool_decide _).
    - lia.
    - rewrite Hs. lia.
    - lia. }
  intros [] l ((Hc' & Hl' & Hsame & Hk & Hd & _) & Hid). apply HR. split; try done; try (cbn in *; congruence).
  - exists (if decide (n ∈ bl) then pins else <[n:=r + 1]> pins). split; [done|]. intros k. unfold absorb.
    destruct (decide (n ∈ bl)) as [|Hni]; [by apply Hp|]. destruct (decide (k = n)) as [->|Hne].
    + rewrite lookup_insert_eq, (bool_decide_true (n ∈ bl ++ [n])), (bool_decide_true (n ∈ dom hb)) by set_solver.
      subst r. by rewrite bool_decide_false.
    + rewrite lookup_insert_ne, Hp by done. f_equal. apply bool_decide_ext. set_solver.
  - intros k c Hkc. by apply Hk, Hh.
  - unfold absorb. destruct (decide (n ∈ bl)); [done|]. apply NoDup_app. split_and!; [done| |apply NoDup_singleton].
    set_solver.
  - rewrite Hsame. cbn. done.
  - rewrite Hsame. cbn. done.
  - intros k e Hbl Hdt HDk. rewrite elem_of_absorb in Hbl. rewrite elem_of_difference, elem_of_singleton in Hdt.
    apply Hcl; tauto.
Qed.

Lemma wp_fs_brelse V bl hb dirty n b s (R : unit → St → Prop) :
  tx V bl hb dirty (fs_log s) → hb !! n = Some b → n ∉ dirty →
  (∀ l, tx V bl (delete n hb) dirty l → R tt (set_log l s)) → wp no_sleep (fs_brelse b) R s.
Proof.
  intros Ht Hn Hdt HR. destruct (tx_cache _ _ _ _ _ Ht) as (pins & Hc & Hp).
  assert (n ∈ dom hb) as Hin by by apply elem_of_dom_2 in Hn.
  pose proof (Hp n) as Hpn. rewrite (bool_decide_true (n ∈ dom hb)) in Hpn by done.
  set (r := if bool_decide (n ∈ bl) then 2 else 1).
  assert (pins !! n = Some r) as Hr by (rewrite Hpn; by subst r; destruct (bool_decide _)).
  destruct Ht as [_ Hme Hh Hl Hnd Ho Hs Hdk Hcl].
  eapply wp_fs_bio; [by auto with keeps| |].
  { eapply (brelse_cache _ _ _ _ b n r); [done|by apply Hh|done|done|]. intros Hr1 d Hd.
    apply Hcl; [|done|by rewrite <- Hdk]. subst r. by case_bool_decide. }
  intros [] t (Hc' & Hk & _ & Hd & _) Hid. apply HR. split; try done; try (cbn; congruence).
  - exists (unpin n r pins). rewrite dom_delete_L. split; [done|]. intros k. unfold unpin. subst r.
    destruct (decide (k = n)) as [->|Hne].
    + rewrite (bool_decide_false (n ∈ dom hb ∖ {[n]})) by (rewrite elem_of_difference, elem_of_singleton; tauto).
      case_bool_decide; simpl; [by rewrite lookup_insert_eq|by rewrite lookup_delete_eq].
    + assert (bool_decide (k ∈ dom hb ∖ {[n]}) = bool_decide (k ∈ dom hb)) as ->
        by (apply bool_decide_ext; rewrite elem_of_difference, elem_of_singleton; tauto).
      rewrite <- Hp. case_bool_decide; simpl; [by rewrite lookup_insert_ne|by rewrite lookup_delete_ne].
  - intros k c Hkc. apply lookup_delete_Some in Hkc as [? Hkc]. apply Hk; [done|]. by apply Hh.
Qed.

(** The usual end of a change: log the buffer and let go of it. *)
Lemma wp_log_and_release V bl hb dirty n b s (R : unit → St → Prop) :
  tx V bl hb dirty (fs_log s) → hb !! n = Some b → log_room bl →
  (∀ l, tx V (absorb n bl) (delete n hb) (dirty ∖ {[n]}) l → R tt (set_log l s)) →
  wp no_sleep (fs_log_write b;;; fs_brelse b) R s.
Proof.
  intros Ht Hn Hroom HR. apply wp_bind. eapply wp_fs_log_write; [done..|]. intros l Hl.
  eapply wp_fs_brelse; [exact Hl|done|set_solver|]. intros l' Hl'. by apply HR.
Qed.

(** A change of a block, logged. *)
Lemma wp_change V bl hb dirty n b d s (R : unit → St → Prop) :
  tx V bl hb dirty (fs_log s) → hb !! n = Some b → n ∉ dirty → length d = Z.to_nat BSIZE → log_room bl →
  (∀ l, tx (<[n := d]> V) (absorb n bl) (delete n hb) dirty l → R tt (set_log l s)) →
  wp no_sleep (set_buf_data b d;;; fs_log_write b;;; fs_brelse b) R s.
Proof.
  intros Ht Hn Hdt Hlen Hroom HR. apply wp_bind. eapply wp_set_buf_data; [done..|]. intros l Hl.
  eapply wp_log_and_release; [exact Hl|done..|].
  replace (({[n]} ∪ dirty) ∖ {[n]}) with dirty by set_solver. intros l' Hl'. by apply HR.
Qed.

(** The contents matter only block by block. *)
Lemma tx_ext V V' bl hb dirty l : (∀ n, V' n = V n) → tx V bl hb dirty l → tx V' bl hb dirty l.
Proof.
  intros HV [(pins & Hc & Hp) ? ? ? ? ? ? ? Hcl]. split; try done; try (cbn; congruence).
  - exists pins. split; [by apply (cache_ext V)|done].
  - intros n d ???. rewrite HV. by apply Hcl.
Qed.
End tx.
