(* ===== verification/FsAlloc.v ===== *)
(** The block allocator of kernel/fs.c: [balloc], [bfree] and [bzero] on the free
    bitmap. *)

From stdpp Require Import functions.
From S2P Require Import Prelude Riscv Mem Threads Sleeplock Bio Log LogWrite Fs FsTx.
Local Open Scope Z_scope.

#[global] Arguments BPB : simpl never.

Lemma BPB_eq : BPB = 8192.
Proof. done. Qed.

(** The bit of block [b]: set if the block is in use. *)
Definition byte_at (d : block) (i : Z) : Z := nth (Z.to_nat i) d 0.
Definition bit (V : Z → block) (sb : superblock) (b : Z) : bool :=
  Z.testbit (byte_at (V (BBLOCK b sb)) (b `mod` BPB / 8)) (b `mod` BPB `mod` 8).

Definition zeros : block := replicate (Z.to_nat BSIZE) 0.

(** The disk is laid out as [sb] says. *)
Record layout (sb : superblock) : Prop := {
  lay_size : 0 < sb_size sb < 2 ^ 31;
  lay_bmap : 0 ≤ sb_bmapstart sb ∧ sb_bmapstart sb + (sb_size sb - 1) / BPB < sb_size sb;
  lay_inodes i : 0 ≤ i < sb_ninodes sb → IBLOCK i sb ≠ 0;
}.
Definition on_disk (sb : superblock) (n : Z) : Prop := 0 ≤ n < sb_size sb.
Definition is_block (d : block) : Prop := length d = Z.to_nat BSIZE ∧ Forall is_byte d.

Section bits.
Context (sb : superblock) (Hlay : layout sb).
Implicit Types (V : Z → block) (b n i m x : Z).

Lemma BBLOCK_eq b : on_disk sb b → BBLOCK b sb = b / BPB + sb_bmapstart sb ∧ on_disk sb (BBLOCK b sb).
Proof.
  intros Hb. destruct Hlay as [Hs [Hm0 Hm] _]. unfold on_disk, BBLOCK in *. rewrite BPB_eq in *.
  assert (0 ≤ b / 8192 ≤ (sb_size sb - 1) / 8192) by (split; [apply Z.div_pos|apply Z.div_le_mono]; lia).
  rewrite u32_small by lia. lia.
Qed.

Lemma bit_index b : 0 ≤ b `mod` BPB / 8 < BSIZE ∧ 0 ≤ b `mod` BPB `mod` 8 < 8 ∧
  b = b / BPB * BPB + 8 * (b `mod` BPB / 8) + b `mod` BPB `mod` 8.
Proof.
  rewrite BPB_eq. unfold BSIZE. pose proof (Z.div_mod b 8192). pose proof (Z.mod_pos_bound b 8192).
  pose proof (Z.div_mod (b `mod` 8192) 8). pose proof (Z.mod_pos_bound (b `mod` 8192) 8).
  assert (b `mod` 8192 / 8 < 1024) by (apply Z.div_lt_upper_bound; lia).
  assert (0 ≤ b `mod` 8192 / 8) by (apply Z.div_pos; lia). lia.
Qed.

(** Two blocks with the same bit are the same block. *)
Lemma bit_index_inj b b' :
  on_disk sb b → on_disk sb b' → BBLOCK b sb = BBLOCK b' sb →
  b `mod` BPB / 8 = b' `mod` BPB / 8 → b `mod` BPB `mod` 8 = b' `mod` BPB `mod` 8 → b = b'.
Proof.
  intros Hb Hb' HB Hi Hm. destruct (BBLOCK_eq b Hb) as [E _]. destruct (BBLOCK_eq b' Hb') as [E' _].
  destruct (bit_index b) as (_ & _ & ->). destruct (bit_index b') as (_ & _ & ->).
  rewrite Hi, Hm. assert (b / BPB = b' / BPB) as -> by lia. done.
Qed.

Lemma byte_at_insert d i j x :
  0 ≤ i < Z.of_nat (length d) → 0 ≤ j →
  byte_at (<[Z.to_nat i := x]> d) j = if decide (j = i) then x else byte_at d j.
Proof.
  intros Hi Hj. unfold byte_at. rewrite !nth_lookup. destruct (decide (j = i)) as [->|].
  - rewrite list_lookup_insert_eq by lia. done.
  - by rewrite list_lookup_insert_ne by lia.
Qed.

Lemma byte_at_lookup d i : 0 ≤ i < Z.of_nat (length d) → d !! Z.to_nat i = Some (byte_at d i).
Proof.
  intros Hi. destruct (lookup_lt_is_Some_2 d (Z.to_nat i)) as [x Hx]; [lia|].
  unfold byte_at. by rewrite nth_lookup, Hx.
Qed.

Lemma byte_at_byte d i : is_block d → is_byte (byte_at d i).
Proof.
  intros [_ Hf]. unfold byte_at. rewrite nth_lookup.
  destruct (d !! Z.to_nat i) eqn:He; simpl; [by eapply (Forall_lookup_1 _ _ _ _ Hf)|]. unfold is_byte. lia.
Qed.

Lemma land_mask x i : 0 ≤ i → (Z.land x (Z.shiftl 1 i) =? 0) = negb (Z.testbit x i).
Proof.
  intros Hi. rewrite Z.shiftl_1_l. destruct (Z.testbit x i) eqn:Ht; simpl.
  - apply Z.eqb_neq. intros H0. assert (Z.testbit (Z.land x (2 ^ i)) i = false) as Hf by (rewrite H0; apply Z.testbit_0_l).
    rewrite Z.land_spec, Ht, Z.pow2_bits_true in Hf by done. done.
  - apply Z.eqb_eq, Z.bits_inj_0. intros k. rewrite Z.land_spec.
    destruct (decide (k = i)) as [->|]; [by rewrite Ht|]. rewrite Z.pow2_bits_false by done. apply andb_false_r.
Qed.

Lemma set_mask x i : is_byte x → 0 ≤ i < 8 →
  is_byte (u8 (Z.lor x (Z.shiftl 1 i))) ∧
  ∀ k, 0 ≤ k < 8 → Z.testbit (u8 (Z.lor x (Z.shiftl 1 i))) k = bool_decide (k = i) || Z.testbit x k.
Proof.
  intros Hx Hi. split; [apply u8_byte|]. intros k Hk. unfold u8.
  rewrite Z.mod_pow2_bits_low by lia. rewrite Z.lor_spec, Z.shiftl_1_l.
  destruct (decide (k = i)) as [->|].
  - rewrite Z.pow2_bits_true, bool_decide_true by lia. apply orb_true_r.
  - rewrite Z.pow2_bits_false, bool_decide_false by lia. by rewrite orb_false_r.
Qed.

Lemma clear_mask x i : is_byte x → 0 ≤ i < 8 →
  is_byte (Z.land x (Z.lnot (Z.shiftl 1 i))) ∧
  ∀ k, 0 ≤ k < 8 → Z.testbit (Z.land x (Z.lnot (Z.shiftl 1 i))) k = negb (bool_decide (k = i)) && Z.testbit x k.
Proof.
  intros Hx Hi. rewrite Z.shiftl_1_l. split.
  - unfold is_byte in *. split; [apply Z.land_nonneg; lia|].
    assert (Z.land x (Z.lnot (2 ^ i)) `mod` 2 ^ 8 = Z.land x (Z.lnot (2 ^ i))) as <-; [|apply Z.mod_pos_bound; lia].
    apply Z.bits_inj'. intros k Hk. destruct (decide (k < 8)); [by rewrite Z.mod_pow2_bits_low by lia|].
    rewrite Z.mod_pow2_bits_high, Z.land_spec by lia.
    replace x with (x `mod` 2 ^ 8) by (apply Z.mod_small; lia). by rewrite Z.mod_pow2_bits_high by lia.
  - intros k Hk. rewrite Z.land_spec, Z.lnot_spec by lia. destruct (decide (k = i)) as [->|].
    + rewrite Z.pow2_bits_true, bool_decide_true by lia. apply andb_false_r.
    + rewrite Z.pow2_bits_false, bool_decide_false by lia. by rewrite andb_true_r.
Qed.

(** Changing the byte that holds the bit of [b]. *)
Definition put_byte_of V b x : Z → block :=
  <[BBLOCK b sb := <[Z.to_nat (b `mod` BPB / 8) := x]> (V (BBLOCK b sb))]> V.

Lemma bit_put V b x v :
  on_disk sb b → is_block (V (BBLOCK b sb)) →
  (∀ k, 0 ≤ k < 8 → Z.testbit x k =
     if bool_decide (k = b `mod` BPB `mod` 8) then v
     else Z.testbit (byte_at (V (BBLOCK b sb)) (b `mod` BPB / 8)) k) →
  ∀ b', on_disk sb b' → bit (put_byte_of V b x) sb b' = if decide (b' = b) then v else bit V sb b'.
Proof.
  intros Hb Hbl Hx b' Hb'. unfold bit, put_byte_of.
  destruct (bit_index b) as (H1 & H2 & _). destruct (bit_index b') as (H1' & H2' & _).
  destruct (decide (BBLOCK b' sb = BBLOCK b sb)) as [He|Hne].
  - rewrite He, fn_lookup_insert, byte_at_insert; [|rewrite (proj1 Hbl); lia|lia].
    destruct (decide (b' `mod` BPB / 8 = b `mod` BPB / 8)) as [Hi|Hi].
    + rewrite Hx by done. case_bool_decide as Hm.
      * rewrite decide_True; [done|]. by apply bit_index_inj.
      * rewrite decide_False by (intros ->; done). by rewrite Hi.
    + rewrite decide_False; [done|]. by intros ->.
  - rewrite fn_lookup_insert_ne by done. rewrite decide_False; [done|]. by intros ->.
Qed.
End bits.

Section alloc.
Context (me : identity) (D : gmap Z block) (logsize nops : Z) (w : nat) {U : Type} `{UserMem U}.
Context (sb : superblock) (Hlay : layout sb) (HD : ∀ n, on_disk sb n → is_Some (D !! n)).
Local Abbreviation St := (fsst U).
Local Abbreviation tx := (tx me D logsize nops).
Local Abbreviation log_room := (log_room logsize nops).
Implicit Types (V : Z → block) (bl : list Z) (hb : gmap Z Z) (dirty : gset Z) (s : St) (b n : Z).

(** The bitmap marks itself, the boot block and the buffers the caller holds as
    in use; the buffers held are not the bitmap's. *)
Record meta V hb : Prop := {
  me_bits b : on_disk sb b → bit V sb (BBLOCK b sb) = true;
  me_boot : bit V sb 0 = true;
  me_blocks n : on_disk sb n → is_block (V n);
  me_held n : n ∈ dom hb → on_disk sb n ∧ bit V sb n = true ∧ ∀ b, on_disk sb b → n ≠ BBLOCK b sb;
}.

Lemma on_disk_0 : on_disk sb 0.
Proof. pose proof (lay_size _ Hlay). unfold on_disk. lia. Qed.

(** The buffers and the log entries an allocation needs. *)
Definition fs_room bl hb (k : nat) : Prop :=
  (k = 0%nat ∨ 1 ≤ nops ∧ Z.of_nat (length bl + k) ≤ LOGSIZE `min` (logsize - 1)) ∧ Z.of_nat (length bl + k + size hb) < NBUF.

Lemma fs_room_log bl hb k : fs_room bl hb (S k) → log_room bl.
Proof. unfold fs_room, FsTx.log_room. lia. Qed.
Lemma fs_room_absorb n bl hb k : fs_room bl hb (S k) → fs_room (absorb n bl) hb k.
Proof. unfold fs_room. pose proof (absorb_length n bl). lia. Qed.
Lemma fs_room_bread bl hb k : fs_room bl hb k → Z.of_nat (length bl) + Z.of_nat (size hb) < NBUF.
Proof. unfold fs_room. lia. Qed.
Lemma fs_room_mono bl hb k k' : fs_room bl hb k → (k' ≤ k)%nat → fs_room bl hb k'.
Proof. unfold fs_room. lia. Qed.

Lemma zeros_block : is_block zeros.
Proof. split; [apply length_replicate|]. apply Forall_replicate. unfold is_byte. lia. Qed.

Lemma bzero_spec V bl hb dirty n s :
  tx V bl hb dirty (fs_log s) → hb !! n = None → n ∉ dirty → on_disk sb n → fs_room bl hb 1 →
  returns (bzero w ROOTDEV n)
    (λ _ s', ∃ l, s' = set_log l s ∧ tx (<[n := zeros]> V) (absorb n bl) hb dirty l) s.
Proof.
  intros Ht Hn Hdt Hon Hroom. apply wp_bind. eapply wp_fs_bread; [done|done|by eapply fs_room_bread|by apply HD|].
  intros b l Hl. eapply wp_change; [exact Hl|by rewrite lookup_insert_eq|done|by apply zeros_block|by eapply fs_room_log|].
  intros l' Hl'. exists l'. split; [done|]. by rewrite delete_insert_id in Hl'.
Qed.

(** What allocating block [a] does to the contents. *)
Record alloced V V' (a : Z) : Prop := {
  al_zero : V' a = zeros;
  al_bit b : on_disk sb b → bit V' sb b = bool_decide (b = a) || bit V sb b;
  al_rest n : n ≠ a → (∀ b, on_disk sb b → n ≠ BBLOCK b sb) → V' n = V n;
  al_blocks n : on_disk sb n → is_block (V n) → is_block (V' n);
}.

Lemma put_byte_block V b x n :
  on_disk sb b → is_byte x → is_block (V n) → is_block (put_byte_of sb V b x n).
Proof.
  intros Hb Hx [Hlen Hf]. unfold put_byte_of. destruct (decide (n = BBLOCK b sb)) as [->|].
  - rewrite fn_lookup_insert. split; [by rewrite length_insert|]. by apply Forall_insert.
  - by rewrite fn_lookup_insert_ne.
Qed.

Lemma bit_zeroed V a b :
  on_disk sb b → (∀ c, on_disk sb c → a ≠ BBLOCK c sb) → bit (<[a := zeros]> V) sb b = bit V sb b.
Proof. intros Hb Ha. unfold bit. rewrite fn_lookup_insert_ne; [done|]. by apply Ha. Qed.

Lemma alloced_spec V a x :
  on_disk sb a → meta V ∅ → bit V sb a = false →
  x = u8 (Z.lor (byte_at (V (BBLOCK a sb)) (a `mod` BPB / 8)) (Z.shiftl 1 (a `mod` BPB `mod` 8))) →
  alloced V (<[a := zeros]> (put_byte_of sb V a x)) a.
Proof.
  intros Ha Hm Hfree ->. destruct (bit_index a) as (_ & Hmod & _).
  destruct (BBLOCK_eq sb Hlay a Ha) as [_ HBa].
  assert (∀ c, on_disk sb c → a ≠ BBLOCK c sb) as Hnb.
  { intros c Hc He. pose proof (me_bits _ _ Hm c Hc) as Hb. rewrite <- He in Hb. congruence. }
  set (x0 := byte_at (V (BBLOCK a sb)) (a `mod` BPB / 8)).
  assert (is_byte x0) as Hx0 by by apply byte_at_byte, Hm.
  destruct (set_mask x0 _ Hx0 Hmod) as [Hby Hbits]. split.
  - apply fn_lookup_insert.
  - intros b Hb. rewrite bit_zeroed by done.
    rewrite (bit_put sb Hlay V a _ true); [| |by apply Hm| |done].
    + destruct (decide (b = a)) as [->|]; [by rewrite bool_decide_true|by rewrite bool_decide_false].
    + done.
    + intros k Hk. rewrite Hbits by done. fold x0. by case_bool_decide.
  - intros n Hna Hnb'. rewrite fn_lookup_insert_ne by done. unfold put_byte_of.
    rewrite fn_lookup_insert_ne; [done|]. intros <-. exact (Hnb' a Ha eq_refl).
  - intros n Hn Hbl. destruct (decide (n = a)) as [->|]; [rewrite fn_lookup_insert; apply zeros_block|].
    rewrite fn_lookup_insert_ne by done. by apply put_byte_block.
Qed.

(** The scan of one bitmap block. *)
Lemma balloc_bits_spec V bl hb (k n : nat) bp b bi s :
  tx V bl (<[BBLOCK b sb := bp]> hb) ∅ (fs_log s) → hb !! BBLOCK b sb = None → meta V hb →
  fs_room bl hb 3 → b `mod` BPB = 0 → bi = Z.of_nat k → (∀ j, 0 ≤ j < bi → bit V sb (b + j) = true) →
  0 ≤ b → bi + Z.of_nat n ≤ BPB → b + bi + Z.of_nat n ≤ sb_size sb →
  returns (balloc_bits w n ROOTDEV bp b bi)
    (λ r s', match r with
       | None => s' = s ∧ ∀ j, 0 ≤ j < bi + Z.of_nat n → bit V sb (b + j) = true
       | Some a => b ≤ a ∧ on_disk sb a ∧ bit V sb a = false ∧ (∀ c, b ≤ c < a → bit V sb c = true) ∧
           ∃ l V', s' = set_log l s ∧ alloced V V' a ∧
             tx V' (absorb a (absorb (BBLOCK b sb) bl)) hb ∅ l end) s.
Proof.
  intros Ht Hfresh Hm Hroom Hb. revert k bi. induction n as [|n IH]; intros k bi Hk Hset Hb0 Hbi Hmax; simpl.
  { apply wp_ret. split; [done|]. intros j Hj. apply Hset. lia. }
  assert (on_disk sb (b + bi)) as Hon by (unfold on_disk; lia).
  assert ((b + bi) `mod` BPB = bi ∧ (b + bi) / BPB = b / BPB) as [Emod Ediv].
  { apply Z.div_exact in Hb; [|rewrite BPB_eq; lia]. rewrite BPB_eq in *.
    split; symmetry; [apply (Z.mod_unique _ _ (b / 8192))|apply (Z.div_unique _ _ _ bi)]; lia. }
  assert (BBLOCK (b + bi) sb = BBLOCK b sb) as EB by (unfold BBLOCK; by rewrite Ediv).
  apply wp_bind. eapply wp_buf_data; [exact Ht|by rewrite lookup_insert_eq|].
  assert (is_block (V (BBLOCK b sb))) as HblB.
  { rewrite <- EB. apply Hm. by apply BBLOCK_eq. }
  destruct (bit_index (b + bi)) as (Hi1 & Hi2 & _). rewrite Emod in Hi1, Hi2.
  apply wp_bind. eapply wp_get_some; [apply byte_at_lookup; rewrite (proj1 HblB); lia|].
  set (x0 := byte_at (V (BBLOCK b sb)) (bi / 8)). rewrite land_mask by lia.
  assert (bit V sb (b + bi) = Z.testbit x0 (bi `mod` 8)) as Ebit by (unfold bit; by rewrite EB, Emod).
  rewrite <- Ebit. destruct (bit V sb (b + bi)) eqn:Hbit; cbn [negb].
  - eapply wp_mono; [apply (IH (S k) (bi + 1)); try lia|].
    + intros j Hj. destruct (decide (j = bi)) as [->|]; [done|]. apply Hset. lia.
    + intros [a|] s'; [done|]. intros [-> Hall]. split; [done|]. intros j Hj. apply Hall. lia.
  - set (d := <[_ := _]> _).
    assert (<[BBLOCK b sb := d]> V = put_byte_of sb V (b + bi) (u8 (Z.lor x0 (Z.shiftl 1 (bi `mod` 8))))) as Hput.
    { unfold put_byte_of. by rewrite EB, Emod. }
    assert (length d = Z.to_nat BSIZE) as Hlen by (unfold d; rewrite length_insert; apply HblB).
    assert (meta V ∅) as Hm0 by (destruct Hm; split; try done).
    pose proof (alloced_spec V (b + bi) _ Hon Hm0 Hbit eq_refl) as Hal. rewrite EB, Emod in Hal. fold x0 in Hal.
    apply wp_bind. eapply wp_set_buf_data; [exact Ht|by rewrite lookup_insert_eq|done|]. intros l1 Hl1.
    apply wp_bind. eapply wp_fs_log_write; [exact Hl1|by rewrite lookup_insert_eq|by eapply fs_room_log|]. intros l2 Hl2.
    replace (({[BBLOCK b sb]} ∪ ∅) ∖ {[BBLOCK b sb]}) with (∅ : gset Z) in Hl2 by set_solver.
    apply wp_bind. eapply wp_fs_brelse; [exact Hl2|by rewrite lookup_insert_eq|set_solver|]. intros l3 Hl3.
    rewrite delete_insert_id in Hl3 by done. rewrite Hput in Hl3.
    eapply wp_call.
    { apply (bzero_spec _ _ _ _ (b + bi) (set_log l3 s) Hl3); [|set_solver|done|].
      - apply not_elem_of_dom. intros Hin. destruct (me_held _ _ Hm _ Hin) as (_ & Hx & _). congruence.
      - eapply fs_room_mono; [by apply fs_room_absorb|lia]. }
    cbn beta. intros _ ? (l4 & -> & Hl4). apply wp_ret. split_and!; [lia|done|done| |].
    + intros c Hc. replace c with (b + (c - b)) by lia. apply Hset. lia.
    + exists l4, (<[b + bi := zeros]> (put_byte_of sb V (b + bi) (u8 (Z.lor x0 (Z.shiftl 1 (bi `mod` 8)))))). done.
Qed.

Lemma meta_alloced V V' hb a : meta V hb → alloced V V' a → bit V sb a = false → on_disk sb a → meta V' hb.
Proof.
  intros Hm Hal Hfree Ha. split.
  - intros b Hb. destruct (BBLOCK_eq sb Hlay b Hb) as [_ HB]. rewrite (al_bit _ _ _ Hal) by done.
    rewrite (me_bits _ _ Hm) by done. apply orb_true_r.
  - rewrite (al_bit _ _ _ Hal) by apply on_disk_0. rewrite (me_boot _ _ Hm). apply orb_true_r.
  - intros n Hn. eapply al_blocks; [done..|]. by apply Hm.
  - intros n Hn. destruct (me_held _ _ Hm n Hn) as (Hon & Hb & ?). split_and!; [done| |done].
    rewrite (al_bit _ _ _ Hal) by done. rewrite Hb. apply orb_true_r.
Qed.

Lemma BBLOCK_group b c : on_disk sb b → b `mod` BPB = 0 → b ≤ c < b + BPB → BBLOCK c sb = BBLOCK b sb.
Proof.
  intros Hb Hm Hc. unfold BBLOCK. f_equal. f_equal. apply Z.div_exact in Hm; [|rewrite BPB_eq; lia].
  rewrite BPB_eq in *. symmetry. apply (Z.div_unique _ _ _ (c - b)); lia.
Qed.

Lemma meta_not_bitmap V hb b : meta V hb → on_disk sb b → hb !! BBLOCK b sb = None.
Proof.
  intros Hm Hb. apply not_elem_of_dom. intros Hin. destruct (me_held _ _ Hm _ Hin) as (_ & _ & Hne).
  by apply (Hne b Hb).
Qed.

(** The first free block, marked in use and zeroed; 0 if there is none. *)
Definition balloc_post V bl hb s (r : Z) (s' : St) : Prop :=
  (r = 0 ∧ (∀ b, on_disk sb b → bit V sb b = true) ∧ ∃ l, s' = set_log l s ∧ tx V bl hb ∅ l) ∨
  (r ≠ 0 ∧ on_disk sb r ∧ bit V sb r = false ∧ (∀ c, 0 ≤ c < r → bit V sb c = true) ∧
   ∃ l V' bl', s' = set_log l s ∧ alloced V V' r ∧ (length bl' ≤ length bl + 2)%nat ∧ tx V' bl' hb ∅ l).

Lemma balloc_post_log V bl hb l s r s' : balloc_post V bl hb (set_log l s) r s' → balloc_post V bl hb s r s'.
Proof.
  intros [(-> & ? & l' & -> & ?)|(? & ? & ? & ? & l' & V' & bl' & -> & ? & ? & ?)].
  - left. split_and!; [done..|]. by exists l'.
  - right. split_and!; [done..|]. by exists l', V', bl'.
Qed.

Lemma balloc_loop_spec V bl hb fuel b s :
  tx V bl hb ∅ (fs_log s) → fs_sb s = sb → meta V hb → fs_room bl hb 3 →
  b `mod` BPB = 0 → 0 ≤ b → sb_size sb - b ≤ Z.of_nat fuel * BPB → (∀ j, 0 ≤ j < b → on_disk sb j → bit V sb j = true) →
  returns (balloc_loop w fuel ROOTDEV b) (balloc_post V bl hb s) s.
Proof.
  revert b s. induction fuel as [|fuel IH]; intros b s Ht Hsb Hm Hroom Hmod Hb0 Hfuel Hset;
    (apply wp_bind, wp_gets; cbn beta; rewrite Hsb; destruct (b <? sb_size sb) eqn:Hlt; cbn [negb];
      [apply Z.ltb_lt in Hlt|apply Z.ltb_ge in Hlt; apply wp_ret; left; split_and!; [done| |]]).
  - rewrite BPB_eq in *. lia.
  - intros c Hc. apply Hset; [unfold on_disk in Hc; lia|done].
  - exists (fs_log s). split; [by destruct s|done].
  - assert (on_disk sb b) as Hon by done. pose proof (meta_not_bitmap _ _ _ Hm Hon) as HBf.
    apply wp_bind. eapply wp_fs_bread; [exact Ht|done|by eapply fs_room_bread|by apply HD, BBLOCK_eq|].
    intros bp l Hl. cbn beta.
    eapply wp_call.
    { apply (balloc_bits_spec V bl hb 0 _ bp b 0 (set_log l s) Hl HBf Hm Hroom Hmod eq_refl); [lia|done|..];
        rewrite Z2Nat.id; lia || (rewrite BPB_eq in *; lia). }
    cbn beta. intros [a|] s1.
    + intros (Hba & Ha & Hfree & Hlow & l1 & V' & -> & Hal & Hl1). apply wp_ret. right.
      split_and!; try done.
      * intros ->. rewrite (me_boot _ _ Hm) in Hfree. done.
      * intros c Hc. destruct (decide (c < b)); [apply Hset; [lia|unfold on_disk in *; lia]|apply Hlow; lia].
      * exists l1, V', (absorb a (absorb (BBLOCK b sb) bl)). split_and!; try done.
        pose proof (absorb_length a (absorb (BBLOCK b sb) bl)). pose proof (absorb_length (BBLOCK b sb) bl). lia.
    + intros [-> Hall]. apply wp_bind.
      eapply wp_fs_brelse; [exact Hl|by rewrite lookup_insert_eq|set_solver|].
      intros l1 Hl1. rewrite delete_insert_id in Hl1 by done.
      eapply wp_mono; [apply (IH (b + BPB) (set_log l1 s) Hl1 Hsb Hm Hroom)|].
      * rewrite <- Hmod. rewrite BPB_eq. by rewrite <- (Z.mul_1_l 8192) at 1; rewrite Z.mod_add by lia.
      * rewrite BPB_eq. lia.
      * lia.
      * intros j Hj Hjd. destruct (decide (j < b)); [apply Hset; [lia|done]|].
        replace j with (b + (j - b)) by lia. apply Hall. unfold on_disk in Hjd.
        rewrite Z2Nat.id by (rewrite BPB_eq; lia). lia.
      * intros r s'. apply balloc_post_log.
  - intros c Hc. apply Hset; [unfold on_disk in Hc; lia|done].
  - exists (fs_log s). split; [by destruct s|done].
Qed.

Lemma balloc_spec V bl hb s :
  tx V bl hb ∅ (fs_log s) → fs_sb s = sb → meta V hb → fs_room bl hb 3 →
  returns (balloc w ROOTDEV) (balloc_post V bl hb s) s.
Proof.
  intros Ht Hsb Hm Hroom. apply wp_bind, wp_gets. cbn beta. rewrite Hsb. apply balloc_loop_spec; try done.
  - pose proof (lay_size _ Hlay). rewrite Nat2Z.inj_succ, Z2Nat.id by (apply Z.div_pos; rewrite ?BPB_eq; lia).
    rewrite BPB_eq. pose proof (Z.div_mod (sb_size sb) 8192). pose proof (Z.mod_pos_bound (sb_size sb) 8192). lia.
  - lia.
Qed.

(** What freeing block [a] does to the contents. *)
Record freed V V' (a : Z) : Prop := {
  fr_bit b : on_disk sb b → bit V' sb b = negb (bool_decide (b = a)) && bit V sb b;
  fr_rest n : (∀ b, on_disk sb b → n ≠ BBLOCK b sb) → V' n = V n;
  fr_blocks n : on_disk sb n → is_block (V n) → is_block (V' n);
}.

Lemma bfree_spec V bl hb a s :
  tx V bl hb ∅ (fs_log s) → fs_sb s = sb → meta V hb → fs_room bl hb 1 → on_disk sb a → bit V sb a = true →
  returns (bfree w ROOTDEV a)
    (λ _ s', ∃ l V' bl', s' = set_log l s ∧ freed V V' a ∧ (length bl' ≤ length bl + 1)%nat ∧ tx V' bl' hb ∅ l) s.
Proof.
  intros Ht Hsb Hm Hroom Ha Hbit. pose proof (meta_not_bitmap _ _ _ Hm Ha) as HBf.
  destruct (BBLOCK_eq sb Hlay a Ha) as [_ HB]. pose proof (me_blocks _ _ Hm _ HB) as Hblk.
  destruct (bit_index a) as (Hi & Hmod & _).
  apply wp_bind, wp_gets. cbn beta. rewrite Hsb.
  apply wp_bind. eapply wp_fs_bread; [exact Ht|done|by eapply fs_room_bread|by apply HD|]. intros bp l Hl. cbn beta.
  apply wp_bind. eapply wp_buf_data; [exact Hl|by rewrite lookup_insert_eq|].
  apply wp_bind. eapply wp_get_some; [apply byte_at_lookup; rewrite (proj1 Hblk); lia|].
  set (x0 := byte_at (V (BBLOCK a sb)) (a `mod` BPB / 8)). rewrite land_mask by lia.
  assert (Z.testbit x0 (a `mod` BPB `mod` 8) = true) as -> by exact Hbit. cbn [negb].
  assert (is_byte x0) as Hx0 by by apply byte_at_byte.
  destruct (clear_mask x0 _ Hx0 Hmod) as [Hby Hbits].
  eapply wp_change; [exact Hl|by rewrite lookup_insert_eq|set_solver|rewrite length_insert; apply Hblk|by eapply fs_room_log|].
  intros l' Hl'. rewrite delete_insert_id in Hl' by done.
  exists l', (put_byte_of sb V a (Z.land x0 (Z.lnot (Z.shiftl 1 (a `mod` BPB `mod` 8))))), (absorb (BBLOCK a sb) bl).
  split_and!; [done| |pose proof (absorb_length (BBLOCK a sb) bl); lia|exact Hl']. split.
  - intros b Hb. rewrite (bit_put sb Hlay V a _ false); [|done..| |done].
    + destruct (decide (b = a)) as [->|]; [by rewrite bool_decide_true|by rewrite bool_decide_false].
    + intros k Hk. rewrite Hbits by done. fold x0. by case_bool_decide.
  - intros n Hn. unfold put_byte_of. rewrite fn_lookup_insert_ne; [done|]. intros <-. exact (Hn a Ha eq_refl).
  - intros n Hn Hbl. by apply put_byte_block.
Qed.
End alloc.
