(* ===== verification/FsData.v ===== *)
(** Integers, inodes and directory entries in the bytes of a block
    (kernel/fs.h). *)

From S2P Require Import Prelude Mem Bio Fs FsAlloc.
Local Open Scope Z_scope.

Implicit Types (d : block) (off i k v : Z) (n : nat).

Lemma storeu_length n d off v :
  0 ≤ off → off + Z.of_nat n ≤ Z.of_nat (length d) → length (storeu n d off v) = length d.
Proof. intros. unfold storeu. rewrite !length_app, length_take, length_drop, le_encode_length. lia. Qed.

Lemma loadu_storeu n d off v :
  0 ≤ off → off + Z.of_nat n ≤ Z.of_nat (length d) →
  loadu n (storeu n d off v) off = v `mod` 256 ^ Z.of_nat n.
Proof.
  intros. unfold loadu, storeu.
  rewrite drop_app_length' by (rewrite length_take; lia).
  rewrite take_app_length' by by rewrite le_encode_length.
  rewrite le_decode_encode; [done|]. apply Z.mod_pos_bound. lia.
Qed.

Lemma lookup_storeu_ne n d off v (j : nat) :
  0 ≤ off → off + Z.of_nat n ≤ Z.of_nat (length d) →
  Z.of_nat j < off ∨ off + Z.of_nat n ≤ Z.of_nat j → storeu n d off v !! j = d !! j.
Proof.
  intros H1 H2 Hor. unfold storeu. destruct Hor.
  - rewrite lookup_app_l by (rewrite length_take; lia). by rewrite lookup_take_lt by lia.
  - rewrite lookup_app_r by (rewrite length_take; lia).
    rewrite lookup_app_r by (rewrite length_take, le_encode_length; lia).
    rewrite lookup_drop. f_equal. rewrite length_take, le_encode_length. lia.
Qed.

Lemma loadu_ext n d d' off :
  0 ≤ off → (∀ j : nat, off ≤ Z.of_nat j < off + Z.of_nat n → d' !! j = d !! j) → loadu n d' off = loadu n d off.
Proof.
  intros Ho Hd. unfold loadu. f_equal. apply list_eq. intros j.
  destruct (decide (j < n)%nat); [|by rewrite !lookup_take_ge by lia].
  rewrite !lookup_take_lt, !lookup_drop by done. apply Hd. lia.
Qed.

Lemma loadu_storeu_ne n n' d off off' v :
  0 ≤ off → off + Z.of_nat n ≤ Z.of_nat (length d) → 0 ≤ off' →
  off' + Z.of_nat n' ≤ off ∨ off + Z.of_nat n ≤ off' →
  loadu n' (storeu n d off v) off' = loadu n' d off'.
Proof. intros H1 H2 H3 Hor. apply loadu_ext; [done|]. intros j Hj. apply lookup_storeu_ne; lia. Qed.

Lemma le_encode_is_byte n v : Forall is_byte (le_encode n v).
Proof.
  revert v. induction n as [|n IH]; intros v; simpl; constructor; [|done].
  unfold is_byte. apply Z.mod_pos_bound. lia.
Qed.

Lemma storeu_block n d off v :
  0 ≤ off → off + Z.of_nat n ≤ BSIZE → is_block d → is_block (storeu n d off v).
Proof.
  intros H1 H2 [Hlen Hf]. split.
  - rewrite storeu_length; [done|done|]. rewrite Hlen. unfold BSIZE in *. lia.
  - unfold storeu. rewrite !Forall_app. split_and!; [by apply Forall_take|apply le_encode_is_byte|by apply Forall_drop].
Qed.

Lemma loadu_range n d off : Forall is_byte d → 0 ≤ loadu n d off < 256 ^ Z.of_nat n.
Proof.
  intros Hf. unfold loadu.
  assert (Forall is_byte (take n (drop (Z.to_nat off) d))) as Hf' by by apply Forall_take, Forall_drop.
  assert (length (take n (drop (Z.to_nat off) d)) ≤ n)%nat as Hlen by (rewrite length_take; lia).
  revert Hf' Hlen. generalize (take n (drop (Z.to_nat off) d)). clear. intros bs. revert n.
  induction bs as [|b bs IH]; intros n Hf Hlen; simpl in *; [pose proof (Z.pow_pos_nonneg 256 (Z.of_nat n)); lia|].
  destruct n as [|n]; [lia|]. apply Forall_cons_1 in Hf as [Hb Hf]. unfold is_byte in Hb.
  specialize (IH n Hf ltac:(lia)). rewrite Nat2Z.inj_succ, Z.pow_succ_r by lia. lia.
Qed.

Lemma le_decode_zeros n m : le_decode (take n (replicate m 0)) = 0.
Proof. revert n. induction m as [|m IH]; intros [|n]; simpl; [done..|]. by rewrite IH. Qed.

Lemma loadu_zeros n off : loadu n zeros off = 0.
Proof. unfold loadu, zeros. rewrite drop_replicate. apply le_decode_zeros. Qed.

(** * Inodes *)

Lemma put_addrs_length d off (l : list Z) :
  0 ≤ off → off + 4 * Z.of_nat (length l) ≤ Z.of_nat (length d) → length (put_addrs d off l) = length d.
Proof.
  revert d off. induction l as [|a l IH]; intros d off Ho Hl; simpl in *; [done|].
  rewrite IH; rewrite ?storeu_length; lia.
Qed.

Lemma put_addrs_lookup_ne d off (l : list Z) (j : nat) :
  0 ≤ off → off + 4 * Z.of_nat (length l) ≤ Z.of_nat (length d) →
  Z.of_nat j < off ∨ off + 4 * Z.of_nat (length l) ≤ Z.of_nat j → put_addrs d off l !! j = d !! j.
Proof.
  revert d off. induction l as [|a l IH]; intros d off Ho Hl Hj; simpl in *; [done|].
  rewrite IH; rewrite ?storeu_length; try lia. apply lookup_storeu_ne; lia.
Qed.

Lemma get_put_addrs d off (l : list Z) :
  0 ≤ off → off + 4 * Z.of_nat (length l) ≤ Z.of_nat (length d) → Forall (λ a, 0 ≤ a < 2 ^ 32) l →
  get_addrs (put_addrs d off l) off (length l) = l.
Proof.
  intros Ho Hl Hf. unfold get_addrs. apply list_eq. intros j. rewrite list_lookup_fmap.
  destruct (decide (j < length l)%nat) as [Hj|]; [|rewrite lookup_seq_ge, lookup_ge_None_2 by lia; done].
  rewrite lookup_seq_lt by done. simpl. revert d off j Ho Hl Hf Hj.
  induction l as [|a l IH]; intros d off j Ho Hl Hf Hj; simpl in *; [lia|]. apply Forall_cons_1 in Hf as [Ha Hf].
  destruct j as [|j]; simpl.
  - f_equal. rewrite Z.add_0_r. transitivity (loadu 4 (storeu 4 d off a) off).
    + apply loadu_ext; [done|]. intros j' Hj'. apply put_addrs_lookup_ne; rewrite ?storeu_length; lia.
    + rewrite loadu_storeu by lia. apply Z.mod_small. done.
  - rewrite <- (IH (storeu 4 d off a) (off + 4) j); rewrite ?storeu_length; try done; try lia. do 2 f_equal. lia.
Qed.

(** An inode whose fields fit their widths. *)
Record dinode_ok (x : dinode) : Prop := {
  dok_type : - 2 ^ 15 ≤ di_type x < 2 ^ 15;
  dok_major : - 2 ^ 15 ≤ di_major x < 2 ^ 15;
  dok_minor : - 2 ^ 15 ≤ di_minor x < 2 ^ 15;
  dok_nlink : - 2 ^ 15 ≤ di_nlink x < 2 ^ 15;
  dok_size : 0 ≤ di_size x < 2 ^ 32;
  dok_addrs : length (di_addrs x) = (Z.to_nat NDIRECT + 1)%nat;
  dok_addr : Forall (λ a, 0 ≤ a < 2 ^ 32) (di_addrs x);
}.

Lemma s16_small v : - 2 ^ 15 ≤ v < 2 ^ 15 → s16 (v `mod` 256 ^ Z.of_nat 2) = v.
Proof. intros. unfold s16. rewrite Zplus_mod_idemp_l. rewrite Z.mod_small; lia. Qed.

Ltac in_block := repeat (rewrite storeu_length by in_block); lia.

Lemma loadu_put_addrs n d off (l : list Z) o :
  0 ≤ off → off + 4 * Z.of_nat (length l) ≤ Z.of_nat (length d) → 0 ≤ o →
  o + Z.of_nat n ≤ off ∨ off + 4 * Z.of_nat (length l) ≤ o → loadu n (put_addrs d off l) o = loadu n d o.
Proof. intros H1 H2 H3 Hor. apply loadu_ext; [done|]. intros j Hj. apply put_addrs_lookup_ne; lia. Qed.

Lemma put_dinode_length d k x :
  0 ≤ k → (k + 1) * sizeof_dinode ≤ Z.of_nat (length d) → dinode_ok x → length (put_dinode d k x) = length d.
Proof.
  intros Hk Hd Hx. unfold put_dinode, sizeof_dinode in *. pose proof (dok_addrs _ Hx) as Hl. unfold NDIRECT in Hl.
  rewrite put_addrs_length; [in_block|lia|]. rewrite Hl. in_block.
Qed.

(** What is outside slot [k] is not touched. *)
Lemma put_dinode_lookup_ne d k x (j : nat) :
  0 ≤ k → (k + 1) * sizeof_dinode ≤ Z.of_nat (length d) → dinode_ok x →
  Z.of_nat j < k * sizeof_dinode ∨ (k + 1) * sizeof_dinode ≤ Z.of_nat j → put_dinode d k x !! j = d !! j.
Proof.
  intros Hk Hd Hx Hj. unfold put_dinode, sizeof_dinode in *. pose proof (dok_addrs _ Hx) as Hl. unfold NDIRECT in Hl.
  rewrite put_addrs_lookup_ne; [|lia|rewrite Hl; in_block|rewrite Hl; lia].
  repeat (rewrite lookup_storeu_ne; [|lia|in_block|lia]). done.
Qed.

Lemma get_put_dinode d k x :
  0 ≤ k → (k + 1) * sizeof_dinode ≤ Z.of_nat (length d) → dinode_ok x → get_dinode (put_dinode d k x) k = x.
Proof.
  intros Hk Hd [H1 H2 H3 H4 H5 Hl Hf]. unfold get_dinode, put_dinode, sizeof_dinode in *. unfold NDIRECT in *.
  rewrite !loadu_put_addrs by (try (rewrite Hl; in_block); lia).
  rewrite <- Hl at 1. rewrite get_put_addrs by (done || lia || in_block).
  repeat first [rewrite loadu_storeu by (lia || in_block) | rewrite loadu_storeu_ne by (lia || in_block)].
  rewrite !s16_small by done.
  rewrite Z.mod_small by done. by destruct x.
Qed.

Lemma put_addrs_block d off (l : list Z) :
  0 ≤ off → off + 4 * Z.of_nat (length l) ≤ BSIZE → is_block d → is_block (put_addrs d off l).
Proof.
  revert d off. induction l as [|a l IH]; intros d off Ho Hl Hd; simpl in *; [done|].
  apply IH; [lia|lia|]. apply storeu_block; [lia|lia|done].
Qed.

Lemma put_dinode_block d k x : 0 ≤ k < IPB → dinode_ok x → is_block d → is_block (put_dinode d k x).
Proof.
  intros Hk Hx Hd. assert (IPB = 16 ∧ BSIZE = 1024) as [E1 E2] by done. pose proof (dok_addrs _ Hx) as Hl.
  unfold put_dinode, sizeof_dinode. unfold NDIRECT in *.
  apply put_addrs_block; [lia|rewrite Hl; lia|]. repeat (apply storeu_block; [lia|lia|]). done.
Qed.

(** The slot of an inode is in its block. *)
Lemma slot_fits d k : 0 ≤ k < IPB → is_block d → (k + 1) * sizeof_dinode ≤ Z.of_nat (length d).
Proof.
  intros Hk [Hlen _]. rewrite Hlen. assert (IPB = 16 ∧ BSIZE = 1024) as [E1 E2] by done.
  unfold sizeof_dinode. lia.
Qed.

(** The bytes of a slot are all that counts. *)
Lemma get_dinode_ext d d' k :
  0 ≤ k → (∀ j : nat, k * sizeof_dinode ≤ Z.of_nat j < (k + 1) * sizeof_dinode → d' !! j = d !! j) →
  get_dinode d' k = get_dinode d k.
Proof.
  intros Hk Hd. unfold get_dinode. unfold sizeof_dinode in *.
  assert (∀ n o, k * 64 ≤ o → o + Z.of_nat n ≤ (k + 1) * 64 → loadu n d' o = loadu n d o) as Hl.
  { intros n o H1 H2. apply loadu_ext; [lia|]. intros j Hj. apply Hd. lia. }
  rewrite !Hl by lia. f_equal. unfold get_addrs. apply list_fmap_ext. intros i j Hi.
  apply lookup_seq in Hi as [-> Hi]. unfold NDIRECT in Hi. apply Hl; lia.
Qed.

Lemma get_put_dinode_ne d k i x :
  0 ≤ k → 0 ≤ i → i ≠ k → (k + 1) * sizeof_dinode ≤ Z.of_nat (length d) → dinode_ok x →
  get_dinode (put_dinode d k x) i = get_dinode d i.
Proof.
  intros Hk Hi Hne Hd Hx. apply get_dinode_ext; [done|]. intros j Hj. apply put_dinode_lookup_ne; try done.
  unfold sizeof_dinode in *. lia.
Qed.
