(* ===== verification/FsFile.v ===== *)
(** The blocks of a file (kernel/fs.c): what [bmap] finds and what it adds. *)

From stdpp Require Import functions.
From S2P Require Import Prelude Riscv Mem Threads Sleeplock Bio Log LogWrite Fs FsTx FsAlloc FsData.
Local Open Scope Z_scope.

(** The blocks of an inode, given the contents of the disk. *)
Definition addr_of (d : dinode) (i : Z) : Z := nth (Z.to_nat i) (di_addrs d) 0.
Definition indirect (d : dinode) : Z := addr_of d NDIRECT.
(** The address of block [bn] of the file; 0 if it has none. *)
Definition block_of (V : Z → block) (d : dinode) (bn : Z) : Z :=
  if bn <? NDIRECT then addr_of d bn
  else if indirect d =? 0 then 0 else loadu 4 (V (indirect d)) (4 * (bn - NDIRECT)).
Definition file_block (bn : Z) : Prop := 0 ≤ bn < MAXFILE.

Section file.
Context (me : identity) (D : gmap Z block) (logsize nops : Z) (w : nat) {U : Type} `{UserMem U}.
Context (sb : superblock) (Hlay : layout sb) (HD : ∀ n, on_disk sb n → is_Some (D !! n)).
Local Abbreviation St := (fsst U).
Local Abbreviation tx := (tx me D logsize nops).
Local Abbreviation meta := (meta sb).
Local Abbreviation alloced := (alloced sb).
Local Abbreviation fs_room := (fs_room logsize nops).
Implicit Types (V : Z → block) (bl : list Z) (hb : gmap Z Z) (s : St) (d : dinode) (bn a n i : Z).

(** A block that the file system can keep data in. *)
Definition data_block V a : Prop :=
  on_disk sb a ∧ bit V sb a = true ∧ (∀ b, on_disk sb b → a ≠ BBLOCK b sb) ∧
  ∀ i, 0 ≤ i < sb_ninodes sb → a ≠ IBLOCK i sb.

(** The inode and bitmap blocks are in use. *)
Definition inodes_ok V : Prop :=
  ∀ i, 0 ≤ i < sb_ninodes sb → on_disk sb (IBLOCK i sb) ∧ bit V sb (IBLOCK i sb) = true ∧
    ∀ b, on_disk sb b → IBLOCK i sb ≠ BBLOCK b sb.

(** The blocks of a file are data blocks, and no two are the same. *)
Record inode_ok V d : Prop := {
  io_d : dinode_ok d;
  io_indirect : indirect d ≠ 0 → data_block V (indirect d);
  io_block bn : file_block bn → block_of V d bn ≠ 0 → data_block V (block_of V d bn);
  io_inj bn bn' : file_block bn → file_block bn' → block_of V d bn ≠ 0 →
    block_of V d bn = block_of V d bn' → bn = bn';
  io_sep bn : file_block bn → indirect d ≠ 0 → block_of V d bn ≠ indirect d;
}.

(** The file after some of its missing blocks were added: the blocks it had are
    where they were and hold what they held, the new ones are zero, and no block
    that was in use by anything else has changed. *)
Record extends V d V' d' : Prop := {
  ex_ok : inode_ok V' d';
  ex_meta : meta V' ∅;
  ex_inodes : inodes_ok V';
  ex_fields : Dinode (di_type d') (di_major d') (di_minor d') (di_nlink d') (di_size d') (di_addrs d) = d;
  ex_old bn : file_block bn → block_of V d bn ≠ 0 →
    block_of V' d' bn = block_of V d bn ∧ V' (block_of V d bn) = V (block_of V d bn);
  ex_new bn : file_block bn → block_of V d bn = 0 → block_of V' d' bn ≠ 0 → V' (block_of V' d' bn) = zeros;
  ex_ind : indirect d ≠ 0 → indirect d' = indirect d;
  ex_ind_free : indirect d = 0 → indirect d' ≠ 0 → bit V sb (indirect d') = false;
  ex_new_free bn : file_block bn → block_of V d bn = 0 → block_of V' d' bn ≠ 0 →
    bit V sb (block_of V' d' bn) = false;
  ex_bits b : on_disk sb b → bit V sb b = true → bit V' sb b = true;
  ex_frame n : on_disk sb n → bit V sb n = true → (∀ b, on_disk sb b → n ≠ BBLOCK b sb) →
    n ≠ indirect d → V' n = V n;
}.

Lemma extends_refl V d : inode_ok V d → meta V ∅ → inodes_ok V → extends V d V d.
Proof. intros. split; try done. by destruct d. Qed.

Lemma extends_trans V d V1 d1 V2 d2 : inode_ok V d → extends V d V1 d1 → extends V1 d1 V2 d2 → extends V d V2 d2.
Proof.
  intros Hok E1 E2.
  assert (∀ a, data_block V a → bit V sb a = true) as Hdb by by intros a (_ & ? & _).
  split; try apply E2.
  - rewrite <- (ex_fields _ _ _ _ E1), <- (ex_fields _ _ _ _ E2). done.
  - intros bn Hbn H0. destruct (ex_old _ _ _ _ E1 bn Hbn H0) as [Hb1 HV1].
    destruct (ex_old _ _ _ _ E2 bn Hbn) as [Hb2 HV2]; [by rewrite Hb1|]. rewrite Hb1 in Hb2, HV2.
    split; [done|]. by rewrite HV2.
  - intros bn Hbn H0 Hne. destruct (decide (block_of V1 d1 bn = 0)) as [H1|H1].
    + by apply (ex_new _ _ _ _ E2).
    + destruct (ex_old _ _ _ _ E2 bn Hbn H1) as [-> ->]. by apply (ex_new _ _ _ _ E1).
  - intros Hi. pose proof (ex_ind _ _ _ _ E1 Hi) as H1. rewrite (ex_ind _ _ _ _ E2); [done|]. by rewrite H1.
  - intros H0 Hne. destruct (decide (indirect d1 = 0)) as [H1|H1].
    + pose proof (ex_ind_free _ _ _ _ E2 H1 Hne) as Hf. apply not_true_iff_false. intros Ht.
      rewrite (ex_bits _ _ _ _ E1) in Hf; [done| |done]. by apply (io_indirect _ _ (ex_ok _ _ _ _ E2)).
    + rewrite (ex_ind _ _ _ _ E2 H1). by apply (ex_ind_free _ _ _ _ E1).
  - intros bn Hbn H0 Hne. destruct (decide (block_of V1 d1 bn = 0)) as [H1|H1].
    + pose proof (ex_new_free _ _ _ _ E2 bn Hbn H1 Hne) as Hf. apply not_true_iff_false. intros Ht.
      rewrite (ex_bits _ _ _ _ E1) in Hf; [done| |done]. by apply (io_block _ _ (ex_ok _ _ _ _ E2)).
    + destruct (ex_old _ _ _ _ E2 bn Hbn H1) as [-> _]. by apply (ex_new_free _ _ _ _ E1).
  - intros b Hb Ht. apply (ex_bits _ _ _ _ E2); [done|]. by apply (ex_bits _ _ _ _ E1).
  - intros n Hn Ht Hnb Hni. rewrite (ex_frame _ _ _ _ E2); [by apply (ex_frame _ _ _ _ E1)|done| |done|].
    + by apply (ex_bits _ _ _ _ E1).
    + intros ->. destruct (decide (indirect d = 0)) as [H0|H0].
      * destruct (decide (indirect d1 = 0)) as [H1|H1].
        -- by rewrite H1, H0 in Hni.
        -- rewrite (ex_ind_free _ _ _ _ E1 H0 H1) in Ht. done.
      * by rewrite (ex_ind _ _ _ _ E1 H0) in Hni.
Qed.

(** Adding the fresh block [a], as block [c] of the file or, when [c] is none of
    its blocks, as its indirect block. *)
Lemma extend_one V d V' d' a c :
  inode_ok V d → meta V ∅ → inodes_ok V → meta V' ∅ → dinode_ok d' →
  a ≠ 0 → on_disk sb a → bit V sb a = false →
  (∀ b, on_disk sb b → bit V' sb b = bool_decide (b = a) || bit V sb b) →
  (∀ n, n ≠ a → (∀ b, on_disk sb b → n ≠ BBLOCK b sb) → n ≠ indirect d → V' n = V n) →
  (∀ bn, file_block bn → block_of V' d' bn = if decide (bn = c) then a else block_of V d bn) →
  (file_block c → block_of V d c = 0 ∧ V' a = zeros ∧ indirect d' = indirect d) →
  (¬ file_block c → indirect d = 0 ∧ indirect d' = a) →
  Dinode (di_type d') (di_major d') (di_minor d') (di_nlink d') (di_size d') (di_addrs d) = d →
  extends V d V' d'.
Proof.
  intros Hok Hm Hin Hm' Hd' Ha0 Ha Hfree Hbit Hrest Hblk Hc Hnc Hf.
  assert (∀ b, on_disk sb b → bit V sb b = true → bit V' sb b = true) as Hmono.
  { intros b Hb Ht. rewrite Hbit, Ht by done. apply orb_true_r. }
  assert (∀ n, data_block V n → data_block V' n) as Hdata.
  { intros n (? & ? & ? & ?). split_and!; [done|by apply Hmono|done|done]. }
  assert (data_block V' a) as Hda.
  { split_and!; [done| | |].
    - rewrite Hbit by done. by rewrite bool_decide_true.
    - intros b Hb ->. rewrite (me_bits _ _ _ Hm b Hb) in Hfree. done.
    - intros i Hi ->. destruct (Hin i Hi) as (_ & Ht & _). congruence. }
  assert (∀ n, data_block V n → n ≠ a) as Hnea by (intros n (_ & Ht & _) ->; congruence).
  assert (∀ n, on_disk sb n → bit V sb n = true → n ≠ a) as Hnea' by (intros n _ Ht ->; congruence).
  split; try done.
  - split; [done|..].
    + intros Hi. destruct (decide (file_block c)) as [Hfc|Hfc].
      * destruct (Hc Hfc) as (_ & _ & He). rewrite He in *. apply Hdata. by apply Hok.
      * destruct (Hnc Hfc) as [_ ->]. done.
    + intros bn Hbn. rewrite Hblk by done. destruct (decide (bn = c)); [done|]. intros Hne. apply Hdata. by apply Hok.
    + intros bn bn' Hbn Hbn'. rewrite !Hblk by done.
      destruct (decide (bn = c)) as [->|]; destruct (decide (bn' = c)) as [->|]; try done.
      * intros _ He. exfalso. apply (Hnea (block_of V d bn')); [apply Hok; [done|congruence]|done].
      * intros Hne He. exfalso. apply (Hnea (block_of V d bn)); [by apply Hok|done].
      * by apply Hok.
    + intros bn Hbn Hi. rewrite Hblk by done. destruct (decide (file_block c)) as [Hfc|Hfc].
      * destruct (Hc Hfc) as (_ & _ & He). rewrite He in *. destruct (decide (bn = c)); [|by apply Hok].
        intros Heq. apply (Hnea (indirect d)); [by apply Hok|done].
      * destruct (Hnc Hfc) as [_ ->]. rewrite decide_False by (intros ->; done).
        intros Heq. destruct (decide (block_of V d bn = 0)) as [H0|H0]; [congruence|].
        apply (Hnea (block_of V d bn)); [by apply Hok|done].
  - intros i Hi. destruct (Hin i Hi) as (? & ? & ?). split_and!; [done|by apply Hmono|done].
  - intros bn Hbn H0. destruct (io_block _ _ Hok bn Hbn H0) as (H1 & H2 & H3 & H4). rewrite Hblk by done. split.
    + rewrite decide_False; [done|]. intros ->. by destruct (Hc Hbn) as [? _].
    + apply Hrest; [by apply Hnea'|done|]. destruct (decide (indirect d = 0)) as [->|]; [done|]. by apply Hok.
  - intros bn Hbn H0. rewrite Hblk by done. destruct (decide (bn = c)) as [->|]; [|done]. intros _. by apply Hc.
  - intros Hi. destruct (decide (file_block c)) as [Hfc|Hfc]; [by apply Hc|]. by destruct (Hnc Hfc).
  - intros H0 Hne. destruct (decide (file_block c)) as [Hfc|Hfc].
    + destruct (Hc Hfc) as (_ & _ & He). congruence.
    + by destruct (Hnc Hfc) as [_ ->].
  - intros bn Hbn H0. rewrite Hblk by done. by destruct (decide (bn = c)).
  - intros n Hn Ht Hnb Hni. apply Hrest; [by apply Hnea'|done|done].
Qed.

Lemma addr_with i j a d :
  dinode_ok d → 0 ≤ i ≤ NDIRECT → 0 ≤ j → addr_of (with_addr i a d) j = if decide (j = i) then a else addr_of d j.
Proof.
  intros Hd Hi Hj. pose proof (dok_addrs _ Hd) as Hl. unfold NDIRECT in *.
  unfold addr_of. simpl. rewrite !nth_lookup. destruct (decide (j = i)) as [->|].
  - rewrite list_lookup_insert_eq by lia. done.
  - by rewrite list_lookup_insert_ne by lia.
Qed.

Lemma with_addr_ok i a d : dinode_ok d → 0 ≤ a < 2 ^ 32 → dinode_ok (with_addr i a d).
Proof. intros [] Ha. split; try done; simpl; [by rewrite length_insert|]. by apply Forall_insert. Qed.

Lemma on_disk_u32 n : on_disk sb n → 0 ≤ n < 2 ^ 32.
Proof. pose proof (lay_size _ Hlay). unfold on_disk. lia. Qed.

(** An address that was missing in the inode itself. *)
Lemma extend_slot V d V' a i :
  inode_ok V d → meta V ∅ → inodes_ok V → alloced V V' a → a ≠ 0 → on_disk sb a → bit V sb a = false →
  0 ≤ i ≤ NDIRECT → addr_of d i = 0 → extends V d V' (with_addr i a d).
Proof.
  intros Hok Hm Hin Hal Ha0 Ha Hfree Hi H0. pose proof (io_d _ _ Hok) as Hd.
  assert (indirect (with_addr i a d) = if decide (i = NDIRECT) then a else indirect d) as Hind.
  { unfold indirect. rewrite addr_with by (done || unfold NDIRECT; lia). by repeat case_decide. }
  assert (∀ n, data_block V n → V' n = V n) as HV.
  { intros n (? & Ht & Hnb & _). apply (al_rest _ _ _ _ Hal); [intros ->; congruence|done]. }
  apply (extend_one V d V' _ a (if decide (i = NDIRECT) then -1 else i)); try done.
  - by eapply meta_alloced.
  - apply with_addr_ok; [done|by apply on_disk_u32].
  - by apply (al_bit _ _ _ _ Hal).
  - intros n Hn Hnb _. by apply (al_rest _ _ _ _ Hal).
  - intros bn [Hbn _]. unfold block_of. destruct (bn <? NDIRECT) eqn:Hlt.
    + apply Z.ltb_lt in Hlt. rewrite addr_with by done. repeat case_decide; done || lia.
    + apply Z.ltb_ge in Hlt. rewrite Hind. destruct (decide (i = NDIRECT)) as [->|].
      * rewrite (al_zero _ _ _ _ Hal), loadu_zeros. change (indirect d) with (addr_of d NDIRECT). rewrite H0. simpl.
        rewrite decide_False by lia. by destruct (a =? 0).
      * rewrite decide_False by (intros ->; lia). destruct (indirect d =? 0) eqn:Hi0; [done|].
        apply Z.eqb_neq in Hi0. by rewrite HV by by apply Hok.
  - intros [Hc _]. destruct (decide (i = NDIRECT)); [lia|]. split_and!; [|apply Hal|done].
    unfold block_of. by rewrite (proj2 (Z.ltb_lt _ _)) by lia.
  - intros Hc. destruct (decide (i = NDIRECT)) as [->|]; [done|].
    destruct Hc. unfold file_block, MAXFILE. assert (0 ≤ NINDIRECT) by by compute. lia.
  - by destruct d.
Qed.

(** An address that was missing in the indirect block. *)
Lemma extend_entry V d V1 a k :
  inode_ok V d → meta V ∅ → inodes_ok V → alloced V V1 a → a ≠ 0 → on_disk sb a → bit V sb a = false →
  indirect d ≠ 0 → 0 ≤ k < NINDIRECT → block_of V d (NDIRECT + k) = 0 →
  extends V d (<[indirect d := storeu 4 (V1 (indirect d)) (4 * k) a]> V1) d.
Proof.
  intros Hok Hm Hin Hal Ha0 Ha Hfree Hi Hk H0. set (ind := indirect d) in *.
  destruct (io_indirect _ _ Hok Hi) as (Hon & Hti & Hnbi & Hni). fold ind in Hon, Hti, Hnbi, Hni.
  set (V' := <[ind := _]> V1).
  assert (a ≠ ind) as Hai by (intros ->; congruence).
  assert (V1 ind = V ind) as Hv1 by (apply (al_rest _ _ _ _ Hal); done).
  assert (is_block (V ind)) as Hbl by by apply (me_blocks _ _ _ Hm).
  assert (BSIZE = 1024 ∧ NINDIRECT = 256 ∧ NDIRECT = 12) as (EB & EN & ED) by done.
  assert (∀ b, on_disk sb b → bit V' sb b = bit V1 sb b) as Hbit'.
  { intros b Hb. unfold bit, V'. rewrite fn_lookup_insert_ne; [done|]. by apply Hnbi. }
  pose proof (meta_alloced sb Hlay V V1 ∅ a Hm Hal Hfree Ha) as Hm1.
  apply (extend_one V d V' d a (NDIRECT + k)); try done.
  - destruct Hm1 as [M1 M2 M3 _]. split; [| | |set_solver].
    + intros b Hb. rewrite Hbit' by by apply BBLOCK_eq. by apply M1.
    + rewrite Hbit' by (apply on_disk_0; exact Hlay). done.
    + intros n Hn. unfold V'. destruct (decide (n = ind)) as [->|]; [|by rewrite fn_lookup_insert_ne; [apply M3|]].
      rewrite fn_lookup_insert. apply storeu_block; [lia|lia|]. by apply M3.
  - apply Hok.
  - intros b Hb. rewrite Hbit' by done. by apply (al_bit _ _ _ _ Hal).
  - intros n Hn Hnb Hne. unfold V'. rewrite fn_lookup_insert_ne by done. by apply (al_rest _ _ _ _ Hal).
  - intros bn [Hbn1 Hbn2]. unfold MAXFILE in Hbn2. unfold block_of. destruct (bn <? NDIRECT) eqn:Hlt.
    + apply Z.ltb_lt in Hlt. by rewrite decide_False by lia.
    + apply Z.ltb_ge in Hlt. fold ind. rewrite (proj2 (Z.eqb_neq _ _)) by done.
      unfold V'. rewrite fn_lookup_insert, Hv1. pose proof (proj1 Hbl) as Hlen.
      assert (Z.of_nat (length (V ind)) = 1024) as Hlz by (rewrite Hlen; done).
      destruct (decide (bn = NDIRECT + k)) as [->|].
      * replace (NDIRECT + k - NDIRECT) with k by lia. rewrite loadu_storeu by lia.
        apply Z.mod_small. by apply on_disk_u32.
      * apply loadu_storeu_ne; lia.
  - intros _. split_and!; [done| |done]. unfold V'. rewrite fn_lookup_insert_ne by done. apply Hal.
  - intros Hnf. destruct Hnf. unfold file_block, MAXFILE. lia.
  - by destruct d.
Qed.

(** * [bmap] *)

Lemma wp_deref_inode {B} (f : inode → M St B) E ip x Q s :
  itab s !! ip = Some x → wp E (f x) Q s → wp E (bind (deref_inode ip) f) Q s.
Proof. intros Hx HQ. apply wp_bind. by eapply wp_get_some. Qed.

Lemma wp_update_inode E ip f x Q s :
  itab s !! ip = Some x → Q tt (set_itab (<[ip := f x]> (itab s)) s) → wp E (update_inode ip f) Q s.
Proof.
  intros Hx HQ. eapply wp_deref_inode; [done|]. apply wp_modify.
  replace (alter f ip (itab s)) with (<[ip := f x]> (itab s)); [done|].
  apply map_eq. intros k. destruct (decide (k = ip)) as [->|].
  - by rewrite lookup_insert_eq, lookup_alter_eq, Hx.
  - by rewrite lookup_insert_ne, lookup_alter_ne.
Qed.

Lemma addr_lookup d i : dinode_ok d → 0 ≤ i ≤ NDIRECT → di_addrs d !! Z.to_nat i = Some (addr_of d i).
Proof.
  intros Hd Hi. pose proof (dok_addrs _ Hd) as Hl. unfold NDIRECT in *.
  destruct (lookup_lt_is_Some_2 (di_addrs d) (Z.to_nat i)) as [a Ha]; [lia|].
  unfold addr_of. by rewrite nth_lookup, Ha.
Qed.

(** The state after a change of inode [ip]'s copy of the disk inode. *)
Definition with_file ip (x : inode) d' l s : St := set_itab (<[ip := with_dinode (λ _, d') x]> (itab s)) (set_log l s).

(** Nothing is free. *)
Definition disk_full V : Prop := ∀ b, on_disk sb b → bit V sb b = true.

Definition grown V bl ip (x : inode) (k : nat) s (P : (Z → block) → dinode → Prop) (s' : St) : Prop :=
  ∃ l V' d' bl', s' = with_file ip x d' l s ∧ tx V' bl' ∅ ∅ l ∧ (length bl' ≤ length bl + k)%nat ∧
    extends V (i_d x) V' d' ∧ P V' d'.

Lemma with_dinode_id x : with_dinode (λ _, i_d x) x = x.
Proof. by destruct x. Qed.
Lemma with_file_id ip x l s : itab s !! ip = Some x → with_file ip x (i_d x) l s = set_log l s.
Proof. intros Hx. unfold with_file. rewrite with_dinode_id. destruct s. simpl in *. by rewrite insert_id. Qed.

(** Allocating an address in the inode itself. *)
Lemma alloc_slot V bl ip x i s :
  tx V bl ∅ ∅ (fs_log s) → fs_sb s = sb → itab s !! ip = Some x → i_dev x = ROOTDEV →
  inode_ok V (i_d x) → meta V ∅ → inodes_ok V → fs_room bl ∅ 3 → 0 ≤ i ≤ NDIRECT → addr_of (i_d x) i = 0 →
  returns (balloc w (i_dev x))
    (λ r s', (r = 0 ∧ grown V bl ip x 0 s (λ V' d', d' = i_d x ∧ V' = V ∧ disk_full V') s') ∨
       (r ≠ 0 ∧ ∀ (Q : unit → St → Prop),
          (∀ s'', grown V bl ip x 2 s (λ _ d', d' = with_addr i r (i_d x)) s'' → Q tt s'') →
          returns (update_inode ip (with_dinode (with_addr i r))) Q s')) s.
Proof.
  intros Ht Hsb Hx Hdev Hok Hm Hin Hroom Hi H0. rewrite Hdev.
  eapply wp_mono; [by apply (balloc_spec me D logsize nops w sb Hlay HD V bl ∅ s)|]. cbn beta.
  intros r s' [(-> & Hfull & l & -> & Hl)|(Hr & Hon & Hfree & _ & l & V' & bl' & -> & Hal & Hlen & Hl)].
  - left. split; [done|]. exists l, V, (i_d x), bl.
    rewrite with_file_id by done. split_and!; try done; [lia|by apply extends_refl].
  - right. split; [done|]. intros Q HQ. eapply wp_update_inode; [exact Hx|]. apply HQ.
    exists l, V', (with_addr i r (i_d x)), bl'. split_and!; try done. by apply extend_slot.
Qed.

(** Allocating an entry of the indirect block. *)
Lemma alloc_entry V bl bp (dev : Z) d k s (Q : Z → St → Prop) :
  tx V bl (<[indirect d := bp]> ∅) ∅ (fs_log s) → fs_sb s = sb → dev = ROOTDEV →
  inode_ok V d → meta V ∅ → inodes_ok V → fs_room bl (<[indirect d := bp]> ∅) 3 →
  indirect d ≠ 0 → 0 ≤ k < NINDIRECT → block_of V d (NDIRECT + k) = 0 →
  (∀ l, tx V bl (<[indirect d := bp]> ∅) ∅ l → disk_full V → Q 0 (set_log l s)) →
  (∀ a l V' bl', a ≠ 0 → tx V' bl' (<[indirect d := bp]> ∅) ∅ l → (length bl' ≤ length bl + 3)%nat →
     extends V d V' d → block_of V' d (NDIRECT + k) = a → Q a (set_log l s)) →
  returns (let! addr := balloc w dev in
           when (negb (addr =? 0)) (
             let! b := buf_data bp in
             set_buf_data bp (storeu 4 b (4 * k) addr);;;
             fs_log_write bp);;; ret addr) Q s.
Proof.
  intros Ht Hsb -> Hok Hm Hin Hroom Hi Hk H0 HQ0 HQ. set (ind := indirect d) in *.
  pose proof (io_indirect _ _ Hok Hi) as (Hon & Hti & Hnbi & _). fold ind in Hon, Hti, Hnbi.
  assert (meta V (<[ind := bp]> ∅)) as Hm'.
  { destruct Hm as [M1 M2 M3 _]. split; try done. intros n. rewrite dom_insert_L, dom_empty_L.
    rewrite union_empty_r_L, elem_of_singleton. by intros ->. }
  eapply wp_call; [by apply (balloc_spec me D logsize nops w sb Hlay HD V bl (<[ind := bp]> ∅) s)|]. cbn beta.
  intros r s' [(-> & Hfull & l & -> & Hl)|(Hr & Hra & Hfree & _ & l & V' & bl' & -> & Hal & Hlen & Hl)].
  - simpl. apply wp_bind, wp_ret, wp_ret. by apply HQ0.
  - rewrite (proj2 (Z.eqb_neq _ _)) by done. cbn [negb when].
    assert (length (V' ind) = Z.to_nat BSIZE) as Hlb.
    { eapply al_blocks; [exact Hal|done|]. by apply Hm. }
    apply wp_bind, wp_bind. eapply wp_buf_data; [exact Hl|by rewrite lookup_insert_eq|].
    assert (4 * NINDIRECT ≤ BSIZE) by by compute.
    apply wp_bind. eapply wp_set_buf_data; [exact Hl|by rewrite lookup_insert_eq| |].
    { rewrite storeu_length; [done|lia|]. rewrite Hlb. unfold BSIZE in *. lia. }
    intros l1 Hl1. eapply wp_fs_log_write; [exact Hl1|by rewrite lookup_insert_eq| |].
    { unfold fs_room, FsAlloc.fs_room in Hroom. unfold log_room. lia. }
    intros l2 Hl2. replace (({[ind]} ∪ ∅) ∖ {[ind]}) with (∅ : gset Z) in Hl2 by set_solver. apply wp_ret.
    pose proof (extend_entry V d V' r k Hok Hm Hin Hal Hr Hra Hfree Hi Hk H0) as Hex. fold ind in Hex.
    apply (HQ r l2 _ _ Hr Hl2); [pose proof (absorb_length ind bl'); lia|exact Hex|].
    unfold block_of. rewrite (proj2 (Z.ltb_ge _ _)) by lia. fold ind. rewrite (proj2 (Z.eqb_neq _ _)) by done.
    rewrite fn_lookup_insert. replace (NDIRECT + k - NDIRECT) with k by lia.
    rewrite loadu_storeu; [|lia|rewrite Hlb; unfold BSIZE in *; lia]. apply Z.mod_small. by apply on_disk_u32.
Qed.

Lemma grown_mono V bl ip x k k' s P P' s' :
  grown V bl ip x k s P s' → (k ≤ k')%nat → (∀ V' d', extends V (i_d x) V' d' → P V' d' → P' V' d') →
  grown V bl ip x k' s P' s'.
Proof.
  intros (l & V' & d' & bl' & -> & ? & ? & ? & ?) Hk HP. exists l, V', d', bl'. split_and!; try done; [lia|by apply HP].
Qed.

(** What [bmap] returns: the address of block [bn], or 0 if the disk is full. *)
Definition bmap_result bn (r : Z) V' d' : Prop := r = block_of V' d' bn ∧ (r = 0 → disk_full V').

Lemma bmap_direct V bl ip x bn s :
  tx V bl ∅ ∅ (fs_log s) → fs_sb s = sb → itab s !! ip = Some x → i_dev x = ROOTDEV →
  inode_ok V (i_d x) → meta V ∅ → inodes_ok V → fs_room bl ∅ 3 → 0 ≤ bn < NDIRECT →
  returns (bmap w ip bn) (λ r s', grown V bl ip x 2 s (bmap_result bn r) s') s.
Proof.
  intros Ht Hsb Hx Hdev Hok Hm Hin Hroom Hbn. pose proof (io_d _ _ Hok) as Hd.
  assert (∀ V d, block_of V d bn = addr_of d bn) as Hblk.
  { intros. unfold block_of. by rewrite (proj2 (Z.ltb_lt _ _)) by lia. }
  eapply wp_deref_inode; [exact Hx|]. rewrite (proj2 (Z.ltb_lt _ _)) by lia.
  apply wp_bind. eapply wp_get_some; [by apply addr_lookup; [|lia]|].
  destruct (Z.eqb_spec (addr_of (i_d x) bn) 0) as [H0|H0].
  - eapply wp_call; [by apply (alloc_slot V bl ip x bn s); try done; lia|]. cbn beta.
    intros r s' [[-> Hg]|[Hr Hup]].
    + apply wp_ret. eapply grown_mono; [exact Hg|lia|]. intros V' d' _ (-> & -> & Hf). split; [|done].
      by rewrite Hblk, H0.
    + rewrite (proj2 (Z.eqb_neq _ _)) by done. apply wp_bind, Hup. intros s'' Hg. apply wp_ret.
      eapply grown_mono; [exact Hg|lia|]. intros V' d' _ ->. split; [|done].
      rewrite Hblk, addr_with by (done || lia). by rewrite decide_True.
  - apply wp_ret. exists (fs_log s), V, (i_d x), bl. rewrite with_file_id by done.
    split_and!; [by destruct s|done|lia|by apply extends_refl|]. split; [by rewrite Hblk|done].
Qed.

(** The part of [bmap] that looks into the indirect block. *)
Lemma bmap_entry V bl dev d k s (Q : Z → St → Prop) :
  tx V bl ∅ ∅ (fs_log s) → fs_sb s = sb → dev = ROOTDEV →
  inode_ok V d → meta V ∅ → inodes_ok V → fs_room bl ∅ 4 → indirect d ≠ 0 → 0 ≤ k < NINDIRECT →
  (∀ l V' bl', tx V' bl' ∅ ∅ l → (length bl' ≤ length bl + 3)%nat → extends V d V' d →
     bmap_result (NDIRECT + k) (block_of V' d (NDIRECT + k)) V' d →
     Q (block_of V' d (NDIRECT + k)) (set_log l s)) →
  returns (let! bp := fs_bread w dev (indirect d) in
    let! b := buf_data bp in
    let addr := loadu 4 b (4 * k) in
    let! addr := (if addr =? 0 then
                    let! addr := balloc w dev in
                    when (negb (addr =? 0)) (
                      let! b := buf_data bp in
                      set_buf_data bp (storeu 4 b (4 * k) addr);;;
                      fs_log_write bp);;;
                    ret addr
                  else ret addr) in
    fs_brelse bp;;;
    ret addr) Q s.
Proof.
  intros Ht Hsb -> Hok Hm Hin Hroom Hi Hk HQ. set (ind := indirect d) in *.
  pose proof (io_indirect _ _ Hok Hi) as (Hon & _).
  assert (∀ V', block_of V' d (NDIRECT + k) = loadu 4 (V' ind) (4 * k)) as Hblk.
  { intros V'. unfold block_of. rewrite (proj2 (Z.ltb_ge _ _)) by lia. fold ind.
    rewrite (proj2 (Z.eqb_neq _ _)) by done. do 2 f_equal. lia. }
  apply wp_bind. eapply wp_fs_bread; [exact Ht|done|by eapply fs_room_bread|by apply HD|]. intros bp l Hl. cbn beta.
  assert (∀ V' bl' l' l0, tx V' bl' (<[ind := bp]> ∅) ∅ l' → (length bl' ≤ length bl + 3)%nat → extends V d V' d →
    (block_of V' d (NDIRECT + k) = 0 → disk_full V') →
    returns (fs_brelse bp;;; ret (block_of V' d (NDIRECT + k))) Q (set_log l' (set_log l0 s))) as Hend.
  { intros V' bl' l' l0 Hl' Hlen Hex Hf. apply wp_bind.
    eapply wp_fs_brelse; [exact Hl'|by rewrite lookup_insert_eq|set_solver|].
    intros l'' Hl''. rewrite delete_insert_id in Hl'' by done. apply wp_ret. by apply (HQ l'' V' bl'). }
  apply wp_bind. eapply wp_buf_data; [exact Hl|by rewrite lookup_insert_eq|]. cbn beta zeta.
  rewrite <- Hblk. destruct (Z.eqb_spec (block_of V d (NDIRECT + k)) 0) as [H0|H0].
  - apply wp_bind. apply (alloc_entry V bl bp ROOTDEV d k (set_log l s) _ Hl Hsb eq_refl Hok Hm Hin); try done.
    + unfold fs_room, FsAlloc.fs_room in *. fold ind. rewrite map_size_insert_None, map_size_empty by done.
      rewrite map_size_empty in Hroom. lia.
    + intros l1 Hl1 Hf. rewrite <- H0. apply (Hend V bl l1 l Hl1); [lia|by apply extends_refl|done].
    + intros a l1 V' bl' Ha Hl1 Hlen Hex Heq. rewrite <- Heq. apply (Hend V' bl' l1 l Hl1 Hlen Hex).
      intros H0'. congruence.
  - apply wp_bind, wp_ret. apply (Hend V bl l l Hl); [lia|by apply extends_refl|done].
Qed.

Lemma bmap_spec V bl ip x bn s :
  tx V bl ∅ ∅ (fs_log s) → fs_sb s = sb → itab s !! ip = Some x → i_dev x = ROOTDEV →
  inode_ok V (i_d x) → meta V ∅ → inodes_ok V → fs_room bl ∅ 6 → file_block bn →
  returns (bmap w ip bn) (λ r s', grown V bl ip x 5 s (bmap_result bn r) s') s.
Proof.
  intros Ht Hsb Hx Hdev Hok Hm Hin Hroom [Hbn1 Hbn2]. unfold MAXFILE in Hbn2.
  destruct (decide (bn < NDIRECT)) as [Hlt|Hge].
  { eapply wp_mono; [apply bmap_direct; try done; eapply fs_room_mono; [exact Hroom|lia]|].
    intros r s' Hg. eapply grown_mono; [exact Hg|lia|done]. }
  pose proof (io_d _ _ Hok) as Hd.
  eapply wp_deref_inode; [exact Hx|]. rewrite (proj2 (Z.ltb_ge _ _)) by lia. cbv zeta.
  rewrite (proj2 (Z.ltb_lt _ _)) by lia. cbn [negb].
  apply wp_bind. eapply wp_get_some; [by apply addr_lookup; [|done]|]. change (addr_of (i_d x) NDIRECT) with (indirect (i_d x)).
  replace bn with (NDIRECT + (bn - NDIRECT)) by lia. set (k := bn - NDIRECT).
  replace (NDIRECT + k - NDIRECT) with k by lia. assert (0 ≤ k < NINDIRECT) as Hk by lia.
  destruct (Z.eqb_spec (indirect (i_d x)) 0) as [H0|H0].
  - apply wp_bind. eapply wp_call.
    { apply (alloc_slot V bl ip x NDIRECT s); try done. eapply fs_room_mono; [exact Hroom|lia]. }
    cbn beta. intros r s' [[-> Hg]|[Hr Hup]].
    + simpl. apply wp_bind, wp_ret, wp_ret. simpl. apply wp_ret.
      eapply grown_mono; [exact Hg|lia|]. intros V' d' _ (-> & -> & Hf). split; [|done].
      unfold block_of. rewrite (proj2 (Z.ltb_ge _ _)) by lia. by rewrite H0.
    + rewrite (proj2 (Z.eqb_neq r 0)) by done. cbn [negb when].
      apply wp_bind, Hup. intros s'' (l & V1 & d1 & bl1 & -> & Hl & Hlen & Hex & ->). apply wp_ret.
      rewrite (proj2 (Z.eqb_neq r 0)) by done.
      set (d1 := with_addr NDIRECT r (i_d x)) in *.
      assert (indirect d1 = r) as Hind.
      { unfold indirect, d1. by rewrite addr_with by done. }
      rewrite <- Hind. apply (bmap_entry V1 bl1 _ d1 k (with_file ip x _ l s)); try done.
      * by apply Hex.
      * by apply Hex.
      * by apply Hex.
      * unfold fs_room, FsAlloc.fs_room in *. lia.
      * by rewrite Hind.
      * intros l2 V2 bl2 Hl2 Hlen2 Hex2 Hres. exists l2, V2, d1, bl2.
        split_and!; [done|done|lia| |done]. by eapply extends_trans.
  - apply wp_bind, wp_ret. rewrite (proj2 (Z.eqb_neq _ _)) by done.
    apply (bmap_entry V bl _ (i_d x) k s); try done; [eapply fs_room_mono; [exact Hroom|lia]|].
    intros l V' bl' Hl Hlen Hex Hres. exists l, V', (i_d x), bl'. rewrite with_file_id by done.
    split_and!; try done. lia.
Qed.
End file.
