(* ===== verification/FsIO.v ===== *)
(** Reading and writing files (kernel/fs.c): [readi] and [writei] on the bytes of
    a file. *)

From stdpp Require Import functions.
From S2P Require Import Prelude Riscv Mem Threads Sleeplock Bio Log LogWrite Fs FsTx FsAlloc FsData FsFile.
Local Open Scope Z_scope.

(** * Memory by bytes

    What the copies do to memory: [ub_get pt usr a u] is the byte at address [a]
    of the kernel, or of the user memory under page table [pt]. *)
Class UserBytes (U : Type) `{UserMem U} := {
  ub_get : Z → bool → Z → U → option Z;
  ub_copyout : ∀ pt usr a bs u,
    (∀ i, (i < length bs)%nat → is_Some (ub_get pt usr (a + Z.of_nat i) u)) → Forall is_byte bs →
    returns (either_copyout pt usr a bs)
      (λ r u', r = true ∧ (∀ i b, bs !! i = Some b → ub_get pt usr (a + Z.of_nat i) u' = Some b) ∧
         ∀ x, x < a ∨ a + Z.of_nat (length bs) ≤ x → ub_get pt usr x u' = ub_get pt usr x u) u;
  ub_copyin : ∀ pt usr a bs u,
    (∀ i b, bs !! i = Some b → ub_get pt usr (a + Z.of_nat i) u = Some b) →
    returns (either_copyin_part pt usr a (length bs)) (λ r u', r = bs ∧ u' = u) u;
}.

(** The flat memory of [Threads] has these laws. *)
Section flat.
Implicit Types (u : flat_user) (a x : Z) (bs : list Z).

Definition flat_store a bs (k : nat) u : flat_user :=
  foldr (λ '(i, b) u, <[a + Z.of_nat i := b]> u) u (zip (seq k (length bs)) bs).

Lemma flat_store_spec a bs k u :
  (∀ i b, bs !! i = Some b → (flat_store a bs k u : gmap Z Z) !! (a + Z.of_nat (k + i)) = Some b) ∧
  ∀ x, x < a + Z.of_nat k ∨ a + Z.of_nat (k + length bs) ≤ x → (flat_store a bs k u : gmap Z Z) !! x = (u : gmap Z Z) !! x.
Proof.
  revert k. induction bs as [|b bs IH]; intros k; [done|]. destruct (IH (S k)) as [IH1 IH2].
  unfold flat_store in *. simpl. split.
  - intros [|i] c Hi; simpl in Hi.
    + injection Hi as ->. rewrite Nat.add_0_r. apply (lookup_insert_eq (M := gmap Z)).
    + etrans; [apply (lookup_insert_ne (M := gmap Z)); lia|]. rewrite <- (IH1 i c Hi). f_equal. lia.
  - intros x Hx. etrans; [apply (lookup_insert_ne (M := gmap Z)); lia|]. apply IH2. lia.
Qed.

Lemma flat_mapped a n u :
  forallb (λ i, bool_decide (is_Some (u !! (a + Z.of_nat i)))) (seq 0 n) = true ↔
  ∀ i, (i < n)%nat → is_Some ((u : gmap Z Z) !! (a + Z.of_nat i)).
Proof.
  rewrite forallb_forall. split.
  - intros Hf i Hi. specialize (Hf i). rewrite <- list_elem_of_In, elem_of_seq in Hf.
    by apply bool_decide_eq_true in Hf; [|lia].
  - intros Hf i Hi%list_elem_of_In%elem_of_seq. apply bool_decide_eq_true, Hf. lia.
Qed.

Lemma flat_prefix_spec a bs u :
  (∀ i b, bs !! i = Some b → (u : gmap Z Z) !! (a + Z.of_nat i) = Some b) → flat_prefix a (length bs) u = bs.
Proof.
  revert a. induction bs as [|b bs IH]; intros a Hb; simpl; [done|].
  pose proof (Hb 0%nat b eq_refl) as H0. rewrite Z.add_0_r in H0. rewrite H0. f_equal. apply IH.
  intros i c Hi. rewrite <- (Hb (S i) c Hi). f_equal. lia.
Qed.

Lemma flat_mapM a bs u :
  (∀ i b, bs !! i = Some b → (u : gmap Z Z) !! (a + Z.of_nat i) = Some b) →
  mapM (λ i, (u : gmap Z Z) !! (a + Z.of_nat i)) (seq 0 (length bs)) = Some bs.
Proof.
  intros Hb. apply mapM_Some. apply Forall2_same_length_lookup. split; [by rewrite length_seq|].
  intros i j b Hi Hj. apply lookup_seq in Hi as [-> _]. by apply Hb.
Qed.
End flat.

#[export] Instance flat_user_bytes : UserBytes flat_user.
Proof.
  refine {| ub_get := λ _ _ a u, (u : gmap Z Z) !! a |}.
  - intros pt usr a bs u Hok Hbs. apply flat_mapped in Hok.
    destruct (flat_store_spec a bs 0 u) as [H1 H2]. rewrite Nat.add_0_l in H2. rewrite Z.add_0_r in H2.
    destruct usr; unfold either_copyout.
    + eapply wp_ok; [simpl; rewrite Hok; reflexivity|]. done.
    + eapply wp_call; [eapply wp_ok with (Q := λ _ u', u' = flat_store a bs 0 u); [simpl; rewrite Hok; reflexivity|done]|].
      cbn beta. intros _ ? ->. apply wp_ret. done.
  - intros pt usr a bs u Hb. destruct usr; unfold either_copyin_part.
    + eapply wp_ok; [simpl; reflexivity|]. split; [by apply flat_prefix_spec|done].
    + eapply wp_ok; [simpl; by rewrite flat_mapM|done].
Defined.

(** * Contents *)

(** The byte at offset [off] of a file. *)
Definition content (V : Z → block) (d : dinode) (off : Z) : Z :=
  byte_at (V (block_of V d (off / BSIZE))) (off `mod` BSIZE).

Lemma block_range off i : 0 ≤ off → 0 ≤ i → i < BSIZE - off `mod` BSIZE →
  (off + i) / BSIZE = off / BSIZE ∧ (off + i) `mod` BSIZE = off `mod` BSIZE + i.
Proof.
  unfold BSIZE. intros Ho Hi Hm. pose proof (Z.div_mod off 1024). pose proof (Z.mod_pos_bound off 1024).
  split; symmetry; [apply (Z.div_unique _ _ _ (off `mod` 1024 + i))|apply (Z.mod_unique _ _ (off / 1024))]; lia.
Qed.

Lemma BSIZE_pos : 0 < BSIZE.
Proof. by compute. Qed.

Section io.
Context (me : identity) (D : gmap Z block) (logsize nops : Z) (w : nat) {U : Type} `{UserBytes U}.
Context (sb : superblock) (Hlay : layout sb) (HD : ∀ n, on_disk sb n → is_Some (D !! n)).
Local Abbreviation St := (fsst U).
Local Abbreviation tx := (tx me D logsize nops).
Local Abbreviation meta := (meta sb).
Local Abbreviation fs_room := (fs_room logsize nops).
Local Abbreviation inode_ok := (inode_ok sb).
Local Abbreviation get := (ub_get (id_pagetable me)).
Implicit Types (V : Z → block) (bl : list Z) (s : St) (d : dinode) (bn off n : Z) (u : U).

(** A file without holes. *)
Record file_ok V d : Prop := {
  fo_ok : inode_ok V d;
  fo_size : 0 ≤ di_size d ≤ MAXFILE * BSIZE;
  fo_filled bn : 0 ≤ bn → bn * BSIZE < di_size d → block_of V d bn ≠ 0;
}.

Lemma file_block_off d off : di_size d ≤ MAXFILE * BSIZE → 0 ≤ off < di_size d → file_block (off / BSIZE).
Proof.
  intros Hs Ho. pose proof BSIZE_pos. split; [apply Z.div_pos; lia|]. apply Z.div_lt_upper_bound; lia.
Qed.

Lemma filled_off V d off : file_ok V d → 0 ≤ off < di_size d → block_of V d (off / BSIZE) ≠ 0.
Proof.
  intros Hf Ho. pose proof BSIZE_pos. apply (fo_filled _ _ Hf); [apply Z.div_pos; lia|].
  pose proof (Z.mul_div_le off BSIZE). lia.
Qed.

(** A block the file has is found without changing anything. *)
Lemma bmap_found V bl ip x bn s :
  tx V bl ∅ ∅ (fs_log s) → itab s !! ip = Some x → i_dev x = ROOTDEV → inode_ok V (i_d x) →
  fs_room bl ∅ 0 → file_block bn → block_of V (i_d x) bn ≠ 0 →
  returns (bmap w ip bn) (λ r s', r = block_of V (i_d x) bn ∧ ∃ l, s' = set_log l s ∧ tx V bl ∅ ∅ l) s.
Proof.
  intros Ht Hx Hdev Hok Hroom [Hbn1 Hbn2] Hne. unfold MAXFILE in Hbn2. pose proof (io_d _ _ _ Hok) as Hd.
  eapply wp_deref_inode; [exact Hx|]. unfold block_of in Hne |- *. destruct (bn <? NDIRECT) eqn:Hlt.
  - apply Z.ltb_lt in Hlt. apply wp_bind. eapply wp_get_some; [by apply addr_lookup; [|lia]|].
    rewrite (proj2 (Z.eqb_neq _ _)) by done. apply wp_ret. split; [done|]. exists (fs_log s). by destruct s.
  - apply Z.ltb_ge in Hlt. cbv zeta. rewrite (proj2 (Z.ltb_lt (bn - NDIRECT) _)) by lia. cbn [negb].
    apply wp_bind. eapply wp_get_some; [by apply addr_lookup; [|done]|].
    change (addr_of (i_d x) NDIRECT) with (indirect (i_d x)).
    destruct (Z.eqb_spec (indirect (i_d x)) 0) as [|Hi]; [done|].
    apply wp_bind, wp_ret. rewrite (proj2 (Z.eqb_neq _ _)) by done. rewrite Hdev.
    pose proof (io_indirect _ _ _ Hok Hi) as (Hon & _).
    apply wp_bind. eapply wp_fs_bread; [exact Ht|done|by eapply fs_room_bread|by apply HD|]. intros bp l Hl. cbn beta.
    apply wp_bind. eapply wp_buf_data; [exact Hl|by rewrite lookup_insert_eq|]. cbv zeta.
    rewrite (proj2 (Z.eqb_neq _ _)) by done. apply wp_bind, wp_ret.
    apply wp_bind. eapply wp_fs_brelse; [exact Hl|by rewrite lookup_insert_eq|set_solver|].
    intros l' Hl'. rewrite delete_insert_id in Hl' by done. apply wp_ret. split; [done|]. by exists l'.
Qed.

Lemma tx_pagetable V bl hb dirty (l : logst) s :
  tx V bl hb dirty l → th_pagetable (the_thread (set_log l s)) = id_pagetable me.
Proof. intros Ht. by rewrite <- (tx_ident _ _ _ _ _ _ _ _ _ Ht). Qed.

Lemma wp_umem {A} (m : M U A) P (Q : A → St → Prop) s :
  returns m P (fs_mem s) → (∀ a u, P a u → Q a (set_fmem u s)) → wp no_sleep (on_umem m) Q s.
Proof. apply wp_zoom_returns. Qed.

(** The bytes one round of [readi] or [writei] deals with. *)
Lemma chunk_lookup V d off m (i : nat) b :
  is_block (V (block_of V d (off / BSIZE))) → 0 ≤ off → 0 ≤ m ≤ BSIZE - off `mod` BSIZE →
  take (Z.to_nat m) (drop (Z.to_nat (off `mod` BSIZE)) (V (block_of V d (off / BSIZE)))) !! i = Some b →
  Z.of_nat i < m ∧ b = content V d (off + Z.of_nat i).
Proof.
  intros [Hlen _] Ho Hm Hi. assert (i < Z.to_nat m)%nat as Him.
  { apply lookup_lt_Some in Hi. rewrite length_take in Hi. lia. }
  split; [lia|]. rewrite lookup_take_lt, lookup_drop in Hi by done.
  pose proof (Z.mod_pos_bound off BSIZE BSIZE_pos).
  destruct (block_range off (Z.of_nat i)) as [E1 E2]; [lia..|]. unfold content. rewrite E1, E2.
  unfold byte_at. rewrite nth_lookup. replace (Z.to_nat (off `mod` BSIZE + Z.of_nat i)) with (Z.to_nat (off `mod` BSIZE) + i)%nat by lia.
  by rewrite Hi.
Qed.

(** [n] bytes at [a] are the file's from [off] on. *)
Definition has_bytes V d (usr : bool) (a off n : Z) (u : U) : Prop :=
  ∀ i, 0 ≤ i < n → get usr (a + i) u = Some (content V d (off + i)).
Definition writable (usr : bool) (a n : Z) (u : U) : Prop := ∀ i, 0 ≤ i < n → is_Some (get usr (a + i) u).
Definition same_outside (usr : bool) (a n : Z) (u u' : U) : Prop :=
  ∀ x, x < a ∨ a + n ≤ x → get usr x u' = get usr x u.

Definition reads V bl d usr dst off n s (s' : St) : Prop :=
  ∃ l u, s' = set_fmem u (set_log l s) ∧ tx V bl ∅ ∅ l ∧ has_bytes V d usr dst off n u ∧
    same_outside usr dst n (fs_mem s) u.

Lemma readi_loop_spec V bl ip x usr fuel dst off n tot s :
  tx V bl ∅ ∅ (fs_log s) → itab s !! ip = Some x → i_dev x = ROOTDEV → file_ok V (i_d x) → meta V ∅ →
  fs_room bl ∅ 0 → 0 ≤ off → 0 ≤ tot ≤ n → n < 2 ^ 31 → off + (n - tot) ≤ di_size (i_d x) →
  0 ≤ dst → dst + (n - tot) < 2 ^ 64 → writable usr dst (n - tot) (fs_mem s) → n - tot ≤ Z.of_nat fuel →
  returns (readi_loop w fuel ip usr dst off n tot)
    (λ r s', r = n ∧ reads V bl (i_d x) usr dst off (n - tot) s s') s.
Proof.
  revert dst off tot s. induction fuel as [|fuel IH];
    intros dst off tot s Ht Hx Hdev Hf Hm Hroom Ho Htot Hn Hsize Hd0 Hd1 Hw Hfuel; simpl;
    (destruct (tot <? n) eqn:Hlt; cbn [negb];
      [apply Z.ltb_lt in Hlt|apply Z.ltb_ge in Hlt; replace tot with n by lia; apply wp_ret;
        (split; [by apply s32_small; lia|]);
        exists (fs_log s), (fs_mem s); rewrite Z.sub_diag;
        (split_and!; [by destruct s|done|intros i; lia|done])]).
  { lia. }
  pose proof BSIZE_pos. pose proof (Z.mod_pos_bound off BSIZE BSIZE_pos) as Hmod.
  pose proof (fo_size _ _ Hf) as Hsz. assert (MAXFILE * BSIZE < 2 ^ 31) as Hmax by by compute.
  set (m := (n - tot) `min` (BSIZE - off `mod` BSIZE)).
  assert (0 < m ≤ n - tot ∧ m ≤ BSIZE - off `mod` BSIZE) as [Hm1 Hm2] by lia.
  set (a := block_of V (i_d x) (off / BSIZE)).
  assert (a ≠ 0) as Ha by (apply filled_off; [done|lia]).
  assert (file_block (off / BSIZE)) as Hfb by (eapply file_block_off; [apply Hf|lia]).
  destruct (io_block _ _ _ (fo_ok _ _ Hf) _ Hfb Ha) as (Hon & _). fold a in Hon.
  eapply wp_call; [by apply (bmap_found V bl ip x (off / BSIZE) s); try done; apply Hf|]. cbn beta. fold a.
  intros ? ? (-> & l1 & -> & Hl1). rewrite (proj2 (Z.eqb_neq _ _)) by done.
  eapply wp_deref_inode; [exact Hx|]. rewrite Hdev.
  apply wp_bind. eapply wp_fs_bread; [exact Hl1|done|by eapply fs_room_bread|by apply HD|]. intros bp l2 Hl2. cbn beta zeta.
  apply wp_bind. eapply wp_buf_data; [exact Hl2|by rewrite lookup_insert_eq|].
  apply wp_bind, wp_gets. cbn beta. rewrite (tx_pagetable _ _ _ _ _ _ Hl2).
  pose proof (me_blocks _ _ _ Hm a Hon) as Hblk.
  set (bs := take (Z.to_nat m) (drop (Z.to_nat (off `mod` BSIZE)) (V a))).
  assert (length bs = Z.to_nat m) as Hbs.
  { unfold bs. rewrite length_take, length_drop, (proj1 Hblk). lia. }
  apply wp_bind. eapply wp_umem.
  { apply (ub_copyout (id_pagetable me) usr dst bs).
    - intros i Hi. apply Hw. lia.
    - unfold bs. apply Forall_take, Forall_drop, Hblk. }
  intros ? u1 (-> & Hu1 & Hu2). rewrite Hbs in Hu2. rewrite Z2Nat.id in Hu2 by lia.
  apply wp_bind. eapply wp_fs_brelse; [exact Hl2|by rewrite lookup_insert_eq|set_solver|].
  intros l3 Hl3. rewrite delete_insert_id in Hl3 by done. cbn beta.
  rewrite u64_small, u32_small by lia.
  set (s3 := set_log l3 _).
  eapply wp_mono.
  { apply (IH (dst + m) (off + m) (tot + m) s3); try done; try lia.
    intros i Hi. unfold s3. cbn. rewrite Hu2 by lia. replace (dst + m + i) with (dst + (m + i)) by lia. apply Hw. lia. }
  intros r s' (-> & l & u & -> & Hl & Hb & Hs). split; [done|]. exists l, u.
  split_and!; [done|done| |].
  - intros i Hi. destruct (decide (i < m)) as [Him|Him].
    + rewrite Hs by lia. unfold s3. cbn.
      destruct (lookup_lt_is_Some_2 bs (Z.to_nat i)) as [b Hb']; [lia|].
      destruct (chunk_lookup V (i_d x) off m (Z.to_nat i) b Hblk) as [_ ->]; [lia|lia|exact Hb'|].
      rewrite Z2Nat.id in * by lia. rewrite <- (Z2Nat.id i) at 1 by lia.
      by rewrite (Hu1 _ _ Hb').
    + replace (dst + i) with (dst + m + (i - m)) by lia. rewrite Hb by lia. do 2 f_equal. lia.
  - intros z Hz. rewrite Hs by lia. unfold s3. cbn. apply Hu2. lia.
Qed.

(** What [readi] gives: as many of the [n] bytes as there are. *)
Definition readable d off n : Z := if di_size d <? off then 0 else n `min` (di_size d - off).

Lemma readi_spec V bl ip x usr dst off n s :
  tx V bl ∅ ∅ (fs_log s) → itab s !! ip = Some x → i_dev x = ROOTDEV → file_ok V (i_d x) → meta V ∅ →
  fs_room bl ∅ 0 → 0 ≤ off → 0 ≤ n → off + n < 2 ^ 32 → 0 ≤ dst →
  let k := readable (i_d x) off n in
  dst + k < 2 ^ 64 → writable usr dst k (fs_mem s) →
  returns (readi w ip usr dst off n) (λ r s', r = k ∧ reads V bl (i_d x) usr dst off k s s') s.
Proof.
  intros Ht Hx Hdev Hf Hm Hroom Ho Hn Hlt Hd0 k Hd1 Hw. pose proof (fo_size _ _ Hf) as Hsz.
  assert (MAXFILE * BSIZE < 2 ^ 31) as Hmax by by compute.
  eapply wp_deref_inode; [exact Hx|]. cbv zeta. rewrite u32_small by lia.
  rewrite (proj2 (Z.ltb_ge (off + n) off)) by lia. rewrite orb_false_r. unfold k, readable in *.
  destruct (di_size (i_d x) <? off) eqn:Hs.
  - apply wp_ret. split; [done|]. exists (fs_log s), (fs_mem s).
    split_and!; [by destruct s|done|intros i; lia|done].
  - apply Z.ltb_ge in Hs.
    assert ((if di_size (i_d x) <? off + n then di_size (i_d x) - off else n) = n `min` (di_size (i_d x) - off)) as ->.
    { destruct (Z.ltb_spec (di_size (i_d x)) (off + n)); lia. }
    set (k' := n `min` _) in *. pose proof (readi_loop_spec V bl ip x usr (Z.to_nat k') dst off k' 0 s) as HL.
    rewrite Z.sub_0_r in HL. apply HL; done || lia.
Qed.

(** * Writing *)

(** The file after the bytes [bs] were written at [off], as far as the blocks go:
    the size is not changed yet. *)
Record written V d V' d' off (bs : list Z) : Prop := {
  wr_ok : inode_ok V' d';
  wr_meta : meta V' ∅;
  wr_inodes : inodes_ok sb V';
  wr_fields : Dinode (di_type d') (di_major d') (di_minor d') (di_nlink d') (di_size d') (di_addrs d) = d;
  wr_block bn : file_block bn → block_of V d bn ≠ 0 → block_of V' d' bn = block_of V d bn;
  wr_ind : indirect d ≠ 0 → indirect d' = indirect d;
  wr_ind_free : indirect d = 0 → indirect d' ≠ 0 → bit V sb (indirect d') = false;
  wr_new_free bn : file_block bn → block_of V d bn = 0 → block_of V' d' bn ≠ 0 →
    bit V sb (block_of V' d' bn) = false;
  wr_bits b : on_disk sb b → bit V sb b = true → bit V' sb b = true;
  wr_data (i : nat) b : bs !! i = Some b →
    block_of V' d' ((off + Z.of_nat i) / BSIZE) ≠ 0 ∧ content V' d' (off + Z.of_nat i) = b;
  wr_same o : 0 ≤ o < MAXFILE * BSIZE → block_of V d (o / BSIZE) ≠ 0 →
    o < off ∨ off + Z.of_nat (length bs) ≤ o → content V' d' o = content V d o;
  wr_frame n : on_disk sb n → bit V sb n = true → (∀ b, on_disk sb b → n ≠ BBLOCK b sb) →
    n ≠ indirect d → (∀ bn, file_block bn → n ≠ block_of V d bn) → V' n = V n;
}.

Lemma off_block o : 0 ≤ o < MAXFILE * BSIZE → file_block (o / BSIZE).
Proof.
  intros Ho. pose proof BSIZE_pos. split; [apply Z.div_pos; lia|]. apply Z.div_lt_upper_bound; lia.
Qed.

Lemma written_nil V d V' d' off : inode_ok V d → extends sb V d V' d' → written V d V' d' off [].
Proof.
  intros Hok E. split; try apply E.
  - by intros i b ?.
  - intros o Ho Hz _. unfold content. destruct (ex_old _ _ _ _ _ E (o / BSIZE)) as [-> ->]; [by apply off_block|done|done].
  - intros n ? ? ? ? _. by apply (ex_frame _ _ _ _ _ E).
Qed.

Lemma written_trans V d V1 d1 V2 d2 off bs cs :
  inode_ok V d → 0 ≤ off → off + Z.of_nat (length bs) ≤ MAXFILE * BSIZE →
  written V d V1 d1 off bs → written V1 d1 V2 d2 (off + Z.of_nat (length bs)) cs → written V d V2 d2 off (bs ++ cs).
Proof.
  intros Hok Ho Hmax W1 W2. split; try apply W2.
  - rewrite <- (wr_fields _ _ _ _ _ _ W1), <- (wr_fields _ _ _ _ _ _ W2). done.
  - intros bn Hbn Hz. pose proof (wr_block _ _ _ _ _ _ W1 bn Hbn Hz) as H1. rewrite <- H1. apply (wr_block _ _ _ _ _ _ W2); [done|congruence].
  - intros Hi. pose proof (wr_ind _ _ _ _ _ _ W1 Hi) as H1. rewrite <- H1. apply (wr_ind _ _ _ _ _ _ W2). congruence.
  - intros Hz Hne. destruct (decide (indirect d1 = 0)) as [H1|H1].
    + pose proof (wr_ind_free _ _ _ _ _ _ W2 H1 Hne) as Hf. apply not_true_iff_false. intros Ht.
      rewrite (wr_bits _ _ _ _ _ _ W1) in Hf; [done| |done]. by apply (io_indirect _ _ _ (wr_ok _ _ _ _ _ _ W2)).
    + rewrite (wr_ind _ _ _ _ _ _ W2 H1). by apply (wr_ind_free _ _ _ _ _ _ W1).
  - intros bn Hbn Hz Hne. destruct (decide (block_of V1 d1 bn = 0)) as [H1|H1].
    + pose proof (wr_new_free _ _ _ _ _ _ W2 bn Hbn H1 Hne) as Hf. apply not_true_iff_false. intros Ht.
      rewrite (wr_bits _ _ _ _ _ _ W1) in Hf; [done| |done]. by apply (io_block _ _ _ (wr_ok _ _ _ _ _ _ W2)).
    + rewrite (wr_block _ _ _ _ _ _ W2 bn Hbn H1). by apply (wr_new_free _ _ _ _ _ _ W1).
  - intros b Hb Ht. apply (wr_bits _ _ _ _ _ _ W2); [done|]. by apply (wr_bits _ _ _ _ _ _ W1).
  - intros i b Hi. apply lookup_app_Some in Hi as [Hi|[Hle Hi]].
    + pose proof (lookup_lt_Some _ _ _ Hi) as Hlt. destruct (wr_data _ _ _ _ _ _ W1 i b Hi) as [H1 H2]. split.
      * rewrite (wr_block _ _ _ _ _ _ W2); [done| |done]. apply off_block. lia.
      * rewrite (wr_same _ _ _ _ _ _ W2); [done|lia|done|left; lia].
    + destruct (wr_data _ _ _ _ _ _ W2 _ b Hi) as [H1 H2].
      replace (off + Z.of_nat (length bs) + Z.of_nat (i - length bs)) with (off + Z.of_nat i) in * by lia. done.
  - rewrite length_app. intros o Hob Hz Hor. pose proof (off_block o Hob) as Hfb.
    pose proof (wr_block _ _ _ _ _ _ W1 _ Hfb Hz) as H1.
    rewrite (wr_same _ _ _ _ _ _ W2); [apply (wr_same _ _ _ _ _ _ W1); [done|done|lia]|done|congruence|lia].
  - intros n Hn Ht Hnb Hni Hbl. rewrite (wr_frame _ _ _ _ _ _ W2); [by apply (wr_frame _ _ _ _ _ _ W1)|done| |done|..].
    + by apply (wr_bits _ _ _ _ _ _ W1).
    + intros ->. destruct (decide (indirect d = 0)) as [Hz|Hz]; [|by rewrite (wr_ind _ _ _ _ _ _ W1 Hz) in Hni].
      destruct (decide (indirect d1 = 0)) as [H1|H1]; [by rewrite H1, Hz in Hni|].
      rewrite (wr_ind_free _ _ _ _ _ _ W1 Hz H1) in Ht. done.
    + intros bn Hbn ->. destruct (decide (block_of V d bn = 0)) as [Hz|Hz].
      * destruct (decide (block_of V1 d1 bn = 0)) as [H1|H1].
        -- apply (Hbl bn Hbn). congruence.
        -- rewrite (wr_new_free _ _ _ _ _ _ W1 bn Hbn Hz H1) in Ht. done.
      * apply (Hbl bn Hbn). by apply (wr_block _ _ _ _ _ _ W1).
Qed.

(** Part of a block replaced. *)
Definition splice (o : nat) (bs b : block) : block := take o b ++ bs ++ drop (o + length bs) b.

Lemma splice_block (o : nat) bs b :
  (o + length bs ≤ length b)%nat → is_block b → Forall is_byte bs → is_block (splice o bs b).
Proof.
  intros Ho [Hlen Hf] Hbs. unfold splice. split.
  - rewrite !length_app, length_take, length_drop. lia.
  - rewrite !Forall_app. split_and!; [by apply Forall_take|done|by apply Forall_drop].
Qed.

Lemma byte_at_splice (o : nat) bs b i :
  (o + length bs ≤ length b)%nat → 0 ≤ i →
  byte_at (splice o bs b) i =
    if decide (Z.of_nat o ≤ i < Z.of_nat (o + length bs)) then byte_at bs (i - Z.of_nat o) else byte_at b i.
Proof.
  intros Ho Hi. unfold byte_at, splice. rewrite !nth_lookup. case_decide.
  - rewrite lookup_app_r by (rewrite length_take; lia). rewrite lookup_app_l by (rewrite length_take; lia).
    do 2 f_equal. rewrite length_take. lia.
  - destruct (decide (i < Z.of_nat o)).
    + rewrite lookup_app_l by (rewrite length_take; lia). by rewrite lookup_take_lt by lia.
    + rewrite lookup_app_r by (rewrite length_take; lia). rewrite lookup_app_r by (rewrite length_take; lia).
      rewrite lookup_drop, length_take. do 2 f_equal. lia.
Qed.

(** Changing a block that holds no address and no bit changes none. *)
Lemma store_data V d a b :
  inode_ok V d → meta V ∅ → inodes_ok sb V → on_disk sb a → (∀ c, on_disk sb c → a ≠ BBLOCK c sb) →
  (indirect d ≠ 0 → a ≠ indirect d) → is_block b →
  let V' := <[a := b]> V in
  (∀ bn, block_of V' d bn = block_of V d bn) ∧ (∀ c, on_disk sb c → bit V' sb c = bit V sb c) ∧
  inode_ok V' d ∧ meta V' ∅ ∧ inodes_ok sb V'.
Proof.
  clear HD. intros Hok Hm Hin Hon Hnb Hi Hb V'.
  assert (∀ bn, block_of V' d bn = block_of V d bn) as Hblk.
  { intros bn. unfold block_of, V'. destruct (bn <? NDIRECT); [done|].
    destruct (Z.eqb_spec (indirect d) 0); [done|]. by rewrite fn_lookup_insert_ne by auto. }
  assert (∀ c, on_disk sb c → bit V' sb c = bit V sb c) as Hbit.
  { intros c Hc. unfold bit, V'. rewrite fn_lookup_insert_ne; [done|]. by apply Hnb. }
  assert (∀ c, data_block sb V c → data_block sb V' c) as Hd.
  { intros c (? & ? & ? & ?). split_and!; try done. by rewrite Hbit. }
  split_and!; [done|done|..].
  - destruct Hok as [K1 K2 K3 K4 K5]. split; [done| | | |].
    + intros ?. by apply Hd, K2.
    + intros bn ?. rewrite Hblk. intros ?. by apply Hd, K3.
    + intros bn bn' ? ?. rewrite !Hblk. by apply K4.
    + intros bn ? ?. rewrite Hblk. by apply K5.
  - destruct Hm as [M1 M2 M3 _]. split; [| | |set_solver].
    + intros c Hc. rewrite Hbit by by apply BBLOCK_eq. by apply M1.
    + rewrite Hbit by (apply on_disk_0; exact Hlay). done.
    + intros n Hn. unfold V'. destruct (decide (n = a)) as [->|]; [by rewrite fn_lookup_insert|].
      rewrite fn_lookup_insert_ne by done. by apply M3.
  - intros i Hi'. destruct (Hin i Hi') as (? & ? & ?). split_and!; [done|by rewrite Hbit|done].
Qed.

Lemma written_store V d V1 d1 off bs :
  inode_ok V d → extends sb V d V1 d1 → 0 ≤ off → let a := block_of V1 d1 (off / BSIZE) in
  file_block (off / BSIZE) → a ≠ 0 → Z.of_nat (length bs) ≤ BSIZE - off `mod` BSIZE → Forall is_byte bs →
  written V d (<[a := splice (Z.to_nat (off `mod` BSIZE)) bs (V1 a)]> V1) d1 off bs.
Proof.
  clear HD. intros Hok E Ho a Hfb Ha Hlen Hbs. pose proof (Z.mod_pos_bound off BSIZE BSIZE_pos) as Hmod.
  pose proof (ex_ok _ _ _ _ _ E) as Hok1. pose proof (ex_meta _ _ _ _ _ E) as Hm1.
  pose proof (io_block _ _ _ Hok1 _ Hfb Ha) as Hda. pose proof Hda as (Hona & _ & Hnba & _). fold a in Hda, Hona, Hnba.
  assert (indirect d1 ≠ 0 → a ≠ indirect d1) as Hai by (intros; by apply Hok1).
  pose proof (me_blocks _ _ _ Hm1 a Hona) as Hblk. pose proof (proj1 Hblk) as Hlb.
  set (o := Z.to_nat (off `mod` BSIZE)).
  assert (o + length bs ≤ length (V1 a))%nat as Hfit by (rewrite Hlb; lia).
  assert (is_block (splice o bs (V1 a))) as Hsb by by apply splice_block.
  destruct (store_data V1 d1 a _ Hok1 Hm1 (ex_inodes _ _ _ _ _ E) Hona Hnba Hai Hsb) as (Hblk' & Hbit & R1 & R2 & R3).
  set (V' := <[a := _]> V1) in *. split; try done; try apply E.
  - intros bn Hbn Hz. rewrite Hblk'. by apply (ex_old _ _ _ _ _ E).
  - intros bn Hbn Hz. rewrite Hblk'. by apply (ex_new_free _ _ _ _ _ E).
  - intros c Hc Ht. rewrite Hbit by done. by apply (ex_bits _ _ _ _ _ E).
  - intros i b Hi. pose proof (lookup_lt_Some _ _ _ Hi). destruct (block_range off (Z.of_nat i)) as [E1 E2]; [lia..|].
    unfold content. rewrite E1, E2, Hblk'. split; [done|]. fold a. unfold V'. rewrite fn_lookup_insert.
    rewrite byte_at_splice by lia. rewrite decide_True by lia. unfold byte_at. rewrite nth_lookup.
    replace (Z.to_nat (off `mod` BSIZE + Z.of_nat i - Z.of_nat o)) with i by lia. by rewrite Hi.
  - intros z Hzr Hz Hor. pose proof (off_block z Hzr) as Hfz.
    destruct (ex_old _ _ _ _ _ E _ Hfz Hz) as [E1 E2]. unfold content. rewrite Hblk', E1, <- E2. unfold V'.
    destruct (decide (block_of V d (z / BSIZE) = a)) as [Heq|]; [|by rewrite fn_lookup_insert_ne].
    rewrite Heq, fn_lookup_insert. pose proof (Z.mod_pos_bound z BSIZE BSIZE_pos).
    rewrite byte_at_splice by lia. rewrite decide_False; [done|].
    assert (z / BSIZE = off / BSIZE) as Hdiv by (apply (io_inj _ _ _ Hok1); [done|done|by rewrite E1|by rewrite E1]).
    pose proof (Z.div_mod z BSIZE). pose proof (Z.div_mod off BSIZE). pose proof BSIZE_pos. rewrite Hdiv in *. lia.
  - intros n Hn Ht Hnb Hni Hbl. unfold V'. rewrite fn_lookup_insert_ne; [by apply (ex_frame _ _ _ _ _ E)|].
    intros <-. destruct (decide (block_of V d (off / BSIZE) = 0)) as [Hz|Hz].
    + unfold a in Ht. rewrite (ex_new_free _ _ _ _ _ E _ Hfb Hz Ha) in Ht. done.
    + apply (Hbl _ Hfb). unfold a. by apply (ex_old _ _ _ _ _ E).
Qed.
End io.
