(* ===== verification/FsWrite.v ===== *)
(** [iupdate] and [writei] (kernel/fs.c): a write changes the bytes it should and
    nothing else. *)

From stdpp Require Import functions.
From S2P Require Import Prelude Riscv Mem Threads Sleeplock Bio Log LogWrite Fs FsTx FsAlloc FsData FsFile FsIO.
Local Open Scope Z_scope.

Section write.
Context (me : identity) (D : gmap Z block) (logsize nops : Z) (w : nat) {U : Type} `{UserBytes U}.
Context (sb : superblock) (Hlay : layout sb) (HD : ∀ n, on_disk sb n → is_Some (D !! n)).
Local Abbreviation St := (fsst U).
Local Abbreviation tx := (tx me D logsize nops).
Local Abbreviation meta := (meta sb).
Local Abbreviation fs_room := (fs_room logsize nops).
Local Abbreviation inode_ok := (inode_ok sb).
Local Abbreviation file_ok := (file_ok sb).
Local Abbreviation written := (written sb).
Local Abbreviation get := (ub_get (id_pagetable me)).
Implicit Types (V : Z → block) (bl : list Z) (s : St) (d : dinode) (bn off n : Z) (u : U) (data : list Z).

Lemma with_file_twice ip x d1 d2 l1 l2 s :
  with_file ip (with_dinode (λ _, d1) x) d2 l2 (with_file ip x d1 l1 s) = with_file ip x d2 l2 s.
Proof. unfold with_file. simpl. by rewrite insert_insert_eq. Qed.

Lemma with_file_lookup ip x d' l s : itab (with_file ip x d' l s) !! ip = Some (with_dinode (λ _, d') x).
Proof. apply lookup_insert_eq. Qed.

(** The buffer [data] is at [src]. *)
Definition at_src usr src data (u : U) : Prop :=
  ∀ (i : nat) b, data !! i = Some b → get usr (src + Z.of_nat i) u = Some b.

Lemma at_src_drop usr src data u (m : nat) : at_src usr src data u → at_src usr (src + Z.of_nat m) (drop m data) u.
Proof.
  intros Ha i b Hi. rewrite lookup_drop in Hi. rewrite <- (Ha _ _ Hi). f_equal. lia.
Qed.

(** One round of [writei] once the bytes are there. *)
Lemma write_chunk V bl (bp : Z) a b s (f : M St (Z * Z)) Q :
  tx V bl (<[a := bp]> ∅) ∅ (fs_log s) → length b = Z.to_nat BSIZE → fs_room bl ∅ 1 →
  (∀ l, tx (<[a := b]> V) (absorb a bl) ∅ ∅ l → returns f Q (set_log l s)) →
  returns (set_buf_data bp b;;; fs_log_write bp;;; fs_brelse bp;;; f) Q s.
Proof.
  intros Ht Hlen Hroom HQ. apply wp_bind. eapply wp_set_buf_data; [exact Ht|by rewrite lookup_insert_eq|done|].
  intros l1 Hl1. apply wp_bind. eapply wp_fs_log_write; [exact Hl1|by rewrite lookup_insert_eq| |].
  { unfold fs_room, FsAlloc.fs_room in Hroom. unfold log_room. lia. }
  intros l2 Hl2. replace (({[a]} ∪ ∅) ∖ {[a]}) with (∅ : gset Z) in Hl2 by set_solver.
  apply wp_bind. eapply wp_fs_brelse; [exact Hl2|by rewrite lookup_insert_eq|set_solver|].
  intros l3 Hl3. rewrite delete_insert_id in Hl3 by done. by apply HQ.
Qed.

Lemma set_fmem_id s : set_fmem (fs_mem s) s = s.
Proof. by destruct s. Qed.

(** What the loop of [writei] has done when it leaves with [j] bytes written. *)
Definition writes V bl ip x off data (n tot : Z) s (r : Z * Z) (s' : St) : Prop :=
  ∃ (j : nat) l V' d' bl', r = (tot + Z.of_nat j, off + Z.of_nat j) ∧ (j ≤ length data)%nat ∧
    s' = with_file ip x d' l s ∧ tx V' bl' ∅ ∅ l ∧ fs_room bl' ∅ 1 ∧
    written V (i_d x) V' d' off (take j data) ∧ (tot + Z.of_nat j = n ∨ disk_full sb V').

Lemma writei_loop_spec V bl ip x usr fuel (k : nat) src off n tot data s :
  tx V bl ∅ ∅ (fs_log s) → fs_sb s = sb → itab s !! ip = Some x → i_dev x = ROOTDEV →
  inode_ok V (i_d x) → meta V ∅ → inodes_ok sb V → fs_room bl ∅ (6 * k + 1) →
  0 ≤ off → 0 ≤ tot ≤ n → n < 2 ^ 31 → off + (n - tot) ≤ MAXFILE * BSIZE →
  n - tot = 0 ∨ off `mod` BSIZE + (n - tot) ≤ Z.of_nat k * BSIZE →
  Z.of_nat (length data) = n - tot → Forall is_byte data → at_src usr src data (fs_mem s) →
  0 ≤ src → src + (n - tot) < 2 ^ 64 → n - tot ≤ Z.of_nat fuel →
  returns (writei_loop w fuel ip usr src off n tot) (writes V bl ip x off data n tot s) s.
Proof.
  revert V bl x k src off tot data s. induction fuel as [|fuel IH];
    intros V bl x k src off tot data s Ht Hsb Hx Hdev Hok Hm Hin Hroom Ho Htot Hn Hmax Hk Hlen Hbytes Hsrc Hs0 Hs1 Hfuel;
    simpl; (destruct (tot <? n) eqn:Hlt; cbn [negb];
      [apply Z.ltb_lt in Hlt|apply Z.ltb_ge in Hlt; apply wp_ret; exists 0%nat, (fs_log s), V, (i_d x), bl;
       rewrite with_file_id by done;
       (split_and!; [by rewrite !Z.add_0_r|lia|by destruct s|done|eapply fs_room_mono; [exact Hroom|lia]| |left; lia]);
       apply written_nil; [done|by apply extends_refl]]).
  { lia. }
  pose proof BSIZE_pos. pose proof (Z.mod_pos_bound off BSIZE BSIZE_pos) as Hmod.
  assert (MAXFILE * BSIZE < 2 ^ 31) as Hmx by by compute.
  set (m := (n - tot) `min` (BSIZE - off `mod` BSIZE)).
  assert (0 < m ≤ n - tot ∧ m ≤ BSIZE - off `mod` BSIZE) as [Hm1 Hm2] by lia.
  destruct k as [|k]; [lia|].
  assert (file_block (off / BSIZE)) as Hfb by (apply off_block; lia).
  eapply wp_call.
  { apply (bmap_spec me D logsize nops w sb Hlay HD V bl ip x (off / BSIZE) s); try done.
    eapply fs_room_mono; [exact Hroom|lia]. }
  cbn beta. intros a s1 (l1 & V1 & d1 & bl1 & -> & Hl1 & Hlen1 & Hex & [-> Hfull]).
  destruct (Z.eqb_spec (block_of V1 d1 (off / BSIZE)) 0) as [Ha|Ha].
  { apply wp_ret. exists 0%nat, l1, V1, d1, bl1.
    split_and!; [by rewrite !Z.add_0_r|lia|done|done| |by apply written_nil|right; by apply Hfull].
    unfold fs_room, FsAlloc.fs_room in *. lia. }
  set (a := block_of V1 d1 (off / BSIZE)) in *.
  pose proof (io_block _ _ _ (ex_ok _ _ _ _ _ Hex) _ Hfb Ha) as (Hon & _). fold a in Hon.
  pose proof (me_blocks _ _ _ (ex_meta _ _ _ _ _ Hex) a Hon) as Hblk.
  eapply wp_deref_inode; [apply with_file_lookup|]. cbn [i_dev with_dinode]. rewrite Hdev.
  apply wp_bind. eapply wp_fs_bread; [exact Hl1|done| |by apply HD|].
  { unfold fs_room, FsAlloc.fs_room in Hroom. rewrite map_size_empty in *. lia. }
  intros bp l2 Hl2. cbn beta zeta.
  apply wp_bind. eapply wp_buf_data; [exact Hl2|by rewrite lookup_insert_eq|].
  apply wp_bind, wp_gets. cbn beta. rewrite (tx_pagetable _ _ _ _ _ _ _ _ _ _ Hl2).
  set (bs := take (Z.to_nat m) data).
  assert (length bs = Z.to_nat m) as Hbs by (unfold bs; rewrite length_take; lia).
  apply wp_bind. eapply wp_umem; [rewrite <- Hbs; apply (ub_copyin _ usr src bs)|].
  { intros i b Hi. apply Hsrc. unfold bs in Hi. by apply lookup_take_Some in Hi as [? _]. }
  intros ? u [-> ->]. rewrite Hbs. rewrite (proj2 (Z.ltb_ge _ _)) by lia. rewrite <- Hbs.
  fold (splice (Z.to_nat (off `mod` BSIZE)) bs (V1 a)). rewrite set_fmem_id.
  assert (Forall is_byte bs) as Hbsb by by apply Forall_take.
  assert (is_block (splice (Z.to_nat (off `mod` BSIZE)) bs (V1 a))) as [Hls _].
  { apply splice_block; [|done|done]. rewrite (proj1 Hblk), Hbs. lia. }
  pose proof (written_store sb Hlay V (i_d x) V1 d1 off bs Hok Hex Ho Hfb Ha ltac:(lia) Hbsb) as Hwr.
  fold a in Hwr. eapply write_chunk; [exact Hl2|done| |].
  { unfold fs_room, FsAlloc.fs_room in *. lia. }
  intros l3 Hl3. change (set_log l3 (set_log l2 (with_file ip x d1 l1 s))) with (with_file ip x d1 l3 s).
  set (V2 := <[a := _]> V1) in *. set (x1 := with_dinode (λ _, d1) x).
  rewrite u64_small, u32_small by lia. replace m with (Z.of_nat (length bs)) by lia.
  eapply wp_mono.
  { apply (IH V2 (absorb a bl1) x1 k _ _ _ (drop (length bs) data) (with_file ip x d1 l3 s)); try done.
    - apply with_file_lookup.
    - apply Hwr.
    - apply Hwr.
    - apply Hwr.
    - pose proof (absorb_length a bl1). unfold fs_room, FsAlloc.fs_room in *. rewrite map_size_empty in *. lia.
    - lia.
    - lia.
    - lia.
    - destruct (decide (n - tot ≤ BSIZE - off `mod` BSIZE)); [left; lia|right].
      assert ((off + Z.of_nat (length bs)) `mod` BSIZE = 0) as ->; [|lia].
      replace (off + Z.of_nat (length bs)) with ((off / BSIZE + 1) * BSIZE); [apply Z.mod_mul; lia|].
      pose proof (Z.div_mod off BSIZE). lia.
    - rewrite length_drop. lia.
    - by apply Forall_drop.
    - by apply at_src_drop.
    - lia.
    - lia.
    - lia. }
  intros r s' (j & l & V' & d' & bl' & -> & Hj & -> & Hl & Hroom' & Hwr' & Hend).
  unfold x1. rewrite with_file_twice. exists (length bs + j)%nat, l, V', d', bl'.
  rewrite length_drop in Hj. split_and!; try done.
  - f_equal; lia.
  - lia.
  - replace (take (length bs + j) data) with (bs ++ take j (drop (length bs) data)).
    + eapply written_trans; [exact Hok|done|lia|exact Hwr|exact Hwr'].
    + rewrite <- (take_take_drop data (length bs) j). f_equal. by rewrite Hbs.
  - destruct Hend; [left; lia|by right].
Qed.

(** * [iupdate] *)

Definition slot (x : inode) : Z := i_inum x `mod` IPB.
Definition home_block (x : inode) : Z := IBLOCK (i_inum x) sb.

Lemma slot_range x : 0 ≤ slot x < IPB.
Proof. apply Z.mod_pos_bound. by compute. Qed.

Lemma iupdate_spec V bl ip x s :
  tx V bl ∅ ∅ (fs_log s) → fs_sb s = sb → itab s !! ip = Some x → i_dev x = ROOTDEV →
  0 ≤ i_inum x < sb_ninodes sb → dinode_ok (i_d x) → meta V ∅ → inodes_ok sb V → fs_room bl ∅ 1 →
  returns (iupdate w ip)
    (λ _ s', ∃ l, s' = set_log l s ∧
       tx (<[home_block x := put_dinode (V (home_block x)) (slot x) (i_d x)]> V) (absorb (home_block x) bl) ∅ ∅ l) s.
Proof.
  intros Ht Hsb Hx Hdev Hi Hd Hm Hin Hroom. destruct (Hin _ Hi) as (Hon & _).
  pose proof (me_blocks _ _ _ Hm _ Hon) as Hblk.
  eapply wp_deref_inode; [exact Hx|]. apply wp_bind, wp_gets. cbn beta. rewrite Hsb, Hdev. fold (home_block x).
  apply wp_bind. eapply wp_fs_bread; [exact Ht|done|by eapply fs_room_bread|by apply HD|]. intros bp l Hl. cbn beta.
  apply wp_bind. eapply wp_buf_data; [exact Hl|by rewrite lookup_insert_eq|].
  eapply wp_deref_inode; [exact Hx|]. fold (slot x).
  eapply wp_change; [exact Hl|by rewrite lookup_insert_eq|set_solver| | |].
  - rewrite put_dinode_length; [apply Hblk|apply slot_range|by apply slot_fits; [apply slot_range|]|done].
  - by eapply fs_room_log.
  - intros l' Hl'. rewrite delete_insert_id in Hl' by done. by exists l'.
Qed.

(** * [writei] *)

(** A file of the file system: its inode is a slot of an inode block. *)
Record open_file V (ip : Z) (x : inode) s : Prop := {
  of_tab : itab s !! ip = Some x;
  of_dev : i_dev x = ROOTDEV;
  of_inum : 0 ≤ i_inum x < sb_ninodes sb;
  of_file : file_ok V (i_d x);
}.

(** The file after a write of the bytes [bs] at [off]. *)
Record file_written V (x : inode) V' d' off (bs : list Z) : Prop := {
  fw_file : file_ok V' d';
  fw_size : di_size d' = di_size (i_d x) `max` (off + Z.of_nat (length bs));
  fw_data (i : nat) b : bs !! i = Some b → content V' d' (off + Z.of_nat i) = b;
  fw_same o : 0 ≤ o < di_size (i_d x) → o < off ∨ off + Z.of_nat (length bs) ≤ o →
    content V' d' o = content V (i_d x) o;
  fw_home : get_dinode (V' (home_block x)) (slot x) = d';
  fw_slots i : 0 ≤ i → i ≠ slot x → get_dinode (V' (home_block x)) i = get_dinode (V (home_block x)) i;
  fw_frame n : on_disk sb n → bit V sb n = true → (∀ b, on_disk sb b → n ≠ BBLOCK b sb) →
    n ≠ home_block x → n ≠ indirect (i_d x) →
    (∀ bn, file_block bn → n ≠ block_of V (i_d x) bn) → V' n = V n;
}.

Lemma with_size_ok k d : dinode_ok d → 0 ≤ k < 2 ^ 32 → dinode_ok (with_size k d).
Proof. by intros [] ?. Qed.

Lemma file_written_spec V x V3 d3 off bs :
  let size := di_size (i_d x) `max` (off + Z.of_nat (length bs)) in
  let d4 := with_size size d3 in
  let V4 := <[home_block x := put_dinode (V3 (home_block x)) (slot x) d4]> V3 in
  file_ok V (i_d x) → meta V ∅ → inodes_ok sb V → 0 ≤ i_inum x < sb_ninodes sb →
  written V (i_d x) V3 d3 off bs → 0 ≤ off ≤ di_size (i_d x) → off + Z.of_nat (length bs) ≤ MAXFILE * BSIZE →
  file_written V x V4 d4 off bs ∧ meta V4 ∅ ∧ inodes_ok sb V4 ∧ (disk_full sb V3 → disk_full sb V4).
Proof.
  intros size d4 V4 Hf Hm Hin Hi Hw Ho Hmax. pose proof (fo_size _ _ _ Hf) as Hsz.
  pose proof BSIZE_pos. assert (MAXFILE * BSIZE < 2 ^ 31) as Hmx by by compute.
  set (B := home_block x) in *.
  pose proof (wr_ok _ _ _ _ _ _ _ Hw) as Hok3. pose proof (wr_inodes _ _ _ _ _ _ _ Hw) as Hin3.
  destruct (Hin3 _ Hi) as (HonB & _ & HnbB). fold (home_block x) in HonB, HnbB. fold B in HonB, HnbB.
  assert (dinode_ok d4) as Hd4 by (apply with_size_ok; [apply Hok3|lia]).
  assert (inode_ok V3 d4) as Hok4 by by destruct Hok3; split.
  pose proof (me_blocks _ _ _ (wr_meta _ _ _ _ _ _ _ Hw) B HonB) as HblkB.
  assert (indirect d4 ≠ 0 → B ≠ indirect d4) as HBi.
  { intros Hne Heq. destruct (io_indirect _ _ _ Hok4 Hne) as (_ & _ & _ & Hni). by apply (Hni _ Hi). }
  assert (∀ bn, file_block bn → block_of V3 d3 bn ≠ 0 → block_of V3 d3 bn ≠ B) as HBb.
  { intros bn Hbn Hne Heq. destruct (io_block _ _ _ Hok3 bn Hbn Hne) as (_ & _ & _ & Hni). by apply (Hni _ Hi). }
  destruct (store_data sb Hlay V3 d4 B (put_dinode (V3 B) (slot x) d4) Hok4 (wr_meta _ _ _ _ _ _ _ Hw) Hin3 HonB HnbB HBi)
    as (Hblk & Hbit & R1 & R2 & R3); [by apply put_dinode_block; [apply slot_range|..]|]. fold V4 in Hblk, Hbit, R1, R2, R3.
  assert (∀ o, 0 ≤ o < MAXFILE * BSIZE → block_of V3 d3 (o / BSIZE) ≠ 0 → content V4 d4 o = content V3 d3 o) as Hcont.
  { intros o Hor Hne. unfold content. rewrite Hblk. unfold V4. rewrite fn_lookup_insert_ne; [done|].
    intros Heq. apply (HBb (o / BSIZE)); [by apply off_block|done|done]. }
  assert (∀ o, 0 ≤ o < di_size (i_d x) → block_of V3 d3 (o / BSIZE) ≠ 0) as Hold.
  { intros o Hor. assert (block_of V (i_d x) (o / BSIZE) ≠ 0) as Hne by (by apply (filled_off sb)).
    rewrite (wr_block _ _ _ _ _ _ _ Hw); [done|apply off_block; lia|done]. }
  split_and!; [|done|done|]; [|intros Hf3 c Hc; rewrite Hbit by done; by apply Hf3]. split.
  - split; [done|unfold d4, size; simpl; lia|]. intros bn Hbn Hlt. rewrite Hblk. unfold d4, size in Hlt. simpl in Hlt.
    destruct (decide (bn * BSIZE < di_size (i_d x))) as [Hl|Hl].
    + replace bn with (bn * BSIZE / BSIZE) by (apply Z.div_mul; lia). apply Hold. lia.
    + set (i := Z.to_nat (bn * BSIZE - off)). assert (i < length bs)%nat as Hib by lia.
      destruct (lookup_lt_is_Some_2 bs i Hib) as [b Hb]. destruct (wr_data _ _ _ _ _ _ _ Hw i b Hb) as [Hne _].
      replace (off + Z.of_nat i) with (bn * BSIZE) in Hne by lia. by rewrite Z.div_mul in Hne by lia.
  - done.
  - intros i b Hb. pose proof (lookup_lt_Some _ _ _ Hb). destruct (wr_data _ _ _ _ _ _ _ Hw i b Hb) as [Hne <-].
    apply Hcont; [lia|done].
  - intros o Hor Hout. rewrite Hcont by (lia || by apply Hold).
    apply (wr_same _ _ _ _ _ _ _ Hw); [lia|by apply (filled_off sb)|done].
  - unfold V4. rewrite fn_lookup_insert. apply get_put_dinode; [apply slot_range|by apply slot_fits; [apply slot_range|]|done].
  - intros i Hi0 Hine. unfold V4. fold B. rewrite fn_lookup_insert.
    rewrite get_put_dinode_ne; [|apply slot_range|done|done|by apply slot_fits; [apply slot_range|]|done].
    destruct (Hin _ Hi) as (_ & HtB & _). fold (home_block x) in HtB. fold B in HtB.
    pose proof (lay_inodes _ Hlay _ Hi : B ≠ 0) as HB0. rewrite (wr_frame _ _ _ _ _ _ _ Hw); try done.
    + intros Heq. rewrite Heq in HB0. destruct (io_indirect _ _ _ (fo_ok _ _ _ Hf) HB0) as (_ & _ & _ & Hni). by apply (Hni _ Hi).
    + intros bn Hbn Heq. rewrite Heq in HB0. destruct (io_block _ _ _ (fo_ok _ _ _ Hf) bn Hbn HB0) as (_ & _ & _ & Hni).
      by apply (Hni _ Hi).
  - intros n Hn Ht Hnb HnB Hni Hbl. unfold V4. rewrite fn_lookup_insert_ne by done. by apply (wr_frame _ _ _ _ _ _ _ Hw).
Qed.
(** What a successful [writei] has done; [j] bytes were written. *)
Definition wrote V ip x off data s (r : Z) (s' : St) : Prop :=
  ∃ (j : nat) l V' d' bl', r = Z.of_nat j ∧ (j ≤ length data)%nat ∧ s' = with_file ip x d' l s ∧
    tx V' bl' ∅ ∅ l ∧ file_written V x V' d' off (take j data) ∧ meta V' ∅ ∧ inodes_ok sb V' ∧
    fs_room bl' ∅ 0 ∧ (j = length data ∨ disk_full sb V').

Lemma update_size ip x d3 l off' s :
  returns (when (di_size d3 <? off') (update_inode ip (with_dinode (with_size off'))))
    (λ _ s', s' = with_file ip x (with_size (di_size d3 `max` off') d3) l s) (with_file ip x d3 l s).
Proof.
  destruct (Z.ltb_spec (di_size d3) off') as [Hlt|Hge]; unfold when.
  - eapply wp_update_inode; [apply with_file_lookup|]. rewrite Z.max_r by lia.
    etrans; [|apply (with_file_twice ip x d3 _ l l s)]. done.
  - apply wp_ret. rewrite Z.max_l by lia. by destruct d3.
Qed.

Lemma writei_spec V bl ip x usr (k : nat) src off data s :
  let n := Z.of_nat (length data) in
  tx V bl ∅ ∅ (fs_log s) → fs_sb s = sb → open_file V ip x s → meta V ∅ → inodes_ok sb V →
  fs_room bl ∅ (6 * k + 1) → off `mod` BSIZE + n ≤ Z.of_nat k * BSIZE →
  0 ≤ off ≤ di_size (i_d x) → off + n ≤ MAXFILE * BSIZE →
  Forall is_byte data → at_src usr src data (fs_mem s) → 0 ≤ src → src + n < 2 ^ 64 →
  returns (writei w ip usr src off n) (wrote V ip x off data s) s.
Proof.
  intros n Ht Hsb [Hx Hdev Hi Hf] Hm Hin Hroom Hk Ho Hmax Hbytes Hsrc Hs0 Hs1.
  pose proof (fo_size _ _ _ Hf) as Hsz. assert (MAXFILE * BSIZE < 2 ^ 31) as Hmx by by compute.
  eapply wp_deref_inode; [exact Hx|]. cbv zeta. rewrite u32_small by lia.
  rewrite (proj2 (Z.ltb_ge (di_size (i_d x)) off)), (proj2 (Z.ltb_ge (off + n) off)), (proj2 (Z.ltb_ge _ (off + n))) by lia.
  cbn [orb]. eapply wp_call.
  { apply (writei_loop_spec V bl ip x usr _ k src off n 0 data s); try done; try lia. apply Hf. }
  cbn beta. intros r s1 (j & l & V3 & d3 & bl3 & -> & Hj & -> & Hl & Hroom3 & Hw & Hend). rewrite Z.add_0_l.
  assert (di_size d3 = di_size (i_d x)) as Hsz3.
  { rewrite <- (wr_fields _ _ _ _ _ _ _ Hw). done. }
  assert (length (take j data) = j) as Hlj by (rewrite length_take; lia).
  destruct (file_written_spec V x V3 d3 off (take j data)) as (Hfw & Hm4 & Hin4 & Hfull); try done; [lia|].
  rewrite Hlj, <- Hsz3 in Hfw, Hm4, Hin4, Hfull.
  set (d4 := with_size _ d3) in *.
  eapply wp_deref_inode; [apply with_file_lookup|]. cbn [i_d with_dinode].
  eapply wp_call; [apply update_size|]. cbn beta. intros _ s2 ->. fold d4.
  set (x4 := with_dinode (λ _, d4) x).
  eapply wp_call.
  { apply (iupdate_spec V3 bl3 ip x4 (with_file ip x d4 l s)); try done; try apply Hw.
    - apply with_file_lookup.
    - apply Hfw. }
  cbn beta. intros _ s3 (l4 & -> & Hl4). apply wp_ret.
  eexists j, l4, _, d4, _.
  split_and!; [rewrite s32_small; lia|done|done|exact Hl4|exact Hfw|exact Hm4|exact Hin4|by apply fs_room_absorb|].
  destruct Hend as [He|He]; [left; lia|right; by apply Hfull].
Qed.

(** The requests [writei] refuses. *)
Lemma writei_refused ip x usr src off n s :
  itab s !! ip = Some x → 0 ≤ off < 2 ^ 32 → 0 ≤ n < 2 ^ 32 →
  di_size (i_d x) < off ∨ MAXFILE * BSIZE < off + n →
  returns (writei w ip usr src off n) (λ r s', r = -1 ∧ s' = s) s.
Proof.
  intros Hx Ho Hn Hr. eapply wp_deref_inode; [exact Hx|]. cbv zeta.
  destruct (Z.ltb_spec (di_size (i_d x)) off); cbn [orb]; [by apply wp_ret|]. destruct Hr as [|Hr]; [lia|].
  destruct (decide (off + n < 2 ^ 32)) as [Hlt|Hge].
  - rewrite u32_small, (proj2 (Z.ltb_ge (off + n) off)), (proj2 (Z.ltb_lt _ (off + n))) by lia. by apply wp_ret.
  - replace (u32 (off + n)) with (off + n - 2 ^ 32) by (unfold u32; apply (Z.mod_unique _ _ 1); lia).
    rewrite (proj2 (Z.ltb_lt _ off)) by lia. by apply wp_ret.
Qed.
End write.
