(* ===== verification/FsDemo.v ===== *)
(** A transaction on a small file system: that the hypotheses of the file
    system's properties can be met. *)

From stdpp Require Import functions.
From S2P Require Import Prelude Riscv Mem Threads Sleeplock Bio BioSpecs BioOps BioTheorems Log LogSpecs LogSteps LogCrash LogWrite LogTheorems Fs FsTx FsAlloc FsData FsFile FsIO FsWrite.
Local Open Scope Z_scope.

(** [begin_op] after a boot opens a transaction that has changed nothing. *)
Lemma tx_start (pid : Z) (sb : superblock) (d : gmap Z block) :
  log_disk (sb_logstart sb) d →
  let ws := recovery_writes (sb_logstart sb) d in
  ∃ me l, tx me (apply_writes ws d) (sb_nlog sb) 1 (update_contents ws (contents d)) [] ∅ ∅ l.
Proof.
  intros Hld ws.
  destruct (proj1 (wp_no_sleep _ _ _) (reboot_spec 0 pid sb d Hld)) as (_ & s0 & _ & Hl & Ho & Hco & Hdev & Hst & Hsz & Hc & Hd & _).
  destruct (proj1 (wp_no_sleep _ _ _) (begin_op_room 0 s0 (ca_held _ _ _ _ _ Hc) Hco ltac:(rewrite Ho, (proj1 Hl); by compute)))
    as (_ & s1 & _ & Hs1).
  assert (cache (update_contents ws (contents d)) ∅ ∅ pid (lg_bio s1)) as Hc1.
  { rewrite Hs1. eapply (cache_thread _ _ _ _ _ (lg_bio s0)); [exact Hc|apply Hc|done]. }
  exists (ident (bio_thread (lg_bio s1))), s1. split.
  - exists ∅. rewrite dom_empty_L. split; [|done]. cbn. by rewrite (ca_pid _ _ _ _ _ Hc1).
  - done.
  - intros n b Hn. by rewrite lookup_empty in Hn.
  - rewrite Hs1. exact Hl.
  - apply NoDup_nil_2.
  - rewrite Hs1. cbn. by rewrite Ho.
  - rewrite Hs1. exact Hsz.
  - rewrite Hs1. exact Hd.
  - intros n b _ _ Hn. destruct (ca_disk _ _ _ _ _ Hc1 n b) as [_ Hcl].
    + rewrite Hs1. cbn. by rewrite Hd.
    + apply Hcl. by rewrite dom_empty_L.
Qed.

(** The inode block is block 33, the bitmap block 34; the blocks from 35 on are
    free. *)
Definition small_sb : superblock := Superblock FSMAGIC 64 29 16 31 2 33 34.
Definition small_bitmap : block := [255; 255; 255; 255; 7] ++ replicate (Z.to_nat BSIZE - 5) 0.
Definition small_disk : gmap Z block := <[34 := small_bitmap]> demo_log_disk.

Lemma zero_block_ok : is_block zero_block.
Proof. split; [apply zero_block_len|]. apply Forall_replicate. by compute. Qed.
Lemma small_bitmap_ok : is_block small_bitmap.
Proof.
  split; [by vm_compute|]. unfold small_bitmap. apply Forall_app_2; [by repeat constructor|].
  apply Forall_replicate. by compute.
Qed.

Lemma small_disk_lookup n : 0 ≤ n < 64 → small_disk !! n = Some (if decide (n = 34) then small_bitmap else zero_block).
Proof.
  intros Hn. unfold small_disk. destruct (decide (n = 34)) as [->|]; [apply lookup_insert_eq|].
  rewrite lookup_insert_ne by done. by apply demo_log_disk_lookup.
Qed.

Lemma small_layout : layout small_sb.
Proof.
  split; [by compute|rewrite BPB_eq; by compute|]. intros i Hi. simpl in Hi.
  unfold IBLOCK. assert (IPB = 16) as -> by done. by rewrite Z.div_small by lia.
Qed.

Lemma header_zero : header zero_block [] = zero_block.
Proof. by vm_compute. Qed.

Lemma small_log_ok : log_disk 2 small_disk.
Proof.
  assert (contents small_disk 2 = zero_block) as Hc by (unfold contents; by rewrite small_disk_lookup by lia).
  assert (header_n zero_block = 0) as H0 by (vm_compute; done).
  split.
  - apply map_Forall_insert_2; [apply small_bitmap_ok|apply demo_log_disk_len].
  - intros n Hn. unfold LOGSIZE, MAXOPBLOCKS in Hn. rewrite small_disk_lookup by lia. by eexists.
  - by rewrite Hc, H0.
  - unfold header_blocks. rewrite Hc, H0. by intros B ?%elem_of_nil.
Qed.

(** The contents of the disk. *)
Definition small_contents (V : Z → block) : Prop :=
  ∀ n, 0 ≤ n < 64 → V n = if decide (n = 34) then small_bitmap else zero_block.

Lemma small_tx : ∃ me D V l, (∀ n, on_disk small_sb n → is_Some (D !! n)) ∧ small_contents V ∧
  tx me D 31 1 V [] ∅ ∅ l.
Proof.
  destruct (tx_start 1 small_sb small_disk small_log_ok) as (me & l & Ht). revert Ht.
  assert (recovery_writes 2 small_disk = [(2, zero_block)]) as Hws.
  { assert (contents small_disk 2 = zero_block) as Hc by (unfold contents; by rewrite small_disk_lookup by lia).
    unfold recovery_writes, logged_writes, header_blocks. rewrite Hc, header_zero.
    assert (header_n zero_block = 0) as -> by (vm_compute; done). done. }
  change (sb_logstart small_sb) with 2. rewrite Hws. cbn [apply_writes update_contents foldl]. intros Ht.
  eexists me, _, _, l. split_and!; [| |exact Ht].
  - intros n Hn. apply lookup_insert_is_Some'. right. rewrite small_disk_lookup by exact Hn. by eexists.
  - intros n Hn. destruct (decide (n = 2)) as [->|]; [by rewrite fn_lookup_insert|].
    rewrite fn_lookup_insert_ne by done. unfold contents. by rewrite small_disk_lookup.
Qed.

Section small.
Context (V : Z → block) (HV : small_contents V).

Lemma small_bit b : 0 ≤ b < 64 → bit V small_sb b = (b <? 35).
Proof.
  intros Hb. unfold bit. destruct (BBLOCK_eq small_sb small_layout b Hb) as [-> _].
  rewrite BPB_eq, Z.div_small, Z.mod_small by lia. rewrite HV by by compute. rewrite decide_True by done.
  assert (Forall (λ b, Z.testbit (byte_at small_bitmap (b / 8)) (b `mod` 8) = (b <? 35)) (seqZ 0 64)) as Hall.
  { vm_compute. repeat constructor. }
  rewrite Forall_forall in Hall. apply Hall. by apply elem_of_seqZ.
Qed.

Lemma small_BBLOCK b : on_disk small_sb b → BBLOCK b small_sb = 34.
Proof.
  intros Hb. destruct (BBLOCK_eq small_sb small_layout b Hb) as [-> _]. unfold on_disk in Hb. simpl in *.
  rewrite BPB_eq, Z.div_small; lia.
Qed.

Lemma small_meta : meta small_sb V ∅.
Proof.
  split.
  - intros b Hb. rewrite small_BBLOCK by done. by rewrite small_bit.
  - by rewrite small_bit.
  - intros n Hn. rewrite HV by exact Hn. destruct (decide _); [apply small_bitmap_ok|apply zero_block_ok].
  - intros n. by rewrite dom_empty_L.
Qed.

Lemma small_inodes : inodes_ok small_sb V.
Proof.
  intros i Hi. simpl in Hi. assert (IBLOCK i small_sb = 33) as ->.
  { unfold IBLOCK. assert (IPB = 16) as -> by done. rewrite Z.div_small by lia. done. }
  split_and!; [done|by rewrite small_bit|]. intros b Hb. by rewrite small_BBLOCK.
Qed.

Definition empty_file : dinode := Dinode T_FILE 0 0 1 0 (replicate 13 0).

Lemma empty_file_ok : file_ok small_sb V empty_file.
Proof.
  assert (∀ i, addr_of empty_file i = 0) as H0.
  { intros i. unfold addr_of. rewrite nth_lookup. cbn [di_addrs empty_file].
    destruct (replicate 13 0 !! Z.to_nat i) as [a|] eqn:Ha; [|done]. by apply lookup_replicate in Ha as [-> _]. }
  assert (∀ bn, block_of V empty_file bn = 0) as Hb.
  { intros bn. unfold block_of, indirect. rewrite !H0. by destruct (bn <? NDIRECT). }
  split.
  - split.
    + split; try done. by repeat constructor.
    + unfold indirect. by rewrite H0.
    + intros bn _. by rewrite Hb.
    + intros bn bn' _ _. by rewrite Hb.
    + intros bn _. unfold indirect. by rewrite H0.
  - by compute.
  - intros bn Hbn Hlt. assert (BSIZE = 1024) as HB by done. simpl in Hlt. rewrite HB in Hlt. lia.
Qed.
End small.

(** A process with an empty file open, as inode 1 of the table, and three bytes
    to write to it. *)
Definition small_mem : flat_user := {[8 := 104; 9 := 105; 10 := 33; 20 := 0; 21 := 0; 22 := 0]}.
Definition small_file : inode := Inode ROOTDEV 2 1 (Sleeplock true 1) true empty_file.
Definition small_fs (l : logst) : fsst flat_user := Fsst l small_sb {[1 := small_file]} ∅ small_mem.
Definition small_data : list Z := [104; 105; 33].

Lemma small_open V l : small_contents V → open_file small_sb V 1 small_file (small_fs l).
Proof. intros HV. split; [done|done|done|by apply empty_file_ok]. Qed.

Lemma small_src me : at_src me false 8 small_data small_mem.
Proof. intros i b Hi. do 3 (destruct i as [|i]; [injection Hi as <-; by vm_compute|]). done. Qed.

Lemma small_room : fs_room 31 1 [] ∅ 7.
Proof. split; [right|]; by compute. Qed.
