(* ===== verification/FsTheorems.v ===== *)
(** The properties of the file system: writing a file changes the bytes it
    should and nothing else, what was written is read back, blocks are
    allocated first fit, and the inodes of a block are kept apart. *)

From stdpp Require Import functions.
From S2P Require Import Prelude Riscv Mem Threads Sleeplock Bio BioSpecs BioTheorems Log LogSpecs LogWrite LogTheorems Fs FsTx FsAlloc FsData FsFile FsIO FsWrite FsDemo.
Local Open Scope Z_scope.

Section theorems.
Context (me : identity) (D : gmap Z block) (logsize nops : Z) (w : nat) {U : Type} `{UserBytes U}.
Context (sb : superblock) (Hlay : layout sb) (HD : ∀ n, on_disk sb n → is_Some (D !! n)).
Local Abbreviation St := (fsst U).
Local Abbreviation tx := (tx me D logsize nops).
Implicit Types (V : Z → block) (bl : list Z) (s : St) (ip src dst off n : Z) (data : list Z).

(** A file open in a transaction that has changed the blocks [bl]. *)
Record in_file V bl ip (x : inode) s : Prop := {
  if_tx : tx V bl ∅ ∅ (fs_log s);
  if_sb : fs_sb s = sb;
  if_open : open_file sb V ip x s;
  if_meta : meta sb V ∅;
  if_inodes : inodes_ok sb V;
}.

Lemma wrote_in_file V ip x off data s r s' bl :
  in_file V bl ip x s → wrote me D logsize nops sb V ip x off data s r s' →
  ∃ (j : nat) V' d' bl', r = Z.of_nat j ∧ (j ≤ length data)%nat ∧
    in_file V' bl' ip (with_dinode (λ _, d') x) s' ∧ file_written sb V x V' d' off (take j data) ∧
    fs_room logsize nops bl' ∅ 0 ∧ fs_mem s' = fs_mem s ∧ (j = length data ∨ disk_full sb V').
Proof.
  intros [Ht Hsb [Hx Hdev Hi Hf] Hm Hin] (j & l & V' & d' & bl' & -> & Hj & -> & Hl & Hw & Hm' & Hin' & Hroom & Hend).
  exists j, V', d', bl'. split_and!; try done. split; try done. split; try done.
  - apply with_file_lookup.
  - apply Hw.
Qed.

(** C19: [writei] of the [n] bytes at [src] to an offset [off], both of 32 bits.  At
    an offset inside the file and within the largest file size, in a transaction
    with enough room in the log, it writes a prefix of the bytes to the file and
    returns its length; it stops short only if no block of the disk is free.  The
    written bytes are the file's from [off] on, its size is the larger of the old
    one and the end of the write, every other byte of the file, every other inode
    of the inode's block and every block in use by something else keep their
    contents, and the inode on the disk is updated.  Past the end of the file, past
    the largest file size, or when [off + n] does not fit in 32 bits, it is refused
    with -1 and nothing changes, whatever [src] is and however full the log. *)
Theorem writei_writes V bl ip x usr src off n s :
  in_file V bl ip x s → 0 ≤ off < 2 ^ 32 → 0 ≤ n < 2 ^ 32 →
  if (off <=? di_size (i_d x)) && (off + n <=? MAXFILE * BSIZE)
  then ∀ (k : nat) data, n = Z.of_nat (length data) →
    fs_room logsize nops bl ∅ (6 * k + 1) → off `mod` BSIZE + n ≤ Z.of_nat k * BSIZE →
    Forall is_byte data → at_src me usr src data (fs_mem s) → 0 ≤ src → src + n < 2 ^ 64 →
    returns (writei w ip usr src off n)
    (λ r s', ∃ (j : nat) V' d' bl', r = Z.of_nat j ∧ (j ≤ length data)%nat ∧
       in_file V' bl' ip (with_dinode (λ _, d') x) s' ∧ file_written sb V x V' d' off (take j data) ∧
       (j = length data ∨ disk_full sb V')) s
  else returns (writei w ip usr src off n) (λ r s', r = -1 ∧ s' = s) s.
Proof.
  intros Hif Ho Hn. pose proof Hif as [Ht Hsb Hopen Hm Hin].
  destruct (Z.leb_spec off (di_size (i_d x))) as [H1|H1]; [destruct (Z.leb_spec (off + n) (MAXFILE * BSIZE)) as [H2|H2]|];
    cbn [andb]; [|apply (writei_refused w ip x); [apply Hopen|lia..]|apply (writei_refused w ip x); [apply Hopen|lia..]].
  intros k data -> Hroom Hk Hbytes Hsrc Hs0 Hs1. assert (MAXFILE * BSIZE < 2 ^ 32) as Hmx by by compute.
  eapply wp_mono; [apply (writei_spec me D logsize nops w sb Hlay HD V bl ip x usr k src off data s); (done || lia)|].
  intros r s' Hw. destruct (wrote_in_file V ip x off data s r s' bl Hif Hw) as (j & V' & d' & bl' & H3 & H4 & H5 & H6 & _ & _ & H8).
  exists j, V', d', bl'. by split_and!.
Qed.

(** C3: What [writei] wrote, [readi] reads: after a [writei] of the [n] bytes at
    [src] that returned [n], [readi] at the same offset of the same file returns
    [n] and leaves these bytes at [dst]; if [writei] returned less then the disk
    was full. *)
Theorem writei_readi V bl ip x usr usr' (k : nat) src dst off data s :
  let n := Z.of_nat (length data) in
  in_file V bl ip x s → fs_room logsize nops bl ∅ (6 * k + 1) → off `mod` BSIZE + n ≤ Z.of_nat k * BSIZE →
  Forall is_byte data → at_src me usr src data (fs_mem s) → 0 ≤ src → src + n < 2 ^ 64 →
  0 ≤ off ≤ di_size (i_d x) → off + n ≤ MAXFILE * BSIZE →
  0 ≤ dst → dst + n < 2 ^ 64 → writable me usr' dst n (fs_mem s) →
  returns (let! r := writei w ip usr src off n in
           if r =? n then let! c := readi w ip usr' dst off n in ret (r, c) else ret (r, 0))
    (λ '(r, c) s', (r = n ∧ c = n ∧ at_src me usr' dst data (fs_mem s')) ∨
       (0 ≤ r < n ∧ c = 0 ∧ ∃ V' bl', tx V' bl' ∅ ∅ (fs_log s') ∧ disk_full sb V')) s.
Proof.
  intros n Hif Hroom Hk Hbytes Hsrc Hs0 Hs1 Ho Hmax Hd0 Hd1 Hwr. pose proof Hif as [Ht Hsb Hopen Hm Hin].
  assert (MAXFILE * BSIZE < 2 ^ 31) as Hmx by by compute.
  eapply wp_call; [by apply (writei_spec me D logsize nops w sb Hlay HD V bl ip x usr k src off data s)|]. cbn beta.
  intros r s1 Hw. destruct (wrote_in_file V ip x off data s r s1 bl Hif Hw)
    as (j & V' & d' & bl' & -> & Hj & [Ht' Hsb' [Hx' Hdev' Hi' Hf'] Hm' Hin'] & Hfw & Hroom' & Hmem & Hend).
  destruct (Z.eqb_spec (Z.of_nat j) n) as [Hjn|Hjn].
  - assert (j = length data) as -> by lia. rewrite firstn_all in Hfw.
    assert (di_size d' = di_size (i_d x) `max` (off + n)) as Hsz by exact (fw_size _ _ _ _ _ _ _ Hfw).
    assert (readable d' off n = n) as Hrd.
    { unfold readable. rewrite Hsz. rewrite (proj2 (Z.ltb_ge _ _)) by lia. lia. }
    pose proof (readi_spec me D logsize nops w sb Hlay HD V' bl' ip (with_dinode (λ _, d') x) usr' dst off n s1) as Hr.
    cbn [i_d with_dinode] in Hr. cbv zeta in Hr. rewrite Hrd in Hr. eapply wp_call; [apply Hr; (done || lia || by rewrite Hmem)|].
    cbn beta. intros c s2 (-> & l & u & -> & Hl & Hb & _). apply wp_ret. left. split_and!; [lia|done|].
    intros i b Hib. pose proof (lookup_lt_Some _ _ _ Hib). unfold has_bytes in Hb. rewrite Hb by lia.
    f_equal. by apply (fw_data _ _ _ _ _ _ _ Hfw).
  - apply wp_ret. right. split_and!; [lia|lia|done|]. exists V', bl'. destruct Hend; [lia|done].
Qed.

(** C33: [balloc] hands out the first block whose bit in the free bitmap is clear,
    sets that bit and no other, clears the block, and leaves every block that is
    not part of the bitmap alone; if every bit is set it returns 0 and changes
    nothing. *)
Theorem balloc_first_free V bl s :
  tx V bl ∅ ∅ (fs_log s) → fs_sb s = sb → meta sb V ∅ → fs_room logsize nops bl ∅ 3 →
  returns (balloc w ROOTDEV)
    (λ r s', (r = 0 ∧ disk_full sb V ∧ ∃ l, s' = set_log l s ∧ tx V bl ∅ ∅ l) ∨
       (0 < r < sb_size sb ∧ bit V sb r = false ∧ (∀ b, 0 ≤ b < r → bit V sb b = true) ∧
        ∃ l V' bl', s' = set_log l s ∧ tx V' bl' ∅ ∅ l ∧ V' r = zeros ∧
          (∀ b, on_disk sb b → bit V' sb b = bool_decide (b = r) || bit V sb b) ∧
          (∀ n, n ≠ r → (∀ b, on_disk sb b → n ≠ BBLOCK b sb) → V' n = V n))) s.
Proof.
  intros Ht Hsb Hm Hroom.
  eapply wp_mono; [by apply (balloc_spec me D logsize nops w sb Hlay HD V bl ∅ s)|]. cbn beta.
  intros r s' [(-> & Hf & l & -> & Hl)|(Hr & Hon & Hfree & Hfirst & l & V' & bl' & -> & Hal & _ & Hl)].
  - left. split_and!; [done|exact Hf|by exists l].
  - right. unfold on_disk in Hon. split_and!; [lia|lia|done|done|].
    exists l, V', bl'. split_and!; try done; apply Hal.
Qed.
End theorems.

(** * Inodes on the disk *)

(** The inode written to a slot of an inode block is read back from it, and the
    inodes in the block's other slots are not touched: [put_dinode] and
    [get_dinode], the copies in [iupdate], [ialloc] and [ilock], agree on the
    layout of [struct dinode]. *)
Theorem dinode_slots (d : block) (k : Z) (x : dinode) :
  0 ≤ k < IPB → is_block d → dinode_ok x →
  is_block (put_dinode d k x) ∧ get_dinode (put_dinode d k x) k = x ∧
  ∀ i, 0 ≤ i < IPB → i ≠ k → get_dinode (put_dinode d k x) i = get_dinode d i.
Proof.
  intros Hk Hd Hx. pose proof (slot_fits d k Hk Hd) as Hfit. split_and!.
  - by apply put_dinode_block.
  - apply get_put_dinode; [lia|done|done].
  - intros i Hi Hne. apply get_put_dinode_ne; [lia|lia|done..].
Qed.

Lemma dinode_slots_witness :
  is_block (put_dinode zero_block 3 empty_file) ∧ get_dinode (put_dinode zero_block 3 empty_file) 3 = empty_file ∧
  ∀ i, 0 ≤ i < IPB → i ≠ 3 → get_dinode (put_dinode zero_block 3 empty_file) i = get_dinode zero_block i.
Proof.
  refine (dinode_slots zero_block 3 empty_file _ zero_block_ok _); [by compute|].
  split; try done. by repeat constructor.
Defined.

(** * On a small disk *)

Lemma small_in_file me D V l : small_contents V → tx me D 31 1 V [] ∅ ∅ l →
  in_file me D 31 1 small_sb V [] 1 small_file (small_fs l).
Proof. intros HV Ht. split; [done|done|by apply small_open|by apply small_meta|by apply small_inodes]. Qed.

Lemma writei_writes_witness :
  ∃ me D V s, in_file me D 31 1 small_sb V [] 1 small_file s ∧
    returns (writei 0 1 false 8 0 3)
    (λ r s', ∃ (j : nat) V' d' bl', r = Z.of_nat j ∧ (j ≤ 3)%nat ∧
       in_file me D 31 1 small_sb V' bl' 1 (with_dinode (λ _, d') small_file) s' ∧
       file_written small_sb V small_file V' d' 0 (take j small_data) ∧
       (j = 3%nat ∨ disk_full small_sb V')) s ∧
    returns (writei 0 1 false 8 1 3) (λ r s', r = -1 ∧ s' = s) s ∧
    returns (writei 0 1 true 8 0 (2 ^ 32 - 1)) (λ r s', r = -1 ∧ s' = s) s.
Proof.
  destruct small_tx as (me & D & V & l & HD & HV & Ht). pose proof (small_in_file me D V l HV Ht) as Hif.
  exists me, D, V, (small_fs l). split; [exact Hif|].
  assert (Forall is_byte small_data) as Hb by by repeat constructor.
  split; [|split].
  - exact (writei_writes me D 31 1 0 small_sb small_layout HD V [] 1 small_file false 8 0 3 (small_fs l)
      Hif ltac:(done) ltac:(done) 1%nat small_data eq_refl small_room ltac:(by compute) Hb (small_src me) ltac:(done) ltac:(done)).
  - exact (writei_writes me D 31 1 0 small_sb small_layout HD V [] 1 small_file false 8 1 3 (small_fs l)
      Hif ltac:(done) ltac:(done)).
  - exact (writei_writes me D 31 1 0 small_sb small_layout HD V [] 1 small_file true 8 0 (2 ^ 32 - 1) (small_fs l)
      Hif ltac:(done) ltac:(done)).
Defined.

Lemma writei_readi_witness :
  ∃ me D V s, in_file me D 31 1 small_sb V [] 1 small_file s ∧
  returns (let! r := writei 0 1 false 8 0 3 in
           if r =? 3 then let! c := readi 0 1 false 20 0 3 in ret (r, c) else ret (r, 0))
    (λ '(r, c) s', (r = 3 ∧ c = 3 ∧ at_src me false 20 small_data (fs_mem s')) ∨
       (0 ≤ r < 3 ∧ c = 0 ∧ ∃ V' bl', tx me D 31 1 V' bl' ∅ ∅ (fs_log s') ∧ disk_full small_sb V')) s.
Proof.
  destruct small_tx as (me & D & V & l & HD & HV & Ht). pose proof (small_in_file me D V l HV Ht) as Hif.
  exists me, D, V, (small_fs l). split; [exact Hif|].
  assert (writable me false 20 3 (fs_mem (small_fs l))) as Hw.
  { intros i Hi. assert (i = 0 ∨ i = 1 ∨ i = 2) as [-> | [-> | ->]] by lia; vm_compute; by eexists. }
  exact (writei_readi me D 31 1 0 small_sb small_layout HD V [] 1 small_file false false 1 8 20 0 small_data (small_fs l)
    Hif small_room ltac:(by compute) ltac:(by repeat constructor) (small_src me) ltac:(done) ltac:(done)
    ltac:(done) ltac:(by compute) ltac:(done) ltac:(done) Hw).
Defined.

Lemma balloc_first_free_witness :
  ∃ me D V l, tx me D 31 1 V [] ∅ ∅ l ∧ bit V small_sb 35 = false ∧
  returns (balloc 0 ROOTDEV)
    (λ r s', (r = 0 ∧ disk_full small_sb V ∧ ∃ l', s' = set_log l' (small_fs l) ∧ tx me D 31 1 V [] ∅ ∅ l') ∨
       (0 < r < 64 ∧ bit V small_sb r = false ∧ (∀ b, 0 ≤ b < r → bit V small_sb b = true) ∧
        ∃ l' V' bl', s' = set_log l' (small_fs l) ∧ tx me D 31 1 V' bl' ∅ ∅ l' ∧ V' r = zeros ∧
          (∀ b, on_disk small_sb b → bit V' small_sb b = bool_decide (b = r) || bit V small_sb b) ∧
          (∀ n, n ≠ r → (∀ b, on_disk small_sb b → n ≠ BBLOCK b small_sb) → V' n = V n))) (small_fs l).
Proof.
  destruct small_tx as (me & D & V & l & HD & HV & Ht). exists me, D, V, l.
  split; [exact Ht|]. split; [rewrite (small_bit V HV 35); [done|lia]|].
  exact (balloc_first_free me D 31 1 0 small_sb small_layout HD V [] (small_fs l) Ht eq_refl (small_meta V HV)
    (fs_room_mono 31 1 [] ∅ 7 3 small_room ltac:(lia))).
Defined.
