(* ===== verification/FsNames.v ===== *)
(** Path names and the inode table (kernel/fs.c): [skipelem] against a reference
    splitting, names in directory entries, and [iget]. *)

From S2P Require Import Prelude Riscv Mem CString Threads Sleeplock Bio Log Fs.
Local Open Scope Z_scope.

(** * Paths *)

(** The maximal runs of a path between slashes, empty ones included. *)
Fixpoint split_slash (path : list Z) : list (list Z) :=
  match path with
  | [] => [[]]
  | c :: rest =>
      if c =? slash then [] :: split_slash rest
      else match split_slash rest with
           | e :: es => (c :: e) :: es
           | [] => [[c]]
           end
  end.
(** The elements of a path. *)
Definition path_elements (path : list Z) : list (list Z) := filter (λ e, e ≠ []) (split_slash path).

Section paths.
Implicit Types (path e rest name : list Z).

Definition no_slash path : Prop := path !! 0%nat ≠ Some slash.

Lemma skip_slashes_spec path : path_elements (skip_slashes path) = path_elements path ∧ no_slash (skip_slashes path) ∧
  (length (skip_slashes path) ≤ length path)%nat.
Proof.
  induction path as [|c rest (IH1 & IH2 & IH3)]; [done|]. simpl. destruct (Z.eqb_spec c slash) as [->|Hc].
  - split_and!; [|done|lia]. rewrite IH1. symmetry. apply filter_cons_False. by intros [].
  - split_and!; [done| |done]. intros [= ?]. done.
Qed.

Lemma take_elem_spec path e rest :
  take_elem path = (e, rest) →
  split_slash path = e :: tail (split_slash rest) ∧ (rest = [] ∨ rest !! 0%nat = Some slash) ∧
  (length path = length e + length rest)%nat.
Proof.
  revert e rest. induction path as [|c path IH]; simpl; intros e rest Hp.
  - injection Hp as <- <-. split_and!; [done|by left|done].
  - destruct (c =? slash) eqn:Hc.
    + injection Hp as <- <-. split_and!; [by simpl; rewrite Hc|right; simpl; f_equal; by apply Z.eqb_eq|done].
    + destruct (take_elem path) as [e' r'] eqn:He. injection Hp as <- <-.
      destruct (IH e' r' eq_refl) as (-> & Hr & Hl). split_and!; [done|done|simpl; lia].
Qed.

(** [skipelem] takes the first element off a path. *)
Lemma skipelem_spec path name :
  match path_elements path with
  | [] => skipelem path name = None
  | e :: es => ∃ rest, skipelem path name = Some (rest, fill_name e name) ∧ path_elements rest = es ∧
      no_slash rest ∧ (length rest < length path)%nat
  end.
Proof.
  destruct (skip_slashes_spec path) as (He & Hs & Hl). rewrite <- He. unfold skipelem.
  destruct (skip_slashes path) as [|c p]; [done|].
  destruct (take_elem (c :: p)) as [e rest] eqn:Ht.
  destruct (take_elem_spec _ _ _ Ht) as (Hsp & Hr & Hlen).
  assert (e ≠ []) as Hne.
  { intros ->. simpl in Ht. destruct (Z.eqb_spec c slash) as [->|]; [done|].
    by destruct (take_elem p). }
  destruct (skip_slashes_spec rest) as (He' & Hs' & Hl').
  unfold path_elements at 1. rewrite Hsp, filter_cons_True by done.
  exists (skip_slashes rest). split_and!; [done| |done|destruct e; simpl in *; [done|lia]].
  rewrite He'. unfold path_elements. destruct Hr as [->|Hr]; [done|].
  destruct rest as [|c' r]; [done|]. injection Hr as ->. apply filter_cons_False. by intros [].
Qed.

Lemma path_elements_nil path : no_slash path → path_elements path = [] → path = [].
Proof.
  intros Hs He. destruct path as [|c p]; [done|]. exfalso. unfold path_elements in He. simpl in He.
  destruct (Z.eqb_spec c slash) as [->|]; [by apply Hs|].
  destruct (split_slash p) as [|e es]; rewrite filter_cons_True in He; done.
Qed.

(** * Names *)

(** The name a buffer of [DIRSIZ] characters holds. *)
Definition name_of (buf : list Z) : list Z := cstr (take (Z.to_nat DIRSIZ) buf).
(** A path element: no NUL in it. *)
Definition is_elem e : Prop := Forall (λ c, is_byte c ∧ c ≠ 0) e.

Lemma cstr_elem e rest : is_elem e → cstr (e ++ 0 :: rest) = e.
Proof.
  induction 1 as [|c e [_ Hc] _ IH]; simpl; [done|]. rewrite (proj2 (Z.eqb_neq _ _)) by done. by rewrite IH.
Qed.
Lemma cstr_only e : is_elem e → cstr e = e.
Proof. induction 1 as [|c e [_ Hc] _ IH]; simpl; [done|]. rewrite (proj2 (Z.eqb_neq _ _)) by done. by rewrite IH. Qed.

Lemma name_of_fill e name :
  is_elem e → name_of (fill_name e name) = take (Z.to_nat DIRSIZ) e.
Proof.
  intros He. unfold name_of, fill_name. assert (Z.to_nat DIRSIZ = 14%nat) as HD by done.
  destruct (Z.leb_spec DIRSIZ (Z.of_nat (length e))) as [Hl|Hl].
  - rewrite take_take, Nat.min_id. apply cstr_only. by apply Forall_take.
  - assert (length e < 14)%nat as Hl' by (unfold DIRSIZ in Hl; lia).
    rewrite HD. rewrite (take_ge e) by lia. rewrite take_app_ge by lia.
    destruct (14 - length e)%nat eqn:Hn; [lia|]. simpl. by apply cstr_elem.
Qed.

Lemma name_of_dirent e : is_elem e → name_of (dirent_name e) = take (Z.to_nat DIRSIZ) e.
Proof.
  intros He. unfold name_of, dirent_name. rewrite take_take, Nat.min_id. assert (Z.to_nat DIRSIZ = 14%nat) as HD by done.
  rewrite HD. destruct (decide (14 ≤ length e)%nat).
  - rewrite take_app_le by done. apply cstr_only. by apply Forall_take.
  - rewrite take_app_ge, (take_ge e) by lia. destruct (14 - length e)%nat eqn:Hn; [lia|]. simpl. by apply cstr_elem.
Qed.

Lemma fill_name_byte e name : is_elem e → Forall is_byte name → Forall is_byte (fill_name e name).
Proof.
  intros He Hn. assert (Forall is_byte e) as Hb by (eapply Forall_impl; [exact He|by intros ? []]).
  unfold fill_name. destruct (_ <=? _); [by apply Forall_take|].
  rewrite !Forall_app. split_and!; [done|by repeat constructor|by apply Forall_drop].
Qed.

Lemma dirent_name_byte e : is_elem e → Forall is_byte (dirent_name e).
Proof.
  intros He. apply Forall_take, Forall_app. split; [eapply Forall_impl; [exact He|by intros ? []]|].
  apply Forall_replicate. by compute.
Qed.

Lemma namecmp_spec s t : Forall is_byte s → Forall is_byte t → namecmp s t = 0 ↔ name_of s = name_of t.
Proof. apply strncmp_bytes_eq. Qed.

Lemma split_slash_elem path : is_elem path → Forall is_elem (split_slash path).
Proof.
  induction 1 as [|c rest Hc _ IH]; simpl; [by repeat constructor|].
  destruct (c =? slash); [by constructor; [constructor|]|].
  destruct IH as [|e es He Hes]; repeat first [exact Hc | exact He | exact Hes | constructor].
Qed.
Lemma path_elements_elem path : is_elem path → Forall is_elem (path_elements path).
Proof.
  intros Hp%split_slash_elem. rewrite Forall_forall in Hp |- *. intros e He. apply Hp. by apply list_elem_of_filter in He as [_ ?].
Qed.

(** [skipelem] takes the elements of a path (the maximal runs of characters
    other than slashes) off it one after the other: it returns 0 exactly when
    there are none left; otherwise [name] holds the first one, cut to [DIRSIZ]
    characters, and the path returned has the others, is empty exactly when there
    are none, and is shorter.  [namecmp] finds the name equal to the one
    [dirlink] stored for an element exactly when the two agree on their first
    [DIRSIZ] characters. *)
Theorem skipelem_walks path name :
  is_elem path → Forall is_byte name →
  match skipelem path name with
  | None => path_elements path = []
  | Some (rest, buf) => ∃ e, path_elements path = e :: path_elements rest ∧
      name_of buf = take (Z.to_nat DIRSIZ) e ∧ (rest = [] ↔ path_elements rest = []) ∧
      (length rest < length path)%nat ∧
      ∀ e', is_elem e' → namecmp buf (dirent_name e') = 0 ↔ take (Z.to_nat DIRSIZ) e = take (Z.to_nat DIRSIZ) e'
  end.
Proof.
  intros Hp Hn. pose proof (skipelem_spec path name) as Hs. pose proof (path_elements_elem path Hp) as Hf.
  destruct (path_elements path) as [|e es] eqn:Hpe; [by rewrite Hs|].
  destruct Hs as (rest & -> & <- & Hns & Hlen). apply Forall_cons in Hf as [He _].
  exists e. split_and!; [done|by apply name_of_fill| |done|].
  - split; [by intros ->|by apply path_elements_nil].
  - intros e' He'. rewrite namecmp_spec, name_of_fill, name_of_dirent; try done.
    + by apply fill_name_byte.
    + by apply dirent_name_byte.
Qed.

(** The path [//usr//bin/] in a fresh buffer. *)
Lemma skipelem_walks_witness :
  ∃ rest buf, skipelem [47; 47; 117; 115; 114; 47; 47; 98; 105; 110; 47] (replicate 14 7) = Some (rest, buf) ∧
    ∃ e, path_elements [47; 47; 117; 115; 114; 47; 47; 98; 105; 110; 47] = e :: path_elements rest ∧
      name_of buf = take (Z.to_nat DIRSIZ) e ∧ (rest = [] ↔ path_elements rest = []) ∧ (length rest < 11)%nat ∧
      ∀ e', is_elem e' → namecmp buf (dirent_name e') = 0 ↔ take (Z.to_nat DIRSIZ) e = take (Z.to_nat DIRSIZ) e'.
Proof.
  eexists _, _. split; [reflexivity|].
  refine (skipelem_walks [47; 47; 117; 115; 114; 47; 47; 98; 105; 110; 47] (replicate 14 7) _ _); [|by repeat constructor].
  by repeat constructor.
Defined.
End paths.

(** * The inode table *)

Section itable.
Context {U : Type} `{UserMem U}.
Local Abbreviation St := (fsst U).
Implicit Types (s : St) (x : inode) (ip dev inum : Z) (t : gmap Z inode).

Definition is_inode ip : Prop := 1 ≤ ip ≤ NINODE.
Definition refers x dev inum : Prop := 0 < i_ref x ∧ i_dev x = dev ∧ i_inum x = inum.

(** Every inode has at most one entry. *)
Record itable_ok t : Prop := {
  it_entry ip : is_inode ip → ∃ x, t !! ip = Some x ∧ 0 ≤ i_ref x;
  it_uniq ip ip' x x' dev inum : is_inode ip → is_inode ip' → t !! ip = Some x → t !! ip' = Some x' →
    refers x dev inum → refers x' dev inum → ip = ip';
}.

Definition refers_b x dev inum : bool := (0 <? i_ref x) && (i_dev x =? dev) && (i_inum x =? inum).
Lemma refers_dec x dev inum : refers_b x dev inum = true ↔ refers x dev inum.
Proof. unfold refers_b, refers. rewrite !andb_true_iff, Z.ltb_lt, !Z.eqb_eq. tauto. Qed.

(** What the search finds among the entries from [ip] on. *)
Definition search t dev inum ip (empty : Z) (r : Z + Z) : Prop :=
  match r with
  | inl i => is_inode i ∧ ∃ x, t !! i = Some x ∧ refers x dev inum
  | inr e => (∀ i x, ip ≤ i ≤ NINODE → t !! i = Some x → ¬ refers x dev inum) ∧
      if decide (empty = 0) then
        (e = 0 ∧ ∀ i x, ip ≤ i ≤ NINODE → t !! i = Some x → i_ref x ≠ 0) ∨
        (ip ≤ e ≤ NINODE ∧ ∃ x, t !! e = Some x ∧ i_ref x = 0)
      else e = empty
  end.

Lemma iget_loop_spec dev inum n ip (empty : Z) s :
  itable_ok (itab s) → 1 ≤ ip → ip + Z.of_nat n = NINODE + 1 →
  returns (iget_loop n dev inum empty ip) (λ r s', s' = s ∧ search (itab s) dev inum ip empty r) s.
Proof.
  intros Hok. revert ip empty. induction n as [|n IH]; intros ip empty Hip Hn.
  - apply wp_ret. split; [done|]. split; [intros; lia|]. case_decide; [|done]. left. split; [done|]. intros; lia.
  - simpl. destruct (it_entry _ Hok ip) as (x & Hx & Hr); [unfold is_inode; lia|].
    apply wp_bind. eapply wp_get_some; [exact Hx|].
    fold (refers_b x dev inum). destruct (refers_b x dev inum) eqn:Hb.
    + apply wp_ret. split; [done|]. split; [unfold is_inode; lia|]. exists x. split; [done|]. by apply refers_dec.
    + eapply wp_mono; [apply IH; lia|]. intros r s' (-> & Hs). split; [done|].
      destruct r as [i|e]; simpl in *; [done|]. destruct Hs as [Hno Hs]. split.
      * intros i y Hi Hy. destruct (decide (i = ip)) as [->|]; [|by apply (Hno i y); [lia|]].
        assert (y = x) as -> by congruence. rewrite <- refers_dec. congruence.
      * destruct (Z.eqb_spec empty 0) as [->|He]; cbn [andb] in Hs.
        -- rewrite decide_True by done. destruct (Z.eqb_spec (i_ref x) 0) as [H0|H0].
           ++ rewrite decide_False in Hs by lia. subst e. right. split; [lia|]. by exists x.
           ++ rewrite decide_True in Hs by done. destruct Hs as [[-> Hs]|[He Hs]]; [left|right; split; [lia|done]].
              split; [done|]. intros i y Hi Hy. destruct (decide (i = ip)) as [->|]; [congruence|by apply (Hs i y); [lia|]].
        -- rewrite decide_False in Hs by done. by rewrite decide_False.
Qed.

Lemma itable_insert t ip x' dev inum :
  itable_ok t → is_inode ip → refers x' dev inum →
  (∀ i x, is_inode i → i ≠ ip → t !! i = Some x → ¬ refers x dev inum) → itable_ok (<[ip := x']> t).
Proof.
  intros [He Hu] Hip Hx' Hno. split.
  - intros i Hi. destruct (decide (i = ip)) as [->|].
    + exists x'. rewrite lookup_insert_eq. split; [done|]. destruct Hx'. lia.
    + rewrite lookup_insert_ne by done. by apply He.
  - intros i i' y y' d n Hi Hi' Hy Hy' Hr Hr'. destruct (decide (i = ip)) as [->|], (decide (i' = ip)) as [->|]; [done|..].
    + rewrite lookup_insert_eq in Hy. injection Hy as <-. rewrite lookup_insert_ne in Hy' by done.
      destruct Hx' as (? & <- & <-), Hr as (_ & <- & <-). by destruct (Hno i' y').
    + rewrite lookup_insert_eq in Hy'. injection Hy' as <-. rewrite lookup_insert_ne in Hy by done.
      destruct Hx' as (? & <- & <-), Hr' as (_ & <- & <-). by destruct (Hno i y).
    + rewrite lookup_insert_ne in Hy, Hy' by done. by apply (Hu i i' y y' d n).
Qed.

Lemma wp_itab_update E ip f x (Q : unit → St → Prop) s :
  itab s !! ip = Some x → Q tt (set_itab (<[ip := f x]> (itab s)) s) → wp E (update_inode ip f) Q s.
Proof.
  intros Hx HQ. apply wp_bind. eapply wp_get_some; [done|]. apply wp_modify.
  replace (alter f ip (itab s)) with (<[ip := f x]> (itab s)); [done|].
  apply map_eq. intros k. destruct (decide (k = ip)) as [->|].
  - by rewrite lookup_insert_eq, lookup_alter_eq, Hx.
  - by rewrite lookup_insert_ne, lookup_alter_ne.
Qed.

(** The entry [iget] hands out, before and after. *)
Definition got x x' dev inum : Prop :=
  (refers x dev inum ∧ x' = with_ref (i_ref x + 1) x) ∨ (i_ref x = 0 ∧ x' = reuse_inode dev inum x).

Lemma got_refers x x' dev inum : 0 ≤ i_ref x → got x x' dev inum → refers x' dev inum ∧ i_ref x' = i_ref x + 1.
Proof. intros Hr [[(? & ? & ?) ->]|[? ->]]; unfold refers; simpl; split_and!; lia || done. Qed.

Lemma iget_finish ip f x x' dev inum s :
  itable_lock ∉ held s → itable_ok (itab s) → is_inode ip → itab s !! ip = Some x → f x = x' → got x x' dev inum →
  (∀ i y, is_inode i → i ≠ ip → itab s !! i = Some y → ¬ refers y dev inum) →
  returns (update_inode ip f;;; release itable_lock;;; ret ip)
    (λ r s', is_inode r ∧ held s' = held s ∧ itable_ok (itab s') ∧
       ∃ y y', itab s !! r = Some y ∧ got y y' dev inum ∧ itab s' = <[r := y']> (itab s))
    (set_held ({[itable_lock]} ∪ held s) s).
Proof.
  intros Hl Hok Hip Hx Hf Hg Hno. apply wp_bind. eapply wp_itab_update; [exact Hx|].
  apply wp_bind, wp_release; [cbn; set_solver|]. apply wp_ret. cbn. rewrite Hf.
  split_and!; [done|cbn; set_solver| |].
  - apply (itable_insert (itab s) ip x' dev inum); try done. eapply got_refers; [|exact Hg].
    destruct (it_entry _ Hok ip Hip) as (z & Hz & ?). congruence.
  - by exists x, x'.
Qed.

(** C27: [iget] returns the entry of the inode table for the inode asked for: the one
    that has it already, with one reference more, or an unused one set up for it;
    no other entry changes, so the table keeps at most one entry for each inode.
    It panics exactly when every entry is in use for another inode. *)
Theorem iget_unique dev inum s :
  itable_lock ∉ held s → itable_ok (itab s) →
  (iget dev inum s = Panic "iget: no inodes" ∧
     ∀ ip x, is_inode ip → itab s !! ip = Some x → 0 < i_ref x ∧ ¬ refers x dev inum) ∨
  returns (iget dev inum)
    (λ ip s', is_inode ip ∧ held s' = held s ∧ itable_ok (itab s') ∧
       ∃ x x', itab s !! ip = Some x ∧ got x x' dev inum ∧ itab s' = <[ip := x']> (itab s)) s.
Proof.
  intros Hl Hok. set (s1 := set_held ({[itable_lock]} ∪ held s) s).
  assert (acquire itable_lock s = Ok tt s1) as Ha by (unfold acquire; by rewrite decide_False).
  destruct (proj1 (wp_no_sleep _ _ _) (iget_loop_spec dev inum (Z.to_nat NINODE) 1 0 s1 Hok ltac:(lia) eq_refl))
    as (r & s2 & Hr & -> & Hs).
  change (itab s1) with (itab s) in Hs.
  assert (∀ k : Z + Z → M St Z, bind (acquire itable_lock) (λ _, bind (iget_loop (Z.to_nat NINODE) dev inum 0 1) k) s = k r s1) as Hrun.
  { intros k. rewrite (bind_Ok _ _ _ _ _ Ha). by rewrite (bind_Ok _ _ _ _ _ Hr). }
  unfold iget, wp. rewrite Hrun. destruct r as [ip|e]; simpl in Hs.
  - right. destruct Hs as (Hip & x & Hx & Hrf).
    apply (iget_finish ip _ x _ dev inum s Hl Hok Hip Hx eq_refl); [by left|].
    intros i y Hi Hne Hy Hry. apply Hne. by apply (it_uniq _ Hok i ip y x dev inum).
  - destruct Hs as [Hno [[-> Hs]|[He (x & Hx & H0)]]].
    + left. split; [done|]. intros ip x Hip Hx. split; [|by apply (Hno ip)].
      destruct (it_entry _ Hok ip Hip) as (y & Hy & ?). assert (y = x) as -> by congruence.
      pose proof (Hs ip x Hip Hx). lia.
    + right. rewrite (proj2 (Z.eqb_neq e 0)) by lia.
      apply (iget_finish e _ x _ dev inum s Hl Hok He Hx eq_refl); [by right|].
      intros i y Hi _ Hy. by apply (Hno i).
Qed.
End itable.

(** An empty table. *)
Definition unused_inode : inode := Inode 0 0 0 (Sleeplock false 0) false (Dinode 0 0 0 0 0 []).
Definition empty_itab : gmap Z inode := gset_to_gmap unused_inode (list_to_set (seqZ 1 NINODE)).
Definition empty_fs : fsst flat_user :=
  Fsst (Logst (Biost (Thread 1 1 0 ∅ ∅ ∅) ∅ ∅ []) 0 0 0 false 0 0 []) (Superblock 0 0 0 0 0 0 0 0) empty_itab ∅ (∅ : gmap Z Z).

Lemma empty_itab_lookup ip x : empty_itab !! ip = Some x → x = unused_inode.
Proof. unfold empty_itab. by intros [_ <-]%lookup_gset_to_gmap_Some. Qed.

Lemma empty_itab_ok : itable_ok empty_itab.
Proof.
  split.
  - intros ip Hip. exists unused_inode. split; [|done]. unfold empty_itab.
    apply lookup_gset_to_gmap_Some. split; [|done]. apply elem_of_list_to_set, elem_of_seqZ. unfold is_inode in Hip. lia.
  - intros ip ip' x x' dev inum _ _ Hx _ [Hr _]. apply empty_itab_lookup in Hx as ->. simpl in Hr. lia.
Qed.

Lemma iget_unique_witness :
  (iget 1 1 empty_fs = Panic "iget: no inodes" ∧
     ∀ ip x, is_inode ip → itab empty_fs !! ip = Some x → 0 < i_ref x ∧ ¬ refers x 1 1) ∨
  returns (iget 1 1)
    (λ ip s', is_inode ip ∧ held s' = held empty_fs ∧ itable_ok (itab s') ∧
       ∃ x x', itab empty_fs !! ip = Some x ∧ got x x' 1 1 ∧ itab s' = <[ip := x']> (itab empty_fs)) empty_fs.
Proof. refine (iget_unique 1 1 empty_fs _ _); [exact (not_elem_of_empty itable_lock)|exact empty_itab_ok]. Defined.
