(* ===== verification/File.v ===== *)
(** Open files (kernel/file.c, [struct file] and [devsw] of kernel/file.h) and
    [pipealloc] of kernel/pipe.c: what a file descriptor stands for.

    A file pointer is its index in [ftable.file] plus one, [NULL] is 0.  The
    function pointers of a [devsw] entry are the ones of a driver; the console is
    the only one there is. *)

From S2P Require Import Prelude Riscv Mem Threads Sleeplock Bio Log Fs Pipe Uart Console.
Local Open Scope Z_scope.

Inductive ftype := FD_NONE | FD_PIPE | FD_INODE | FD_DEVICE.

Record file := File {
  f_type : ftype;
  f_ref : Z;
  f_readable : bool;
  f_writable : bool;
  f_pipe : Z;
  f_ip : Z;
  f_off : Z;
  f_major : Z;
  f_minor : Z;
}.

Definition set_fref (r : Z) (f : file) : file :=
  File (f_type f) r (f_readable f) (f_writable f) (f_pipe f) (f_ip f) (f_off f) (f_major f) (f_minor f).
Definition set_ftype (t : ftype) (f : file) : file :=
  File t (f_ref f) (f_readable f) (f_writable f) (f_pipe f) (f_ip f) (f_off f) (f_major f) (f_minor f).
Definition set_off (o : Z) (f : file) : file :=
  File (f_type f) (f_ref f) (f_readable f) (f_writable f) (f_pipe f) (f_ip f) o (f_major f) (f_minor f).
(** One end of a pipe. *)
Definition pipe_end (writable : bool) (pi : Z) (f : file) : file :=
  File FD_PIPE (f_ref f) (negb writable) writable pi (f_ip f) (f_off f) (f_major f) (f_minor f).

Definition major (dev : Z) : Z := Z.land (Z.shiftr dev 16) 0xFFFF.
Definition minor (dev : Z) : Z := Z.land dev 0xFFFF.
Definition mkdev (m n : Z) : Z := u32 (Z.lor (Z.shiftl m 16) n).

Inductive driver := console_driver.
Definition CONSOLE : Z := 1.

Record filest (U : Type) := Filest {
  fl_fs : fsst U;
  fl_pipes : gmap Z pipe;
  fl_uart : uartst;
  fl_cons : list console;
  fl_conscur : Z;
  fl_locking : bool;
  ftable : gmap Z file;
  devsw : gmap Z driver;
}.
Arguments Filest {U} _ _ _ _ _ _ _ _.
Arguments fl_fs {U} _.
Arguments fl_pipes {U} _.
Arguments fl_uart {U} _.
Arguments fl_cons {U} _.
Arguments fl_conscur {U} _.
Arguments fl_locking {U} _.
Arguments ftable {U} _.
Arguments devsw {U} _.

Section state.
Context {U : Type}.
Implicit Types (s : filest U).

Definition set_fs (f : fsst U) s : filest U :=
  Filest f (fl_pipes s) (fl_uart s) (fl_cons s) (fl_conscur s) (fl_locking s) (ftable s) (devsw s).
Definition set_ftable (t : gmap Z file) s : filest U :=
  Filest (fl_fs s) (fl_pipes s) (fl_uart s) (fl_cons s) (fl_conscur s) (fl_locking s) t (devsw s).
Definition set_devsw (d : gmap Z driver) s : filest U :=
  Filest (fl_fs s) (fl_pipes s) (fl_uart s) (fl_cons s) (fl_conscur s) (fl_locking s) (ftable s) d.

(** The pipes and the consoles with the running thread and the memory. *)
Definition get_pipes s : pipest U := Pipest (the_thread (fl_fs s)) (fs_mem (fl_fs s)) (fl_pipes s).
Definition put_pipes (p : pipest U) s : filest U :=
  Filest (set_thread (the_thread p) (set_fmem (pp_mem p) (fl_fs s))) (pp_pipes p) (fl_uart s) (fl_cons s)
    (fl_conscur s) (fl_locking s) (ftable s) (devsw s).
Definition get_cons s : const U :=
  Const (set_thread (the_thread (fl_fs s)) (fl_uart s)) (fs_mem (fl_fs s)) (fl_cons s) (fl_conscur s) (fl_locking s).
Definition put_cons (c : const U) s : filest U :=
  Filest (set_thread (the_thread c) (set_fmem (cs_mem c) (fl_fs s))) (fl_pipes s) (cs_uart c) (cons c)
    (conscur c) (pr_locking c) (ftable s) (devsw s).
End state.

#[export] Instance filest_thread U : HasThread (filest U).
Proof.
  refine {| the_thread := λ s, the_thread (fl_fs s);
            set_thread := λ t s, set_fs (set_thread t (fl_fs s)) s |}; try done.
  by intros [[[[]]]].
Defined.

Definition ftable_lock : Z := 103.

Section file.
Context {U : Type} `{UserMem U, PageAlloc U} (wakeups : nat).
Local Abbreviation St := (filest U).

Definition on_fs {A} (m : M (fsst U) A) : M St A := zoom fl_fs set_fs m.
Definition on_pipe {A} (m : M (pipest U) A) : M St A := zoom get_pipes put_pipes m.
Definition on_cons {A} (m : M (const U) A) : M St A := zoom get_cons put_cons m.
Definition deref_file (f : Z) : M St file := get_some (λ s, ftable s !! f).
Definition update_file (f : Z) (g : file → file) : M St unit :=
  let! _ := deref_file f in modify (λ s, set_ftable (alter g f (ftable s)) s).

(** [initlock] sets no field the model has. *)
Definition fileinit : M St unit := ret tt.

Fixpoint filealloc_loop (n : nat) (f : Z) : M St Z :=
  match n with
  | O => release ftable_lock;;; ret 0
  | S n =>
      let! x := deref_file f in
      if f_ref x =? 0 then update_file f (set_fref 1);;; release ftable_lock;;; ret f
      else filealloc_loop n (f + 1)
  end.
Definition filealloc : M St Z := acquire ftable_lock;;; filealloc_loop (Z.to_nat NFILE) 1.

Definition filedup (f : Z) : M St Z :=
  acquire ftable_lock;;;
  let! x := deref_file f in
  if f_ref x <? 1 then panic "filedup" else
  update_file f (λ x, set_fref (f_ref x + 1) x);;;
  release ftable_lock;;;
  ret f.

Definition fileclose (f : Z) : M St unit :=
  acquire ftable_lock;;;
  let! x := deref_file f in
  if f_ref x <? 1 then panic "fileclose" else
  update_file f (λ x, set_fref (f_ref x - 1) x);;;
  let! ff := deref_file f in
  if 0 <? f_ref ff then release ftable_lock else
  update_file f (λ x, set_ftype FD_NONE (set_fref 0 x));;;
  release ftable_lock;;;
  match f_type ff with
  | FD_PIPE => on_pipe (pipeclose (f_pipe ff) (f_writable ff))
  | FD_INODE | FD_DEVICE =>
      on_fs (on_log (begin_op wakeups));;;
      on_fs (iput wakeups (f_ip ff));;;
      on_fs (on_log (end_op wakeups))
  | FD_NONE => ret tt
  end.

(** A [struct stat] in memory; [pad] are the bytes between the fields. *)
Definition stat_bytes (pad : list Z) (st : stat) : list Z :=
  le_encode 4 (u32 (st_dev st)) ++ le_encode 4 (u32 (st_ino st)) ++ le_encode 2 (u16 (st_type st)) ++
  le_encode 2 (u16 (st_nlink st)) ++ pad ++ le_encode 8 (u64 (st_size st)).

Definition filestat (pad : list Z) (f addr : Z) : M St Z :=
  let! x := deref_file f in
  match f_type x with
  | FD_INODE | FD_DEVICE =>
      on_fs (ilock wakeups (f_ip x));;;
      let! st := on_fs (stati (f_ip x)) in
      on_fs (iunlock (f_ip x));;;
      let! pt := mypagetable in
      let! ok := on_fs (on_umem (copyout_val pt addr (stat_bytes pad st))) in
      if ok then ret 0 else ret (-1)
  | _ => ret (-1)
  end.

Definition dev_read (d : driver) (minor : Z) (user_dst : bool) (dst n : Z) : M St Z :=
  match d with console_driver => on_cons (consoleread wakeups minor user_dst dst n) end.
Definition dev_write (d : driver) (minor : Z) (user_src : bool) (src n : Z) : M St Z :=
  match d with console_driver => on_cons (consolewrite wakeups minor user_src src n) end.

(** [if((r = op(f->off)) > 0) f->off += r;] *)
Definition at_offset (f : Z) (op : file → M St Z) : M St Z :=
  let! x := deref_file f in
  let! r := op x in
  when (0 <? r) (update_file f (λ x, set_off (u32 (f_off x + r)) x));;;
  ret r.

Definition fileread (f addr n : Z) : M St Z :=
  let! x := deref_file f in
  if negb (f_readable x) then ret (-1) else
  match f_type x with
  | FD_PIPE => on_pipe (piperead wakeups (f_pipe x) addr n)
  | FD_DEVICE =>
      if (f_major x <? 0) || (NDEV <=? f_major x) then ret (-1) else
      let! d := gets (λ s, devsw s !! f_major x) in
      match d with
      | None => ret (-1)
      | Some d => dev_read d (f_minor x) true addr n
      end
  | FD_INODE =>
      on_fs (ilock wakeups (f_ip x));;;
      let! r := at_offset f (λ x, on_fs (readi wakeups (f_ip x) true addr (f_off x) (u32 n))) in
      on_fs (iunlock (f_ip x));;;
      ret r
  | FD_NONE => panic "fileread"
  end.

(** As many bytes as fit in one transaction. *)
Definition max_write : Z := (MAXOPBLOCKS - 1 - 1 - 2) / 2 * BSIZE.

(** Every round that goes on has written at least one byte. *)
Fixpoint filewrite_loop (fuel : nat) (f addr n i : Z) : M St Z :=
  if negb (i <? n) then ret i else
  match fuel with
  | O => out_of_fuel
  | S fuel =>
      let n1 := (n - i) `min` max_write in
      let! x := deref_file f in
      on_fs (on_log (begin_op wakeups));;;
      on_fs (ilock wakeups (f_ip x));;;
      let! r := at_offset f (λ x, on_fs (writei wakeups (f_ip x) true (u64 (addr + i)) (f_off x) n1)) in
      on_fs (iunlock (f_ip x));;;
      on_fs (on_log (end_op wakeups));;;
      if negb (r =? n1) then ret i else filewrite_loop fuel f addr n (i + r)
  end.

Definition filewrite (f addr n : Z) : M St Z :=
  let! x := deref_file f in
  if negb (f_writable x) then ret (-1) else
  match f_type x with
  | FD_PIPE => on_pipe (pipewrite wakeups (f_pipe x) addr n)
  | FD_DEVICE =>
      if (f_major x <? 0) || (NDEV <=? f_major x) then ret (-1) else
      let! d := gets (λ s, devsw s !! f_major x) in
      match d with
      | None => ret (-1)
      | Some d => dev_write d (f_minor x) true addr n
      end
  | FD_INODE =>
      let! i := filewrite_loop (Z.to_nat n) f addr n 0 in
      ret (if i =? n then n else -1)
  | FD_NONE => panic "filewrite"
  end.

(** [consoleinit] of console.c with the device table. *)
Definition consoleinit_devsw : M St unit :=
  on_cons consoleinit;;;
  modify (λ s, set_devsw (<[CONSOLE := console_driver]> (devsw s)) s).

(** * [pipealloc] *)

(** Gives back what was allocated so far; a null pointer stands for what was
    not. *)
Definition pipealloc_bad (pi f0 f1 : Z) : M St (option (Z * Z)) :=
  when (negb (pi =? 0)) (on_pipe (on_mem (page_free pi)));;;
  when (negb (f0 =? 0)) (fileclose f0);;;
  when (negb (f1 =? 0)) (fileclose f1);;;
  ret None.
(** The two files, [None] for -1. *)
Definition pipealloc : M St (option (Z * Z)) :=
  let! f0 := filealloc in
  if f0 =? 0 then pipealloc_bad 0 0 0 else
  let! f1 := filealloc in
  if f1 =? 0 then pipealloc_bad 0 f0 0 else
  let! pi := on_pipe (on_mem page_alloc) in
  if pi =? 0 then pipealloc_bad 0 f0 f1 else
  on_pipe (set_pipe pi new_pipe);;;
  update_file f0 (pipe_end false pi);;;
  update_file f1 (pipe_end true pi);;;
  ret (Some (f0, f1)).
End file.

(** * The file table *)

Section table.
Context {U : Type} `{UserMem U, PageAlloc U} (w : nat).
Local Abbreviation St := (filest U).
Implicit Types (s : St) (x : file) (f g : Z) (t : gmap Z file).

Definition is_file f : Prop := 1 ≤ f ≤ NFILE.

(** Every entry exists; one that is not in use stands for nothing. *)
Definition ftable_ok t : Prop :=
  ∀ f, is_file f → ∃ x, t !! f = Some x ∧ 0 ≤ f_ref x ∧ (f_ref x = 0 → f_type x = FD_NONE).

Lemma held_ftable t s : held (set_ftable t s) = held s.
Proof. done. Qed.

Lemma set_ftable_twice t t' s : set_ftable t (set_ftable t' s) = set_ftable t s.
Proof. done. Qed.

(** The lock is taken, [f] changes the table and releases the lock. *)
Lemma wp_ftable_critical {A} (m : M St A) (P : A → gmap Z file → Prop) s :
  ftable_lock ∉ held s →
  returns m (λ a s', ∃ t, s' = set_held (held s) (set_ftable t s) ∧ P a t) (set_held ({[ftable_lock]} ∪ held s) s) →
  returns (acquire ftable_lock;;; m) (λ a s', ∃ t, s' = set_ftable t s ∧ P a t) s.
Proof.
  intros Hl Hm. apply wp_bind, wp_acquire; [done|]. eapply wp_mono; [exact Hm|].
  intros a s' (t & -> & HP). exists t. split; [|done]. rewrite <- (held_ftable t s). apply set_held_held.
Qed.

Lemma wp_ftable_release (Q : unit → St → Prop) t s :
  ftable_lock ∉ held s → Q tt (set_held (held s) (set_ftable t s)) →
  returns (release ftable_lock) Q (set_ftable t (set_held ({[ftable_lock]} ∪ held s) s)).
Proof.
  intros Hl HQ. apply wp_release; [set_solver|]. eassert (_ = _) as Heq; [|rewrite Heq; exact HQ].
  change (set_ftable t (set_held ({[ftable_lock]} ∪ held s) s)) with (set_held ({[ftable_lock]} ∪ held s) (set_ftable t s)).
  rewrite set_held_set, held_set. by rewrite lock_released.
Qed.

Lemma wp_deref_file {B} E (k : file → M St B) f x Q s :
  ftable s !! f = Some x → wp E (k x) Q s → wp E (bind (deref_file f) k) Q s.
Proof. intros Hx HQ. apply wp_bind. by eapply wp_get_some. Qed.

Lemma wp_update_file E f (h : file → file) x (Q : unit → St → Prop) s :
  ftable s !! f = Some x → Q tt (set_ftable (<[f := h x]> (ftable s)) s) → wp E (update_file f h) Q s.
Proof.
  intros Hx HQ. eapply wp_deref_file; [done|]. apply wp_modify.
  replace (alter h f (ftable s)) with (<[f := h x]> (ftable s)); [done|].
  apply map_eq. intros k. destruct (decide (k = f)) as [->|].
  - by rewrite lookup_insert_eq, lookup_alter_eq, Hx.
  - by rewrite lookup_insert_ne, lookup_alter_ne.
Qed.

(** The first free entry, or none. *)
Definition allocated t (r : Z) t' : Prop :=
  (r = 0 ∧ t' = t ∧ ∀ f x, is_file f → t !! f = Some x → f_ref x ≠ 0) ∨
  (is_file r ∧ (∀ f x, 1 ≤ f < r → t !! f = Some x → f_ref x ≠ 0) ∧
   ∃ x, t !! r = Some x ∧ f_ref x = 0 ∧ t' = <[r := set_fref 1 x]> t).

Lemma filealloc_spec s :
  ftable_lock ∉ held s → ftable_ok (ftable s) →
  returns filealloc (λ r s', ∃ t, s' = set_ftable t s ∧ allocated (ftable s) r t) s.
Proof.
  intros Hl Hok. apply wp_ftable_critical; [done|].
  assert (∀ n f, 1 ≤ f → f + Z.of_nat n = NFILE + 1 → (∀ g x, 1 ≤ g < f → ftable s !! g = Some x → f_ref x ≠ 0) →
    returns (filealloc_loop n f) (λ r s', ∃ t, s' = set_held (held s) (set_ftable t s) ∧ allocated (ftable s) r t)
      (set_held ({[ftable_lock]} ∪ held s) s)) as HL; [|apply HL; [done|done|lia]].
  set (s1 := set_held _ s). assert (set_ftable (ftable s) s1 = s1) as Hs1 by by destruct s.
  induction n as [|n IH]; intros f Hf Hn Hbusy; simpl.
  - apply wp_bind. rewrite <- Hs1. apply wp_ftable_release; [done|]. apply wp_ret. exists (ftable s).
    split; [done|]. left. split_and!; [done|done|]. intros g x Hg. apply Hbusy. unfold is_file in Hg. lia.
  - destruct (Hok f) as (x & Hx & _); [unfold is_file; lia|]. eapply wp_deref_file; [exact Hx|].
    destruct (Z.eqb_spec (f_ref x) 0) as [Hr0|Hr0].
    + apply wp_bind. eapply wp_update_file; [exact Hx|]. apply wp_bind, wp_ftable_release; [done|]. apply wp_ret.
      eexists. split; [done|]. right. split_and!; [unfold is_file; lia|done|]. by exists x.
    + apply IH; [lia|lia|]. intros g y Hg Hy. destruct (decide (g = f)) as [->|]; [congruence|].
      apply (Hbusy g y); [lia|done].
Qed.

(** The last reference to a file that stands for nothing. *)
Lemma fileclose_unused f x s :
  ftable_lock ∉ held s → ftable s !! f = Some x → f_ref x = 1 → f_type x = FD_NONE →
  returns (fileclose w f) (λ _ s', s' = set_ftable (<[f := set_fref 0 x]> (ftable s)) s) s.
Proof.
  intros Hl Hx Hr Ht. eapply wp_mono with (P := λ _ s', ∃ t, s' = set_ftable t s ∧ t = <[f := set_fref 0 x]> (ftable s));
    [|by intros _ s' (t & -> & ->)].
  apply (wp_ftable_critical _ (λ _ t, t = <[f := set_fref 0 x]> (ftable s))); [done|]. eapply wp_deref_file; [exact Hx|]. rewrite Hr.
  change (1 <? 1) with false. cbv iota.
  apply wp_bind. eapply wp_update_file; [exact Hx|]. rewrite Hr. eapply wp_deref_file; [apply lookup_insert_eq|].
  change (0 <? f_ref (set_fref (1 - 1) x)) with false. cbv iota.
  apply wp_bind. eapply wp_update_file; [apply lookup_insert_eq|]. rewrite set_ftable_twice.
  apply wp_bind, wp_ftable_release; [done|].
  change (f_type (set_fref (1 - 1) x)) with (f_type x). rewrite Ht. apply wp_ret.
  eexists. split; [done|]. cbn [ftable set_ftable]. rewrite insert_insert_eq. f_equal. by destruct x; simpl in *; subst.
Qed.
(** * [pipealloc] *)

Definition set_memory (u : U) s : St := set_fs (set_fmem u (fl_fs s)) s.
Definition set_pipes (ps : gmap Z pipe) s : St :=
  Filest (fl_fs s) ps (fl_uart s) (fl_cons s) (fl_conscur s) (fl_locking s) (ftable s) (devsw s).

Lemma put_pipes_eq u ps s : put_pipes (Pipest (the_thread (fl_fs s)) u ps) s = set_pipes ps (set_memory u s).
Proof.
  by destruct s as [[[[]]]].
Qed.

Lemma wp_page_alloc (Q : Z → St → Prop) s :
  returns page_alloc (λ _ _, True) (fs_mem (fl_fs s)) →
  (∀ p u, page_alloc (fs_mem (fl_fs s)) = Ok p u → Q p (set_memory u s)) → returns (on_pipe (on_mem page_alloc)) Q s.
Proof.
  intros (p & u & Hp & _)%wp_no_sleep HQ. specialize (HQ p u Hp).
  change (set_memory u s) with (set_pipes (fl_pipes s) (set_memory u s)) in HQ. unfold on_pipe, on_mem, zoom, wp. simpl. rewrite Hp. simpl.
  rewrite <- (put_pipes_eq u (fl_pipes s)) in HQ. exact HQ.
Qed.

Lemma wp_file_pipe pi p (Q : unit → St → Prop) s :
  Q tt (set_pipes (<[pi := p]> (fl_pipes s)) s) → returns (on_pipe (set_pipe pi p)) Q s.
Proof.
  intros HQ. unfold on_pipe, zoom, wp.
  assert (set_memory (fs_mem (fl_fs s)) s = s) as Hs by by destruct s as [[]].
  rewrite <- Hs in HQ at 2. rewrite <- put_pipes_eq in HQ. exact HQ.
Qed.

Lemma fresh_ok t r x : ftable_ok t → f_ref x = 0 → t !! r = Some x → is_file r → ftable_ok (<[r := set_fref 1 x]> t).
Proof.
  intros Hok Hr Hx Hf g Hg. destruct (decide (g = r)) as [->|]; [|rewrite lookup_insert_ne by done; by apply Hok].
  exists (set_fref 1 x). rewrite lookup_insert_eq. simpl. split_and!; [done|lia|lia].
Qed.

(** Closing a file that was allocated a moment ago undoes the allocation. *)
Lemma close_fresh t t' f x s :
  ftable_lock ∉ held s → ftable_ok t → is_file f → t !! f = Some x → f_ref x = 0 → t' = <[f := set_fref 1 x]> t → ftable s = t' →
  returns (fileclose w f) (λ _ s', s' = set_ftable t s) s.
Proof.
  intros Hl Hok Hf Hx Hr -> Ht. destruct (Hok f Hf) as (y & Hy & _ & Htype). assert (y = x) as -> by congruence.
  eapply wp_mono; [apply (fileclose_unused f (set_fref 1 x) s Hl)|].
  - by rewrite Ht, lookup_insert_eq.
  - done.
  - by apply Htype.
  - intros _ s' ->. rewrite Ht, insert_insert_eq. f_equal.
    replace (set_fref 0 (set_fref 1 x)) with x by (destruct x; simpl in *; by subst). by apply insert_id.
Qed.

(** Fewer than two entries of the table are free. *)
Definition no_two_free t : Prop :=
  ∀ f g x y, is_file f → is_file g → t !! f = Some x → t !! g = Some y → f_ref x = 0 → f_ref y = 0 → f = g.
(** What [pipealloc] leaves. *)
Definition piped s (r : option (Z * Z)) s' : Prop :=
  ∃ u, match r with
  | None => s' = set_memory u s ∧ (no_two_free (ftable s) ∨ page_alloc (fs_mem (fl_fs s)) = Ok 0 u)
  | Some (f0, f1) => ∃ pi x0 x1, pi ≠ 0 ∧ page_alloc (fs_mem (fl_fs s)) = Ok pi u ∧ is_file f0 ∧ is_file f1 ∧ f0 ≠ f1 ∧
      ftable s !! f0 = Some x0 ∧ f_ref x0 = 0 ∧ ftable s !! f1 = Some x1 ∧ f_ref x1 = 0 ∧
      s' = set_ftable (<[f1 := pipe_end true pi (set_fref 1 x1)]> (<[f0 := pipe_end false pi (set_fref 1 x0)]> (ftable s)))
             (set_pipes (<[pi := new_pipe]> (fl_pipes s)) (set_memory u s))
  end.

Lemma set_ftable_id s : set_ftable (ftable s) s = s.
Proof. by destruct s. Qed.
Lemma set_memory_id s : set_memory (fs_mem (fl_fs s)) s = s.
Proof. by destruct s as [[]]. Qed.

(** C36: [pipealloc] either makes a pipe, empty and open at both ends, with two files,
    not in use before, that are its read end and its write end; or it returns -1
    and leaves the file table and the pipes as they were: whatever it had
    allocated is given back.  It fails only when there are not two free files or
    there is no page. *)
Theorem pipealloc_all_or_nothing s :
  ftable_lock ∉ held s → ftable_ok (ftable s) → (∀ u, returns page_alloc (λ _ _, True) u) →
  returns (pipealloc w) (piped s) s.
Proof.
  intros Hl Hok Hpa. eapply wp_call; [by apply filealloc_spec|]. cbn beta. intros f0 s1 (t1 & -> & Ha0).
  destruct Ha0 as [(-> & -> & Hbusy)|(Hf0 & Hb0 & x0 & Hx0 & Hr0 & ->)].
  { apply wp_ret. exists (fs_mem (fl_fs s)). rewrite set_memory_id, set_ftable_id. split; [done|]. left.
    intros f g x y Hf Hg Hx Hy Hr _. by destruct (Hbusy f x). }
  rewrite (proj2 (Z.eqb_neq f0 0)) by (unfold is_file in Hf0; lia).
  pose proof (fresh_ok _ _ _ Hok Hr0 Hx0 Hf0) as Hok1.
  eapply wp_call; [by apply filealloc_spec|]. cbn beta. intros f1 s2 (t2 & -> & Ha1). rewrite set_ftable_twice.
  cbn [ftable set_ftable] in Ha1. destruct Ha1 as [(-> & -> & Hbusy)|(Hf1 & Hb1 & x1 & Hx1 & Hr1 & ->)].
  { change (0 =? 0) with true. cbv iota. unfold pipealloc_bad.
    rewrite (proj2 (Z.eqb_neq f0 0)) by (unfold is_file in Hf0; lia). cbn [negb when Z.eqb].
    apply wp_bind, wp_ret.
    eapply wp_call; [by eapply (close_fresh (ftable s) _ f0 x0)|]. cbn beta. intros _ s3 ->.
    apply wp_bind, wp_ret, wp_ret. exists (fs_mem (fl_fs s)).
    rewrite set_ftable_twice, set_ftable_id, set_memory_id. split; [done|]. left.
    assert (∀ f x, is_file f → ftable s !! f = Some x → f_ref x = 0 → f = f0) as Honly.
    { intros f x Hf Hx Hr. destruct (decide (f = f0)) as [|Hne]; [done|]. destruct (Hbusy f x Hf); [|done].
      by rewrite lookup_insert_ne. }
    intros f g x y Hf Hg Hx Hy Hr Hr'. rewrite (Honly f x), (Honly g y); done. }
  assert (f0 ≠ f1) as Hne by (intros <-; rewrite lookup_insert_eq in Hx1; injection Hx1 as <-; done).
  assert (ftable s !! f1 = Some x1) as Hx1' by by rewrite lookup_insert_ne in Hx1.
  rewrite (proj2 (Z.eqb_neq f1 0)) by (unfold is_file in Hf1; lia).
  apply wp_bind, wp_page_alloc; [apply Hpa|]. intros pi u Hpi. cbn beta.
  destruct (Z.eqb_spec pi 0) as [->|Hpi0].
  - unfold pipealloc_bad. rewrite (proj2 (Z.eqb_neq f0 0)), (proj2 (Z.eqb_neq f1 0)) by (unfold is_file in *; lia).
    cbn [negb when Z.eqb]. apply wp_bind, wp_ret.
    rewrite insert_insert_ne by done.
    eapply wp_call.
    { eapply (close_fresh (<[f1 := set_fref 1 x1]> (ftable s)) _ f0 x0); try done.
      - by apply fresh_ok.
      - by rewrite lookup_insert_ne. }
    cbn beta. intros _ s3 ->.
    eapply wp_call; [by eapply (close_fresh (ftable s) _ f1 x1)|]. cbn beta. intros _ s4 ->.
    apply wp_ret. exists u. split; [|by right].
    change (set_ftable (ftable s) (set_memory u s) = set_memory u s). apply (set_ftable_id (set_memory u s)).
  - apply wp_bind, wp_file_pipe. apply wp_bind. eapply wp_update_file.
    { cbn. rewrite lookup_insert_ne by done. apply lookup_insert_eq. }
    apply wp_bind. eapply wp_update_file; [cbn; rewrite lookup_insert_ne by done; apply lookup_insert_eq|].
    apply wp_ret. exists u, pi, x0, x1. split_and!; try done.
    trans (set_ftable (<[f1 := pipe_end true pi (set_fref 1 x1)]> (<[f0 := pipe_end false pi (set_fref 1 x0)]>
      (<[f1 := set_fref 1 x1]> (<[f0 := set_fref 1 x0]> (ftable s))))) (set_pipes (<[pi := new_pipe]> (fl_pipes s)) (set_memory u s)));
      [done|].
    by rewrite (insert_insert_ne _ f0 f1), !insert_insert_eq by done.
Qed.
End table.

(** An empty file table. *)
Definition unused_file : file := File FD_NONE 0 false false 0 0 0 0 0.
Definition empty_ftable : gmap Z file := gset_to_gmap unused_file (list_to_set (seqZ 1 NFILE)).
Lemma empty_ftable_ok : ftable_ok empty_ftable.
Proof.
  intros f Hf. exists unused_file. split_and!; try done. apply lookup_gset_to_gmap_Some. split; [|done].
  apply elem_of_list_to_set, elem_of_seqZ. unfold is_file in Hf. lia.
Qed.
Definition idle_fs : fsst flat_user :=
  Fsst (Logst (Biost (Thread 1 1 0 ∅ ∅ ∅) ∅ ∅ []) 0 0 0 false 0 0 []) (Superblock 0 0 0 0 0 0 0 0) ∅ ∅ (∅ : gmap Z Z).
Definition idle_files : filest flat_user :=
  Filest idle_fs ∅ (Uartst (Thread 1 1 0 ∅ ∅ ∅) (Device [] [] [] []) false [] 0 0) [] 0 true empty_ftable ∅.
Definition one_page : PageAlloc flat_user := {| page_alloc := λ u, Ok 4096 u; page_free := λ _, ret tt |}.

Lemma pipealloc_all_or_nothing_witness :
  returns (@pipealloc _ one_page 0) (@piped _ one_page idle_files) idle_files ∧
  (∃ s', @pipealloc _ one_page 0 idle_files = Ok (Some (1, 2)) s').
Proof.
  split; [|eexists; vm_compute; reflexivity].
  exact (@pipealloc_all_or_nothing _ one_page 0 idle_files (not_elem_of_empty ftable_lock) empty_ftable_ok (λ _, I)).
Defined.
