(* ===== verification/Queues.v ===== *)
(** Several lists in one memory (kernel/list.c as kernel/proc.c uses it): each
    process and container is on at most one of a family of queues, linked
    through the same field. *)

From S2P Require Import Prelude Lists ListChains ListSpecs.
Local Open Scope Z_scope.

(** The lists at the keys of [L] hold the sequences [L] says and do not share a
    cell. *)
Record queues (h : heap) (L : gmap Z (list Z)) : Prop := {
  qs_repr l xs : L !! l = Some xs → list_repr h l xs;
  qs_disjoint l l' xs xs' x : L !! l = Some xs → L !! l' = Some xs' → l ≠ l' → x ∈ chain l xs → x ∉ chain l' xs';
}.

(** The element [e] is a cell that is on none of the lists. *)
Record off_queues (h : heap) (L : gmap Z (list Z)) (e : Z) : Prop := {
  oq_not_null : e ≠ NULL;
  oq_cell : is_Some (h !! e);
  oq_off l xs : L !! l = Some xs → e ∉ chain l xs;
}.

Section queues.
Implicit Types (h : heap) (L : gmap Z (list Z)) (l e : Z) (xs ys : list Z).

Lemma elem_of_chain x l xs : x ∈ chain l xs ↔ x = head_of l ∨ x = tail_of l ∨ x ∈ xs.
Proof. unfold chain. rewrite elem_of_cons, elem_of_app, list_elem_of_singleton. tauto. Qed.

(** An element is on at most one list, at most once. *)
Lemma queues_one h L l l' xs xs' e :
  queues h L → L !! l = Some xs → L !! l' = Some xs' → e ∈ xs → e ∈ xs' → l = l'.
Proof.
  intros Hq Hl Hl' He He'. destruct (decide (l = l')) as [|Hne]; [done|]. exfalso.
  eapply (qs_disjoint _ _ Hq l l' xs xs' e Hl Hl' Hne); apply elem_of_chain; auto.
Qed.

Lemma queues_NoDup h L l xs : queues h L → L !! l = Some xs → NoDup xs.
Proof. intros Hq Hl. eapply repr_NoDup, qs_repr; done. Qed.

(** One list changes within its own cells and the cells [new]. *)
Lemma queues_update h h' L l xs (new : list Z) :
  (∀ ys, L !! l = Some ys → only (new ++ chain l ys) h h') → (L !! l = None → only (new ++ chain l xs) h h') →
  queues h L → list_repr h' l xs →
  (∀ l' ys x, L !! l' = Some ys → l' ≠ l → x ∈ new ++ chain l xs → x ∉ chain l' ys) →
  queues h' (<[l := xs]> L).
Proof.
  intros Ho Hn Hq Hr Hd. split.
  - intros l' ys Hl'. destruct (decide (l' = l)) as [->|Hne]; [rewrite lookup_insert_eq in Hl'; by injection Hl' as <-|].
    rewrite lookup_insert_ne in Hl' by done. destruct (L !! l) as [zs|] eqn:Hl.
    + apply (list_repr_only h h' (new ++ chain l zs)); [by apply Hq|by apply Ho|].
      intros x Hx. rewrite elem_of_app. intros [Hx'|Hx'].
      * eapply (Hd l' ys x); [done..| |done]. rewrite elem_of_app. auto.
      * by eapply (qs_disjoint _ _ Hq l' l ys zs x).
    + apply (list_repr_only h h' (new ++ chain l xs)); [by apply Hq|by apply Hn|].
      intros x Hx Hx'. by eapply (Hd l' ys x).
  - intros l1 l2 xs1 xs2 x H1 H2 Hne Hx Hx'.
    destruct (decide (l1 = l)) as [->|], (decide (l2 = l)) as [->|]; [done|..].
    + rewrite lookup_insert_eq in H1. injection H1 as <-. rewrite lookup_insert_ne in H2 by done.
      eapply (Hd l2 xs2 x); [done..| |done]. rewrite elem_of_app. auto.
    + rewrite lookup_insert_eq in H2. injection H2 as <-. rewrite lookup_insert_ne in H1 by done.
      eapply (Hd l1 xs1 x); [done..| |done]. rewrite elem_of_app. auto.
    + rewrite lookup_insert_ne in H1, H2 by done. by eapply (qs_disjoint _ _ Hq l1 l2 xs1 xs2 x).
Qed.

(** Nothing but the two cells of a push, a removal, can leave or enter. *)
Lemma off_queues_update h h' L l xs e c :
  only c h h' → off_queues h L e → e ∉ chain l xs → off_queues h' (<[l := xs]> L) e.
Proof.
  intros [_ Hs] [H1 H2 H3] He. split; [done|by apply Hs|].
  intros l' ys Hl'. destruct (decide (l' = l)) as [->|]; [rewrite lookup_insert_eq in Hl'; by injection Hl' as <-|].
  rewrite lookup_insert_ne in Hl' by done. by apply H3.
Qed.

Lemma queue_push E h L l xs e :
  queues h L → L !! l = Some xs → off_queues h L e →
  wp E (list_push_back l e)
    (λ _ h', queues h' (<[l := xs ++ [e]]> L) ∧
       ∀ e', e' ≠ e → off_queues h L e' → off_queues h' (<[l := xs ++ [e]]> L) e') h.
Proof.
  intros Hq Hl [He Hc Hoff]. eapply wp_mono.
  { apply (list_push_back_repr E h l xs e); [by apply Hq|by apply Hoff|done|done]. }
  intros _ h' [Hr Ho]. split.
  - apply (queues_update h h' L l (xs ++ [e]) [e]); try done.
    + intros ys Hys. assert (ys = xs) as -> by congruence. done.
    + congruence.
    + intros l' ys x Hl' Hne. rewrite elem_of_app, list_elem_of_singleton, elem_of_chain, elem_of_app, list_elem_of_singleton.
      intros Hx Hx'. assert (x = e ∨ x ∈ chain l xs) as [->|Hin] by (rewrite elem_of_chain; tauto).
      * by apply (Hoff l' ys).
      * by eapply (qs_disjoint _ _ Hq l' l ys xs x).
  - intros e' Hne Hoff'. eapply off_queues_update; [exact Ho|done|].
    pose proof (oq_off _ _ _ Hoff' l xs Hl) as Hn. rewrite elem_of_chain in Hn |- *.
    rewrite elem_of_app, list_elem_of_singleton. tauto.
Qed.

Lemma queue_remove E h L l xs ys e :
  queues h L → L !! l = Some (xs ++ e :: ys) →
  wp E (list_remove e)
    (λ _ h', queues h' (<[l := xs ++ ys]> L) ∧ off_queues h' (<[l := xs ++ ys]> L) e ∧
       ∀ e', off_queues h L e' → off_queues h' (<[l := xs ++ ys]> L) e') h.
Proof.
  intros Hq Hl. pose proof (qs_repr _ _ Hq l _ Hl) as Hr0.
  assert (e ∈ xs ++ e :: ys) as Hin by (rewrite elem_of_app, elem_of_cons; tauto).
  eapply wp_mono; [by apply (list_remove_repr E h l xs e ys)|].
  intros _ h' (_ & Hr & Ho).
  assert (∀ x, x ∈ chain l (xs ++ ys) → x ∈ chain l (xs ++ e :: ys)) as Hsub.
  { intros x. rewrite !elem_of_chain, !elem_of_app, elem_of_cons. tauto. }
  assert (queues h' (<[l := xs ++ ys]> L)) as Hq'.
  { apply (queues_update h h' L l (xs ++ ys) []); try done.
    - intros zs Hzs. assert (zs = xs ++ e :: ys) as -> by congruence. by eapply only_weaken.
    - intros l' zs x Hl' Hne Hx%Hsub Hx'. by eapply (qs_disjoint _ _ Hq l' l zs _ x). }
  split_and!; [done| |].
  - split.
    + exact (repr_elem_not_null _ _ _ _ Hr0 Hin).
    + destruct Ho as [_ Hs]. apply Hs. apply (repr_chain_is_Some _ _ _ _ Hr0), elem_of_chain. tauto.
    + intros l' zs Hl'. destruct (decide (l' = l)) as [->|Hne].
      * rewrite lookup_insert_eq in Hl'. injection Hl' as <-.
        destruct Hr0 as (_ & Hnd & _). unfold chain in *. apply NoDup_cons in Hnd as [Hh Hnd].
        rewrite <- app_assoc in Hnd. simpl in Hnd. apply NoDup_middle in Hnd as [Hne _].
        rewrite !elem_of_cons, !elem_of_app, list_elem_of_singleton in *. intros Hx.
        assert (e = head_of l ∨ e ∈ xs ∨ e ∈ ys ∨ e = tail_of l) as [->|Hx'] by tauto; [|tauto].
        apply Hh. rewrite elem_of_cons. tauto.
      * rewrite lookup_insert_ne in Hl' by done. intros Hx.
        eapply (qs_disjoint _ _ Hq l' l zs _ e); [done..|]. apply elem_of_chain. tauto.
  - intros e' Hoff'. eapply off_queues_update; [exact Ho|done|]. intros Hx%Hsub. by apply (oq_off _ _ _ Hoff' l _ Hl).
Qed.

(** [take_first]: what the allocators and the scheduler do with a queue. *)
Lemma queue_empty E h L l xs Q :
  queues h L → L !! l = Some xs → Q (bool_decide (xs = [])) h → wp E (list_empty l) Q h.
Proof. intros Hq Hl. eapply wp_list_empty. by apply Hq. Qed.

Lemma queue_begin E h L l x xs Q :
  queues h L → L !! l = Some (x :: xs) → Q x h → wp E (list_begin l) Q h.
Proof. intros Hq Hl HQ. eapply wp_list_begin; [by apply Hq|]. done. Qed.

(** A new list in two cells that are on no list. *)
Lemma queue_init E h L l :
  queues h L → L !! l = None → off_queues h L (head_of l) → off_queues h L (tail_of l) →
  wp E (list_init l)
    (λ _ h', queues h' (<[l := []]> L) ∧
       ∀ e', e' ≠ head_of l → e' ≠ tail_of l → off_queues h L e' → off_queues h' (<[l := []]> L) e') h.
Proof.
  intros Hq Hl [H1 H2 H3] [T1 T2 T3]. eapply wp_mono; [by apply (list_init_repr E h l)|].
  intros _ h' [Hr Ho]. split.
  - apply (queues_update h h' L l [] []); try done; [congruence|].
    intros l' ys x Hl' Hne. simpl. rewrite elem_of_chain. intros [->|[->|Hx]]; [by apply H3|by apply T3|].
    by apply elem_of_nil in Hx.
  - intros e' Hh Ht Hoff. eapply off_queues_update; [exact Ho|done|]. rewrite elem_of_chain.
    intros [?|[?|Hx]]; [done|done|by apply elem_of_nil in Hx].
Qed.

(** A list that nobody uses any more gives back its cells. *)
Lemma queues_delete h L l : queues h L → queues h (delete l L).
Proof.
  intros [H1 H2]. split.
  - intros l' xs [_ Hl']%lookup_delete_Some. by apply H1.
  - intros l1 l2 xs1 xs2 x [_ Hl1]%lookup_delete_Some [_ Hl2]%lookup_delete_Some. by eapply H2.
Qed.
End queues.
