(* ===== verification/Proc.v ===== *)
(** Processes and containers (kernel/proc.c, kernel/proc.h, and the records of
    kernel/uproc.h and kernel/cinfo.h).

    A process pointer is its index in [proc] plus one, a container pointer its
    index in [cont] plus one; [NULL] is 0.  The list elements and the lists
    embedded in the two arrays are cells of the list memory of [Lists], at the
    addresses below.  Fields that other components keep are not repeated in
    [proc]: [p->killed] is membership in [th_killed], [p->cwd] is [fs_cwd].  The
    name and path buffers are lists of bytes.

    [swtch] is the point where other threads run: the routine sleeps with the rest
    of its body as a continuation, and the process table it leaves is what the
    scheduler of the CPU finds. *)

From S2P Require Import Prelude Lists Riscv Mem CString Kalloc Vm Threads Sleeplock Bio Log Fs Pipe Printf Uart Console File.
Local Open Scope Z_scope.

(** * Address spaces

    What the process code needs of kalloc.c and vm.c; [vm_space] is the
    implementation. *)
Class AddressSpace (U : Type) := {
  as_kalloc : M U Z;
  as_kfree : Z → M U unit;
  as_create : M U Z;
  as_map : Z → Z → Z → Z → Z → M U Z;
  as_unmap : Z → Z → Z → bool → M U unit;
  as_free : Z → Z → M U unit;
  as_first : Z → Z → Z → M U unit;
  as_alloc : Z → Z → Z → Z → M U Z;
  as_dealloc : Z → Z → Z → M U Z;
  as_copy : Z → Z → Z → M U Z;
  as_clear : Z → Z → M U unit;
  as_walkaddr : Z → Z → M U Z;
}.
Definition vm_space (end_ : Z) : AddressSpace kmem := {|
  as_kalloc := kalloc;
  as_kfree := kfree end_;
  as_create := uvmcreate;
  as_map := mappages;
  as_unmap := uvmunmap end_;
  as_free := uvmfree end_;
  as_first := uvmfirst;
  as_alloc := uvmalloc end_;
  as_dealloc := uvmdealloc end_;
  as_copy := uvmcopy end_;
  as_clear := uvmclear;
  as_walkaddr := walkaddr;
|}.

(** * proc.h *)

Inductive procstate := UNUSED | USED | SLEEPING | RUNNABLE | RUNNING | ZOMBIE.
#[export] Instance procstate_eq_dec : EqDecision procstate.
Proof. solve_decision. Defined.
(** A C [enum] as the number it is. *)
Definition state_num (t : procstate) : Z :=
  match t with UNUSED => 0 | USED => 1 | SLEEPING => 2 | RUNNABLE => 3 | RUNNING => 4 | ZOMBIE => 5 end.

(** A saved context: of a process that will start in [forkret] on the stack with
    top [sp], or of one that called [swtch]. *)
Inductive context := Fresh (sp : Z) | Saved.

(** A trap frame: its 64-bit words by byte offset. *)
Abbreviation trapframe := (gmap Z Z).
Definition tf_epc : Z := 24.
Definition tf_sp : Z := 48.
Definition tf_a0 : Z := 112.
Definition tf_a1 : Z := 120.
Definition tf_a7 : Z := 168.

Record proc := Proc {
  p_state : procstate;
  p_chan : Z;
  p_xstate : Z;
  p_pid : Z;
  p_parent : Z;
  p_kstack : Z;
  p_sz : Z;
  p_pagetable : Z;
  p_trapframe : Z;
  p_context : context;
  p_ofile : list Z;
  p_name : list Z;
  p_nsched : Z;
  p_nticks : Z;
  p_contp : Z;
}.
Definition set_p_state (v : procstate) (x : proc) : proc :=
  Proc v (p_chan x) (p_xstate x) (p_pid x) (p_parent x) (p_kstack x) (p_sz x) (p_pagetable x) (p_trapframe x) (p_context x) (p_ofile x) (p_name x) (p_nsched x) (p_nticks x) (p_contp x).
Definition set_p_chan (v : Z) (x : proc) : proc :=
  Proc (p_state x) v (p_xstate x) (p_pid x) (p_parent x) (p_kstack x) (p_sz x) (p_pagetable x) (p_trapframe x) (p_context x) (p_ofile x) (p_name x) (p_nsched x) (p_nticks x) (p_contp x).
Definition set_p_xstate (v : Z) (x : proc) : proc :=
  Proc (p_state x) (p_chan x) v (p_pid x) (p_parent x) (p_kstack x) (p_sz x) (p_pagetable x) (p_trapframe x) (p_context x) (p_ofile x) (p_name x) (p_nsched x) (p_nticks x) (p_contp x).
Definition set_p_pid (v : Z) (x : proc) : proc :=
  Proc (p_state x) (p_chan x) (p_xstate x) v (p_parent x) (p_kstack x) (p_sz x) (p_pagetable x) (p_trapframe x) (p_context x) (p_ofile x) (p_name x) (p_nsched x) (p_nticks x) (p_contp x).
Definition set_p_parent (v : Z) (x : proc) : proc :=
  Proc (p_state x) (p_chan x) (p_xstate x) (p_pid x) v (p_kstack x) (p_sz x) (p_pagetable x) (p_trapframe x) (p_context x) (p_ofile x) (p_name x) (p_nsched x) (p_nticks x) (p_contp x).
Definition set_p_sz (v : Z) (x : proc) : proc :=
  Proc (p_state x) (p_chan x) (p_xstate x) (p_pid x) (p_parent x) (p_kstack x) v (p_pagetable x) (p_trapframe x) (p_context x) (p_ofile x) (p_name x) (p_nsched x) (p_nticks x) (p_contp x).
Definition set_p_pagetable (v : Z) (x : proc) : proc :=
  Proc (p_state x) (p_chan x) (p_xstate x) (p_pid x) (p_parent x) (p_kstack x) (p_sz x) v (p_trapframe x) (p_context x) (p_ofile x) (p_name x) (p_nsched x) (p_nticks x) (p_contp x).
Definition set_p_trapframe (v : Z) (x : proc) : proc :=
  Proc (p_state x) (p_chan x) (p_xstate x) (p_pid x) (p_parent x) (p_kstack x) (p_sz x) (p_pagetable x) v (p_context x) (p_ofile x) (p_name x) (p_nsched x) (p_nticks x) (p_contp x).
Definition set_p_context (v : context) (x : proc) : proc :=
  Proc (p_state x) (p_chan x) (p_xstate x) (p_pid x) (p_parent x) (p_kstack x) (p_sz x) (p_pagetable x) (p_trapframe x) v (p_ofile x) (p_name x) (p_nsched x) (p_nticks x) (p_contp x).
Definition set_p_ofile (v : list Z) (x : proc) : proc :=
  Proc (p_state x) (p_chan x) (p_xstate x) (p_pid x) (p_parent x) (p_kstack x) (p_sz x) (p_pagetable x) (p_trapframe x) (p_context x) v (p_name x) (p_nsched x) (p_nticks x) (p_contp x).
Definition set_p_name (v : list Z) (x : proc) : proc :=
  Proc (p_state x) (p_chan x) (p_xstate x) (p_pid x) (p_parent x) (p_kstack x) (p_sz x) (p_pagetable x) (p_trapframe x) (p_context x) (p_ofile x) v (p_nsched x) (p_nticks x) (p_contp x).
Definition set_p_nsched (v : Z) (x : proc) : proc :=
  Proc (p_state x) (p_chan x) (p_xstate x) (p_pid x) (p_parent x) (p_kstack x) (p_sz x) (p_pagetable x) (p_trapframe x) (p_context x) (p_ofile x) (p_name x) v (p_nticks x) (p_contp x).
Definition set_p_nticks (v : Z) (x : proc) : proc :=
  Proc (p_state x) (p_chan x) (p_xstate x) (p_pid x) (p_parent x) (p_kstack x) (p_sz x) (p_pagetable x) (p_trapframe x) (p_context x) (p_ofile x) (p_name x) (p_nsched x) v (p_contp x).
Definition set_p_contp (v : Z) (x : proc) : proc :=
  Proc (p_state x) (p_chan x) (p_xstate x) (p_pid x) (p_parent x) (p_kstack x) (p_sz x) (p_pagetable x) (p_trapframe x) (p_context x) (p_ofile x) (p_name x) (p_nsched x) (p_nticks x) v.

Record cont := Cont {
  c_state : procstate;
  c_nextpid : Z;
  c_name : list Z;
  c_rootpath : list Z;
  c_rootdir : Z;
  c_max_mem : Z;
  c_max_disk : Z;
  c_used_mem : Z;
  c_used_disk : Z;
  c_nticks : Z;
}.
Definition set_c_state (v : procstate) (x : cont) : cont :=
  Cont v (c_nextpid x) (c_name x) (c_rootpath x) (c_rootdir x) (c_max_mem x) (c_max_disk x) (c_used_mem x) (c_used_disk x) (c_nticks x).
Definition set_c_nextpid (v : Z) (x : cont) : cont :=
  Cont (c_state x) v (c_name x) (c_rootpath x) (c_rootdir x) (c_max_mem x) (c_max_disk x) (c_used_mem x) (c_used_disk x) (c_nticks x).
Definition set_c_name (v : list Z) (x : cont) : cont :=
  Cont (c_state x) (c_nextpid x) v (c_rootpath x) (c_rootdir x) (c_max_mem x) (c_max_disk x) (c_used_mem x) (c_used_disk x) (c_nticks x).
Definition set_c_rootpath (v : list Z) (x : cont) : cont :=
  Cont (c_state x) (c_nextpid x) (c_name x) v (c_rootdir x) (c_max_mem x) (c_max_disk x) (c_used_mem x) (c_used_disk x) (c_nticks x).
Definition set_c_rootdir (v : Z) (x : cont) : cont :=
  Cont (c_state x) (c_nextpid x) (c_name x) (c_rootpath x) v (c_max_mem x) (c_max_disk x) (c_used_mem x) (c_used_disk x) (c_nticks x).
Definition set_c_max_mem (v : Z) (x : cont) : cont :=
  Cont (c_state x) (c_nextpid x) (c_name x) (c_rootpath x) (c_rootdir x) v (c_max_disk x) (c_used_mem x) (c_used_disk x) (c_nticks x).
Definition set_c_max_disk (v : Z) (x : cont) : cont :=
  Cont (c_state x) (c_nextpid x) (c_name x) (c_rootpath x) (c_rootdir x) (c_max_mem x) v (c_used_mem x) (c_used_disk x) (c_nticks x).
Definition set_c_used_mem (v : Z) (x : cont) : cont :=
  Cont (c_state x) (c_nextpid x) (c_name x) (c_rootpath x) (c_rootdir x) (c_max_mem x) (c_max_disk x) v (c_used_disk x) (c_nticks x).
Definition set_c_used_disk (v : Z) (x : cont) : cont :=
  Cont (c_state x) (c_nextpid x) (c_name x) (c_rootpath x) (c_rootdir x) (c_max_mem x) (c_max_disk x) (c_used_mem x) v (c_nticks x).
Definition set_c_nticks (v : Z) (x : cont) : cont :=
  Cont (c_state x) (c_nextpid x) (c_name x) (c_rootpath x) (c_rootdir x) (c_max_mem x) (c_max_disk x) (c_used_mem x) (c_used_disk x) v.

(** * The state *)

Record kst (U : Type) := Kst {
  k_files : filest U;
  k_heap : heap;
  k_procs : gmap Z proc;
  k_conts : gmap Z cont;
  k_tfs : gmap Z trapframe;
  k_initproc : Z;
  k_cont_root : Z;
  k_cont_init : bool;
  k_first : bool;
  k_ticks : Z;
}.
Arguments Kst {U} _ _ _ _ _ _ _ _ _ _.
Arguments k_files {U} _.
Arguments k_heap {U} _.
Arguments k_procs {U} _.
Arguments k_conts {U} _.
Arguments k_tfs {U} _.
Arguments k_initproc {U} _.
Arguments k_cont_root {U} _.
Arguments k_cont_init {U} _.
Arguments k_first {U} _.
Arguments k_ticks {U} _.

Definition set_k_files {U} (v : filest U) (s : kst U) : kst U :=
  Kst v (k_heap s) (k_procs s) (k_conts s) (k_tfs s) (k_initproc s) (k_cont_root s) (k_cont_init s) (k_first s) (k_ticks s).
Definition set_k_heap {U} (v : heap) (s : kst U) : kst U :=
  Kst (k_files s) v (k_procs s) (k_conts s) (k_tfs s) (k_initproc s) (k_cont_root s) (k_cont_init s) (k_first s) (k_ticks s).
Definition set_k_procs {U} (v : gmap Z proc) (s : kst U) : kst U :=
  Kst (k_files s) (k_heap s) v (k_conts s) (k_tfs s) (k_initproc s) (k_cont_root s) (k_cont_init s) (k_first s) (k_ticks s).
Definition set_k_conts {U} (v : gmap Z cont) (s : kst U) : kst U :=
  Kst (k_files s) (k_heap s) (k_procs s) v (k_tfs s) (k_initproc s) (k_cont_root s) (k_cont_init s) (k_first s) (k_ticks s).
Definition set_k_tfs {U} (v : gmap Z trapframe) (s : kst U) : kst U :=
  Kst (k_files s) (k_heap s) (k_procs s) (k_conts s) v (k_initproc s) (k_cont_root s) (k_cont_init s) (k_first s) (k_ticks s).
Definition set_k_initproc {U} (v : Z) (s : kst U) : kst U :=
  Kst (k_files s) (k_heap s) (k_procs s) (k_conts s) (k_tfs s) v (k_cont_root s) (k_cont_init s) (k_first s) (k_ticks s).
Definition set_k_cont_root {U} (v : Z) (s : kst U) : kst U :=
  Kst (k_files s) (k_heap s) (k_procs s) (k_conts s) (k_tfs s) (k_initproc s) v (k_cont_init s) (k_first s) (k_ticks s).
Definition set_k_cont_init {U} (v : bool) (s : kst U) : kst U :=
  Kst (k_files s) (k_heap s) (k_procs s) (k_conts s) (k_tfs s) (k_initproc s) (k_cont_root s) v (k_first s) (k_ticks s).
Definition set_k_first {U} (v : bool) (s : kst U) : kst U :=
  Kst (k_files s) (k_heap s) (k_procs s) (k_conts s) (k_tfs s) (k_initproc s) (k_cont_root s) (k_cont_init s) v (k_ticks s).
Definition set_k_ticks {U} (v : Z) (s : kst U) : kst U :=
  Kst (k_files s) (k_heap s) (k_procs s) (k_conts s) (k_tfs s) (k_initproc s) (k_cont_root s) (k_cont_init s) (k_first s) v.

#[export] Instance kst_thread U : HasThread (kst U).
Proof.
  refine {| the_thread := λ s, the_thread (k_files s);
            set_thread := λ t s, set_k_files (set_thread t (k_files s)) s |}; try done.
  by intros [[[[[]]]]].
Defined.

(** * Addresses *)

(** [&p->elem], [&p->elem_c] and [list_entry(e, struct proc, elem)]. *)
Definition p_elem (p : Z) : Z := 0x10000 + 64 * p.
Definition p_elem_c (p : Z) : Z := 0x10000 + 64 * p + 16.
Definition proc_entry (e : Z) : Z := (e - 0x10000) / 64.
(** [&c->elem], [&c->proc_list], [&c->run_list] and [list_entry(e, struct cont, elem)]. *)
Definition c_elem (c : Z) : Z := 0x20000 + 128 * c.
Definition c_proc_list (c : Z) : Z := 0x20000 + 128 * c + 16.
Definition c_run_list (c : Z) : Z := 0x20000 + 128 * c + 48.
Definition cont_entry (e : Z) : Z := (e - 0x20000) / 128.
Definition unused_list : Z := 0x30000.
Definition run_list : Z := 0x30040.
Definition cont_unused_list : Z := 0x30080.
Definition cont_run_list : Z := 0x300c0.

Definition plock (p : Z) : Z := 2000 + p.
Definition clock (c : Z) : Z := 3000 + c.
Definition wait_lock : Z := 104.
Definition unused_lock : Z := 105.
Definition run_lock : Z := 106.
Definition cont_unused_lock : Z := 107.
Definition cont_run_lock : Z := 108.
(** A process pointer as a channel. *)
Definition proc_chan (p : Z) : Z := 4000 + p.

(** [safestrcpy(old, src, sizeof(old))] on the values of the buffers. *)
Definition safestrcpy_buf (old src : list Z) : list Z :=
  let c := take (length old - 1) (cstr src) in
  c ++ [0] ++ drop (length c + 1) old.
(** [strncpy(_, src, n)]. *)
Definition strncpy_buf (n : nat) (src : list Z) : list Z := take n (cstr src ++ replicate n 0).

Section proc.
Context {U : Type} `{UserMem U, AddressSpace U} (wakeups : nat) (de trampoline initcode_at : Z).
Local Abbreviation St := (kst U).

Definition on_heap {A} (m : M heap A) : M St A := zoom k_heap set_k_heap m.
Definition on_files {A} (m : M (filest U) A) : M St A := zoom k_files set_k_files m.
Definition on_space {A} (m : M U A) : M St A := on_files (on_fs (on_umem m)).
Definition deref_proc (p : Z) : M St proc := get_some (λ s, k_procs s !! p).
Definition update_proc (p : Z) (f : proc → proc) : M St unit :=
  let! _ := deref_proc p in modify (λ s, set_k_procs (alter f p (k_procs s)) s).
Definition deref_cont (c : Z) : M St cont := get_some (λ s, k_conts s !! c).
Definition update_cont (c : Z) (f : cont → cont) : M St unit :=
  let! _ := deref_cont c in modify (λ s, set_k_conts (alter f c (k_conts s)) s).
(** [*tf] and [tf->r = v]. *)
Definition deref_tf (tf : Z) : M St trapframe := get_some (λ s, k_tfs s !! tf).
Definition set_tf (tf : Z) (t : trapframe) : M St unit :=
  let! _ := deref_tf tf in modify (λ s, set_k_tfs (<[tf := t]> (k_tfs s)) s).
Definition set_tf_reg (tf r v : Z) : M St unit := let! t := deref_tf tf in set_tf tf (<[r := v]> t).

Definition get_cwd (p : Z) : M St Z := gets (λ s, default 0 (fs_cwd (fl_fs (k_files s)) !! p)).
Definition set_cwd (p ip : Z) : M St unit :=
  on_files (on_fs (modify (λ s, Fsst (fs_log s) (fs_sb s) (itab s) (<[p := ip]> (fs_cwd s)) (fs_mem s)))).
(** [p->killed] *)
Definition get_killed (p : Z) : M St bool := gets (λ s, bool_decide (p ∈ th_killed (the_thread s))).
Definition set_killed (p : Z) (k : bool) : M St unit :=
  modify (λ s, let t := the_thread s in
    set_thread (with_killed (if k then {[p]} ∪ th_killed t else th_killed t ∖ {[p]}) t) s).
Definition kprint (fmt : list Z) (ap : list va) : M St unit := on_files (on_cons (kprintf fmt ap)).

(** [if(!list_empty(l)) { e = list_begin(l); list_remove(e); }], [NULL] otherwise. *)
Definition take_first (l : Z) : M St Z :=
  let! empty := on_heap (list_empty l) in
  if empty then ret 0 else
  let! e := on_heap (list_begin l) in
  let! _ := on_heap (list_remove e) in
  ret e.
Definition push_back (l e : Z) : M St unit := on_heap (list_push_back l e).
(** Lists of processes have no more than [NPROC] elements. *)
Definition size_of (l : Z) : M St Z := on_heap (list_size (S (Z.to_nat NPROC)) l).

(** [myproc] and [mycont]. *)
Definition myproc : M St Z := gets (λ s, th_proc (the_thread s)).
Definition mycont : M St Z :=
  let! p := myproc in let! x := deref_proc p in ret (p_contp x).
(** [c->proc = p], and 0 when the process is done: from here on the running thread
    is [p]'s, or no one's. *)
Definition set_running (p pid pt : Z) : M St unit :=
  modify (λ s, let t := the_thread s in
    set_thread (Thread p pid pt (th_held t) (th_woken t) (th_killed t)) s).

(** * Containers *)

Definition root_name : list Z := lit "root".
Definition alloccont (cname : list Z) (max_mem_bytes : Z) (crootdir : list Z) (max_disk_bytes : Z) : M St Z :=
  let isroot := strncmp_bytes 4 root_name cname =? 0 in
  acquire cont_unused_lock;;;
  let! e := take_first cont_unused_list in
  release cont_unused_lock;;;
  if e =? 0 then ret 0 else
  let c := cont_entry e in
  acquire (clock c);;;
  update_cont c (set_c_state USED);;;
  update_cont c (set_c_nextpid 1);;;
  on_heap (list_init (c_proc_list c));;;
  on_heap (list_init (c_run_list c));;;
  update_cont c (λ x, set_c_name (safestrcpy_buf (c_name x) cname) x);;;
  update_cont c (set_c_max_mem max_mem_bytes);;;
  update_cont c (λ x, set_c_rootpath (safestrcpy_buf (c_rootpath x) crootdir) x);;;
  let! ok := (if isroot then ret true else
                on_files (on_fs (on_log (begin_op wakeups)));;;
                let! ip := on_files (on_fs (namei wakeups de crootdir)) in
                update_cont c (set_c_rootdir ip);;;
                on_files (on_fs (on_log (end_op wakeups)));;;
                ret (negb (ip =? 0))) in
  if negb ok then ret 0 else
  update_cont c (set_c_max_disk max_disk_bytes);;;
  update_cont c (set_c_used_mem 0);;;
  update_cont c (set_c_used_disk 0);;;
  update_cont c (set_c_nticks 0);;;
  release (clock c);;;
  ret c.

Definition freecont (c : Z) : M St unit :=
  update_cont c (set_c_state UNUSED);;;
  update_cont c (set_c_nextpid 1);;;
  update_cont c (λ x, set_c_name (<[0%nat := 0]> (c_name x)) x);;;
  update_cont c (set_c_rootdir 0);;;
  update_cont c (set_c_max_mem 0);;;
  update_cont c (set_c_max_disk 0);;;
  update_cont c (set_c_used_mem 0);;;
  update_cont c (set_c_used_disk 0);;;
  update_cont c (set_c_nticks 0).

Definition allocpid (c : Z) : M St Z :=
  let! _ := deref_cont c in
  acquire (clock c);;;
  let! x := deref_cont c in
  update_cont c (set_c_nextpid (s32 (c_nextpid x + 1)));;;
  release (clock c);;;
  ret (c_nextpid x).

(** * Processes *)

Definition proc_pagetable (p : Z) : M St Z :=
  let! pagetable := on_space as_create in
  if pagetable =? 0 then ret 0 else
  let! r := on_space (as_map pagetable TRAMPOLINE PGSIZE trampoline (Z.lor PTE_R PTE_X)) in
  if r <? 0 then on_space (as_free pagetable 0);;; ret 0 else
  let! x := deref_proc p in
  let! r := on_space (as_map pagetable TRAPFRAME PGSIZE (p_trapframe x) (Z.lor PTE_R PTE_W)) in
  if r <? 0 then
    on_space (as_unmap pagetable TRAMPOLINE 1 false);;;
    on_space (as_free pagetable 0);;;
    ret 0
  else ret pagetable.

Definition proc_freepagetable (pagetable sz : Z) : M St unit :=
  on_space (as_unmap pagetable TRAMPOLINE 1 false);;;
  on_space (as_unmap pagetable TRAPFRAME 1 false);;;
  on_space (as_free pagetable sz).

(** [kfree] and [kalloc] of a trap frame page; what a fresh one holds is not
    specified. *)
Definition kfree_tf (tf : Z) : M St unit :=
  on_space (as_kfree tf);;; modify (λ s, set_k_tfs (delete tf (k_tfs s)) s).
Definition kalloc_tf : M St Z :=
  let! tf := on_space as_kalloc in
  when (negb (tf =? 0)) (modify (λ s, set_k_tfs (<[tf := ∅]> (k_tfs s)) s));;;
  ret tf.

Definition freeproc (p : Z) : M St unit :=
  let! x := deref_proc p in
  when (negb (p_trapframe x =? 0)) (kfree_tf (p_trapframe x));;;
  update_proc p (set_p_trapframe 0);;;
  when (negb (p_pagetable x =? 0)) (proc_freepagetable (p_pagetable x) (p_sz x));;;
  update_proc p (set_p_pagetable 0);;;
  update_proc p (set_p_sz 0);;;
  update_proc p (set_p_pid 0);;;
  update_proc p (set_p_parent 0);;;
  update_proc p (λ x, set_p_name (<[0%nat := 0]> (p_name x)) x);;;
  update_proc p (set_p_chan 0);;;
  set_killed p false;;;
  update_proc p (set_p_xstate 0);;;
  update_proc p (set_p_state UNUSED);;;
  acquire unused_lock;;;
  push_back unused_list (p_elem p);;;
  release unused_lock;;;
  let c := p_contp x in
  let! _ := deref_cont c in
  acquire (clock c);;;
  let! _ := on_heap (list_remove (p_elem_c p)) in
  let! cont_empty := on_heap (list_empty (c_proc_list c)) in
  release (clock c);;;
  when cont_empty (
    acquire cont_run_lock;;;
    let! _ := on_heap (list_remove (c_elem c)) in
    release cont_run_lock;;;
    freecont c;;;
    acquire cont_unused_lock;;;
    push_back cont_unused_list (c_elem c);;;
    release cont_unused_lock);;;
  update_proc p (set_p_contp 0).

Definition allocproc (contp : Z) : M St Z :=
  acquire unused_lock;;;
  let! e := take_first unused_list in
  release unused_lock;;;
  if e =? 0 then ret 0 else
  let p := proc_entry e in
  acquire (plock p);;;
  let! pid := allocpid contp in
  update_proc p (set_p_pid pid);;;
  update_proc p (set_p_state USED);;;
  let! tf := kalloc_tf in
  update_proc p (set_p_trapframe tf);;;
  if tf =? 0 then freeproc p;;; release (plock p);;; ret 0 else
  let! pagetable := proc_pagetable p in
  update_proc p (set_p_pagetable pagetable);;;
  if pagetable =? 0 then freeproc p;;; release (plock p);;; ret 0 else
  update_proc p (λ x, set_p_context (Fresh (p_kstack x + PGSIZE)) x);;;
  update_proc p (set_p_nsched 0);;;
  update_proc p (set_p_nticks 0);;;
  update_proc p (set_p_contp contp);;;
  acquire (clock contp);;;
  push_back (c_proc_list contp) (p_elem_c p);;;
  release (clock contp);;;
  ret p.

Fixpoint procinit_conts (n : nat) (c : Z) : M St unit :=
  match n with
  | O => ret tt
  | S n =>
      update_cont c (set_c_state UNUSED);;;
      push_back cont_unused_list (c_elem c);;;
      procinit_conts n (c + 1)
  end.
Definition set_kstack (v : Z) (x : proc) : proc :=
  Proc (p_state x) (p_chan x) (p_xstate x) (p_pid x) (p_parent x) v (p_sz x) (p_pagetable x) (p_trapframe x)
    (p_context x) (p_ofile x) (p_name x) (p_nsched x) (p_nticks x) (p_contp x).
Fixpoint procinit_procs (n : nat) (p : Z) : M St unit :=
  match n with
  | O => ret tt
  | S n =>
      update_proc p (set_p_state UNUSED);;;
      update_proc p (set_kstack (KSTACK (p - 1)));;;
      push_back unused_list (p_elem p);;;
      procinit_procs n (p + 1)
  end.
Definition procinit : M St unit :=
  on_heap (list_init cont_run_list);;;
  on_heap (list_init cont_unused_list);;;
  procinit_conts (Z.to_nat NCONT) 1;;;
  on_heap (list_init unused_list);;;
  procinit_procs (Z.to_nat NPROC) 1;;;
  on_heap (list_init run_list);;;
  let! c := alloccont root_name 0 (lit "/") 0 in
  modify (set_k_cont_root c);;;
  push_back cont_run_list (c_elem c).

(** The program [userinit] starts; only its address and size matter here. *)
Definition initcode : list Z :=
  [0x17; 0x05; 0x00; 0x00; 0x13; 0x05; 0x45; 0x02;
   0x97; 0x05; 0x00; 0x00; 0x93; 0x85; 0x35; 0x02;
   0x93; 0x08; 0x70; 0x00; 0x73; 0x00; 0x00; 0x00;
   0x93; 0x08; 0x20; 0x00; 0x73; 0x00; 0x00; 0x00;
   0xef; 0xf0; 0x9f; 0xff; 0x2f; 0x69; 0x6e; 0x69;
   0x74; 0x00; 0x00; 0x24; 0x00; 0x00; 0x00; 0x00;
   0x00; 0x00; 0x00; 0x00].
Definition userinit : M St unit :=
  let! root := gets k_cont_root in
  let! p := allocproc root in
  modify (set_k_initproc p);;;
  let! x := deref_proc p in
  on_space (as_first (p_pagetable x) initcode_at (Z.of_nat (length initcode)));;;
  update_proc p (set_p_sz PGSIZE);;;
  set_tf_reg (p_trapframe x) tf_epc 0;;;
  set_tf_reg (p_trapframe x) tf_sp PGSIZE;;;
  update_proc p (λ x, set_p_name (safestrcpy_buf (p_name x) (lit "initcode")) x);;;
  let! ip := on_files (on_fs (namei wakeups de (lit "/"))) in
  set_cwd p ip;;;
  update_proc p (set_p_state RUNNABLE);;;
  release (plock p);;;
  let! root := gets k_cont_root in
  acquire (clock root);;;
  push_back (c_run_list root) (p_elem p);;;
  release (clock root).

(** [n] is an [int]; the sizes are 64 bits wide. *)
Definition growproc (n : Z) : M St Z :=
  let! p := myproc in
  let! x := deref_proc p in
  let sz := p_sz x in
  if 0 <? n then
    let! sz := on_space (as_alloc (p_pagetable x) sz (u64 (sz + n)) PTE_W) in
    if sz =? 0 then ret (-1) else update_proc p (set_p_sz sz);;; ret 0
  else if n <? 0 then
    let! sz := on_space (as_dealloc (p_pagetable x) sz (u64 (sz + n))) in
    update_proc p (set_p_sz sz);;; ret 0
  else update_proc p (set_p_sz sz);;; ret 0.

(** The copy of the descriptor table, from entry [i] on. *)
Fixpoint fork_files (n : nat) (p np : Z) (i : Z) : M St unit :=
  match n with
  | O => ret tt
  | S n =>
      let! x := deref_proc p in
      let! f := get_some (λ _, p_ofile x !! Z.to_nat i) in
      when (negb (f =? 0)) (
        let! f := on_files (filedup f) in
        update_proc np (λ y, set_p_ofile (<[Z.to_nat i := f]> (p_ofile y)) y));;;
      fork_files n p np (i + 1)
  end.
Definition fork (contp : Z) : M St Z :=
  let! p := myproc in
  let! np := allocproc contp in
  if np =? 0 then ret (-1) else
  let! x := deref_proc p in
  let! y := deref_proc np in
  let! r := on_space (as_copy (p_pagetable x) (p_pagetable y) (p_sz x)) in
  if r <? 0 then freeproc np;;; release (plock np);;; ret (-1) else
  update_proc np (set_p_sz (p_sz x));;;
  let! tf := deref_tf (p_trapframe x) in
  set_tf (p_trapframe y) tf;;;
  set_tf_reg (p_trapframe y) tf_a0 0;;;
  fork_files (Z.to_nat NOFILE) p np 0;;;
  let! cwd := get_cwd p in
  let! cwd := on_files (on_fs (idup cwd)) in
  set_cwd np cwd;;;
  update_proc np (λ y, set_p_name (safestrcpy_buf (p_name y) (p_name x)) y);;;
  let! y := deref_proc np in
  let pid := p_pid y in
  release (plock np);;;
  acquire wait_lock;;;
  update_proc np (set_p_parent p);;;
  release wait_lock;;;
  acquire (plock np);;;
  update_proc np (set_p_state RUNNABLE);;;
  release (plock np);;;
  acquire (clock contp);;;
  push_back (c_run_list contp) (p_elem np);;;
  release (clock contp);;;
  ret pid.

Definition cfork (cname : list Z) (max_mem_bytes : Z) (crootdir : list Z) (max_disk_bytes : Z) : M St Z :=
  let! c := alloccont cname max_mem_bytes crootdir max_disk_bytes in
  if c =? 0 then ret (-1) else
  acquire cont_run_lock;;;
  push_back cont_run_list (c_elem c);;;
  release cont_run_lock;;;
  fork c.
End proc.
