(* ===== verification/Sched.v ===== *)
(** Scheduling, sleeping, exiting and the listings of kernel/proc.c. *)

From S2P Require Import Prelude Lists Riscv Mem CString Threads Sleeplock Bio Log Fs Printf Console File Proc.
Local Open Scope Z_scope.

Section sched.
Context {U : Type} `{UserMem U, PageAlloc U, AddressSpace U} (wakeups : nat) (de : Z).
Local Abbreviation St := (kst U).

(** * Wakeups *)

(** Makes process [p] runnable: what [wakeup] and [kill] do to a sleeper. *)
Definition make_runnable (p : Z) : M St unit :=
  update_proc p (set_p_state RUNNABLE);;;
  let! x := deref_proc p in
  let c := p_contp x in
  let! _ := deref_cont c in
  acquire (clock c);;;
  push_back (c_run_list c) (p_elem p);;;
  release (clock c).

Definition wakeup_one (chan p : Z) : M St unit :=
  let! me := myproc in
  when (negb (p =? me)) (
    acquire (plock p);;;
    let! x := deref_proc p in
    when (bool_decide (p_state x = SLEEPING) && (p_chan x =? chan)) (make_runnable p);;;
    release (plock p)).
Fixpoint wakeup_loop (n : nat) (chan p : Z) : M St unit :=
  match n with O => ret tt | S n => wakeup_one chan p;;; wakeup_loop n chan (p + 1) end.
Definition wakeup (chan : Z) : M St unit := wakeup_loop (Z.to_nat NPROC) chan 1.

Fixpoint kill_loop (n : nat) (pid p : Z) : M St Z :=
  match n with
  | O => ret (-1)
  | S n =>
      acquire (plock p);;;
      let! x := deref_proc p in
      if p_pid x =? pid then
        set_killed p true;;;
        when (bool_decide (p_state x = SLEEPING)) (make_runnable p);;;
        release (plock p);;;
        ret 0
      else release (plock p);;; kill_loop n pid (p + 1)
  end.
Definition kill (pid : Z) : M St Z := kill_loop (Z.to_nat NPROC) pid 1.

Definition setkilled (p : Z) : M St unit :=
  acquire (plock p);;; set_killed p true;;; release (plock p).
Definition killed (p : Z) : M St bool :=
  acquire (plock p);;; let! k := get_killed p in release (plock p);;; ret k.

(** * The CPU *)

(** One round of [scheduler] up to the switch: the process that is to run, if
    there is one. *)
Definition schedule : M St (option Z) :=
  let! contp := gets k_cont_root in
  let! _ := deref_cont contp in
  acquire (clock contp);;;
  let! e := take_first (c_run_list contp) in
  release (clock contp);;;
  if e =? 0 then ret None else
  let p := proc_entry e in
  acquire (plock p);;;
  let! x := deref_proc p in
  ASSERT (bool_decide (p_state x = RUNNABLE));;;
  update_proc p (set_p_state RUNNING);;;
  update_proc p (λ x, set_p_nsched (u64 (p_nsched x + 1)) x);;;
  let! x := deref_proc p in
  set_running p (p_pid x) (p_pagetable x);;;
  ret (Some p).
(** The rest of the round, when [p] has switched back. *)
Definition schedule_done (p : Z) : M St unit := set_running 0 0 0;;; release (plock p).

(** [swtch(&p->context, &mycpu()->context)]: the thread goes on when the scheduler
    has picked it again, holding the lock it left with. *)
Definition swtch (p chan : Z) : M St unit :=
  update_proc p (set_p_context Saved);;;
  λ s, Sleep chan s (λ s', Ok tt (resume (the_thread s) s')).

(** The tests on [noff] and on the locks held are one: the CPU holds [p->lock]
    and nothing else, so interrupts are off. *)
Definition sched (chan : Z) : M St unit :=
  let! p := myproc in
  let! h := gets held in
  if negb (bool_decide (plock p ∈ h)) then panic "sched p->lock" else
  if negb (bool_decide (h = {[plock p]})) then panic "sched locks" else
  let! x := deref_proc p in
  if bool_decide (p_state x = RUNNING) then panic "sched running" else
  swtch p chan.

Definition yield : M St unit :=
  let! p := myproc in
  let! contp := mycont in
  acquire (plock p);;;
  update_proc p (set_p_state RUNNABLE);;;
  let! _ := deref_cont contp in
  acquire (clock contp);;;
  push_back (c_run_list contp) (p_elem p);;;
  release (clock contp);;;
  sched 0;;;
  release (plock p).

Definition sleep (chan lk : Z) : M St unit :=
  let! p := myproc in
  acquire (plock p);;;
  release lk;;;
  update_proc p (set_p_chan chan);;;
  update_proc p (set_p_state SLEEPING);;;
  sched chan;;;
  update_proc p (set_p_chan 0);;;
  release (plock p);;;
  acquire lk.

(** [usertrapret], which never returns, is the caller's continuation. *)
Definition forkret : M St unit :=
  let! p := myproc in
  release (plock p);;;
  let! first := gets k_first in
  when first (
    modify (set_k_cont_init true);;;
    modify (set_k_first false);;;
    on_files (on_fs (fsinit wakeups ROOTDEV))).

(** * exit and wait *)

Fixpoint reparent_loop (n : nat) (p pp : Z) : M St unit :=
  match n with
  | O => ret tt
  | S n =>
      let! x := deref_proc pp in
      when (p_parent x =? p) (
        let! init := gets k_initproc in
        update_proc pp (set_p_parent init);;;
        let! root := gets k_cont_root in
        when (negb (p_contp x =? root)) (update_proc pp (set_p_pid (-2)));;;
        wakeup (proc_chan init));;;
      reparent_loop n p (pp + 1)
  end.
Definition reparent (p : Z) : M St unit := reparent_loop (Z.to_nat NPROC) p 1.

Fixpoint exit_files (n : nat) (p fd : Z) : M St unit :=
  match n with
  | O => ret tt
  | S n =>
      let! x := deref_proc p in
      let! f := get_some (λ _, p_ofile x !! Z.to_nat fd) in
      when (negb (f =? 0)) (
        on_files (fileclose wakeups f);;;
        update_proc p (λ x, set_p_ofile (<[Z.to_nat fd := 0]> (p_ofile x)) x));;;
      exit_files n p (fd + 1)
  end.
(** [begin_op(); iput(ip); end_op();] *)
Definition iput_op (ip : Z) : M St unit :=
  on_files (on_fs (on_log (begin_op wakeups)));;;
  on_files (on_fs (iput wakeups ip));;;
  on_files (on_fs (on_log (end_op wakeups))).
Definition exit (status : Z) : M St unit :=
  let! p := myproc in
  let! init := gets k_initproc in
  if p =? init then panic "init exiting" else
  exit_files (Z.to_nat NOFILE) p 0;;;
  let! cwd := get_cwd p in
  iput_op cwd;;;
  set_cwd p 0;;;
  let! x := deref_proc p in
  let c := p_contp x in
  let! _ := deref_cont c in
  acquire (clock c);;;
  let! nprocs := size_of (c_proc_list c) in
  release (clock c);;;
  when (nprocs =? 1) (let! y := deref_cont c in iput_op (c_rootdir y));;;
  acquire wait_lock;;;
  reparent p;;;
  let! x := deref_proc p in
  wakeup (proc_chan (p_parent x));;;
  acquire (plock p);;;
  update_proc p (set_p_xstate status);;;
  update_proc p (set_p_state ZOMBIE);;;
  release wait_lock;;;
  sched 0;;;
  panic "zombie exit".

(** The scan of [wait] from [pp] on: the value [wait] returns at once, or whether
    there are children. *)
Fixpoint wait_scan (n : nat) (p addr pp : Z) (havekids : bool) : M St (Z + bool) :=
  match n with
  | O => ret (inr havekids)
  | S n =>
      let! x := deref_proc pp in
      if negb (p_parent x =? p) then wait_scan n p addr (pp + 1) havekids else
      acquire (plock pp);;;
      let! x := deref_proc pp in
      if bool_decide (p_state x = ZOMBIE) then
        let pid := p_pid x in
        let! me := deref_proc p in
        let! ok := (if addr =? 0 then ret true
                    else on_space (copyout_val (p_pagetable me) addr (le_encode 4 (u32 (p_xstate x))))) in
        if negb ok then
          release (plock pp);;; release wait_lock;;; ret (inl (-1))
        else
          freeproc pp;;;
          release (plock pp);;;
          release wait_lock;;;
          ret (inl pid)
      else release (plock pp);;; wait_scan n p addr (pp + 1) true
  end.
(** Still asleep when the wakeups are used up. *)
Definition asleep {A} (chan lk : Z) : M St A :=
  let! p := myproc in
  acquire (plock p);;;
  release lk;;;
  update_proc p (set_p_chan chan);;;
  update_proc p (set_p_state SLEEPING);;;
  λ s, Blocked chan s.
Fixpoint wait_loop (wakeups : nat) (p addr : Z) : M St Z :=
  let! r := wait_scan (Z.to_nat NPROC) p addr 1 false in
  match r with
  | inl v => ret v
  | inr havekids =>
      let! k := (if negb havekids then ret true else killed p) in
      if k then release wait_lock;;; ret (-1) else
      match wakeups with
      | O => asleep (proc_chan p) wait_lock
      | S wakeups => sleep (proc_chan p) wait_lock;;; wait_loop wakeups p addr
      end
  end.
Definition wait (addr : Z) : M St Z :=
  let! p := myproc in
  acquire wait_lock;;;
  wait_loop wakeups p addr.

(** * Listings *)

Definition state_name (t : procstate) : list Z :=
  match t with
  | UNUSED => lit "unused" | USED => lit "used" | SLEEPING => lit "sleep "
  | RUNNABLE => lit "runble" | RUNNING => lit "run   " | ZOMBIE => lit "zombie"
  end.
Definition state_name_long (t : procstate) : list Z :=
  match t with
  | RUNNABLE => lit "runnable" | RUNNING => lit "running" | t => state_name t
  end.

Fixpoint print_run_list_loop (fuel : nat) (e count : Z) : M St Z :=
  let! stop := on_heap (list_end run_list) in
  if e =? stop then ret count else
  match fuel with
  | O => out_of_fuel
  | S fuel =>
      let p := proc_entry e in
      let! x := deref_proc p in
      kprint (lit "SLOT=%d PID=%d NAME=%s STATE=%s" ++ [10])
        [VInt (p - 1); VInt (p_pid x); VStr (Some (cstr (p_name x))); VStr (Some (state_name_long (p_state x)))];;;
      let! e := on_heap (list_next e) in
      print_run_list_loop fuel e (count + 1)
  end.
Definition proc_print_run_list : M St unit :=
  acquire run_lock;;;
  let! e := on_heap (list_begin run_list) in
  let! count := print_run_list_loop (S (Z.to_nat NPROC)) e 0 in
  when (count =? 0) (kprint (lit "EMPTY" ++ [10]) []);;;
  release run_lock.

Fixpoint procdump_loop (n : nat) (p : Z) : M St unit :=
  match n with
  | O => ret tt
  | S n =>
      let! x := deref_proc p in
      when (bool_decide (p_state x ≠ UNUSED)) (
        let! y := deref_cont (p_contp x) in
        kprint (lit "[%s] %d %s %s %d")
          [VStr (Some (cstr (c_name y))); VInt (p_pid x); VStr (Some (state_name (p_state x)));
           VStr (Some (cstr (p_name x))); VInt (p_nticks x)];;;
        kprint [10] []);;;
      procdump_loop n (p + 1)
  end.
Definition procdump : M St unit := kprint [10] [];;; procdump_loop (Z.to_nat NPROC) 1.

Fixpoint contdump_loop (n : nat) (c : Z) : M St unit :=
  match n with
  | O => ret tt
  | S n =>
      let! y := deref_cont c in
      when (bool_decide (c_state y ≠ UNUSED)) (
        acquire (clock c);;;
        let! nprocs := size_of (c_proc_list c) in
        release (clock c);;;
        kprint (lit "[%s] %d procs %d/%d mem %d/%d disk %d ticks")
          [VStr (Some (cstr (c_name y))); VInt nprocs; VInt (c_used_mem y); VInt (c_max_mem y);
           VInt (c_used_disk y); VInt (c_max_disk y); VInt (c_nticks y)];;;
        kprint [10] []);;;
      contdump_loop n (c + 1)
  end.
Definition contdump : M St unit := kprint [10] [];;; contdump_loop (Z.to_nat NCONT) 1.

(** A [struct uproc] and a [struct cinfo] in memory; [pad] is what the padding
    holds. *)
Definition uproc_bytes (pad : list Z) (x : proc) : list Z :=
  le_encode 4 (u32 (p_pid x)) ++ le_encode 4 (state_num (p_state x)) ++ le_encode 4 (u32 (p_sz x)) ++
  strncpy_buf 16 (p_name x) ++ pad ++ le_encode 8 (u64 (p_nsched x)) ++ le_encode 8 (u64 (p_nticks x)).
Definition sizeof_cinfo : Z := 172.
Definition cinfo_bytes (nprocs : Z) (y : cont) : list Z :=
  le_encode 4 (state_num (c_state y)) ++ strncpy_buf 16 (c_name y) ++ strncpy_buf 128 (c_rootpath y) ++
  le_encode 4 (u32 (c_max_mem y)) ++ le_encode 4 (u32 (c_max_disk y)) ++ le_encode 4 (u32 (c_used_mem y)) ++
  le_encode 4 (u32 (c_used_disk y)) ++ le_encode 4 (u32 nprocs) ++ le_encode 4 (u32 (c_nticks y)).

Definition mycopyout (addr : Z) (bs : list Z) : M St bool :=
  let! me := myproc in
  let! x := deref_proc me in
  on_space (copyout_val (p_pagetable x) addr bs).

Fixpoint uproc_loop (n : nat) (pad : list Z) (pid up_p p : Z) : M St Z :=
  match n with
  | O => ret (-1)
  | S n =>
      let! x := deref_proc p in
      if bool_decide (p_state x ≠ UNUSED) && (p_pid x =? pid) then
        acquire (plock p);;;
        let! x := deref_proc p in
        release (plock p);;;
        let! ok := mycopyout up_p (uproc_bytes pad x) in
        ret (if ok then pid else -1)
      else uproc_loop n pad pid up_p (p + 1)
  end.
Definition uproc (pad : list Z) (pid up_p : Z) : M St Z := uproc_loop (Z.to_nat NPROC) pad pid up_p 1.

(** [slot] is not checked: outside of the array the access faults. *)
Definition sproc (pad : list Z) (slot up_p : Z) : M St Z :=
  let p := slot + 1 in
  let! _ := deref_proc p in
  acquire (plock p);;;
  let! x := deref_proc p in
  release (plock p);;;
  let! ok := mycopyout up_p (uproc_bytes pad x) in
  ret (if ok then slot else -1).

Fixpoint cinfo_loop (n : nat) (up_p c : Z) : M St Z :=
  match n with
  | O => ret 0
  | S n =>
      acquire (clock c);;;
      let! y := deref_cont c in
      if bool_decide (c_state y ≠ UNUSED) then
        let! nprocs := size_of (c_proc_list c) in
        release (clock c);;;
        let! ok := mycopyout up_p (cinfo_bytes nprocs y) in
        if ok then cinfo_loop n (u64 (up_p + sizeof_cinfo)) (c + 1) else ret (-1)
      else release (clock c);;; cinfo_loop n up_p (c + 1)
  end.
Definition cinfo (up_p : Z) : M St Z := cinfo_loop (Z.to_nat NCONT) up_p 1.
End sched.
