(* ===== verification/ProcSpecs.v ===== *)
(** The process table of kernel/proc.c: which queue every process and container
    is on, and the rules for the table's primitive operations. *)

From S2P Require Import Prelude Lists ListChains ListSpecs Queues Riscv Threads Fs File Proc.
Local Open Scope Z_scope.

Definition is_proc (p : Z) : Prop := 1 ≤ p ≤ NPROC.
Definition is_cont (c : Z) : Prop := 1 ≤ c ≤ NCONT.

(** * The invariant *)

Section table.
Implicit Types (h : heap) (ps : gmap Z proc) (cs : gmap Z cont) (L : gmap Z (list Z)) (p c : Z) (x : proc) (qs : list Z).

Definition used cs c : Prop := is_cont c ∧ ∃ y, cs !! c = Some y ∧ c_state y = USED.
(** Process [p] is in a state that satisfies [P]. *)
Definition proc_is ps (P : proc → Prop) p : Prop := is_proc p ∧ ∃ x, ps !! p = Some x ∧ P x.

(** The lists of [proc.c] hold exactly the processes and containers that their
    state says, and no element is on two lists. *)
Record table h ps cs L : Prop := {
  tb_queues : queues h L;
  tb_proc p : is_proc p → is_Some (ps !! p);
  tb_cont c : is_cont c → ∃ y, cs !! c = Some y ∧ (c_state y = UNUSED ∨ c_state y = USED);
  tb_unused : ∃ qs, L !! unused_list = Some (p_elem <$> qs) ∧ ∀ p, p ∈ qs ↔ proc_is ps (λ x, p_state x = UNUSED) p;
  tb_run c : used cs c → ∃ qs, L !! c_run_list c = Some (p_elem <$> qs) ∧
    ∀ p, p ∈ qs ↔ proc_is ps (λ x, p_state x = RUNNABLE ∧ p_contp x = c) p;
  tb_members c : used cs c → ∃ qs, L !! c_proc_list c = Some (p_elem_c <$> qs) ∧
    ∀ p, p ∈ qs ↔ proc_is ps (λ x, p_state x ≠ UNUSED ∧ p_contp x = c) p;
  tb_contp p x : is_proc p → ps !! p = Some x → p_state x ≠ UNUSED → used cs (p_contp x);
  tb_elem p x : is_proc p → ps !! p = Some x → p_state x ≠ UNUSED → p_state x ≠ RUNNABLE → off_queues h L (p_elem p);
  tb_elem_c p x : is_proc p → ps !! p = Some x → p_state x = UNUSED → off_queues h L (p_elem_c p);
  tb_cont_unused : ∃ qs, L !! cont_unused_list = Some (c_elem <$> qs) ∧ ∀ c, c ∈ qs ↔ is_cont c ∧ ¬ used cs c;
  tb_cont_run : ∃ qs, L !! cont_run_list = Some (c_elem <$> qs) ∧ ∀ c, c ∈ qs ↔ used cs c;
}.

(** Elements and lists of different owners are different cells. *)
Lemma p_elem_inj p p' : p_elem p = p_elem p' → p = p'.
Proof. unfold p_elem. lia. Qed.
Lemma p_elem_c_inj p p' : p_elem_c p = p_elem_c p' → p = p'.
Proof. unfold p_elem_c. lia. Qed.
Lemma c_elem_inj c c' : c_elem c = c_elem c' → c = c'.
Proof. unfold c_elem. lia. Qed.
Lemma p_elem_not_c p p' : p_elem p ≠ p_elem_c p'.
Proof. unfold p_elem, p_elem_c. lia. Qed.
Lemma p_elem_not_cont p c : is_proc p → is_cont c → p_elem p ≠ c_elem c ∧ p_elem_c p ≠ c_elem c.
Proof. unfold is_proc, is_cont, NPROC, NCONT, p_elem, p_elem_c, c_elem. lia. Qed.
Lemma proc_entry_elem p : proc_entry (p_elem p) = p.
Proof. unfold proc_entry, p_elem. rewrite Z.add_simpl_l, Z.mul_comm. by apply Z.div_mul. Qed.
Lemma cont_entry_elem c : cont_entry (c_elem c) = c.
Proof. unfold cont_entry, c_elem. rewrite Z.add_simpl_l, Z.mul_comm. by apply Z.div_mul. Qed.
Lemma p_elem_not_null p : is_proc p → p_elem p ≠ 0.
Proof. unfold is_proc, p_elem. lia. Qed.

Lemma c_run_list_inj c c' : c_run_list c = c_run_list c' → c = c'.
Proof. unfold c_run_list. lia. Qed.
Lemma c_proc_list_inj c c' : c_proc_list c = c_proc_list c' → c = c'.
Proof. unfold c_proc_list. lia. Qed.
Lemma c_lists_ne c c' : c_run_list c ≠ c_proc_list c'.
Proof. unfold c_run_list, c_proc_list. lia. Qed.
Lemma c_list_global c : is_cont c →
  c_run_list c ≠ unused_list ∧ c_run_list c ≠ cont_unused_list ∧ c_run_list c ≠ cont_run_list ∧
  c_proc_list c ≠ unused_list ∧ c_proc_list c ≠ cont_unused_list ∧ c_proc_list c ≠ cont_run_list.
Proof.
  unfold is_cont, NCONT, c_run_list, c_proc_list, unused_list, cont_unused_list, cont_run_list. lia.
Qed.

Lemma proc_is_insert ps (P : proc → Prop) p x x' q :
  ps !! p = Some x → is_proc p → proc_is (<[p := x']> ps) P q ↔ if decide (q = p) then P x' else proc_is ps P q.
Proof.
  intros Hx Hp. unfold proc_is. destruct (decide (q = p)) as [->|Hne].
  - rewrite lookup_insert_eq. split; [by intros (_ & y & [= <-] & ?)|intros ?; split; [done|by exists x']].
  - by rewrite lookup_insert_ne.
Qed.

Lemma proc_is_insert_same ps (P : proc → Prop) p x x' q :
  ps !! p = Some x → is_proc p → (P x' ↔ P x) → proc_is (<[p := x']> ps) P q ↔ proc_is ps P q.
Proof.
  intros Hx Hp HP. rewrite (proc_is_insert ps P p x) by done. destruct (decide (q = p)) as [->|]; [|done].
  rewrite HP. unfold proc_is. split; [intros ?; split; [done|by exists x]|intros (_ & y & Hy & ?); congruence].
Qed.

(** A change of fields that no list depends on. *)
Lemma table_fields h ps cs L p x x' :
  table h ps cs L → is_proc p → ps !! p = Some x → (p_state x ≠ UNUSED → p_contp x' = p_contp x) →
  (p_state x' = UNUSED ↔ p_state x = UNUSED) → (p_state x' = RUNNABLE ↔ p_state x = RUNNABLE) →
  table h (<[p := x']> ps) cs L.
Proof.
  intros T Hp Hx Hc Hu Hr. split; try apply T.
  - intros q Hq. destruct (decide (q = p)) as [->|]; [by rewrite lookup_insert_eq|].
    rewrite lookup_insert_ne by done. by apply T.
  - destruct (tb_unused _ _ _ _ T) as (qs & Hl & Hqs). exists qs. split; [done|]. intros q.
    rewrite Hqs. symmetry. by eapply proc_is_insert_same.
  - intros c Hused. destruct (tb_run _ _ _ _ T c Hused) as (qs & Hl & Hqs). exists qs. split; [done|]. intros q.
    rewrite Hqs. symmetry. eapply proc_is_insert_same; [done|done|]. rewrite Hr.
    split; intros [Hs Hc']; (split; [done|]); [rewrite <- Hc'; symmetry|rewrite <- Hc']; apply Hc; by rewrite Hs.
  - intros c Hused. destruct (tb_members _ _ _ _ T c Hused) as (qs & Hl & Hqs). exists qs. split; [done|]. intros q.
    rewrite Hqs. symmetry. eapply proc_is_insert_same; [done|done|]. rewrite Hu.
    split; intros [Hs Hc']; (split; [done|]); [rewrite <- Hc'; symmetry|rewrite <- Hc']; by apply Hc.
  - intros q y Hq Hy. destruct (decide (q = p)) as [->|]; [|rewrite lookup_insert_ne in Hy by done; by eapply tb_contp].
    rewrite lookup_insert_eq in Hy. injection Hy as <-. rewrite Hu. intros Hn. rewrite Hc by done. by eapply tb_contp.
  - intros q y Hq Hy. destruct (decide (q = p)) as [->|]; [|rewrite lookup_insert_ne in Hy by done; by eapply tb_elem].
    rewrite lookup_insert_eq in Hy. injection Hy as <-. rewrite Hu, Hr. by eapply tb_elem.
  - intros q y Hq Hy. destruct (decide (q = p)) as [->|]; [|rewrite lookup_insert_ne in Hy by done; by eapply tb_elem_c].
    rewrite lookup_insert_eq in Hy. injection Hy as <-. rewrite Hu. by eapply tb_elem_c.
Qed.

(** The lists other than the run list of one container. *)
Lemma run_list_others (L : gmap Z (list Z)) c v :
  is_cont c →
  let L' := <[c_run_list c := v]> L in
  L' !! unused_list = L !! unused_list ∧ L' !! cont_unused_list = L !! cont_unused_list ∧
  L' !! cont_run_list = L !! cont_run_list ∧ (∀ c', L' !! c_proc_list c' = L !! c_proc_list c') ∧
  ∀ c', c' ≠ c → L' !! c_run_list c' = L !! c_run_list c'.
Proof.
  intros Hc L'. destruct (c_list_global c Hc) as (? & ? & ? & _).
  split_and!; try (intros; apply lookup_insert_ne; done).
  - intros c'. apply lookup_insert_ne, c_lists_ne.
  - intros c' Hne. apply lookup_insert_ne. intros He. by apply Hne, c_run_list_inj.
Qed.

(** The run list of container [c] changes together with the state of process
    [p], which was or will be at one of its ends. *)
Lemma table_run h h' ps cs L p x x' c qs qs' :
  table h ps cs L → is_proc p → ps !! p = Some x → p_contp x = c → p_contp x' = c →
  p_state x ≠ UNUSED → p_state x' ≠ UNUSED →
  L !! c_run_list c = Some (p_elem <$> qs) →
  (∀ q, q ∈ qs' ↔ if decide (q = p) then p_state x' = RUNNABLE else q ∈ qs) →
  queues h' (<[c_run_list c := p_elem <$> qs']> L) →
  (∀ e, e ≠ p_elem p → off_queues h L e → off_queues h' (<[c_run_list c := p_elem <$> qs']> L) e) →
  (p_state x' ≠ RUNNABLE → off_queues h' (<[c_run_list c := p_elem <$> qs']> L) (p_elem p)) →
  table h' (<[p := x']> ps) cs (<[c_run_list c := p_elem <$> qs']> L).
Proof.
  intros T Hp Hx Hc Hc' Hu Hu' Hl Hqs' Hq' Hoff Hp'.
  assert (used cs c) as Hused by (rewrite <- Hc; by eapply tb_contp).
  destruct (run_list_others L c (p_elem <$> qs') (proj1 Hused)) as (E1 & E2 & E3 & E4 & E5).
  split; rewrite ?E1, ?E2, ?E3; try apply T.
  - done.
  - intros q Hq. destruct (decide (q = p)) as [->|]; [by rewrite lookup_insert_eq|].
    rewrite lookup_insert_ne by done. by apply T.
  - destruct (tb_unused _ _ _ _ T) as (us & Hul & Hus). exists us. split; [done|]. intros q.
    rewrite Hus. symmetry. by eapply proc_is_insert_same.
  - intros d Hd. destruct (decide (d = c)) as [->|Hne].
    + exists qs'. rewrite lookup_insert_eq. split; [done|]. intros q. rewrite Hqs', (proc_is_insert ps _ p x) by done.
      destruct (decide (q = p)); [tauto|].
      destruct (tb_run _ _ _ _ T c Hused) as (rs & Hrl & Hrs). rewrite Hl in Hrl. injection Hrl as Hrl.
      apply list_fmap_eq_inj in Hrl; [|exact p_elem_inj]. subst rs. apply Hrs.
    + rewrite E5 by done. destruct (tb_run _ _ _ _ T d Hd) as (rs & Hrl & Hrs). exists rs. split; [done|]. intros q.
      rewrite Hrs. symmetry. eapply proc_is_insert_same; [done|done|]. split; intros [_ ?]; congruence.
  - intros d Hd. rewrite E4. destruct (tb_members _ _ _ _ T d Hd) as (ms & Hml & Hms). exists ms. split; [done|].
    intros q. rewrite Hms. symmetry. eapply proc_is_insert_same; [done|done|]. rewrite Hc, Hc'. tauto.
  - intros q y Hq Hy Hyu. destruct (decide (q = p)) as [->|].
    + rewrite lookup_insert_eq in Hy. injection Hy as <-. by rewrite Hc'.
    + rewrite lookup_insert_ne in Hy by done. exact (tb_contp _ _ _ _ T q y Hq Hy Hyu).
  - intros q y Hq Hy Hyu Hyr. destruct (decide (q = p)) as [->|].
    + rewrite lookup_insert_eq in Hy. injection Hy as <-. by apply Hp'.
    + rewrite lookup_insert_ne in Hy by done. apply Hoff; [|exact (tb_elem _ _ _ _ T q y Hq Hy Hyu Hyr)]. intros He. by apply p_elem_inj in He.
  - intros q y Hq Hy Hyu. destruct (decide (q = p)) as [->|].
    + rewrite lookup_insert_eq in Hy. by injection Hy as <-.
    + rewrite lookup_insert_ne in Hy by done. apply Hoff; [|exact (tb_elem_c _ _ _ _ T q y Hq Hy Hyu)].
      intros He. symmetry in He. by apply p_elem_not_c in He.
Qed.
End table.

(** * The primitive operations

    [mk hs ks h ps cs s] is [s] with the locks [hs] held, the processes [ks]
    killed, the list memory [h] and the two arrays [ps] and [cs]. *)

Definition mk {U} (hs ks : gset Z) (h : heap) (ps : gmap Z proc) (cs : gmap Z cont) (s : kst U) : kst U :=
  set_k_conts cs (set_k_procs ps (set_k_heap h (set_thread (with_killed ks (with_held hs (the_thread s))) s))).

Section rules.
Context {U : Type} (E : env (kst U)).
Implicit Types (hs ks : gset Z) (h : heap) (ps : gmap Z proc) (cs : gmap Z cont) (s : kst U) (p c l e lk : Z).
Local Abbreviation St := (kst U).

Lemma mk_self s : mk (held s) (th_killed (the_thread s)) (k_heap s) (k_procs s) (k_conts s) s = s.
Proof.
  unfold mk. change (held s) with (th_held (the_thread s)).
  replace (with_killed _ _) with (the_thread s) by by destruct (the_thread s).
  rewrite set_thread_thread. by destruct s.
Qed.

Lemma mk_mk hs ks h ps cs hs' ks' h' ps' cs' s : mk hs ks h ps cs (mk hs' ks' h' ps' cs' s) = mk hs ks h ps cs s.
Proof. destruct s as [[[[[]]]]]. done. Qed.

Lemma mk_held hs ks h ps cs s : held (mk hs ks h ps cs s) = hs.
Proof. by destruct s as [[[[[]]]]]. Qed.
Lemma mk_me hs ks h ps cs s : th_proc (the_thread (mk hs ks h ps cs s)) = th_proc (the_thread s).
Proof. by destruct s as [[[[[]]]]]. Qed.
Lemma mk_killed hs ks h ps cs s : th_killed (the_thread (mk hs ks h ps cs s)) = ks.
Proof. by destruct s as [[[[[]]]]]. Qed.
Lemma mk_root hs ks h ps cs s : k_cont_root (mk hs ks h ps cs s) = k_cont_root s.
Proof. by destruct s as [[[[[]]]]]. Qed.
Lemma mk_set_held hs' hs ks h ps cs s : set_held hs' (mk hs ks h ps cs s) = mk hs' ks h ps cs s.
Proof. by destruct s as [[[[[]]]]]. Qed.

Lemma mk_acquire lk Q hs ks h ps cs s :
  lk ∉ hs → Q tt (mk ({[lk]} ∪ hs) ks h ps cs s) → wp E (acquire lk) Q (mk hs ks h ps cs s).
Proof. intros Hlk HQ. apply wp_acquire; rewrite mk_held; [done|]. by rewrite mk_set_held. Qed.

Lemma mk_release lk Q hs ks h ps cs s :
  lk ∉ hs → Q tt (mk hs ks h ps cs s) → wp E (release lk) Q (mk ({[lk]} ∪ hs) ks h ps cs s).
Proof.
  intros Hlk HQ. apply wp_release; rewrite mk_held; [apply lock_in|]. by rewrite lock_released, mk_set_held.
Qed.

Lemma mk_deref_proc p x Q hs ks h ps cs s :
  ps !! p = Some x → Q x (mk hs ks h ps cs s) → wp E (deref_proc p) Q (mk hs ks h ps cs s).
Proof. intros Hx HQ. by eapply wp_get_some. Qed.

Lemma mk_deref_cont c y Q hs ks h ps cs s :
  cs !! c = Some y → Q y (mk hs ks h ps cs s) → wp E (deref_cont c) Q (mk hs ks h ps cs s).
Proof. intros Hx HQ. by eapply wp_get_some. Qed.

Lemma mk_update_proc p x f Q hs ks h ps cs s :
  ps !! p = Some x → Q tt (mk hs ks h (<[p := f x]> ps) cs s) → wp E (update_proc p f) Q (mk hs ks h ps cs s).
Proof.
  intros Hx HQ. apply wp_bind. eapply mk_deref_proc; [done|]. apply wp_modify.
  replace (<[p := f x]> ps) with (alter f p ps) in HQ; [done|].
  apply map_eq. intros q. destruct (decide (q = p)) as [->|].
  - by rewrite lookup_alter_eq, lookup_insert_eq, Hx.
  - by rewrite lookup_alter_ne, lookup_insert_ne.
Qed.

Lemma mk_update_cont c y f Q hs ks h ps cs s :
  cs !! c = Some y → Q tt (mk hs ks h ps (<[c := f y]> cs) s) → wp E (update_cont c f) Q (mk hs ks h ps cs s).
Proof.
  intros Hx HQ. apply wp_bind. eapply mk_deref_cont; [done|]. apply wp_modify.
  replace (<[c := f y]> cs) with (alter f c cs) in HQ; [done|].
  apply map_eq. intros q. destruct (decide (q = c)) as [->|].
  - by rewrite lookup_alter_eq, lookup_insert_eq, Hx.
  - by rewrite lookup_alter_ne, lookup_insert_ne.
Qed.

Lemma mk_on_heap {A} (m : M heap A) (P : A → heap → Prop) Q hs ks h ps cs s :
  wp no_sleep m P h → (∀ a h', P a h' → Q a (mk hs ks h' ps cs s)) → wp E (on_heap m) Q (mk hs ks h ps cs s).
Proof.
  intros Hm HQ. eapply wp_zoom_returns; [exact Hm|]. intros a h' HP. exact (HQ a h' HP).
Qed.

Lemma mk_set_killed p (k : bool) Q hs ks h ps cs s :
  Q tt (mk hs (if k then {[p]} ∪ ks else ks ∖ {[p]}) h ps cs s) → wp E (set_killed p k) Q (mk hs ks h ps cs s).
Proof. destruct s as [[[[[]]]]]. done. Qed.

Lemma mk_get_killed p Q hs ks h ps cs s :
  Q (bool_decide (p ∈ ks)) (mk hs ks h ps cs s) → wp E (get_killed p) Q (mk hs ks h ps cs s).
Proof. destruct s as [[[[[]]]]]. done. Qed.

Lemma mk_myproc Q hs ks h ps cs s :
  Q (th_proc (the_thread s)) (mk hs ks h ps cs s) → wp E myproc Q (mk hs ks h ps cs s).
Proof. intros HQ. apply wp_gets. by rewrite mk_me. Qed.
End rules.

(** The locks of processes, of containers and of the lists are different. *)
Lemma plock_ne_clock p c : is_proc p → is_cont c → plock p ≠ clock c.
Proof. unfold is_proc, is_cont, plock, clock, NPROC. lia. Qed.
Lemma plock_inj p q : plock p = plock q → p = q.
Proof. unfold plock. lia. Qed.
