(* ===== verification/SchedSpecs.v ===== *)
(** What the scheduler and the wakeups do to the process table (kernel/proc.c). *)

From S2P Require Import Prelude Lists ListChains ListSpecs Queues Riscv Threads Fs File Proc Sched ProcSpecs.
Local Open Scope Z_scope.

Section specs.
Context {U : Type} (E : env (kst U)).
Implicit Types (hs ks : gset Z) (h : heap) (ps : gmap Z proc) (cs : gmap Z cont) (L : gmap Z (list Z)) (s : kst U) (p c l : Z) (x : proc) (qs : list Z).
Local Abbreviation St := (kst U).

Lemma elem_fmap_app qs p : p_elem <$> (qs ++ [p]) = (p_elem <$> qs) ++ [p_elem p].
Proof. by rewrite fmap_app. Qed.

Lemma p_elems_inj qs qs' : p_elem <$> qs = p_elem <$> qs' → qs = qs'.
Proof. intros He. apply list_fmap_eq_inj in He; [done|exact p_elem_inj]. Qed.

(** The run list of a container and what it says of its processes. *)
Lemma table_run_list h ps cs L c :
  table h ps cs L → used cs c →
  ∃ qs, L !! c_run_list c = Some (p_elem <$> qs) ∧ NoDup qs ∧
    ∀ p, p ∈ qs ↔ proc_is ps (λ x, p_state x = RUNNABLE ∧ p_contp x = c) p.
Proof.
  intros T Hc. destruct (tb_run _ _ _ _ T c Hc) as (qs & Hl & Hqs). exists qs. split_and!; [done| |done].
  apply (NoDup_fmap_1 p_elem). exact (queues_NoDup h L _ _ (tb_queues _ _ _ _ T) Hl).
Qed.

(** A process that is not runnable goes to the end of its container's run list. *)
Lemma table_run_push h ps cs L p x x' qs Q :
  table h ps cs L → is_proc p → ps !! p = Some x → p_state x ≠ UNUSED → p_state x ≠ RUNNABLE →
  p_state x' = RUNNABLE → p_contp x' = p_contp x →
  L !! c_run_list (p_contp x) = Some (p_elem <$> qs) →
  (∀ h', table h' (<[p := x']> ps) cs (<[c_run_list (p_contp x) := p_elem <$> (qs ++ [p])]> L) → Q tt h') →
  wp no_sleep (list_push_back (c_run_list (p_contp x)) (p_elem p)) Q h.
Proof.
  intros T Hp Hx Hu Hr Hx' Hc Hl HQ.
  assert (off_queues h L (p_elem p)) as Hoff by exact (tb_elem _ _ _ _ T p x Hp Hx Hu Hr).
  eapply wp_mono; [exact (queue_push no_sleep h L _ _ (p_elem p) (tb_queues _ _ _ _ T) Hl Hoff)|].
  rewrite <- elem_fmap_app. intros [] h' [Hq Hoff']. apply HQ.
  assert (used cs (p_contp x)) as Hused by exact (tb_contp _ _ _ _ T p x Hp Hx Hu).
  eapply table_run; [exact T|exact Hp|exact Hx|reflexivity|exact Hc|exact Hu|by rewrite Hx'|exact Hl| |exact Hq|exact Hoff'|].
  - intros q. rewrite elem_of_app, list_elem_of_singleton. destruct (decide (q = p)) as [->|]; tauto.
  - by rewrite Hx'.
Qed.

Lemma make_runnable_spec hs ks h ps cs s L p x qs Q :
  table h ps cs L → is_proc p → ps !! p = Some x → p_state x ≠ UNUSED → p_state x ≠ RUNNABLE →
  clock (p_contp x) ∉ hs →
  L !! c_run_list (p_contp x) = Some (p_elem <$> qs) →
  (∀ h', table h' (<[p := set_p_state RUNNABLE x]> ps) cs (<[c_run_list (p_contp x) := p_elem <$> (qs ++ [p])]> L) →
     Q tt (mk hs ks h' (<[p := set_p_state RUNNABLE x]> ps) cs s)) →
  wp E (make_runnable p) Q (mk hs ks h ps cs s).
Proof.
  intros T Hp Hx Hu Hr Hk Hl HQ. unfold make_runnable.
  destruct (tb_contp _ _ _ _ T p x Hp Hx Hu) as (Hc & y & Hy & _).
  apply wp_bind. eapply mk_update_proc; [exact Hx|].
  apply wp_bind. eapply mk_deref_proc; [apply lookup_insert_eq|]. change (p_contp (set_p_state RUNNABLE x)) with (p_contp x). cbv zeta.
  apply wp_bind. eapply mk_deref_cont; [exact Hy|].
  apply wp_bind, mk_acquire; [exact Hk|]. apply wp_bind. eapply mk_on_heap.
  { eapply (table_run_push h ps cs L p x (set_p_state RUNNABLE x) qs (λ _ h', table h' _ _ _)); done. }
  intros [] h' T'. apply mk_release; [exact Hk|]. by apply HQ.
Qed.

(** * Wakeups *)

(** The processes [wakeup(chan)] by process [me] is for, and what it makes of
    them. *)
Definition sleeps_on (me chan p : Z) (x : proc) : bool :=
  negb (p =? me) && (bool_decide (p_state x = SLEEPING) && (p_chan x =? chan)).
Definition woken_proc (me chan p : Z) (x : proc) : proc :=
  if sleeps_on me chan p x then set_p_state RUNNABLE x else x.
(** Those among [ids] that belong to container [c], in the order of [ids]. *)
Definition woken_in (me chan : Z) (ps : gmap Z proc) (c p : Z) : bool :=
  match ps !! p with Some x => sleeps_on me chan p x && (p_contp x =? c) | None => false end.
Definition woken_ids (me chan : Z) (ps : gmap Z proc) (ids : list Z) (c : Z) : list Z :=
  filter (λ p, woken_in me chan ps c p = true) ids.

(** From [ps] and [L] to [ps'] and [L'], the sleepers among [ids] became runnable
    and went to the ends of the run lists of their containers. *)
Record wakes (me chan : Z) (ids : list Z) cs ps L ps' L' : Prop := {
  wk_procs p : ps' !! p = if decide (p ∈ ids) then woken_proc me chan p <$> ps !! p else ps !! p;
  wk_run c qs : used cs c → L !! c_run_list c = Some (p_elem <$> qs) →
    L' !! c_run_list c = Some (p_elem <$> (qs ++ woken_ids me chan ps ids c));
  wk_other l : (∀ c, used cs c → l ≠ c_run_list c) → L' !! l = L !! l;
}.

Lemma wakes_nil me chan cs ps L : wakes me chan [] cs ps L ps L.
Proof. split; [done| |done]. intros c qs _ Hl. by rewrite app_nil_r. Qed.

Lemma woken_ids_ext me chan ps ps' ids c :
  (∀ p, p ∈ ids → ps' !! p = ps !! p) → woken_ids me chan ps' ids c = woken_ids me chan ps ids c.
Proof.
  intros He. unfold woken_ids. induction ids as [|p ids IH]; [done|].
  assert (woken_in me chan ps' c p = woken_in me chan ps c p) as Hp by (unfold woken_in; rewrite He by set_solver; done).
  rewrite !filter_cons, Hp, IH by set_solver. done.
Qed.

Lemma wakes_cons me chan p ids cs ps L ps1 L1 ps2 L2 :
  p ∉ ids → wakes me chan [p] cs ps L ps1 L1 → wakes me chan ids cs ps1 L1 ps2 L2 → wakes me chan (p :: ids) cs ps L ps2 L2.
Proof.
  intros Hp W1 W2. split.
  - intros q. rewrite (wk_procs _ _ _ _ _ _ _ _ W2), (wk_procs _ _ _ _ _ _ _ _ W1).
    destruct (decide (q ∈ ids)), (decide (q ∈ [p])), (decide (q ∈ p :: ids)); set_solver.
  - intros c qs Hc Hl. rewrite (wk_run _ _ _ _ _ _ _ _ W2 c (qs ++ woken_ids me chan ps [p] c)); [|done|].
    + f_equal. rewrite <- app_assoc. f_equal. f_equal. rewrite (woken_ids_ext me chan ps ps1).
      * symmetry. apply (filter_app _ [p] ids).
      * intros q Hq. rewrite (wk_procs _ _ _ _ _ _ _ _ W1), decide_False; [done|]. set_solver.
    + by apply (wk_run _ _ _ _ _ _ _ _ W1).
  - intros l Hl. rewrite (wk_other _ _ _ _ _ _ _ _ W2) by done. by apply (wk_other _ _ _ _ _ _ _ _ W1).
Qed.

(** The locks a wakeup takes are free. *)
Definition wake_locks (me : Z) (hs : gset Z) : Prop :=
  (∀ q, is_proc q → q ≠ me → plock q ∉ hs) ∧ (∀ c, is_cont c → clock c ∉ hs).

Lemma wakeup_one_spec hs ks h ps cs s L chan p :
  let me := th_proc (the_thread s) in
  table h ps cs L → is_proc p → wake_locks me hs →
  wp E (wakeup_one chan p)
    (λ _ s', ∃ h' ps' L', s' = mk hs ks h' ps' cs s ∧ table h' ps' cs L' ∧ wakes me chan [p] cs ps L ps' L')
    (mk hs ks h ps cs s).
Proof.
  intros me T Hp [Hpl Hcl]. unfold wakeup_one. apply wp_bind, mk_myproc. fold me.
  destruct (tb_proc _ _ _ _ T p Hp) as [x Hx].
  assert (sleeps_on me chan p x = false → wakes me chan [p] cs ps L ps L) as Hnot.
  { intros Hs. split; [| |done].
    - intros q. case_decide as Hq; [|done]. apply list_elem_of_singleton in Hq as ->. rewrite Hx. simpl.
      unfold woken_proc. by rewrite Hs.
    - intros c qs _ Hl. unfold woken_ids. rewrite filter_cons_False; [by rewrite app_nil_r|]. unfold woken_in. by rewrite Hx, Hs. }
  apply wp_when; rewrite negb_true_iff || rewrite negb_false_iff.
  2:{ intros ->%Z.eqb_eq. exists h, ps, L. split_and!; [done..|]. apply Hnot. unfold sleeps_on. by rewrite Z.eqb_refl. }
  intros Hne%Z.eqb_neq. apply wp_bind, mk_acquire; [by apply Hpl|].
  apply wp_bind. eapply mk_deref_proc; [done|]. apply wp_bind. apply wp_when.
  - intros Hs. assert (sleeps_on me chan p x = true) as Hw.
    { unfold sleeps_on. rewrite Hs, andb_true_r. apply negb_true_iff. by apply Z.eqb_neq. }
    apply andb_true_iff in Hs as [Hst%bool_decide_eq_true _].
    assert (used cs (p_contp x)) as Hc by (apply (tb_contp _ _ _ _ T p x Hp Hx); by rewrite Hst).
    destruct (table_run_list _ _ _ _ _ T Hc) as (qs & Hl & _).
    eapply make_runnable_spec; [exact T|done|done|by rewrite Hst..| |exact Hl|].
    { pose proof (plock_ne_clock p _ Hp (proj1 Hc)). pose proof (Hcl _ (proj1 Hc)). set_solver. }
    intros h' T'. apply mk_release; [by apply Hpl|]. eexists h', _, _. split_and!; [done|exact T'|]. split.
    + intros q. case_decide as Hq; [apply list_elem_of_singleton in Hq as ->|].
      * rewrite lookup_insert_eq, Hx. simpl. unfold woken_proc. by rewrite Hw.
      * rewrite lookup_insert_ne; [done|]. set_solver.
    + intros c qs' Hc' Hl'. unfold woken_ids. destruct (decide (c = p_contp x)) as [->|Hcne].
      * rewrite Hl in Hl'. injection Hl' as Hl'%list_fmap_eq_inj; [|exact p_elem_inj]. subst qs'.
        rewrite lookup_insert_eq. rewrite filter_cons_True; [done|]. unfold woken_in. by rewrite Hx, Hw, Z.eqb_refl.
      * rewrite lookup_insert_ne by (intros He; by apply Hcne, c_run_list_inj). rewrite filter_cons_False.
        -- by rewrite app_nil_r.
        -- unfold woken_in. rewrite Hx, Hw. simpl. intros Heq%Z.eqb_eq. done.
    + intros l Hn. apply lookup_insert_ne. intros He. by apply (Hn _ Hc).
  - intros Hs. apply mk_release; [by apply Hpl|]. exists h, ps, L. split_and!; [done..|]. apply Hnot.
    unfold sleeps_on. by rewrite Hs, andb_false_r.
Qed.

Lemma wakeup_loop_spec n : ∀ hs ks h ps cs s L chan p,
  let me := th_proc (the_thread s) in
  table h ps cs L → 1 ≤ p → p + Z.of_nat n ≤ NPROC + 1 → wake_locks me hs →
  wp E (wakeup_loop n chan p)
    (λ _ s', ∃ h' ps' L', s' = mk hs ks h' ps' cs s ∧ table h' ps' cs L' ∧ wakes me chan (seqZ p (Z.of_nat n)) cs ps L ps' L')
    (mk hs ks h ps cs s).
Proof.
  induction n as [|n IH]; intros hs ks h ps cs s L chan p me T Hp Hn Hlk; simpl wakeup_loop.
  { apply wp_ret. exists h, ps, L. split_and!; [done..|]. apply wakes_nil. }
  eapply wp_call; [apply wakeup_one_spec; [exact T|split; lia|exact Hlk]|].
  cbn beta. intros _ s1 (h1 & ps1 & L1 & -> & T1 & W1).
  eapply wp_mono; [apply IH; [exact T1|lia..|exact Hlk]|].
  cbn beta. intros _ s2 (h2 & ps2 & L2 & -> & T2 & W2). exists h2, ps2, L2. split_and!; [done..|].
  rewrite seqZ_cons by lia. replace (Z.succ p) with (p + 1) by lia. replace (Z.pred _) with (Z.of_nat n) by lia.
  eapply wakes_cons; [|exact W1|exact W2]. rewrite elem_of_seqZ. lia.
Qed.

(** * kill *)

(** The process [kill(pid)] finds when it scans [ids]. *)
Definition has_pid (pid : Z) (ps : gmap Z proc) (p : Z) : bool :=
  match ps !! p with Some x => p_pid x =? pid | None => false end.
Fixpoint first_pid (pid : Z) (ps : gmap Z proc) (ids : list Z) : option Z :=
  match ids with
  | [] => None
  | p :: ids => if has_pid pid ps p then Some p else first_pid pid ps ids
  end.

(** What [kill] does to the process [p]. *)
Definition killed_proc (x : proc) : proc := if decide (p_state x = SLEEPING) then set_p_state RUNNABLE x else x.
Definition killed_queues (p : Z) (x : proc) (qs : list Z) L : gmap Z (list Z) :=
  if decide (p_state x = SLEEPING) then <[c_run_list (p_contp x) := p_elem <$> (qs ++ [p])]> L else L.

Definition kill_post pid (ids : list Z) hs ks ps cs s L (r : Z) (s' : kst U) : Prop :=
  match first_pid pid ps ids with
  | None => r = -1 ∧ ∃ h', s' = mk hs ks h' ps cs s ∧ table h' ps cs L
  | Some p => r = 0 ∧ ∃ x h' L', ps !! p = Some x ∧
      s' = mk hs ({[p]} ∪ ks) h' (<[p := killed_proc x]> ps) cs s ∧ table h' (<[p := killed_proc x]> ps) cs L' ∧
      (p_state x ≠ SLEEPING → L' = L) ∧
      ∀ qs, p_state x = SLEEPING → L !! c_run_list (p_contp x) = Some (p_elem <$> qs) →
        L' = <[c_run_list (p_contp x) := p_elem <$> (qs ++ [p])]> L
  end.

Lemma kill_loop_spec n : ∀ hs ks h ps cs s L pid p,
  table h ps cs L → 1 ≤ p → p + Z.of_nat n ≤ NPROC + 1 → (∀ me, wake_locks me hs) →
  wp E (kill_loop n pid p) (kill_post pid (seqZ p (Z.of_nat n)) hs ks ps cs s L) (mk hs ks h ps cs s).
Proof.
  induction n as [|n IH]; intros hs ks h ps cs s L pid p T Hp Hn Hlk; simpl kill_loop.
  { apply wp_ret. split; [done|]. by exists h. }
  assert (is_proc p) as Hpp by (split; lia). destruct (tb_proc _ _ _ _ T p Hpp) as [x Hx].
  rewrite seqZ_cons by lia. replace (Z.succ p) with (p + 1) by lia. replace (Z.pred _) with (Z.of_nat n) by lia.
  assert (plock p ∉ hs) as Hpl by (apply (Hlk (p - 1)); [done|lia]).
  apply wp_bind, mk_acquire; [done|]. apply wp_bind. eapply mk_deref_proc; [done|].
  unfold kill_post. cbn [first_pid]. unfold has_pid at 1. rewrite Hx.
  destruct (p_pid x =? pid) eqn:Hpid; [|apply wp_bind, mk_release; [done|]; by apply IH; [..|lia|lia|]].
  apply wp_bind, mk_set_killed. apply wp_bind. apply wp_when.
  - intros Hst%bool_decide_eq_true.
    assert (used cs (p_contp x)) as Hc by (apply (tb_contp _ _ _ _ T p x Hpp Hx); by rewrite Hst).
    destruct (table_run_list _ _ _ _ _ T Hc) as (qs & Hl & _).
    eapply make_runnable_spec; [exact T|done|done|by rewrite Hst..| |exact Hl|].
    { pose proof (plock_ne_clock p _ Hpp (proj1 Hc)). pose proof (proj2 (Hlk 0) _ (proj1 Hc)). set_solver. }
    intros h' T'. apply wp_bind, mk_release; [done|]. apply wp_ret. split; [done|].
    eexists x, h', _. unfold killed_proc. rewrite decide_True by done.
    split_and!; [done|done|exact T'|done|]. intros qs' _ Hl'. rewrite Hl in Hl'.
    injection Hl' as Hl'%list_fmap_eq_inj; [|exact p_elem_inj]. by subst qs'.
  - intros Hst%bool_decide_eq_false. apply wp_bind, mk_release; [done|]. apply wp_ret. split; [done|].
    exists x, h, L. unfold killed_proc. rewrite decide_False, insert_id by done. by split_and!.
Qed.

(** * The scheduler *)

Definition scheduled (x : proc) : proc :=
  Proc RUNNING (p_chan x) (p_xstate x) (p_pid x) (p_parent x) (p_kstack x) (p_sz x) (p_pagetable x) (p_trapframe x)
    (p_context x) (p_ofile x) (p_name x) (u64 (p_nsched x + 1)) (p_nticks x) (p_contp x).
(** [c->proc = p], and what the process then finds when it asks who it is. *)
Definition running (p pid pt : Z) (s : kst U) : kst U :=
  let t := the_thread s in set_thread (Thread p pid pt (th_held t) (th_woken t) (th_killed t)) s.

Lemma mk_set_running p pid pt Q hs ks h ps cs s :
  Q tt (mk hs ks h ps cs (running p pid pt s)) → wp E (set_running p pid pt) Q (mk hs ks h ps cs s).
Proof. by destruct s as [[[[[]]]]]. Qed.

Lemma wp_take_first_none hs ks h ps cs s L l Q :
  queues h L → L !! l = Some [] → Q 0 (mk hs ks h ps cs s) → wp E (take_first l) Q (mk hs ks h ps cs s).
Proof.
  intros Hq Hl HQ. unfold take_first. apply wp_bind. eapply mk_on_heap.
  { eapply (queue_empty _ _ _ _ _ (λ b h', b = true ∧ h' = h)); [done|exact Hl|]. by rewrite bool_decide_true. }
  intros b h' [-> ->]. by apply wp_ret.
Qed.

Lemma wp_take_first_some hs ks h ps cs s L l e es Q :
  queues h L → L !! l = Some (e :: es) →
  (∀ h', queues h' (<[l := es]> L) → off_queues h' (<[l := es]> L) e →
     (∀ e', off_queues h L e' → off_queues h' (<[l := es]> L) e') → Q e (mk hs ks h' ps cs s)) →
  wp E (take_first l) Q (mk hs ks h ps cs s).
Proof.
  intros Hq Hl HQ. unfold take_first. apply wp_bind. eapply mk_on_heap.
  { eapply (queue_empty _ _ _ _ _ (λ b h', b = false ∧ h' = h)); [done|exact Hl|]. by rewrite bool_decide_false. }
  intros b h' [-> ->]. apply wp_bind. eapply mk_on_heap.
  { eapply (queue_begin _ _ _ _ _ _ (λ v h', v = e ∧ h' = h)); [done|exact Hl|done]. }
  intros v h' [-> ->]. apply wp_bind. eapply mk_on_heap; [exact (queue_remove no_sleep h L l [] es e Hq Hl)|].
  intros _ h' (H1 & H2 & H3). apply wp_ret. by apply HQ.
Qed.

Lemma schedule_none hs ks h ps cs s L :
  let r := k_cont_root s in
  table h ps cs L → used cs r → clock r ∉ hs → L !! c_run_list r = Some [] →
  wp E schedule (λ o s', o = None ∧ s' = mk hs ks h ps cs s) (mk hs ks h ps cs s).
Proof.
  intros r T Hr Hk Hl. unfold schedule. apply wp_bind, wp_gets. rewrite mk_root. fold r.
  destruct Hr as (Hc & y & Hy & _).
  apply wp_bind. eapply mk_deref_cont; [done|]. apply wp_bind, mk_acquire; [done|].
  apply wp_bind. eapply wp_take_first_none; [apply T|done|]. apply wp_bind, mk_release; [done|]. by apply wp_ret.
Qed.

Lemma schedule_some hs ks h ps cs s L p qs x :
  let r := k_cont_root s in
  table h ps cs L → used cs r → clock r ∉ hs → plock p ∉ hs →
  L !! c_run_list r = Some (p_elem <$> (p :: qs)) → ps !! p = Some x →
  wp E schedule
    (λ o s', o = Some p ∧ ∃ h', let ps' := <[p := scheduled x]> ps in
       s' = mk ({[plock p]} ∪ hs) ks h' ps' cs (running p (p_pid x) (p_pagetable x) s) ∧
       table h' ps' cs (<[c_run_list r := p_elem <$> qs]> L)) (mk hs ks h ps cs s).
Proof.
  intros r T Hr Hk Hpk Hl Hx. unfold schedule. apply wp_bind, wp_gets. rewrite mk_root. fold r.
  destruct (table_run_list _ _ _ _ _ T Hr) as (qs' & Hl' & Hnd & Hqs').
  assert (p :: qs = qs') as <- by (apply p_elems_inj; congruence).
  destruct (proj1 (Hqs' p)) as (Hp & x' & Hx' & Hst & Hcp); [set_solver|].
  assert (x' = x) as -> by congruence.
  destruct Hr as (Hc & y & Hy & Hyu).
  apply wp_bind. eapply mk_deref_cont; [done|]. apply wp_bind, mk_acquire; [done|].
  apply wp_bind. eapply wp_take_first_some; [apply T|exact Hl|]. intros h' Hq' Hoff Hoff'.
  apply wp_bind, mk_release; [done|].
  rewrite (proj2 (Z.eqb_neq _ _) (p_elem_not_null p Hp)), proc_entry_elem. cbv zeta.
  apply wp_bind, mk_acquire; [done|]. apply wp_bind. eapply mk_deref_proc; [done|].
  rewrite bool_decide_true by done. apply wp_bind, wp_ret.
  apply wp_bind. eapply mk_update_proc; [done|].
  apply wp_bind. eapply mk_update_proc; [apply lookup_insert_eq|]. rewrite insert_insert_eq.
  apply wp_bind. eapply mk_deref_proc; [apply lookup_insert_eq|].
  apply wp_bind, mk_set_running, wp_ret. split; [done|]. exists h'. split; [done|].
  apply NoDup_cons in Hnd as [Hn _].
  eapply (table_run h h' ps cs L p x (scheduled x) r (p :: qs) qs);
    [exact T|exact Hp|exact Hx|done|done|by rewrite Hst|done|exact Hl| |exact Hq'| |done].
  - intros q. destruct (decide (q = p)) as [->|]; [done|set_solver].
  - intros e _ He. by apply Hoff'.
Qed.

(** * Giving up the CPU *)

Lemma mk_running_me p pid pt s : th_proc (the_thread (running p pid pt s)) = p.
Proof. unfold running. cbv zeta. by rewrite thread_set. Qed.
Lemma mk_running_twice p pid pt p' pid' pt' s : running p pid pt (running p' pid' pt' s) = running p pid pt s.
Proof. by destruct s as [[[[[]]]]]. Qed.
Lemma running_root p pid pt s : k_cont_root (running p pid pt s) = k_cont_root s.
Proof. by destruct s as [[[[[]]]]]. Qed.

(** [sched], entered with the one lock it asks for, reaches the switch. *)
Lemma wp_sched chan ks h ps cs s p x Q :
  th_proc (the_thread s) = p → ps !! p = Some x → p_state x ≠ RUNNING →
  e_inv E (mk {[plock p]} ks h (<[p := set_p_context Saved x]> ps) cs s) →
  (∀ s', e_rely E (mk {[plock p]} ks h (<[p := set_p_context Saved x]> ps) cs s) s' → e_inv E s' →
     Q tt (resume (the_thread (mk {[plock p]} ks h (<[p := set_p_context Saved x]> ps) cs s)) s')) →
  wp E (sched chan) Q (mk {[plock p]} ks h ps cs s).
Proof.
  intros Hme Hx Hr Hi HQ. unfold sched. apply wp_bind, mk_myproc. rewrite Hme.
  apply wp_bind, wp_gets. rewrite mk_held. rewrite bool_decide_true by set_solver. rewrite bool_decide_true by done.
  apply wp_bind. eapply mk_deref_proc; [done|]. rewrite bool_decide_false by done.
  apply wp_bind. eapply mk_update_proc; [done|]. split; [exact Hi|]. intros s' Hs' Hi'. by apply HQ.
Qed.

Definition yielded (x : proc) : proc := set_p_context Saved (set_p_state RUNNABLE x).

Lemma wp_yield ks h ps cs s L p x qs Q :
  table h ps cs L → is_proc p → th_proc (the_thread s) = p → ps !! p = Some x →
  p_state x ≠ UNUSED → p_state x ≠ RUNNABLE → L !! c_run_list (p_contp x) = Some (p_elem <$> qs) →
  (∀ h', let ps' := <[p := yielded x]> ps in
     table h' ps' cs (<[c_run_list (p_contp x) := p_elem <$> (qs ++ [p])]> L) →
     e_inv E (mk {[plock p]} ks h' ps' cs s) ∧
     ∀ s', e_rely E (mk {[plock p]} ks h' ps' cs s) s' → e_inv E s' →
       Q tt (set_held ∅ (resume (the_thread (mk {[plock p]} ks h' ps' cs s)) s'))) →
  wp E yield Q (mk ∅ ks h ps cs s).
Proof.
  intros T Hp Hme Hx Hu Hr Hl HQ. unfold yield. destruct (tb_contp _ _ _ _ T p x Hp Hx Hu) as (Hc & y & Hy & _).
  apply wp_bind, mk_myproc. rewrite Hme. apply wp_bind. unfold mycont. apply wp_bind, mk_myproc. rewrite Hme.
  apply wp_bind. eapply mk_deref_proc; [done|]. apply wp_ret.
  apply wp_bind, mk_acquire; [set_solver|]. apply wp_bind. eapply mk_update_proc; [done|].
  apply wp_bind. eapply mk_deref_cont; [done|].
  pose proof (plock_ne_clock p _ Hp Hc) as Hne.
  apply wp_bind, mk_acquire; [set_solver|]. apply wp_bind. eapply mk_on_heap.
  { eapply (table_run_push h ps cs L p x (set_p_state RUNNABLE x) qs (λ _ h', table h' _ _ _)); done. }
  intros [] h' T'. apply wp_bind, mk_release; [set_solver|]. apply wp_bind.
  replace ({[plock p]} ∪ ∅ : gset Z) with ({[plock p]} : gset Z) by set_solver.
  destruct (HQ h') as [Hi Hk].
  { rewrite <- (insert_insert_eq ps p (yielded x) (set_p_state RUNNABLE x)).
    by eapply (table_fields _ _ _ _ p (set_p_state RUNNABLE x)); [exact T'|done|apply lookup_insert_eq|..]. }
  eapply wp_sched; [done|apply lookup_insert_eq|done|rewrite insert_insert_eq; exact Hi|].
  rewrite insert_insert_eq. fold (yielded x). intros s' Hs' Hi'. specialize (Hk s' Hs' Hi').
  assert (held (resume (the_thread (mk {[plock p]} ks h' (<[p := yielded x]> ps) cs s)) s') = {[plock p]}) as Hh.
  { by destruct s as [[[[[]]]]], s' as [[[[[]]]]]. }
  apply wp_release; rewrite Hh; [set_solver|]. by replace ({[plock p]} ∖ {[plock p]} : gset Z) with (∅ : gset Z) by set_solver.
Qed.
End specs.

(** * Turns of the CPU

    [switched m] runs a thread up to its call of [swtch], which returns into the
    scheduler. *)
Definition switched {S A} (m : M S A) : M S unit := λ s,
  match m s with
  | Sleep _ s' _ | Blocked _ s' => Ok tt s'
  | Ok _ _ | Fault => Fault
  | Panic msg => Panic msg
  | OutOfFuel => OutOfFuel
  end.

Lemma wp_switched {S A} (E : env S) (m : M S A) (Q : unit → S → Prop) s :
  wp (Env (Q tt) (λ _ _, False)) m (λ _ _, False) s → wp E (switched m) Q s.
Proof. unfold wp, switched. by destruct (m s) as [| | |? ? ?| |]; simpl; try tauto. Qed.

(** One turn of a process that computes until the timer interrupts it: the
    scheduler picks it, it leaves the [sched] it was in, and is made to yield. *)
Definition turn {U} : M (kst U) (option Z) :=
  let! o := schedule in
  match o with
  | None => ret None
  | Some p => release (plock p);;; switched yield;;; schedule_done p;;; ret (Some p)
  end.
Fixpoint turns {U} (n : nat) : M (kst U) (list (option Z)) :=
  match n with
  | O => ret []
  | S n => let! o := turn in let! os := turns n in ret (o :: os)
  end.

Section turns.
Context {U : Type} (E : env (kst U)).
Implicit Types (ks : gset Z) (h : heap) (ps : gmap Z proc) (cs : gmap Z cont) (L : gmap Z (list Z)) (s : kst U) (p : Z) (x : proc) (qs : list Z).

Definition idle (s : kst U) : Prop := running 0 0 0 s = s.

Lemma turn_spec ks h ps cs s L p qs x :
  let r := k_cont_root s in
  table h ps cs L → used cs r → idle s → L !! c_run_list r = Some (p_elem <$> (p :: qs)) → ps !! p = Some x →
  wp E turn
    (λ o s', o = Some p ∧ ∃ h', let ps' := <[p := yielded (scheduled x)]> ps in
       s' = mk ∅ ks h' ps' cs s ∧ table h' ps' cs (<[c_run_list r := p_elem <$> (qs ++ [p])]> L)) (mk ∅ ks h ps cs s).
Proof.
  intros r T Hr Hi Hl Hx.
  destruct (table_run_list _ _ _ _ _ T Hr) as (qs' & Hl' & _ & Hqs').
  assert (p :: qs = qs') as <- by (apply p_elems_inj; congruence).
  destruct (proj1 (Hqs' p)) as (Hp & x' & Hx' & Hst & Hcp); [set_solver|].
  assert (x' = x) as -> by congruence.
  unfold turn. eapply wp_call; [eapply schedule_some; [exact T|exact Hr|apply not_elem_of_empty|apply not_elem_of_empty|exact Hl|exact Hx]|].
  cbn beta. intros o s1 (-> & h1 & -> & T1). apply wp_bind, mk_release; [set_solver|].
  apply wp_bind, wp_switched. eapply (wp_yield _ ks h1 _ cs _ _ p (scheduled x) qs); [exact T1|done|apply mk_running_me|apply lookup_insert_eq|done|done|..].
  { simpl. rewrite Hcp. apply lookup_insert_eq. }
  intros h2. cbv zeta. change (p_contp (scheduled x)) with (p_contp x). rewrite Hcp, !insert_insert_eq. fold r. intros T2. split; [|done].
  simpl e_inv. apply wp_bind. unfold schedule_done. apply wp_bind, mk_set_running. rewrite mk_running_twice, Hi.
  replace ({[plock p]} : gset Z) with ({[plock p]} ∪ ∅ : gset Z) by set_solver.
  apply mk_release; [set_solver|]. apply wp_ret. split; [done|]. by exists h2.
Qed.

(** The processes of the run list run in its order and are again on it in that
    order. *)
Lemma turns_spec front : ∀ ks h ps cs s L back,
  let r := k_cont_root s in
  table h ps cs L → used cs r → idle s → L !! c_run_list r = Some (p_elem <$> (front ++ back)) →
  wp E (turns (length front))
    (λ os s', os = Some <$> front ∧ ∃ h' ps' L',
       s' = mk ∅ ks h' ps' cs s ∧ table h' ps' cs L' ∧ L' !! c_run_list r = Some (p_elem <$> (back ++ front)) ∧
       ∀ p, ps' !! p = if decide (p ∈ front) then (λ x, yielded (scheduled x)) <$> ps !! p else ps !! p) (mk ∅ ks h ps cs s).
Proof.
  induction front as [|p front IH]; intros ks h ps cs s L back r T Hr Hi Hl; cbn [length turns].
  { apply wp_ret. split; [done|]. exists h, ps, L. by rewrite app_nil_r. }
  destruct (table_run_list _ _ _ _ _ T Hr) as (qs' & Hl' & Hnd & Hqs').
  assert ((p :: front) ++ back = qs') as <- by (apply p_elems_inj; congruence).
  destruct (proj1 (Hqs' p)) as (_ & x & Hx & _); [set_solver|].
  eapply wp_call; [eapply turn_spec; [exact T|exact Hr|exact Hi|exact Hl|exact Hx]|].
  cbn beta. intros o s1 (-> & h1 & -> & T1).
  eapply wp_call; [eapply (IH ks h1 _ cs s _ (back ++ [p])); [exact T1|exact Hr|exact Hi|]|].
  { rewrite lookup_insert_eq. by rewrite <- app_assoc. }
  cbn beta. intros os s2 (-> & h2 & ps2 & L2 & -> & T2 & Hl2 & Hps2). apply wp_ret. split; [done|].
  exists h2, ps2, L2. split_and!; [done|done| |].
  - by rewrite <- app_assoc in Hl2.
  - apply NoDup_cons in Hnd as [Hn _]. intros q. rewrite Hps2. destruct (decide (q = p)) as [->|Hne].
    + rewrite lookup_insert_eq, decide_False by set_solver. rewrite decide_True by set_solver. by rewrite Hx.
    + rewrite lookup_insert_ne by done. destruct (decide (q ∈ front)), (decide (q ∈ p :: front)); set_solver.
Qed.
End turns.
