(* ===== verification/ProcAlloc.v ===== *)
(** Allocating and freeing processes (kernel/proc.c): [freeproc] on the process
    table, and what [allocproc] does when there is no memory. *)

From S2P Require Import Prelude Lists ListChains ListSpecs Queues Riscv Threads Fs File Proc ProcSpecs SchedSpecs.
Local Open Scope Z_scope.

(** The memory of the address spaces. *)
Definition kmem_of {U} (s : kst U) : U := fs_mem (fl_fs (k_files s)).
Definition with_kmem {U} (u : U) (s : kst U) : kst U :=
  set_k_files (set_fs (set_fmem u (fl_fs (k_files s))) (k_files s)) s.
Definition with_tfs {U} (t : gmap Z trapframe) (s : kst U) : kst U := set_k_tfs t s.

(** A routine that faults whatever it is called with. *)
Lemma faults_call {S A B} (m : M S A) (f : A → M S B) (P : A → S → Prop) s :
  wp no_sleep m P s → (∀ a s', P a s' → f a s' = Fault) → bind m f s = Fault.
Proof. rewrite wp_no_sleep. intros (a & s' & Hm & HP) Hf. unfold bind. rewrite Hm. by apply Hf. Qed.
Lemma faults_bind {S A B} (m : M S A) (f : A → M S B) s : m s = Fault → bind m f s = Fault.
Proof. unfold bind. by intros ->. Qed.

Section space.
Context {U : Type} (E : env (kst U)).
Implicit Types (hs ks : gset Z) (h : heap) (ps : gmap Z proc) (cs : gmap Z cont) (L : gmap Z (list Z)) (s : kst U) (p c l : Z) (x : proc) (qs : list Z) (u : U).

Lemma mk_on_space {A} (m : M U A) (P : A → U → Prop) Q hs ks h ps cs s :
  wp no_sleep m P (kmem_of s) → (∀ a u, P a u → Q a (mk hs ks h ps cs (with_kmem u s))) →
  wp E (on_space m) Q (mk hs ks h ps cs s).
Proof.
  intros Hm HQ. unfold on_space, on_files, on_fs.
  eapply (wp_zoom_returns E k_files set_k_files _ (λ a t, ∃ u, P a u ∧ t = set_fs (set_fmem u (fl_fs (k_files (mk hs ks h ps cs s)))) (k_files (mk hs ks h ps cs s)))).
  - eapply (wp_zoom_returns no_sleep fl_fs set_fs _ (λ a t, ∃ u, P a u ∧ t = set_fmem u (fl_fs (k_files (mk hs ks h ps cs s))))).
    + eapply (wp_zoom_returns no_sleep fs_mem set_fmem); [|intros a u HP; exists u; split; [exact HP|done]].
      by destruct s as [[[[[]]]]].
    + intros a t (u & HP & ->). by exists u.
  - intros a t (u & HP & ->). specialize (HQ a u HP). by destruct s as [[[[[]]]]].
Qed.

Lemma mk_modify_tfs (f : gmap Z trapframe → gmap Z trapframe) Q hs ks h ps cs s :
  Q tt (mk hs ks h ps cs (with_tfs (f (k_tfs s)) s)) →
  wp E (modify (λ s, set_k_tfs (f (k_tfs s)) s)) Q (mk hs ks h ps cs s).
Proof. by destruct s as [[[[[]]]]]. Qed.
Lemma kmem_with_tfs t s : kmem_of (with_tfs t s) = kmem_of s.
Proof. done. Qed.
Lemma tfs_with_kmem u s : k_tfs (with_kmem u s) = k_tfs s.
Proof. done. Qed.
Lemma with_kmem_tfs u t s : with_kmem u (with_tfs t s) = with_tfs t (with_kmem u s).
Proof. by destruct s as [[[[[]]]]]. Qed.
Lemma with_kmem_twice u u' s : with_kmem u (with_kmem u' s) = with_kmem u s.
Proof. by destruct s as [[[[[]]]]]. Qed.
End space.

(** * Freeing, on the table *)

Section free.
Implicit Types (h : heap) (ps : gmap Z proc) (cs : gmap Z cont) (L : gmap Z (list Z)) (p c : Z) (x : proc) (y : cont) (qs us ms : list Z).

Lemma global_lists_ne : unused_list ≠ cont_unused_list ∧ unused_list ≠ cont_run_list ∧ cont_unused_list ≠ cont_run_list.
Proof. done. Qed.

Lemma elem_of_remove (xs ys : list Z) e d : NoDup (xs ++ e :: ys) → d ∈ xs ++ ys ↔ d ∈ xs ++ e :: ys ∧ d ≠ e.
Proof.
  intros [Hn _]%NoDup_middle. rewrite elem_of_app in *. rewrite elem_of_app, elem_of_cons.
  destruct (decide (d = e)) as [->|]; tauto.
Qed.

(** The lists when the unused list and the members of one container change. *)
Lemma free_lists L c us ms :
  is_cont c →
  let L' := <[c_proc_list c := ms]> (<[unused_list := us]> L) in
  L' !! unused_list = Some us ∧ L' !! c_proc_list c = Some ms ∧
  L' !! cont_unused_list = L !! cont_unused_list ∧ L' !! cont_run_list = L !! cont_run_list ∧
  (∀ d, is_cont d → L' !! c_run_list d = L !! c_run_list d) ∧
  (∀ d, is_cont d → d ≠ c → L' !! c_proc_list d = L !! c_proc_list d).
Proof.
  intros Hc L'. destruct (c_list_global c Hc) as (_ & _ & _ & N1 & N2 & N3). destruct global_lists_ne as (G1 & G2 & G3).
  unfold L'. split_and!.
  - by rewrite lookup_insert_ne, lookup_insert_eq.
  - by rewrite lookup_insert_eq.
  - by rewrite !lookup_insert_ne.
  - by rewrite !lookup_insert_ne.
  - intros d Hd. destruct (c_list_global d Hd) as (D1 & _). rewrite !lookup_insert_ne; [done|by intros ?|].
    intros He. symmetry in He. by apply c_lists_ne in He.
  - intros d Hd Hne. destruct (c_list_global d Hd) as (_ & _ & _ & D1 & _). rewrite !lookup_insert_ne; [done|by intros ?|].
    intros He. by apply Hne, c_proc_list_inj.
Qed.

(** A process that is on no run list goes from its container to the unused list. *)
Lemma table_free_proc h h' ps cs L p x x' c us ms ms' :
  table h ps cs L → is_proc p → ps !! p = Some x → p_contp x = c → p_state x ≠ UNUSED → p_state x ≠ RUNNABLE →
  p_state x' = UNUSED →
  L !! unused_list = Some (p_elem <$> us) → L !! c_proc_list c = Some (p_elem_c <$> ms) →
  (∀ q, q ∈ ms' ↔ q ∈ ms ∧ q ≠ p) →
  let L' := <[c_proc_list c := p_elem_c <$> ms']> (<[unused_list := p_elem <$> (us ++ [p])]> L) in
  queues h' L' → off_queues h' L' (p_elem_c p) → (∀ e, e ≠ p_elem p → off_queues h L e → off_queues h' L' e) →
  table h' (<[p := x']> ps) cs L'.
Proof.
  intros T Hp Hx Hc Hu Hr Hu' Hul Hml Hms' L' Hq Hoffp Hoff.
  assert (used cs c) as Hused by (rewrite <- Hc; exact (tb_contp _ _ _ _ T p x Hp Hx Hu)).
  destruct (free_lists L c (p_elem <$> (us ++ [p])) (p_elem_c <$> ms') (proj1 Hused)) as (E1 & E2 & E3 & E4 & E5 & E6).
  split.
  - exact Hq.
  - intros q Hq'. destruct (decide (q = p)) as [->|]; [by rewrite lookup_insert_eq|].
    rewrite lookup_insert_ne by done. exact (tb_proc _ _ _ _ T q Hq').
  - exact (tb_cont _ _ _ _ T).
  - exists (us ++ [p]). split; [exact E1|]. intros q. rewrite (proc_is_insert ps _ p x) by done.
    destruct (tb_unused _ _ _ _ T) as (vs & Hvl & Hvs). assert (vs = us) as -> by (apply p_elems_inj; congruence).
    rewrite elem_of_app, list_elem_of_singleton, Hvs. destruct (decide (q = p)) as [->|]; [|tauto].
    split; [done|]. by right.
  - intros d Hd. unfold L'. rewrite (E5 d (proj1 Hd)). destruct (tb_run _ _ _ _ T d Hd) as (rs & Hrl & Hrs). exists rs. split; [done|].
    intros q. rewrite Hrs. symmetry. eapply proc_is_insert_same; [done|done|]. split; intros [? ?]; congruence.
  - intros d Hd. destruct (tb_members _ _ _ _ T d Hd) as (ns & Hnl & Hns). destruct (decide (d = c)) as [->|Hne].
    + exists ms'. split; [exact E2|]. intros q. rewrite Hms', (proc_is_insert ps _ p x) by done.
      assert (ns = ms) as ->.
      { assert (p_elem_c <$> ns = p_elem_c <$> ms) as He by congruence. apply list_fmap_eq_inj in He; [done|exact p_elem_c_inj]. }
      rewrite Hns. destruct (decide (q = p)) as [->|]; [|tauto]. split; [tauto|]. intros [? _]. congruence.
    + exists ns. unfold L'. rewrite (E6 d (proj1 Hd) Hne). split; [done|]. intros q. rewrite Hns. symmetry.
      eapply proc_is_insert_same; [done|done|]. split; intros [? ?]; congruence.
  - intros q z Hq' Hz Hzu. destruct (decide (q = p)) as [->|].
    + rewrite lookup_insert_eq in Hz. congruence.
    + rewrite lookup_insert_ne in Hz by done. exact (tb_contp _ _ _ _ T q z Hq' Hz Hzu).
  - intros q z Hq' Hz Hzu Hzr. destruct (decide (q = p)) as [->|]; [rewrite lookup_insert_eq in Hz; congruence|].
    rewrite lookup_insert_ne in Hz by done. apply Hoff; [intros He; by apply p_elem_inj in He|].
    exact (tb_elem _ _ _ _ T q z Hq' Hz Hzu Hzr).
  - intros q z Hq' Hz Hzu. destruct (decide (q = p)) as [->|]; [exact Hoffp|].
    rewrite lookup_insert_ne in Hz by done. apply Hoff; [intros He; symmetry in He; by apply p_elem_not_c in He|].
    exact (tb_elem_c _ _ _ _ T q z Hq' Hz Hzu).
  - unfold L'. rewrite E3. exact (tb_cont_unused _ _ _ _ T).
  - unfold L'. rewrite E4. exact (tb_cont_run _ _ _ _ T).
Qed.

Lemma used_insert cs c y' d : is_cont c → c_state y' ≠ USED → used (<[c := y']> cs) d ↔ used cs d ∧ d ≠ c.
Proof.
  intros Hc Hy. unfold used. destruct (decide (d = c)) as [->|Hne].
  - rewrite lookup_insert_eq. split; [intros (_ & z & [= <-] & ?); done|tauto].
  - rewrite lookup_insert_ne by done. tauto.
Qed.

(** The lists when the two lists of containers change. *)
Lemma cont_lists L rs us :
  let L' := <[cont_unused_list := us]> (<[cont_run_list := rs]> L) in
  L' !! cont_unused_list = Some us ∧ L' !! cont_run_list = Some rs ∧ L' !! unused_list = L !! unused_list ∧
  (∀ d, is_cont d → L' !! c_run_list d = L !! c_run_list d ∧ L' !! c_proc_list d = L !! c_proc_list d).
Proof.
  intros L'. destruct global_lists_ne as (G1 & G2 & G3). unfold L'. split_and!.
  - by rewrite lookup_insert_eq.
  - by rewrite lookup_insert_ne, lookup_insert_eq.
  - by rewrite !lookup_insert_ne.
  - intros d Hd. destruct (c_list_global d Hd) as (D1 & D2 & D3 & D4 & D5 & D6). by rewrite !lookup_insert_ne.
Qed.

(** A container without processes goes back to the unused containers. *)
Lemma table_free_cont h h' ps cs L c y' us rs rs' :
  table h ps cs L → used cs c → c_state y' = UNUSED → L !! c_proc_list c = Some [] →
  L !! cont_unused_list = Some (c_elem <$> us) → L !! cont_run_list = Some (c_elem <$> rs) →
  (∀ d, d ∈ rs' ↔ d ∈ rs ∧ d ≠ c) →
  let L' := <[cont_unused_list := c_elem <$> (us ++ [c])]> (<[cont_run_list := c_elem <$> rs']> L) in
  queues h' L' → (∀ e, e ≠ c_elem c → off_queues h L e → off_queues h' L' e) →
  table h' ps (<[c := y']> cs) L'.
Proof.
  intros T Hc Hy Hpl Hul Hrl Hrs' L' Hq Hoff.
  assert (c_state y' ≠ USED) as Hy' by (rewrite Hy; done).
  destruct (cont_lists L (c_elem <$> rs') (c_elem <$> (us ++ [c]))) as (E1 & E2 & E3 & E4).
  assert (∀ d, used (<[c := y']> cs) d ↔ used cs d ∧ d ≠ c) as Hd by (intros; by apply used_insert; [apply Hc|]).
  assert (∀ p, is_proc p → off_queues h L (p_elem p) → off_queues h' L' (p_elem p)) as Hoffp.
  { intros p Hp. apply Hoff. apply (p_elem_not_cont p c Hp (proj1 Hc)). }
  assert (∀ p, is_proc p → off_queues h L (p_elem_c p) → off_queues h' L' (p_elem_c p)) as Hoffc.
  { intros p Hp. apply Hoff. apply (p_elem_not_cont p c Hp (proj1 Hc)). }
  split.
  - exact Hq.
  - exact (tb_proc _ _ _ _ T).
  - intros d Hdc. destruct (decide (d = c)) as [->|].
    + exists y'. rewrite lookup_insert_eq. auto.
    + rewrite lookup_insert_ne by done. exact (tb_cont _ _ _ _ T d Hdc).
  - unfold L'. rewrite E3. exact (tb_unused _ _ _ _ T).
  - intros d [Hdu _]%Hd. unfold L'. rewrite (proj1 (E4 d (proj1 Hdu))). exact (tb_run _ _ _ _ T d Hdu).
  - intros d [Hdu _]%Hd. unfold L'. rewrite (proj2 (E4 d (proj1 Hdu))). exact (tb_members _ _ _ _ T d Hdu).
  - intros p x Hp Hx Hxu. apply Hd. split; [exact (tb_contp _ _ _ _ T p x Hp Hx Hxu)|]. intros He.
    destruct (tb_members _ _ _ _ T c Hc) as (ms & Hml & Hms). rewrite Hpl in Hml. destruct ms; [|done].
    assert (p ∈ ([] : list Z)) as Hin by (apply Hms; split; [done|by exists x]). by apply elem_of_nil in Hin.
  - intros p x Hp Hx Hxu Hxr. apply Hoffp; [done|]. exact (tb_elem _ _ _ _ T p x Hp Hx Hxu Hxr).
  - intros p x Hp Hx Hxu. apply Hoffc; [done|]. exact (tb_elem_c _ _ _ _ T p x Hp Hx Hxu).
  - exists (us ++ [c]). split; [exact E1|]. intros d. rewrite Hd, elem_of_app, list_elem_of_singleton.
    destruct (tb_cont_unused _ _ _ _ T) as (vs & Hvl & Hvs).
    assert (vs = us) as ->.
    { assert (c_elem <$> vs = c_elem <$> us) as He by congruence. apply list_fmap_eq_inj in He; [done|exact c_elem_inj]. }
    rewrite Hvs. destruct (decide (d = c)) as [->|]; [|tauto]. pose proof (proj1 Hc). tauto.
  - exists rs'. split; [exact E2|]. intros d. rewrite Hd, Hrs'.
    destruct (tb_cont_run _ _ _ _ T) as (vs & Hvl & Hvs).
    assert (vs = rs) as ->.
    { assert (c_elem <$> vs = c_elem <$> rs) as He by congruence. apply list_fmap_eq_inj in He; [done|exact c_elem_inj]. }
    by rewrite Hvs.
Qed.
End free.

(** * freeproc *)

(** A process and a container as [freeproc] and [freecont] leave them. *)
Definition freed (x : proc) : proc :=
  Proc UNUSED 0 0 0 0 (p_kstack x) 0 0 0 (p_context x) (p_ofile x) (<[0%nat := 0]> (p_name x)) (p_nsched x) (p_nticks x) 0.
Definition freed_cont (y : cont) : cont := Cont UNUSED 1 (<[0%nat := 0]> (c_name y)) (c_rootpath y) 0 0 0 0 0 0.

Section freeproc.
Context {U : Type} `{AddressSpace U} (E : env (kst U)).
Implicit Types (hs ks : gset Z) (h : heap) (ps : gmap Z proc) (cs : gmap Z cont) (L : gmap Z (list Z)) (s : kst U) (p c l : Z) (x : proc) (y : cont) (qs us ms rs : list Z) (u : U).

(** What [freeproc] asks of the allocator and of the page tables. *)
Definition free_space (x : proc) : M U unit :=
  when (negb (p_trapframe x =? 0)) (as_kfree (p_trapframe x));;;
  when (negb (p_pagetable x =? 0))
    (as_unmap (p_pagetable x) TRAMPOLINE 1 false;;; as_unmap (p_pagetable x) TRAPFRAME 1 false;;;
     as_free (p_pagetable x) (p_sz x)).
Definition freed_tfs (x : proc) (t : gmap Z trapframe) : gmap Z trapframe :=
  if p_trapframe x =? 0 then t else delete (p_trapframe x) t.

Lemma wp_bind_inv {A B} (m : M U A) (f : A → M U B) Q u :
  wp no_sleep (bind m f) Q u → wp no_sleep m (λ a u', wp no_sleep (f a) Q u') u.
Proof. unfold wp, bind. destruct (m u); simpl; tauto. Qed.

Lemma kfree_tf_spec tf (P : unit → U → Prop) Q hs ks h ps cs s :
  wp no_sleep (as_kfree tf) P (kmem_of s) →
  (∀ u, P tt u → Q tt (mk hs ks h ps cs (with_kmem u (with_tfs (delete tf (k_tfs s)) s)))) →
  wp E (kfree_tf tf) Q (mk hs ks h ps cs s).
Proof.
  intros Hm HQ. unfold kfree_tf. apply wp_bind. eapply mk_on_space; [exact Hm|]. intros [] u HP.
  apply (mk_modify_tfs E (delete tf)). rewrite tfs_with_kmem, <- with_kmem_tfs. by apply HQ.
Qed.

Lemma proc_freepagetable_spec pt sz (P : unit → U → Prop) Q hs ks h ps cs s :
  wp no_sleep (as_unmap pt TRAMPOLINE 1 false;;; as_unmap pt TRAPFRAME 1 false;;; as_free pt sz) P (kmem_of s) →
  (∀ u, P tt u → Q tt (mk hs ks h ps cs (with_kmem u s))) →
  wp E (proc_freepagetable pt sz) Q (mk hs ks h ps cs s).
Proof.
  intros Hm%wp_bind_inv HQ. unfold proc_freepagetable.
  apply wp_bind. eapply mk_on_space; [exact Hm|]. cbn beta. intros [] u1 Hm1%wp_bind_inv.
  apply wp_bind. eapply mk_on_space; [exact Hm1|]. cbn beta. intros [] u2 Hm2. rewrite with_kmem_twice.
  eapply mk_on_space; [exact Hm2|]. intros [] u3 HP. rewrite with_kmem_twice. by apply HQ.
Qed.

(** The part of [freeproc] before the lists. *)
Definition reset_proc (x : proc) : proc := set_p_contp (p_contp x) (freed x).

Lemma freecont_spec c y Q hs ks h ps cs s :
  cs !! c = Some y → Q tt (mk hs ks h ps (<[c := freed_cont y]> cs) s) → wp E (freecont c) Q (mk hs ks h ps cs s).
Proof.
  intros Hy HQ. unfold freecont. apply wp_bind. eapply mk_update_cont; [exact Hy|].
  do 7 (apply wp_bind; eapply mk_update_cont; [apply lookup_insert_eq|]; rewrite insert_insert_eq).
  eapply mk_update_cont; [apply lookup_insert_eq|]; rewrite insert_insert_eq. exact HQ.
Qed.

Lemma when_kfree_spec x (P : unit → U → Prop) Q hs ks h ps cs s :
  wp no_sleep (when (negb (p_trapframe x =? 0)) (as_kfree (p_trapframe x))) P (kmem_of s) →
  (∀ u, P tt u → Q tt (mk hs ks h ps cs (with_kmem u (with_tfs (freed_tfs x (k_tfs s)) s)))) →
  wp E (when (negb (p_trapframe x =? 0)) (kfree_tf (p_trapframe x))) Q (mk hs ks h ps cs s).
Proof.
  unfold freed_tfs. destruct (p_trapframe x =? 0); intros Hm HQ.
  - apply wp_ret. specialize (HQ _ Hm). by destruct s as [[[[[]]]]].
  - eapply kfree_tf_spec; [exact Hm|exact HQ].
Qed.

Lemma when_freepagetable_spec (b : bool) pt sz (P : unit → U → Prop) Q hs ks h ps cs s :
  wp no_sleep (when b (as_unmap pt TRAMPOLINE 1 false;;; as_unmap pt TRAPFRAME 1 false;;; as_free pt sz)) P (kmem_of s) →
  (∀ u, P tt u → Q tt (mk hs ks h ps cs (with_kmem u s))) →
  wp E (when b (proc_freepagetable pt sz)) Q (mk hs ks h ps cs s).
Proof.
  destruct b; intros Hm HQ; [by eapply proc_freepagetable_spec|].
  apply wp_ret. specialize (HQ _ Hm). by destruct s as [[[[[]]]]].
Qed.

(** The end of [freeproc]: the container is freed with its last process. *)
Definition free_if_empty c (b : bool) : M (kst U) unit :=
  when b (
    acquire cont_run_lock;;;
    let! _ := on_heap (list_remove (c_elem c)) in
    release cont_run_lock;;;
    freecont c;;;
    acquire cont_unused_lock;;;
    push_back cont_unused_list (c_elem c);;;
    release cont_unused_lock).

Lemma free_if_empty_spec hs ks h ps cs s L c y ms Q :
  table h ps cs L → used cs c → cs !! c = Some y → L !! c_proc_list c = Some (p_elem_c <$> ms) →
  cont_run_lock ∉ hs → cont_unused_lock ∉ hs →
  (∀ h' L', let cs' := if decide (ms = []) then <[c := freed_cont y]> cs else cs in
     table h' ps cs' L' → L' !! unused_list = L !! unused_list → Q tt (mk hs ks h' ps cs' s)) →
  wp E (free_if_empty c (bool_decide (p_elem_c <$> ms = []))) Q (mk hs ks h ps cs s).
Proof.
  intros T Hc Hy Hml Hl1 Hl2 HQ. unfold free_if_empty. destruct ms as [|m ms]; [|by apply (HQ h L T)].
  rewrite bool_decide_true by done. cbn [when].
  destruct (tb_cont_run _ _ _ _ T) as (rs & Hrl & Hrs). destruct (tb_cont_unused _ _ _ _ T) as (us & Hul & _).
  apply Hrs in Hc as Hcr. apply list_elem_of_split in Hcr as (r1 & r2 & ->).
  assert (NoDup (r1 ++ c :: r2)) as Hnd.
  { apply (NoDup_fmap_1 c_elem). exact (queues_NoDup h L _ _ (tb_queues _ _ _ _ T) Hrl). }
  apply wp_bind, mk_acquire; [done|]. pose proof Hrl as Hrl'. rewrite fmap_app in Hrl'.
  apply wp_bind. eapply mk_on_heap; [exact (queue_remove no_sleep h L cont_run_list (fmap (M:=list) c_elem r1) (fmap (M:=list) c_elem r2) (c_elem c) (tb_queues _ _ _ _ T) Hrl')|].
  rewrite <- fmap_app. intros _ h1 (Hq1 & Ho1 & Hk1). apply wp_bind, mk_release; [done|].
  apply wp_bind. eapply freecont_spec; [exact Hy|]. apply wp_bind, mk_acquire; [done|].
  apply wp_bind. eapply mk_on_heap.
  { eapply (queue_push no_sleep _ _ cont_unused_list); [exact Hq1| |exact Ho1].
    rewrite lookup_insert_ne by done. exact Hul. }
  intros [] h2 [Hq2 Hk2]. apply mk_release; [done|].
  replace ((c_elem <$> us) ++ [c_elem c]) with (c_elem <$> (us ++ [c])) in * by by rewrite fmap_app.
  apply (HQ h2 (<[cont_unused_list := c_elem <$> (us ++ [c])]> (<[cont_run_list := c_elem <$> (r1 ++ r2)]> L))).
  - eapply (table_free_cont h h2 ps cs L c (freed_cont y) us (r1 ++ c :: r2)); try done.
    + intros d. by apply elem_of_remove.
    + intros e He Hoff. by apply Hk2, Hk1.
  - by rewrite !lookup_insert_ne.
Qed.


(** The members of a container around one of them. *)
Lemma free_members h ps cs L p x c ms :
  table h ps cs L → is_proc p → ps !! p = Some x → p_state x ≠ UNUSED → p_contp x = c →
  L !! c_proc_list c = Some (p_elem_c <$> ms) →
  ∃ m1 m2, ms = m1 ++ p :: m2 ∧ (∀ q, q ∈ m1 ++ m2 ↔ q ∈ ms ∧ q ≠ p) ∧ (m1 ++ m2 = [] ↔ ms = [p]).
Proof.
  intros T Hp Hx Hu Hc Hml.
  assert (used cs c) as Hused by (rewrite <- Hc; exact (tb_contp _ _ _ _ T p x Hp Hx Hu)).
  destruct (tb_members _ _ _ _ T c Hused) as (ns & Hnl & Hns).
  assert (ns = ms) as ->.
  { assert (p_elem_c <$> ns = p_elem_c <$> ms) as He by congruence. apply list_fmap_eq_inj in He; [done|exact p_elem_c_inj]. }
  assert (p ∈ ms) as Hin by (apply Hns; split; [done|by exists x]).
  assert (NoDup ms) as Hnd.
  { apply (NoDup_fmap_1 p_elem_c). exact (queues_NoDup h L _ _ (tb_queues _ _ _ _ T) Hml). }
  apply list_elem_of_split in Hin as (m1 & m2 & ->). exists m1, m2. split_and!; [done|intros q; by apply elem_of_remove|].
  destruct m1 as [|? m1]; simpl; [split; [by intros ->|by intros [= ->]]|].
  split; [done|]. intros [= _ He]. by destruct m1.
Qed.

Lemma freeproc_spec (P : unit → U → Prop) hs ks h ps cs s L p x c y ms us :
  table h ps cs L → is_proc p → ps !! p = Some x → p_state x ≠ UNUSED → p_state x ≠ RUNNABLE →
  p_contp x = c → cs !! c = Some y → L !! c_proc_list c = Some (p_elem_c <$> ms) → L !! unused_list = Some (p_elem <$> us) →
  unused_lock ∉ hs → clock c ∉ hs → cont_run_lock ∉ hs → cont_unused_lock ∉ hs →
  wp no_sleep (free_space x) P (kmem_of s) →
  wp E (freeproc p)
    (λ _ s', ∃ u h' L', let ps' := <[p := freed x]> ps in
       let cs' := if decide (ms = [p]) then <[c := freed_cont y]> cs else cs in
       P tt u ∧ s' = mk hs (ks ∖ {[p]}) h' ps' cs' (with_kmem u (with_tfs (freed_tfs x (k_tfs s)) s)) ∧
       table h' ps' cs' L' ∧ L' !! unused_list = Some (p_elem <$> (us ++ [p])))
    (mk hs ks h ps cs s).
Proof.
  intros T Hp Hx Hu Hr Hc Hy Hml Hul Hk1 Hk2 Hk3 Hk4 Hfree%wp_bind_inv. unfold freeproc.
  assert (used cs c) as Hused by (rewrite <- Hc; exact (tb_contp _ _ _ _ T p x Hp Hx Hu)).
  apply wp_bind. eapply mk_deref_proc; [exact Hx|].
  apply wp_bind. eapply when_kfree_spec; [exact Hfree|]. cbn beta. intros u1 Hfree1.
  apply wp_bind. eapply mk_update_proc; [exact Hx|].
  apply wp_bind. eapply when_freepagetable_spec; [exact Hfree1|]. cbn beta. intros u2 HP. rewrite with_kmem_twice.
  do 6 (apply wp_bind; eapply mk_update_proc; [apply lookup_insert_eq|]; rewrite insert_insert_eq).
  apply wp_bind, mk_set_killed. cbv iota.
  do 2 (apply wp_bind; eapply mk_update_proc; [apply lookup_insert_eq|]; rewrite insert_insert_eq).
  match goal with |- context [<[p := ?z]> ps] => change z with (reset_proc x) end.
  apply wp_bind, mk_acquire; [exact Hk1|]. apply wp_bind. eapply mk_on_heap.
  { eapply (queue_push no_sleep h L unused_list); [apply T|exact Hul|exact (tb_elem _ _ _ _ T p x Hp Hx Hu Hr)]. }
  intros [] h1 [Hq1 Hoff1]. apply wp_bind, mk_release; [exact Hk1|]. cbv zeta. rewrite Hc.
  replace ((p_elem <$> us) ++ [p_elem p]) with (p_elem <$> (us ++ [p])) in * by by rewrite fmap_app.
  apply wp_bind. eapply mk_deref_cont; [exact Hy|]. apply wp_bind, mk_acquire; [exact Hk2|].
  destruct (free_members h ps cs L p x c ms T Hp Hx Hu Hc Hml) as (m1 & m2 & -> & Hm & Hmp).
  set (L1 := <[unused_list := p_elem <$> (us ++ [p])]> L) in *.
  assert (L1 !! c_proc_list c = Some ((p_elem_c <$> m1) ++ p_elem_c p :: (p_elem_c <$> m2))) as Hml1.
  { unfold L1. rewrite lookup_insert_ne by (intros He; by destruct (c_list_global c (proj1 Hused)) as (_ & _ & _ & ? & _)).
    by rewrite Hml, fmap_app. }
  apply wp_bind. eapply mk_on_heap.
  { exact (queue_remove no_sleep h1 L1 (c_proc_list c) (fmap (M:=list) p_elem_c m1) (fmap (M:=list) p_elem_c m2) (p_elem_c p) Hq1 Hml1). }
  rewrite <- fmap_app. intros _ h2 (Hq2 & Ho2 & Hoff2).
  assert (table h2 (<[p := reset_proc x]> ps) cs (<[c_proc_list c := p_elem_c <$> (m1 ++ m2)]> L1)) as T2.
  { eapply (table_free_proc h h2 ps cs L p x (reset_proc x) c us (m1 ++ p :: m2)); try done.
    intros e He Hoff. by apply Hoff2, Hoff1. }
  apply wp_bind. eapply mk_on_heap.
  { eapply (queue_empty _ _ _ _ _ (λ b h', b = bool_decide (p_elem_c <$> (m1 ++ m2) = []) ∧ h' = h2)); [exact Hq2|apply lookup_insert_eq|done]. }
  intros b h' [-> ->]. apply wp_bind, mk_release; [exact Hk2|].
  apply wp_bind. change (wp E (free_if_empty c (bool_decide (p_elem_c <$> (m1 ++ m2) = [])))
    (λ _ s', wp E (update_proc p (set_p_contp 0)) (λ _ s'', ∃ u h' L', let ps' := <[p := freed x]> ps in
       let cs' := if decide (m1 ++ p :: m2 = [p]) then <[c := freed_cont y]> cs else cs in
       P tt u ∧ s'' = mk hs (ks ∖ {[p]}) h' ps' cs' (with_kmem u (with_tfs (freed_tfs x (k_tfs s)) s)) ∧
       table h' ps' cs' L' ∧ L' !! unused_list = Some (p_elem <$> (us ++ [p]))) s')
    (mk hs (ks ∖ {[p]}) h2 (<[p := reset_proc x]> ps) cs (with_kmem u2 (with_tfs (freed_tfs x (k_tfs s)) s)))).
  eapply free_if_empty_spec; [exact T2|exact Hused|exact Hy|apply lookup_insert_eq|exact Hk3|exact Hk4|].
  intros h3 L3 cs' T3 HL3. eapply mk_update_proc; [apply lookup_insert_eq|]. rewrite insert_insert_eq.
  exists u2, h3, L3. cbv zeta.
  assert (cs' = if decide (m1 ++ p :: m2 = [p]) then <[c := freed_cont y]> cs else cs) as <- by (unfold cs'; repeat case_decide; tauto).
  split_and!; [exact HP|done| |].
  - rewrite <- (insert_insert_eq ps p (freed x) (reset_proc x)).
    eapply (table_fields _ _ _ _ p (reset_proc x)); [exact T3|exact Hp|apply lookup_insert_eq|by intros []|done|done].
  - rewrite HL3. unfold L1. rewrite lookup_insert_ne; [apply lookup_insert_eq|].
    by destruct (c_list_global c (proj1 Hused)) as (_ & _ & _ & ? & _).
Qed.
End freeproc.

(** * allocproc without memory *)

Section oom.
Context {U : Type} `{AddressSpace U} (trampoline : Z).
Implicit Types (hs ks : gset Z) (h : heap) (ps : gmap Z proc) (cs : gmap Z cont) (L : gmap Z (list Z)) (s : kst U) (p c l : Z) (x : proc) (y : cont) (qs us : list Z) (u : U).

Lemma allocpid_spec (E : env (kst U)) c y Q hs ks h ps cs s :
  cs !! c = Some y → clock c ∉ hs →
  Q (c_nextpid y) (mk hs ks h ps (<[c := set_c_nextpid (s32 (c_nextpid y + 1)) y]> cs) s) →
  wp E (allocpid c) Q (mk hs ks h ps cs s).
Proof.
  intros Hy Hk HQ. unfold allocpid. apply wp_bind. eapply mk_deref_cont; [exact Hy|].
  apply wp_bind, mk_acquire; [exact Hk|]. apply wp_bind. eapply mk_deref_cont; [exact Hy|].
  apply wp_bind. eapply mk_update_cont; [exact Hy|]. apply wp_bind, mk_release; [exact Hk|]. by apply wp_ret.
Qed.

(** [freeproc] of a process that was given no container: [p->contp] is null. *)
Lemma freeproc_null_cont hs ks h ps cs s L p x us :
  queues h L → L !! unused_list = Some us → off_queues h L (p_elem p) → unused_lock ∉ hs →
  ps !! p = Some x → p_trapframe x = 0 → p_pagetable x = 0 → cs !! p_contp x = None →
  freeproc p (mk hs ks h ps cs s) = Fault.
Proof.
  intros Hq Hul Hoff Hk Hx Ht Hpt Hc. unfold freeproc.
  eapply (faults_call _ _ (λ a s', a = x ∧ s' = mk hs ks h ps cs s)); [by eapply mk_deref_proc|]. intros a s' [-> ->].
  rewrite Ht, Hpt.
  eapply (faults_call _ _ (λ _ s', s' = mk hs ks h ps cs s)); [by apply wp_ret|]. intros _ s' ->.
  eapply (faults_call _ _ (λ _ s', s' = mk hs ks h (<[p := set_p_trapframe 0 x]> ps) cs s)); [by eapply mk_update_proc|]. intros _ s' ->.
  eapply (faults_call _ _ (λ _ s', s' = mk hs ks h (<[p := set_p_trapframe 0 x]> ps) cs s)); [by apply wp_ret|]. intros _ s' ->.
  do 6 (eapply (faults_call _ _ (λ _ s', ∃ x', s' = mk hs ks h (<[p := x']> ps) cs s));
    [eapply mk_update_proc; [apply lookup_insert_eq|]; rewrite insert_insert_eq; by eexists|]; intros _ s' [? ->]).
  eapply (faults_call _ _ (λ _ s', ∃ ks' x', s' = mk hs ks' h (<[p := x']> ps) cs s)); [apply mk_set_killed; by eexists _, _|].
  intros _ s' (ks' & x7 & ->).
  do 2 (eapply (faults_call _ _ (λ _ s', ∃ x', s' = mk hs ks' h (<[p := x']> ps) cs s));
    [eapply mk_update_proc; [apply lookup_insert_eq|]; rewrite insert_insert_eq; by eexists|]; intros _ s' [? ->]).
  eapply (faults_call _ _ (λ _ s', s' = mk ({[unused_lock]} ∪ hs) ks' h (<[p := _]> ps) cs s)); [by apply mk_acquire|]. intros _ s' ->.
  eapply (faults_call _ _ (λ _ s', ∃ h', s' = mk ({[unused_lock]} ∪ hs) ks' h' (<[p := _]> ps) cs s)).
  { eapply mk_on_heap; [by eapply queue_push|]. intros _ h' _. by exists h'. }
  intros _ s' [h' ->].
  eapply (faults_call _ _ (λ _ s', s' = mk hs ks' h' (<[p := _]> ps) cs s)); [by apply mk_release|]. intros _ s' ->.
  apply faults_bind. unfold deref_cont, get_some. change (k_conts (mk _ _ _ _ cs _)) with cs. by rewrite Hc.
Qed.

Lemma allocproc_oom_spec hs ks h ps cs s L p x c y us :
  table h ps cs L → L !! unused_list = Some (p_elem <$> (p :: us)) → ps !! p = Some x → used cs c → cs !! c = Some y →
  p_pagetable x = 0 → p_contp x = 0 → cs !! 0 = None → unused_lock ∉ hs → clock c ∉ hs → plock p ∉ hs →
  (∃ u, as_kalloc (kmem_of s) = Ok 0 u) →
  allocproc trampoline c (mk hs ks h ps cs s) = Fault.
Proof.
  intros T Hul Hx Hc Hy Hpt Hcp H0 Hk1 Hk2 Hk3 [u Hu]. unfold allocproc.
  destruct (tb_unused _ _ _ _ T) as (us' & Hul' & Hus). assert (us' = p :: us) as -> by (apply p_elems_inj; congruence).
  destruct (proj1 (Hus p)) as (Hp & _); [set_solver|].
  pose proof (plock_ne_clock p c Hp (proj1 Hc)) as Hne.
  eapply (faults_call _ _ (λ _ s', s' = mk ({[unused_lock]} ∪ hs) ks h ps cs s)); [by apply mk_acquire|]. intros _ s' ->.
  eapply (faults_call _ _ (λ e s', e = p_elem p ∧ ∃ h', s' = mk ({[unused_lock]} ∪ hs) ks h' ps cs s ∧
    queues h' (<[unused_list := p_elem <$> us]> L) ∧ off_queues h' (<[unused_list := p_elem <$> us]> L) (p_elem p))).
  { eapply wp_take_first_some; [apply T|exact Hul|]. intros h' Hq Hoff _. split; [done|]. exists h'. done. }
  intros e s' (-> & h' & -> & Hq & Hoff).
  eapply (faults_call _ _ (λ _ s', s' = mk hs ks h' ps cs s)); [by apply mk_release|]. intros _ s' ->.
  rewrite (proj2 (Z.eqb_neq _ _) (p_elem_not_null p Hp)), proc_entry_elem. cbv zeta.
  eapply (faults_call _ _ (λ _ s', s' = mk ({[plock p]} ∪ hs) ks h' ps cs s)); [by apply mk_acquire|]. intros _ s' ->.
  set (cs' := <[c := set_c_nextpid (s32 (c_nextpid y + 1)) y]> cs).
  eapply (faults_call _ _ (λ _ s', s' = mk ({[plock p]} ∪ hs) ks h' ps cs' s)).
  { eapply allocpid_spec; [exact Hy|set_solver|done]. }
  intros pid s' ->.
  eapply (faults_call _ _ (λ _ s', s' = mk ({[plock p]} ∪ hs) ks h' (<[p := set_p_pid pid x]> ps) cs' s)); [by eapply mk_update_proc|]. intros _ s' ->.
  eapply (faults_call _ _ (λ _ s', s' = mk ({[plock p]} ∪ hs) ks h' (<[p := set_p_state USED (set_p_pid pid x)]> ps) cs' s)).
  { eapply mk_update_proc; [apply lookup_insert_eq|]. by rewrite insert_insert_eq. }
  intros _ s' ->.
  eapply (faults_call _ _ (λ tf s', tf = 0 ∧ ∃ s0, s' = mk ({[plock p]} ∪ hs) ks h' (<[p := set_p_state USED (set_p_pid pid x)]> ps) cs' s0)).
  { unfold kalloc_tf. apply wp_bind. eapply (mk_on_space no_sleep as_kalloc (λ a u', a = 0)); [by eapply wp_ok|].
    intros a u' ->. apply wp_bind, wp_ret, wp_ret. by split; [|eexists]. }
  intros tf s' (-> & s0 & ->).
  eapply (faults_call _ _ (λ _ s', s' = mk ({[plock p]} ∪ hs) ks h' (<[p := set_p_trapframe 0 (set_p_state USED (set_p_pid pid x))]> ps) cs' s0)).
  { eapply mk_update_proc; [apply lookup_insert_eq|]. by rewrite insert_insert_eq. }
  intros _ s' ->. apply faults_bind.
  eapply freeproc_null_cont; [exact Hq|apply lookup_insert_eq|exact Hoff| |apply lookup_insert_eq|done|done|].
  - unfold is_proc, NPROC, plock, unused_lock in *. set_solver by lia.
  - change (cs' !! p_contp x = None). unfold cs'. rewrite Hcp, lookup_insert_ne; [done|].
    pose proof (proj1 Hc). unfold is_cont in *. lia.
Qed.
End oom.
