(* ===== verification/ProcDemo.v ===== *)
(** A small process table, on which the theorems of [ProcTheorems] are tried:
    an executable check of the table invariant and one state that passes it. *)

From S2P Require Import Prelude Lists ListChains ListSpecs Queues Riscv Threads Fs File Proc ProcSpecs.
Local Open Scope Z_scope.

(** * Checking a table *)

#[export] Instance list_elem_eq_dec : EqDecision list_elem.
Proof. solve_decision. Defined.
#[export] Instance dseg_dec h p c n : Decision (dseg h p c n).
Proof. revert p. induction c as [|x c IH]; intros p; simpl; [left; exact I|]. apply _. Defined.
#[export] Instance list_repr_dec h l xs : Decision (list_repr h l xs).
Proof. apply _. Defined.

Definition all_cells (L : gmap Z (list Z)) : list Z := map_to_list L ≫= (λ lx, chain (lx.1) (lx.2)).
Definition queues_ok (h : heap) (L : gmap Z (list Z)) : Prop :=
  Forall (λ lx, list_repr h (lx.1) (lx.2)) (map_to_list L) ∧ NoDup (all_cells L).
Definition off_ok (h : heap) (L : gmap Z (list Z)) (e : Z) : Prop := e ≠ NULL ∧ is_Some (h !! e) ∧ e ∉ all_cells L.

(** The list at [l] holds the elements of those of [1 .. n] that [f] accepts. *)
Definition list_ok (L : gmap Z (list Z)) (l : Z) (elem : Z → Z) (n : Z) (f : Z → bool) : Prop :=
  L !! l = Some (elem <$> filter (λ p, f p = true) (seqZ 1 n)).
Definition proc_isb (ps : gmap Z proc) (f : proc → bool) (p : Z) : bool :=
  match ps !! p with Some x => f x | None => false end.
Definition usedb (cs : gmap Z cont) (c : Z) : bool :=
  bool_decide (1 ≤ c ≤ NCONT) && match cs !! c with Some y => bool_decide (c_state y = USED) | None => false end.

Definition proc_ok (h : heap) (cs : gmap Z cont) (L : gmap Z (list Z)) (p : Z) (x : proc) : Prop :=
  (if decide (p_state x = UNUSED) then off_ok h L (p_elem_c p) else usedb cs (p_contp x) = true) ∧
  (if decide (p_state x = UNUSED ∨ p_state x = RUNNABLE) then True else off_ok h L (p_elem p)).
Definition cont_ok (ps : gmap Z proc) (L : gmap Z (list Z)) (c : Z) (y : cont) : Prop :=
  (c_state y = UNUSED ∨ c_state y = USED) ∧
  if decide (c_state y = USED) then
    list_ok L (c_run_list c) p_elem NPROC (proc_isb ps (λ x, bool_decide (p_state x = RUNNABLE ∧ p_contp x = c))) ∧
    list_ok L (c_proc_list c) p_elem_c NPROC (proc_isb ps (λ x, bool_decide (p_state x ≠ UNUSED ∧ p_contp x = c)))
  else True.
(** The checks are over the entries of the arrays; here the lists are in the order
    of the numbers. *)
Record table_ok (h : heap) (ps : gmap Z proc) (cs : gmap Z cont) (L : gmap Z (list Z)) : Prop := {
  ok_queues : queues_ok h L;
  ok_procs : Forall (λ p, is_Some (ps !! p)) (seqZ 1 NPROC);
  ok_conts : Forall (λ c, is_Some (cs !! c)) (seqZ 1 NCONT);
  ok_proc : map_Forall (proc_ok h cs L) ps;
  ok_cont : map_Forall (cont_ok ps L) cs;
  ok_unused : list_ok L unused_list p_elem NPROC (proc_isb ps (λ x, bool_decide (p_state x = UNUSED)));
  ok_cont_unused : list_ok L cont_unused_list c_elem NCONT (λ c, negb (usedb cs c));
  ok_cont_run : list_ok L cont_run_list c_elem NCONT (usedb cs);
}.

Section check.
Implicit Types (h : heap) (ps : gmap Z proc) (cs : gmap Z cont) (L : gmap Z (list Z)).

Lemma all_cells_elem L l xs x : L !! l = Some xs → x ∈ chain l xs → x ∈ all_cells L.
Proof.
  intros Hl Hx. unfold all_cells. apply list_elem_of_bind. exists (l, xs). split; [done|]. by apply elem_of_map_to_list.
Qed.

Lemma queues_ok_sound h L : queues_ok h L → queues h L.
Proof.
  intros [Hr Hnd]. split.
  - intros l xs Hl. rewrite Forall_forall in Hr. apply (Hr (l, xs)). by apply elem_of_map_to_list.
  - intros l l' xs xs' x Hl Hl' Hne Hx Hx'. apply elem_of_map_to_list in Hl, Hl'.
    apply list_elem_of_split in Hl as (m1 & m2 & Hm). unfold all_cells in Hnd. rewrite Hm in Hnd, Hl'.
    rewrite bind_app, bind_cons in Hnd. apply NoDup_app in Hnd as (_ & H1 & Hnd). apply NoDup_app in Hnd as (_ & H2 & _).
    rewrite elem_of_app, elem_of_cons in Hl'. destruct Hl' as [Hin|[[= -> ->]|Hin]]; [|done|].
    + apply (H1 x); [apply list_elem_of_bind; by exists (l', xs')|]. rewrite elem_of_app. by left.
    + apply (H2 x); [done|]. apply list_elem_of_bind. by exists (l', xs').
Qed.

Lemma off_ok_sound h L e : off_ok h L e → off_queues h L e.
Proof. intros (? & ? & Hn). split; [done..|]. intros l xs Hl Hx. by eapply Hn, all_cells_elem. Qed.

Lemma list_ok_sound L l elem n f (P : Z → Prop) :
  list_ok L l elem n f → (∀ p, 1 ≤ p ≤ n ∧ f p = true ↔ P p) → ∃ qs, L !! l = Some (elem <$> qs) ∧ ∀ p, p ∈ qs ↔ P p.
Proof.
  intros Hl HP. eexists. split; [exact Hl|]. intros p. rewrite list_elem_of_filter, elem_of_seqZ, <- HP. split; intros [? ?]; split; (done || lia).
Qed.

Lemma usedb_used cs c : usedb cs c = true ↔ used cs c.
Proof.
  unfold usedb, used, is_cont. rewrite andb_true_iff, bool_decide_eq_true. apply and_iff_compat_l.
  destruct (cs !! c) as [y|]; [rewrite bool_decide_eq_true|]; naive_solver.
Qed.

Lemma proc_isb_spec ps f (P : proc → Prop) p :
  (∀ x, f x = true ↔ P x) → 1 ≤ p ≤ NPROC ∧ proc_isb ps f p = true ↔ proc_is ps P p.
Proof.
  intros Hf. unfold proc_isb, proc_is, is_proc. apply and_iff_compat_l.
  destruct (ps !! p) as [x|]; [rewrite Hf|]; naive_solver.
Qed.

Lemma table_ok_sound h ps cs L : table_ok h ps cs L → table h ps cs L.
Proof.
  intros T. assert (∀ p x, ps !! p = Some x → proc_ok h cs L p x) as Hp by (intros; by apply (ok_proc _ _ _ _ T)).
  assert (∀ c y, cs !! c = Some y → cont_ok ps L c y) as Hc by (intros; by apply (ok_cont _ _ _ _ T)).
  split.
  - apply queues_ok_sound, T.
  - intros p Hr. pose proof (ok_procs _ _ _ _ T) as Hf. rewrite Forall_forall in Hf. apply Hf. rewrite elem_of_seqZ. unfold is_proc in Hr. lia.
  - intros c Hr. pose proof (ok_conts _ _ _ _ T) as Hf. rewrite Forall_forall in Hf.
    destruct (Hf c) as [y Hy]; [rewrite elem_of_seqZ; unfold is_cont in Hr; lia|]. exists y. split; [done|]. by apply (Hc c).
  - apply (list_ok_sound _ _ _ _ _ _ (ok_unused _ _ _ _ T)). intros p. apply proc_isb_spec. intros x. apply bool_decide_eq_true.
  - intros c (_ & y & Hy & Hu). destruct (Hc c y Hy) as [_ Hl]. rewrite decide_True in Hl by done. destruct Hl as [Hl _].
    apply (list_ok_sound _ _ _ _ _ _ Hl). intros p. apply proc_isb_spec. intros x. apply bool_decide_eq_true.
  - intros c (_ & y & Hy & Hu). destruct (Hc c y Hy) as [_ Hl]. rewrite decide_True in Hl by done. destruct Hl as [_ Hl].
    apply (list_ok_sound _ _ _ _ _ _ Hl). intros p. apply proc_isb_spec. intros x. apply bool_decide_eq_true.
  - intros p x _ Hx Hu. destruct (Hp p x Hx) as [Hk _]. rewrite decide_False in Hk by done. by apply usedb_used.
  - intros p x _ Hx Hu Hr. destruct (Hp p x Hx) as [_ Hk]. rewrite decide_False in Hk by tauto. by apply off_ok_sound.
  - intros p x _ Hx Hu. destruct (Hp p x Hx) as [Hk _]. rewrite decide_True in Hk by done. by apply off_ok_sound.
  - apply (list_ok_sound _ _ _ _ _ _ (ok_cont_unused _ _ _ _ T)). intros c. rewrite negb_true_iff, <- not_true_iff_false, usedb_used. done.
  - apply (list_ok_sound _ _ _ _ _ _ (ok_cont_run _ _ _ _ T)). intros c. rewrite usedb_used. unfold used, is_cont. tauto.
Qed.
End check.

#[export] Instance queues_ok_dec h L : Decision (queues_ok h L).
Proof. apply and_dec; apply _. Defined.
#[export] Instance off_ok_dec h L e : Decision (off_ok h L e).
Proof. unfold off_ok. apply _. Defined.
#[export] Instance list_ok_dec L l elem n f : Decision (list_ok L l elem n f).
Proof. unfold list_ok. apply _. Defined.
#[export] Instance proc_ok_dec h cs L p x : Decision (proc_ok h cs L p x).
Proof. unfold proc_ok. apply and_dec; destruct (decide _); apply _. Defined.
#[export] Instance cont_ok_dec ps L c y : Decision (cont_ok ps L c y).
Proof. unfold cont_ok. apply and_dec; [|destruct (decide _)]; apply _. Defined.
#[export] Instance table_ok_dec h ps cs L : Decision (table_ok h ps cs L).
Proof.
  destruct (decide (queues_ok h L ∧ Forall (λ p, is_Some (ps !! p)) (seqZ 1 NPROC) ∧
    Forall (λ c, is_Some (cs !! c)) (seqZ 1 NCONT) ∧ map_Forall (proc_ok h cs L) ps ∧ map_Forall (cont_ok ps L) cs ∧
    list_ok L unused_list p_elem NPROC (proc_isb ps (λ x, bool_decide (p_state x = UNUSED))) ∧
    list_ok L cont_unused_list c_elem NCONT (λ c, negb (usedb cs c)) ∧ list_ok L cont_run_list c_elem NCONT (usedb cs))) as [Hd|Hd];
    [left; destruct Hd as (?&?&?&?&?&?&?&?); by split|right; intros []; by apply Hd].
Defined.

(** * A state

    The root container 1 with process 1 running, 2 asleep on channel 77 and 3
    runnable; container 2 with the zombie 4. *)
Definition demo_proc (p : Z) (t : procstate) (c : Z) : proc :=
  Proc t (if decide (t = SLEEPING) then 77 else 0) 0 (if decide (t = UNUSED) then 0 else p) 0 0 0 0 0 Saved
    (replicate 16 0) (replicate 16 0) 0 0 c.
Definition demo_ps : gmap Z proc :=
  list_to_map ([(1, demo_proc 1 RUNNING 1); (2, demo_proc 2 SLEEPING 1); (3, demo_proc 3 RUNNABLE 1); (4, demo_proc 4 ZOMBIE 2)] ++
    ((λ p, (p, demo_proc p UNUSED 0)) <$> seqZ 5 60)).
Definition demo_cont (t : procstate) : cont := Cont t 5 (replicate 16 0) (replicate 128 0) 0 0 0 0 0 0.
Definition demo_cs : gmap Z cont :=
  list_to_map [(1, demo_cont USED); (2, demo_cont USED); (3, demo_cont UNUSED); (4, demo_cont UNUSED)].
Definition demo_L : gmap Z (list Z) :=
  list_to_map [(unused_list, p_elem <$> seqZ 5 60); (c_run_list 1, [p_elem 3]); (c_run_list 2, []);
    (c_proc_list 1, p_elem_c <$> [1; 2; 3]); (c_proc_list 2, [p_elem_c 4]);
    (cont_unused_list, c_elem <$> [3; 4]); (cont_run_list, c_elem <$> [1; 2])].
(** The memory: every element, and the links of the lists. *)
Fixpoint link (h : heap) (p : Z) (c : list Z) : heap :=
  match c with [] => h | x :: c => <[x := Elem p (hd_or 0 c)]> (link h x c) end.
Definition demo_heap : heap :=
  foldr (λ lx h, link h 0 (chain (lx.1) (lx.2)))
    (list_to_map ((λ p, (p_elem p, Elem 0 0)) <$> seqZ 1 64) ∪ list_to_map ((λ p, (p_elem_c p, Elem 0 0)) <$> seqZ 1 64))
    (map_to_list demo_L).

Lemma demo_table : table demo_heap demo_ps demo_cs demo_L.
Proof. apply table_ok_sound. by_compute. Qed.
