(* ===== verification/ProcTheorems.v ===== *)
(** Properties of the process table, the scheduler and the containers
    (kernel/proc.c). *)

From S2P Require Import Prelude Lists ListChains ListSpecs Queues Mem Riscv Threads Kalloc Uart Console Bio Log Fs File Proc Sched ProcSpecs SchedSpecs ProcAlloc ProcDemo.
Local Open Scope Z_scope.

Section theorems.
Context {U : Type} `{AddressSpace U}.
Implicit Types (hs ks : gset Z) (h : heap) (ps : gmap Z proc) (cs : gmap Z cont) (L : gmap Z (list Z)) (s : kst U) (p c : Z) (x : proc) (y : cont) (qs us ms : list Z).

(** C5: the scheduler is fair to the processes of the container it serves: if
    [qs] is its run list, in that order, then after [length qs] turns each of
    them, computing until the timer makes it yield, has run once, in the order
    of the list, and the list is as it was; no turn trips the ASSERT on the state
    of the process, the "sched" panics or a null list element, and the table
    stays consistent. *)
Theorem round_robin ks h ps cs s L qs :
  table h ps cs L → used cs (k_cont_root s) → idle s → L !! c_run_list (k_cont_root s) = Some (p_elem <$> qs) →
  returns (turns (length qs))
    (λ os s', os = Some <$> qs ∧ ∃ h' ps' L',
       s' = mk ∅ ks h' ps' cs s ∧ table h' ps' cs L' ∧ L' !! c_run_list (k_cont_root s) = Some (p_elem <$> qs) ∧
       ∀ p, ps' !! p = if decide (p ∈ qs) then (λ x, yielded (scheduled x)) <$> ps !! p else ps !! p)
    (mk ∅ ks h ps cs s).
Proof.
  intros T Hr Hi Hl. eapply wp_mono; [eapply (turns_spec no_sleep qs ks h ps cs s L []); [exact T|exact Hr|exact Hi|]|].
  - by rewrite app_nil_r.
  - done.
Qed.

(** C34: [wakeup(chan)] makes exactly the other processes that sleep on [chan]
    runnable, whatever container they are in, and appends each to the run list
    of its container in the order of the process numbers; nothing else of the
    table, of the lists or of the locks held changes, and the table stays
    consistent. *)
Theorem wakeup_wakes hs ks h ps cs s L chan :
  let me := th_proc (the_thread s) in
  table h ps cs L → wake_locks me hs →
  returns (wakeup chan)
    (λ _ s', ∃ h' ps' L', s' = mk hs ks h' ps' cs s ∧ table h' ps' cs L' ∧
       wakes me chan (seqZ 1 NPROC) cs ps L ps' L')
    (mk hs ks h ps cs s).
Proof. intros me T Hk. by apply (wakeup_loop_spec no_sleep 64 hs ks h ps cs s L chan 1). Qed.

(** [kill(pid)] marks the first process with that pid as killed and, if it was
    asleep, makes it runnable at the end of its container's run list; it returns
    -1 and changes nothing if there is none. *)
Theorem kill_first hs ks h ps cs s L pid :
  table h ps cs L → (∀ me, wake_locks me hs) →
  returns (kill pid) (kill_post pid (seqZ 1 NPROC) hs ks ps cs s L) (mk hs ks h ps cs s).
Proof. intros T Hk. by apply (kill_loop_spec no_sleep 64 hs ks h ps cs s L pid 1). Qed.

(** C24: [freeproc] gives back the trap frame and the address space, resets the
    process, moves it to the end of the unused list and takes it out of its
    container; the container is freed, and moved to the unused containers, exactly
    when that was its last process. The table stays consistent. *)
Theorem freeproc_frees (P : unit → U → Prop) hs ks h ps cs s L p x c y ms us :
  table h ps cs L → is_proc p → ps !! p = Some x → p_state x ≠ UNUSED → p_state x ≠ RUNNABLE →
  p_contp x = c → cs !! c = Some y → L !! c_proc_list c = Some (p_elem_c <$> ms) → L !! unused_list = Some (p_elem <$> us) →
  unused_lock ∉ hs → clock c ∉ hs → cont_run_lock ∉ hs → cont_unused_lock ∉ hs →
  returns (free_space x) P (kmem_of s) →
  returns (freeproc p)
    (λ _ s', ∃ u h' L', let ps' := <[p := freed x]> ps in
       let cs' := if decide (ms = [p]) then <[c := freed_cont y]> cs else cs in
       P tt u ∧ s' = mk hs (ks ∖ {[p]}) h' ps' cs' (with_kmem u (with_tfs (freed_tfs x (k_tfs s)) s)) ∧
       table h' ps' cs' L' ∧ L' !! unused_list = Some (p_elem <$> (us ++ [p])))
    (mk hs ks h ps cs s).
Proof. apply freeproc_spec. Qed.

(** C35: when [kalloc] has no page for the trap frame, [allocproc] does not return
    0: its call of [freeproc] follows the null [p->contp] of the process it has
    just taken off the unused list. *)
Theorem allocproc_no_memory trampoline hs ks h ps cs s L p x c y us :
  table h ps cs L → L !! unused_list = Some (p_elem <$> (p :: us)) → ps !! p = Some x → used cs c → cs !! c = Some y →
  p_pagetable x = 0 → p_contp x = 0 → cs !! 0 = None → unused_lock ∉ hs → clock c ∉ hs → plock p ∉ hs →
  (∃ u, as_kalloc (kmem_of s) = Ok 0 u) →
  allocproc trampoline c (mk hs ks h ps cs s) = Fault.
Proof. apply allocproc_oom_spec. Qed.
End theorems.

(** * The theorems on the state of [ProcDemo] *)

#[local] Instance demo_space : AddressSpace kmem := vm_space 0x80000000.
(** The kernel without a free page; the container 1 is the root. *)
Definition demo_files : filest kmem :=
  Filest (Fsst (Logst (Biost (Thread 0 0 0 ∅ ∅ ∅) ∅ ∅ []) 0 0 0 false 0 0 []) (Superblock 0 0 0 0 0 0 0 0) ∅ ∅ (Kmem ∅ 0 ∅))
    ∅ (Uartst (Thread 0 0 0 ∅ ∅ ∅) (Device [] [] [] []) false [] 0 0) [] 0 true ∅ ∅.
Definition demo_kst : kst kmem := Kst demo_files ∅ ∅ ∅ ∅ 1 1 true false 0.

Lemma used_demo c : c = 1 ∨ c = 2 → used demo_cs c.
Proof. intros [->| ->]; (split; [done|]); eexists; (split; [vm_compute; reflexivity|done]). Qed.

Lemma no_wake_locks me : wake_locks me ∅.
Proof. split; intros; apply not_elem_of_empty. Qed.

Lemma round_robin_witness :
  returns (turns 1) (λ os _, os = [Some 3]) (mk ∅ ∅ demo_heap demo_ps demo_cs demo_kst).
Proof.
  eapply wp_mono.
  - exact (round_robin ∅ demo_heap demo_ps demo_cs demo_kst demo_L [3] demo_table (used_demo 1 (or_introl eq_refl)) eq_refl eq_refl).
  - intros os s' [Hos _]. exact Hos.
Defined.

Lemma wakeup_wakes_witness :
  returns (Sched.wakeup 77) (λ _ s', p_state <$> k_procs s' !! 2 = Some RUNNABLE) (mk ∅ ∅ demo_heap demo_ps demo_cs demo_kst).
Proof.
  eapply wp_mono.
  - exact (wakeup_wakes ∅ ∅ demo_heap demo_ps demo_cs demo_kst demo_L 77 demo_table (no_wake_locks 0)).
  - cbn beta. intros _ s' (h' & ps' & L' & -> & _ & W). change (k_procs _) with ps'.
    rewrite (wk_procs _ _ _ _ _ _ _ _ W 2). reflexivity.
Defined.

Lemma kill_first_witness :
  returns (kill 2) (λ r s', r = 0 ∧ th_killed (the_thread s') = {[2]}) (mk ∅ ∅ demo_heap demo_ps demo_cs demo_kst).
Proof.
  eapply wp_mono.
  - exact (kill_first ∅ ∅ demo_heap demo_ps demo_cs demo_kst demo_L 2 demo_table no_wake_locks).
  - unfold kill_post. change (first_pid 2 demo_ps (seqZ 1 NPROC)) with (Some 2).
    intros r s' [Hr (x & h' & L' & _ & -> & _)]. split; [exact Hr|]. rewrite mk_killed. apply right_id_L. apply _.
Defined.

Lemma freeproc_frees_witness :
  returns (freeproc 4) (λ _ s', c_state <$> k_conts s' !! 2 = Some UNUSED) (mk ∅ ∅ demo_heap demo_ps demo_cs demo_kst).
Proof.
  eapply wp_mono.
  - refine (freeproc_frees (λ _ _, True) ∅ ∅ demo_heap demo_ps demo_cs demo_kst demo_L 4 (demo_proc 4 ZOMBIE 2) 2 (demo_cont USED)
      [4] (seqZ 5 60) demo_table _ _ _ _ _ _ _ _ _ _ _ _ _); try (vm_compute; reflexivity).
    all: try apply not_elem_of_empty. all: done.
  - cbn beta. intros _ s' (u & h' & L' & _ & -> & _). reflexivity.
Defined.

Lemma allocproc_no_memory_witness : allocproc 0 1 (mk ∅ ∅ demo_heap demo_ps demo_cs demo_kst) = Fault.
Proof.
  refine (allocproc_no_memory 0 ∅ ∅ demo_heap demo_ps demo_cs demo_kst demo_L 5 (demo_proc 5 UNUSED 0) 1 (demo_cont USED)
    (seqZ 6 59) demo_table _ _ (used_demo 1 (or_introl eq_refl)) _ _ _ _ _ _ _ _); try (vm_compute; reflexivity).
  all: try apply not_elem_of_empty. eexists. vm_compute. reflexivity.
Defined.
