(* ===== verification/ProcWait.v ===== *)
(** Waiting for a child (kernel/proc.c, [wait]). *)

From S2P Require Import Prelude Lists ListChains ListSpecs Queues Mem Riscv Threads Kalloc Uart Console Bio Log Fs File Proc Sched ProcSpecs SchedSpecs ProcAlloc ProcDemo.
Local Open Scope Z_scope.

(** The first child of [me] that has exited. *)
Definition dead_child (me : Z) (ps : gmap Z proc) (q : Z) : bool :=
  match ps !! q with Some x => (p_parent x =? me) && bool_decide (p_state x = ZOMBIE) | None => false end.
Definition first_dead (me : Z) (ps : gmap Z proc) (ids : list Z) : option Z := find (dead_child me ps) ids.

Section wait.
Context {U : Type} `{UserMem U, AddressSpace U}.
Implicit Types (hs ks : gset Z) (h : heap) (ps : gmap Z proc) (cs : gmap Z cont) (L : gmap Z (list Z)) (s : kst U) (p q c z me : Z) (x m : proc) (y : cont) (us ms : list Z).

(** The exit status goes to the address the parent gave, if it gave one. *)
Definition status_out m x (addr : Z) : M U bool :=
  if addr =? 0 then ret true else copyout_val (p_pagetable m) addr (le_encode 4 (u32 (p_xstate x))).

Definition reaped ks ps cs s L z x c y ms us (P : unit → U → Prop) (s' : kst U) : Prop :=
  ∃ u h' L', let ps' := <[z := freed x]> ps in
    let cs' := if decide (ms = [z]) then <[c := freed_cont y]> cs else cs in
    P tt u ∧ s' = mk ∅ (ks ∖ {[z]}) h' ps' cs' (with_kmem u (with_tfs (freed_tfs x (k_tfs s)) s)) ∧
    table h' ps' cs' L' ∧ L' !! unused_list = Some (p_elem <$> (us ++ [z])).

(** The child is freed in the state the copy of the status left. *)
Lemma reap_tail ks h ps cs s s1 L z x y ms us (P : unit → U → Prop) :
  table h ps cs L → is_proc z → ps !! z = Some x → p_state x = ZOMBIE →
  cs !! p_contp x = Some y → L !! c_proc_list (p_contp x) = Some (p_elem_c <$> ms) →
  L !! unused_list = Some (p_elem <$> us) → returns (free_space x) P (kmem_of s1) → k_tfs s1 = k_tfs s →
  (∀ u t, with_kmem u (with_tfs t s1) = with_kmem u (with_tfs t s)) →
  wp no_sleep (freeproc z;;; release (plock z);;; release wait_lock;;; ret (inl (p_pid x) : Z + bool))
    (λ r s', r = inl (p_pid x) ∧ reaped ks ps cs s L z x (p_contp x) y ms us P s')
    (mk ({[plock z]} ∪ {[wait_lock]}) ks h ps cs s1).
Proof.
  intros T Hz Hx Hst Hy Hml Hul Hfree Htf Hsame.
  assert (used cs (p_contp x)) as [Hc _] by (apply (tb_contp _ _ _ _ T z x Hz Hx); by rewrite Hst).
  pose proof (plock_ne_clock z _ Hz Hc) as Hne. unfold is_proc, is_cont, NPROC, NCONT in Hz, Hc.
  assert (plock z ≠ wait_lock) as Hw by (unfold plock, wait_lock; lia).
  eapply wp_call.
  - apply (freeproc_spec no_sleep P ({[plock z]} ∪ {[wait_lock]}) ks h ps cs s1 L z x (p_contp x) y ms us);
      try done; try (by rewrite Hst); rewrite elem_of_union, !elem_of_singleton;
      unfold plock, wait_lock, clock, unused_lock, cont_run_lock, cont_unused_lock in *; lia.
  - cbn beta. intros _ s' (u & h' & L' & HP & -> & T' & Hul'). rewrite Htf, Hsame.
    apply wp_bind, mk_release; [by rewrite elem_of_singleton|].
    replace ({[wait_lock]} : gset Z) with ({[wait_lock]} ∪ ∅ : gset Z) by by rewrite union_empty_r_L.
    apply wp_bind, mk_release; [apply not_elem_of_empty|]. apply wp_ret. split; [done|].
    by exists u, h', L'.
Qed.

Lemma scan_reaps n addr ks h ps cs s L me m z x y ms us (P : unit → U → Prop) : ∀ q havekids,
  table h ps cs L → ps !! me = Some m → 1 ≤ q → q + Z.of_nat n ≤ NPROC + 1 →
  first_dead me ps (seqZ q (Z.of_nat n)) = Some z → ps !! z = Some x →
  cs !! p_contp x = Some y → L !! c_proc_list (p_contp x) = Some (p_elem_c <$> ms) →
  L !! unused_list = Some (p_elem <$> us) →
  returns (status_out m x addr) (λ ok u, ok = true ∧ returns (free_space x) P u) (kmem_of s) →
  wp no_sleep (wait_scan n me addr q havekids)
    (λ r s', r = inl (p_pid x) ∧ reaped ks ps cs s L z x (p_contp x) y ms us P s')
    (mk {[wait_lock]} ks h ps cs s).
Proof.
  induction n as [|n IH]; intros q havekids T Hme Hq Hn Hz Hx Hy Hml Hul Hout; [done|]. cbn [wait_scan].
  assert (is_proc q) as Hqp by (split; lia). destruct (tb_proc _ _ _ _ T q Hqp) as [xq Hxq].
  rewrite seqZ_cons in Hz by lia. replace (Z.succ q) with (q + 1) in Hz by lia.
  replace (Z.pred _) with (Z.of_nat n) in Hz by lia. unfold first_dead in Hz. cbn [find] in Hz.
  unfold dead_child at 1 in Hz. rewrite Hxq in Hz.
  apply wp_bind. eapply mk_deref_proc; [exact Hxq|].
  destruct (p_parent xq =? me); cbn [andb negb] in *; [|by apply IH; [..|lia|lia| | | | | |]].
  assert (plock q ∉ ({[wait_lock]} : gset Z)) as Hl1.
  { rewrite elem_of_singleton. unfold plock, wait_lock. unfold is_proc in Hqp. lia. }
  apply wp_bind, mk_acquire; [exact Hl1|]. apply wp_bind. eapply mk_deref_proc; [exact Hxq|].
  destruct (bool_decide (p_state xq = ZOMBIE)) eqn:Hst.
  - injection Hz as ->. rewrite Hx in Hxq. injection Hxq as <-. apply bool_decide_eq_true in Hst.
    apply wp_bind. eapply mk_deref_proc; [exact Hme|].
    unfold status_out in Hout. apply wp_bind. destruct (addr =? 0).
    + destruct Hout as [_ Hfree]. apply wp_ret. cbn [negb].
      by apply (reap_tail ks h ps cs s s L z x y ms us P).
    + eapply mk_on_space; [exact Hout|]. cbn beta. intros ok u [-> Hfree]. cbn [negb].
      apply (reap_tail ks h ps cs s (with_kmem u s) L z x y ms us P); try done.
  - apply wp_bind, mk_release; [exact Hl1|]. by apply IH; [..|lia|lia| | | | | |].
Qed.

(** Without children there is nothing to wait for. *)
Lemma scan_no_child n me addr ks h ps cs s L : ∀ q,
  table h ps cs L → 1 ≤ q → q + Z.of_nat n ≤ NPROC + 1 →
  (∀ p x, is_proc p → ps !! p = Some x → p_parent x ≠ me) →
  wp no_sleep (wait_scan n me addr q false) (λ r s', r = inr false ∧ s' = mk {[wait_lock]} ks h ps cs s)
    (mk {[wait_lock]} ks h ps cs s).
Proof.
  induction n as [|n IH]; intros q T Hq Hn Hno; cbn [wait_scan]; [by apply wp_ret|].
  assert (is_proc q) as Hqp by (split; lia). destruct (tb_proc _ _ _ _ T q Hqp) as [xq Hxq].
  apply wp_bind. eapply mk_deref_proc; [exact Hxq|].
  rewrite (proj2 (Z.eqb_neq _ _) (Hno q xq Hqp Hxq)). cbn [negb]. apply IH; [done|lia|lia|done].
Qed.

(** C40: [wait] collects the first child of the process that has exited: its pid is the
    result, its status is copied out, and it is freed with its memory, its place in
    its container, and the container with its last process; without children
    [wait] returns -1 at once and changes nothing. *)
Theorem wait_reaps wakeups addr ks h ps cs s L m :
  table h ps cs L → ps !! th_proc (the_thread s) = Some m →
  match first_dead (th_proc (the_thread s)) ps (seqZ 1 NPROC) with
  | Some z => ∀ x y ms us (P : unit → U → Prop),
      ps !! z = Some x → cs !! p_contp x = Some y →
      L !! c_proc_list (p_contp x) = Some (p_elem_c <$> ms) → L !! unused_list = Some (p_elem <$> us) →
      returns (status_out m x addr) (λ ok u, ok = true ∧ returns (free_space x) P u) (kmem_of s) →
      returns (wait wakeups addr)
        (λ r s', r = p_pid x ∧ reaped ks ps cs s L z x (p_contp x) y ms us P s') (mk ∅ ks h ps cs s)
  | None => (∀ p x, is_proc p → ps !! p = Some x → p_parent x ≠ th_proc (the_thread s)) →
      returns (wait wakeups addr) (λ r s', r = -1 ∧ s' = mk ∅ ks h ps cs s) (mk ∅ ks h ps cs s)
  end.
Proof.
  intros T Hm. set (me := th_proc (the_thread s)) in *. destruct (first_dead me ps (seqZ 1 NPROC)) as [z|] eqn:Hz.
  - intros x y ms us P Hx Hy Hml Hul Hout. unfold wait.
    apply wp_bind, mk_myproc. apply wp_bind, mk_acquire; [apply not_elem_of_empty|]. rewrite union_empty_r_L. fold me.
    destruct wakeups; cbn [wait_loop].
    all: eapply wp_call; [by eapply (scan_reaps (Z.to_nat NPROC) addr ks h ps cs s L me m z x y ms us P 1 false)|].
    all: cbn beta; intros r s' [-> Hr]; by apply wp_ret.
  - intros Hno. unfold wait.
    apply wp_bind, mk_myproc. apply wp_bind, mk_acquire; [apply not_elem_of_empty|]. rewrite union_empty_r_L. fold me.
    destruct wakeups; cbn [wait_loop].
    all: eapply wp_call; [by apply (scan_no_child (Z.to_nat NPROC) me addr ks h ps cs s L 1)|].
    all: cbn beta; intros r s' [-> ->]; cbn [negb]; apply wp_bind, wp_ret.
    all: replace ({[wait_lock]} : gset Z) with ({[wait_lock]} ∪ ∅ : gset Z) by by rewrite union_empty_r_L.
    all: apply wp_bind, mk_release; [apply not_elem_of_empty|]; by apply wp_ret.
Qed.
End wait.

(** ** The zombie of [ProcDemo] as a child of process 1 *)

Definition wait_ps : gmap Z proc := <[4 := set_p_parent 1 (demo_proc 4 ZOMBIE 2)]> demo_ps.
Lemma wait_table : table demo_heap wait_ps demo_cs demo_L.
Proof. apply table_ok_sound. by_compute. Qed.
(** Memory that is never short, and is not tracked. *)
#[local] Instance wait_space : AddressSpace flat_user := {|
  as_kalloc := ret 4096; as_kfree := λ _, ret tt; as_create := ret 4096; as_map := λ _ _ _ _ _, ret 0;
  as_unmap := λ _ _ _ _, ret tt; as_free := λ _ _, ret tt; as_first := λ _ _ _, ret tt;
  as_alloc := λ _ _ n _, ret n; as_dealloc := λ _ _ n, ret n; as_copy := λ _ _ _, ret 0;
  as_clear := λ _ _, ret tt; as_walkaddr := λ _ _, ret 0;
|}.
Definition wait_kst : kst flat_user := Kst idle_files ∅ ∅ ∅ ∅ 1 1 true false 0.
Lemma wait_reaps_witness :
  th_proc (the_thread wait_kst) = 1 ∧
  returns (wait 0 0) (λ r s', r = 4 ∧ p_state <$> k_procs s' !! 4 = Some UNUSED) (mk ∅ ∅ demo_heap wait_ps demo_cs wait_kst).
Proof.
  split; [reflexivity|].
  pose proof (wait_reaps 0 0 ∅ demo_heap wait_ps demo_cs wait_kst demo_L _ wait_table eq_refl) as Hw.
  change (first_dead (th_proc (the_thread wait_kst)) wait_ps (seqZ 1 NPROC)) with (Some 4) in Hw. cbn iota in Hw.
  eapply wp_mono.
  - apply (Hw (set_p_parent 1 (demo_proc 4 ZOMBIE 2)) (demo_cont USED) [4] (seqZ 5 60) (λ _ _, True)); try (vm_compute; reflexivity).
    split; [reflexivity|]. done.
  - cbn beta. intros r s' [-> (u & h' & L' & _ & -> & _)]. split; reflexivity.
Defined.
