(* ===== verification/Syscall.v ===== *)
(** System calls: fetching arguments (kernel/syscall.c) and the calls about
    processes, time and containers (kernel/sysproc.c).

    A call returns the C value; [syscall] of Trap.v stores it in the trap frame
    as 64 bits. *)

From S2P Require Import Prelude Lists Riscv Mem CString Threads Pipe Bio Log Fs Printf Console File Proc Sched.
Local Open Scope Z_scope.

(** [copyinstr] into a kernel buffer of [max] bytes: the string up to its NUL,
    [None] for -1. *)
Class UserStr (U : Type) := copyinstr_val : Z → Z → nat → M U (option (list Z)).

(** The string at [va] of a flat user memory, if it ends within [max] bytes. *)
Fixpoint flat_str (u : flat_user) (va : Z) (max : nat) : option (list Z) :=
  match max with
  | O => None
  | S max =>
      match (u : gmap Z Z) !! va with
      | Some b => if b =? 0 then Some [] else (λ s, b :: s) <$> flat_str u (va + 1) max
      | None => None
      end
  end.
#[export] Instance flat_user_str : UserStr flat_user := λ _ va max u, Ok (flat_str u va max) u.

Definition tickslock : Z := 109.
(** [&ticks] as a channel. *)
Definition ticks_chan : Z := 5000.

Section syscall.
Context {U : Type} `{UserMem U, PageAlloc U, AddressSpace U, UserStr U} (wakeups : nat) (de trampoline : Z).
Local Abbreviation St := (kst U).

(** * syscall.c *)

Definition fetchaddr (addr : Z) : M St (option Z) :=
  let! p := myproc in
  let! x := deref_proc p in
  if (p_sz x <=? addr) || (p_sz x <? u64 (addr + 8)) then ret None else
  let! r := on_space (copyin_val (p_pagetable x) addr 8) in
  match r with
  | Some bs => ret (Some (le_decode bs))
  | None => ret None
  end.

(** The buffer has [max] bytes; the length the code returns is that of the
    string. *)
Definition fetchstr (addr max : Z) : M St (option (list Z)) :=
  let! p := myproc in
  let! x := deref_proc p in
  on_space (copyinstr_val (p_pagetable x) addr (Z.to_nat max)).

Definition argraw (n : Z) : M St Z :=
  let! p := myproc in
  let! x := deref_proc p in
  if (0 <=? n) && (n <=? 5) then
    let! t := deref_tf (p_trapframe x) in
    get_some (λ _, t !! (tf_a0 + 8 * n))
  else panic "argraw".
Definition argint (n : Z) : M St Z := let! v := argraw n in ret (s32 v).
Definition argaddr (n : Z) : M St Z := argraw n.
Definition argstr (n max : Z) : M St (option (list Z)) := let! addr := argaddr n in fetchstr addr max.

(** * sysproc.c *)

Definition sys_exit : M St Z :=
  let! n := argint 0 in
  exit wakeups n;;;
  ret 0.

Definition sys_getpid : M St Z :=
  let! p := myproc in
  let! x := deref_proc p in
  ret (p_pid x).

Definition sys_fork : M St Z := let! c := mycont in fork trampoline c.

Definition sys_wait : M St Z := let! p := argaddr 0 in wait wakeups p.

Definition sys_sbrk : M St Z :=
  let! n := argint 0 in
  let! p := myproc in
  let! x := deref_proc p in
  let! r := growproc n in
  ret (if r <? 0 then -1 else p_sz x).

(** [ticks - ticks0 < n] compares unsigned numbers. *)
Fixpoint sys_sleep_loop (wakeups : nat) (ticks0 n : Z) : M St Z :=
  let! now := gets k_ticks in
  if negb (u32 (now - ticks0) <? u32 n) then release tickslock;;; ret 0 else
  let! p := myproc in
  let! k := killed p in
  if k then release tickslock;;; ret (-1) else
  match wakeups with
  | O => asleep ticks_chan tickslock
  | S wakeups => sleep ticks_chan tickslock;;; sys_sleep_loop wakeups ticks0 n
  end.
Definition sys_sleep : M St Z :=
  let! n := argint 0 in
  acquire tickslock;;;
  let! ticks0 := gets k_ticks in
  sys_sleep_loop wakeups ticks0 n.

Definition sys_kill : M St Z := let! pid := argint 0 in kill pid.

Definition sys_uptime : M St Z :=
  acquire tickslock;;;
  let! xticks := gets k_ticks in
  release tickslock;;;
  ret xticks.

Definition sys_sbrksz : M St Z :=
  let! p := myproc in
  let! x := deref_proc p in
  ret (p_sz x).

(** What was copied before a fault stays in the name. *)
Definition sys_sname : M St Z :=
  let! p := myproc in
  let! name_p := argaddr 0 in
  let! x := deref_proc p in
  let! bs := on_space (copyin_part (p_pagetable x) name_p 16) in
  update_proc p (λ x, set_p_name (bs ++ drop (length bs) (p_name x)) x);;;
  ret (if Z.of_nat (length bs) <? 16 then -1 else 0).

Definition sys_sproc (pad : list Z) : M St Z :=
  let! slot := argint 0 in
  let! up_p := argaddr 1 in
  sproc pad slot up_p.

Definition sys_consw : M St Z :=
  let! consnum := argint 0 in
  on_files (on_cons (consw consnum));;;
  ret 0.

Definition sys_cfork : M St Z :=
  let! cname := argstr 0 16 in
  match cname with
  | None => ret (-1)
  | Some cname =>
      let! max_mem_bytes := argint 1 in
      let! crootdir := argstr 2 MAXPATH in
      match crootdir with
      | None => ret (-1)
      | Some crootdir =>
          let! max_disk_bytes := argint 3 in
          cfork wakeups de trampoline cname max_mem_bytes crootdir max_disk_bytes
      end
  end.

Definition sys_cinfo : M St Z := let! up_p := argaddr 0 in cinfo up_p.
End syscall.
