(* ===== verification/Sysfile.v ===== *)
(** The file-system calls (kernel/sysfile.c).

    [name0] is what the uninitialised name buffers hold. *)

From S2P Require Import Prelude Lists Riscv Mem CString Threads Pipe Bio Log Fs File Proc Sched Syscall.
Local Open Scope Z_scope.

Definition O_RDONLY : Z := 0x000.
Definition O_WRONLY : Z := 0x001.
Definition O_RDWR : Z := 0x002.
Definition O_CREATE : Z := 0x200.
Definition O_TRUNC : Z := 0x400.

Definition with_dev (major minor nlink : Z) (x : dinode) : dinode :=
  Dinode (di_type x) major minor nlink (di_size x) (di_addrs x).
(** The fields [sys_open] fills in. *)
Definition set_device (major minor : Z) (f : file) : file :=
  File FD_DEVICE (f_ref f) (f_readable f) (f_writable f) (f_pipe f) (f_ip f) (f_off f) major minor.
Definition set_inode (f : file) : file :=
  File FD_INODE (f_ref f) (f_readable f) (f_writable f) (f_pipe f) (f_ip f) 0 (f_major f) (f_minor f).
Definition set_access (ip : Z) (r w : bool) (f : file) : file :=
  File (f_type f) (f_ref f) r w (f_pipe f) ip (f_off f) (f_major f) (f_minor f).

Section sysfile.
Context {U : Type} `{UserMem U, PageAlloc U, AddressSpace U, UserStr U} (wakeups : nat) (de : Z) (name0 : list Z).
Local Abbreviation St := (kst U).

Definition on_fsst {A} (m : M (fsst U) A) : M St A := on_files (on_fs m).
Definition k_begin_op : M St unit := on_fsst (on_log (begin_op wakeups)).
Definition k_end_op : M St unit := on_fsst (on_log (end_op wakeups)).
(** The type and the other fields of an inode this process has locked. *)
Definition inode_of (ip : Z) : M St inode := on_fsst (deref_inode ip).
Definition put_nlink (ip : Z) (f : Z → Z) : M St unit :=
  on_fsst (update_inode ip (with_dinode (λ x, with_nlink (s16 (f (di_nlink x))) x));;; iupdate wakeups ip).

(** * Descriptors *)

(** The descriptor and the file. *)
Definition argfd (n : Z) : M St (option (Z * Z)) :=
  let! fd := argint n in
  if (fd <? 0) || (NOFILE <=? fd) then ret None else
  let! p := myproc in
  let! x := deref_proc p in
  let! f := get_some (λ _, p_ofile x !! Z.to_nat fd) in
  ret (if f =? 0 then None else Some (fd, f)).

Definition set_ofile (p fd f : Z) : M St unit :=
  update_proc p (λ x, set_p_ofile (<[Z.to_nat fd := f]> (p_ofile x)) x).
Fixpoint fdalloc_loop (n : nat) (p f fd : Z) : M St Z :=
  match n with
  | O => ret (-1)
  | S n =>
      let! x := deref_proc p in
      let! g := get_some (λ _, p_ofile x !! Z.to_nat fd) in
      if g =? 0 then set_ofile p fd f;;; ret fd else fdalloc_loop n p f (fd + 1)
  end.
Definition fdalloc (f : Z) : M St Z := let! p := myproc in fdalloc_loop (Z.to_nat NOFILE) p f 0.

Definition sys_dup : M St Z :=
  let! r := argfd 0 in
  match r with
  | None => ret (-1)
  | Some (_, f) =>
      let! fd := fdalloc f in
      if fd <? 0 then ret (-1) else
      let! _ := on_files (filedup f) in
      ret fd
  end.

Definition sys_read : M St Z :=
  let! p := argaddr 1 in
  let! n := argint 2 in
  let! r := argfd 0 in
  match r with None => ret (-1) | Some (_, f) => on_files (fileread wakeups f p n) end.

Definition sys_write : M St Z :=
  let! p := argaddr 1 in
  let! n := argint 2 in
  let! r := argfd 0 in
  match r with None => ret (-1) | Some (_, f) => on_files (filewrite wakeups f p n) end.

Definition sys_close : M St Z :=
  let! r := argfd 0 in
  match r with
  | None => ret (-1)
  | Some (fd, f) =>
      let! p := myproc in
      set_ofile p fd 0;;;
      on_files (fileclose wakeups f);;;
      ret 0
  end.

Definition sys_fstat (pad : list Z) : M St Z :=
  let! st := argaddr 1 in
  let! r := argfd 0 in
  match r with None => ret (-1) | Some (_, f) => on_files (filestat wakeups pad f st) end.

Definition sys_pipec : M St Z :=
  let! r := argfd 0 in
  match r with
  | None => ret (-1)
  | Some (_, f) =>
      let! x := on_files (deref_file f) in
      match f_type x with
      | FD_PIPE => on_files (on_pipe (pipecount (f_pipe x)))
      | _ => ret (-1)
      end
  end.

(** * Links *)

Definition link_bad (ip : Z) : M St Z :=
  on_fsst (ilock wakeups ip);;;
  put_nlink ip (λ n, n - 1);;;
  on_fsst (iunlockput wakeups ip);;;
  k_end_op;;;
  ret (-1).
Definition sys_link : M St Z :=
  let! old := argstr 0 MAXPATH in
  match old with
  | None => ret (-1)
  | Some old =>
  let! new := argstr 1 MAXPATH in
  match new with
  | None => ret (-1)
  | Some new =>
  k_begin_op;;;
  let! ip := on_fsst (namei wakeups de old) in
  if ip =? 0 then k_end_op;;; ret (-1) else
  on_fsst (ilock wakeups ip);;;
  let! x := inode_of ip in
  if di_type (i_d x) =? T_DIR then on_fsst (iunlockput wakeups ip);;; k_end_op;;; ret (-1) else
  put_nlink ip (λ n, n + 1);;;
  on_fsst (iunlock ip);;;
  let! r := on_fsst (nameiparent wakeups de new name0) in
  let '(dp, name) := r in
  if dp =? 0 then link_bad ip else
  on_fsst (ilock wakeups dp);;;
  let! d := inode_of dp in
  let! x := inode_of ip in
  let! ok := (if negb (i_dev d =? i_dev x) then ret false else
              let! r := on_fsst (dirlink wakeups de dp name (i_inum x)) in ret (negb (r <? 0))) in
  on_fsst (iunlockput wakeups dp);;;
  if negb ok then link_bad ip else
  on_fsst (iput wakeups ip);;;
  k_end_op;;;
  ret 0
  end end.

Fixpoint isdirempty_loop (fuel : nat) (dp off : Z) : M (fsst U) bool :=
  let! x := deref_inode dp in
  if negb (off <? di_size (i_d x)) then ret true else
  match fuel with
  | O => out_of_fuel
  | S fuel =>
      let! e := read_dirent wakeups de dp off "isdirempty: readi" in
      if negb (de_inum e =? 0) then ret false else isdirempty_loop fuel dp (off + sizeof_dirent)
  end.
Definition isdirempty (dp : Z) : M (fsst U) bool :=
  let! x := deref_inode dp in
  isdirempty_loop (S (Z.to_nat (di_size (i_d x) / sizeof_dirent))) dp (2 * sizeof_dirent).

Definition unlink_bad (dp : Z) : M St Z := on_fsst (iunlockput wakeups dp);;; k_end_op;;; ret (-1).
Definition dot : list Z := [46].
Definition dotdot : list Z := [46; 46].
Definition sys_unlink : M St Z :=
  let! path := argstr 0 MAXPATH in
  match path with
  | None => ret (-1)
  | Some path =>
  k_begin_op;;;
  let! r := on_fsst (nameiparent wakeups de path name0) in
  let '(dp, name) := r in
  if dp =? 0 then k_end_op;;; ret (-1) else
  on_fsst (ilock wakeups dp);;;
  if (namecmp name dot =? 0) || (namecmp name dotdot =? 0) then unlink_bad dp else
  let! r := on_fsst (dirlookup wakeups de dp name) in
  let '(ip, off) := r in
  if ip =? 0 then unlink_bad dp else
  on_fsst (ilock wakeups ip);;;
  let! x := inode_of ip in
  if di_nlink (i_d x) <? 1 then panic "unlink: nlink < 1" else
  let isdir := di_type (i_d x) =? T_DIR in
  let! full := (if isdir then let! e := on_fsst (isdirempty ip) in ret (negb e) else ret false) in
  if full then on_fsst (iunlockput wakeups ip);;; unlink_bad dp else
  on_fsst (on_umem (kernel_write de (replicate (Z.to_nat sizeof_dirent) 0)));;;
  let! n := on_fsst (writei wakeups dp false de off sizeof_dirent) in
  if negb (n =? sizeof_dirent) then panic "unlink: writei" else
  when isdir (put_nlink dp (λ n, n - 1));;;
  on_fsst (iunlockput wakeups dp);;;
  put_nlink ip (λ n, n - 1);;;
  on_fsst (iunlockput wakeups ip);;;
  k_end_op;;;
  ret 0
  end.

(** * Creating and opening *)

Definition create_fail (ip dp : Z) : M St Z :=
  put_nlink ip (λ _, 0);;;
  on_fsst (iunlockput wakeups ip);;;
  on_fsst (iunlockput wakeups dp);;;
  ret 0.
(** [type], [major] and [minor] are shorts. *)
Definition create (path : list Z) (type major minor : Z) : M St Z :=
  let! r := on_fsst (nameiparent wakeups de path name0) in
  let '(dp, name) := r in
  if dp =? 0 then ret 0 else
  on_fsst (ilock wakeups dp);;;
  let! r := on_fsst (dirlookup wakeups de dp name) in
  let '(ip, _) := r in
  if negb (ip =? 0) then
    on_fsst (iunlockput wakeups dp);;;
    on_fsst (ilock wakeups ip);;;
    let! x := inode_of ip in
    if (type =? T_FILE) && ((di_type (i_d x) =? T_FILE) || (di_type (i_d x) =? T_DEVICE)) then ret ip else
    on_fsst (iunlockput wakeups ip);;; ret 0
  else
  let! d := inode_of dp in
  let! ip := on_fsst (ialloc wakeups (i_dev d) type) in
  if ip =? 0 then on_fsst (iunlockput wakeups dp);;; ret 0 else
  on_fsst (ilock wakeups ip);;;
  on_fsst (update_inode ip (with_dinode (with_dev (s16 major) (s16 minor) 1)));;;
  on_fsst (iupdate wakeups ip);;;
  let! x := inode_of ip in
  let! ok := (if negb (type =? T_DIR) then ret true else
              let! r := on_fsst (dirlink wakeups de ip dot (i_inum x)) in
              if r <? 0 then ret false else
              let! d := inode_of dp in
              let! r := on_fsst (dirlink wakeups de ip dotdot (i_inum d)) in
              ret (negb (r <? 0))) in
  if negb ok then create_fail ip dp else
  let! r := on_fsst (dirlink wakeups de dp name (i_inum x)) in
  if r <? 0 then create_fail ip dp else
  when (type =? T_DIR) (put_nlink dp (λ n, n + 1));;;
  on_fsst (iunlockput wakeups dp);;;
  ret ip.

(** The inode [sys_open] opens, locked; 0 where it fails. *)
Definition open_inode (path : list Z) (omode : Z) : M St Z :=
  if negb (Z.land omode O_CREATE =? 0) then create path T_FILE 0 0 else
  let! ip := on_fsst (namei wakeups de path) in
  if ip =? 0 then ret 0 else
  on_fsst (ilock wakeups ip);;;
  let! x := inode_of ip in
  if (di_type (i_d x) =? T_DIR) && negb (omode =? O_RDONLY) then on_fsst (iunlockput wakeups ip);;; ret 0
  else ret ip.
Definition open_bad (ip : Z) : M St Z := on_fsst (iunlockput wakeups ip);;; k_end_op;;; ret (-1).
Definition sys_open : M St Z :=
  let! omode := argint 1 in
  let! path := argstr 0 MAXPATH in
  match path with
  | None => ret (-1)
  | Some path =>
  k_begin_op;;;
  let! ip := open_inode path omode in
  if ip =? 0 then k_end_op;;; ret (-1) else
  let! x := inode_of ip in
  let type := di_type (i_d x) in
  if (type =? T_DEVICE) && ((di_major (i_d x) <? 0) || (NDEV <=? di_major (i_d x))) then open_bad ip else
  let! f := on_files filealloc in
  if f =? 0 then open_bad ip else
  let! fd := fdalloc f in
  if fd <? 0 then on_files (fileclose wakeups f);;; open_bad ip else
  (if type =? T_DEVICE
   then on_files (update_file f (set_device (di_major (i_d x)) (di_minor (i_d x))))
   else on_files (update_file f set_inode));;;
  on_files (update_file f (set_access ip (Z.land omode O_WRONLY =? 0)
    (negb (Z.land omode O_WRONLY =? 0) || negb (Z.land omode O_RDWR =? 0))));;;
  when (negb (Z.land omode O_TRUNC =? 0) && (type =? T_FILE)) (on_fsst (itrunc wakeups ip));;;
  on_fsst (iunlock ip);;;
  k_end_op;;;
  ret fd
  end.

(** [argstr], then [create] of what it fetched; 0 where either fails. *)
Definition create_arg (type major minor : Z) : M St Z :=
  let! path := argstr 0 MAXPATH in
  match path with None => ret 0 | Some path => create path type major minor end.
Definition sys_mkdir : M St Z :=
  k_begin_op;;;
  let! ip := create_arg T_DIR 0 0 in
  if ip =? 0 then k_end_op;;; ret (-1) else
  on_fsst (iunlockput wakeups ip);;;
  k_end_op;;;
  ret 0.

Definition sys_mknod : M St Z :=
  k_begin_op;;;
  let! major := argint 1 in
  let! minor := argint 2 in
  let! ip := create_arg T_DEVICE major minor in
  if ip =? 0 then k_end_op;;; ret (-1) else
  on_fsst (iunlockput wakeups ip);;;
  k_end_op;;;
  ret 0.

Definition sys_chdir : M St Z :=
  let! p := myproc in
  k_begin_op;;;
  let! path := argstr 0 MAXPATH in
  let! ip := (match path with None => ret 0 | Some path => on_fsst (namei wakeups de path) end) in
  if ip =? 0 then k_end_op;;; ret (-1) else
  on_fsst (ilock wakeups ip);;;
  let! x := inode_of ip in
  if negb (di_type (i_d x) =? T_DIR) then on_fsst (iunlockput wakeups ip);;; k_end_op;;; ret (-1) else
  on_fsst (iunlock ip);;;
  let! cwd := get_cwd p in
  on_fsst (iput wakeups cwd);;;
  k_end_op;;;
  set_cwd p ip;;;
  ret 0.

(** * Pipes *)

Definition pipe_close2 (rf wf : Z) : M St Z :=
  on_files (fileclose wakeups rf);;; on_files (fileclose wakeups wf);;; ret (-1).
Definition sys_pipe : M St Z :=
  let! p := myproc in
  let! fdarray := argaddr 0 in
  let! r := on_files (pipealloc wakeups) in
  match r with
  | None => ret (-1)
  | Some (rf, wf) =>
      let! fd0 := fdalloc rf in
      if fd0 <? 0 then pipe_close2 rf wf else
      let! fd1 := fdalloc wf in
      if fd1 <? 0 then set_ofile p fd0 0;;; pipe_close2 rf wf else
      let! x := deref_proc p in
      let! ok := on_space (copyout_val (p_pagetable x) fdarray (le_encode 4 fd0)) in
      let! ok := (if ok then on_space (copyout_val (p_pagetable x) (u64 (fdarray + 4)) (le_encode 4 fd1)) else ret false) in
      if ok then ret 0 else
      set_ofile p fd0 0;;;
      set_ofile p fd1 0;;;
      pipe_close2 rf wf
  end.
End sysfile.
