(* ===== verification/SysfileTheorems.v ===== *)
(** What the descriptor calls of kernel/sysfile.c promise. *)

From S2P Require Import Prelude Lists Riscv Mem CString Threads Pipe Bio Log Fs File Proc Sched Syscall Sysfile.
Local Open Scope Z_scope.

(** The file of a descriptor, and the lowest free descriptor. *)
Definition open_file (ofile : list Z) (fd : Z) : option Z :=
  if (fd <? 0) || (NOFILE <=? fd) then None else
  match ofile !! Z.to_nat fd with Some f => if f =? 0 then None else Some f | None => None end.
Definition free_slot (ofile : list Z) : option nat := fst <$> list_find (λ g, g = 0) ofile.

Section descriptors.
Context {U : Type} `{UserMem U, PageAlloc U, AddressSpace U, UserStr U}.
Local Abbreviation St := (kst U).
Implicit Types (s : St) (p f fd : Z) (x : proc).

(** The running process and its first argument. *)
Definition running s p x (arg0 : Z) : Prop :=
  th_proc (the_thread s) = p ∧ k_procs s !! p = Some x ∧
  ∃ t, k_tfs s !! p_trapframe x = Some t ∧ t !! tf_a0 = Some arg0.

Lemma myproc_ok s p x v : running s p x v → myproc s = Ok p s.
Proof. intros (<- & _). done. Qed.
Lemma deref_proc_ok s p x : k_procs s !! p = Some x → deref_proc p s = Ok x s.
Proof. intros Hx. unfold deref_proc, get_some. by rewrite Hx. Qed.
Lemma argint_ok s p x v : running s p x v → argint 0 s = Ok (s32 v) s.
Proof.
  intros Hr. pose proof Hr as (Hp & Hx & t & Ht & Hv). unfold argint. erewrite bind_Ok; [reflexivity|].
  unfold argraw. rewrite (bind_Ok _ _ _ _ _ (myproc_ok s p x v Hr)), (bind_Ok _ _ _ _ _ (deref_proc_ok s p x Hx)).
  change ((0 <=? 0) && (0 <=? 5)) with true. cbn iota. erewrite bind_Ok; [|unfold deref_tf, get_some; by rewrite Ht].
  unfold get_some. change (tf_a0 + 8 * 0) with tf_a0. by rewrite Hv.
Qed.

Lemma argfd_ok s p x v : running s p x v → length (p_ofile x) = Z.to_nat NOFILE →
  argfd 0 s = Ok ((λ f, (s32 v, f)) <$> open_file (p_ofile x) (s32 v)) s.
Proof.
  intros Hr Hl. unfold argfd, open_file. rewrite (bind_Ok _ _ _ _ _ (argint_ok s p x v Hr)).
  destruct ((s32 v <? 0) || (NOFILE <=? s32 v)) eqn:He; [done|]. apply orb_false_iff in He as [Hlo Hhi].
  apply Z.ltb_ge in Hlo. apply Z.leb_gt in Hhi.
  rewrite (bind_Ok _ _ _ _ _ (myproc_ok s p x v Hr)), (bind_Ok _ _ _ _ _ (deref_proc_ok s p x (proj1 (proj2 Hr)))).
  destruct (lookup_lt_is_Some_2 (p_ofile x) (Z.to_nat (s32 v))) as [f Hf]; [lia|].
  unfold bind, get_some. rewrite Hf. simpl. by destruct (f =? 0).
Qed.

Definition with_ofile p x (n : nat) f s : St :=
  set_k_procs (<[p := set_p_ofile (<[n := f]> (p_ofile x)) x]> (k_procs s)) s.
Lemma fdalloc_loop_ok s p x f : k_procs s !! p = Some x → ∀ n k, (k + n)%nat = length (p_ofile x) →
  fdalloc_loop n p f (Z.of_nat k) s =
    match free_slot (drop k (p_ofile x)) with
    | Some j => Ok (Z.of_nat (k + j)) (with_ofile p x (k + j) f s)
    | None => Ok (-1) s
    end.
Proof.
  intros Hx. induction n as [|n IH]; intros k Hk; cbn [fdalloc_loop].
  - by rewrite drop_ge by lia.
  - rewrite (bind_Ok _ _ _ _ _ (deref_proc_ok s p x Hx)).
    destruct (lookup_lt_is_Some_2 (p_ofile x) k) as [g Hg]; [lia|]. rewrite Nat2Z.id.
    unfold bind at 1, get_some. rewrite Hg. cbn [bind_res]. rewrite (drop_S _ g k Hg). unfold free_slot. cbn [list_find].
    destruct (Z.eqb_spec g 0) as [->|Hne].
    + rewrite decide_True by done. simpl. rewrite Nat.add_0_r. unfold set_ofile, update_proc, bind.
      rewrite (deref_proc_ok s p x Hx). cbn [bind_res modify ret]. unfold with_ofile. rewrite Nat2Z.id. do 3 f_equal.
      apply map_eq. intros q. destruct (decide (q = p)) as [->|]; [by rewrite lookup_alter_eq, Hx, lookup_insert_eq|].
      by rewrite lookup_alter_ne, lookup_insert_ne.
    + rewrite decide_False by done. replace (Z.of_nat k + 1) with (Z.of_nat (S k)) by lia. rewrite IH by lia.
      unfold free_slot. destruct (list_find _ (drop (S k) _)) as [[j g']|]; simpl; [|done]. by rewrite Nat.add_succ_r.
Qed.
Lemma fdalloc_ok s p x v f : running s p x v → length (p_ofile x) = Z.to_nat NOFILE →
  fdalloc f s = match free_slot (p_ofile x) with
                | Some j => Ok (Z.of_nat j) (with_ofile p x j f s)
                | None => Ok (-1) s
                end.
Proof.
  intros Hr Hl. unfold fdalloc. rewrite (bind_Ok _ _ _ _ _ (myproc_ok s p x v Hr)).
  exact (fdalloc_loop_ok s p x f (proj1 (proj2 Hr)) (Z.to_nat NOFILE) 0 (eq_sym Hl)).
Qed.

Definition count_ref (f : file) : file := set_fref (f_ref f + 1) f.
Lemma filedup_ok f y (fs : filest U) : ftable_lock ∉ held fs → ftable fs !! f = Some y → 0 < f_ref y →
  filedup f fs = Ok f (set_ftable (alter count_ref f (ftable fs)) fs).
Proof.
  intros Hl Hy Hr.
  assert (returns (filedup f) (λ r (z : filest U), ∃ t, z = set_ftable t fs ∧ r = f ∧ t = alter count_ref f (ftable fs)) fs) as Hw.
  { apply wp_ftable_critical; [done|]. eapply wp_deref_file; [exact Hy|]. destruct (Z.ltb_spec (f_ref y) 1); [lia|].
    apply wp_bind. eapply wp_update_file; [exact Hy|]. apply wp_bind, wp_ftable_release; [done|]. apply wp_ret.
    eexists. split; [reflexivity|]. split; [done|]. apply map_eq. intros k.
    destruct (decide (k = f)) as [->|]; [by rewrite lookup_insert_eq, lookup_alter_eq, Hy|].
    by rewrite lookup_insert_ne, lookup_alter_ne. }
  apply wp_no_sleep in Hw as (r & s' & He & t & -> & -> & ->). exact He.
Qed.

(** C39: [dup] gives the lowest free descriptor to the file of its argument and counts
    one more reference to the file; it fails, and changes nothing, exactly when the
    argument is not an open descriptor or no descriptor is free. *)
Theorem sys_dup_shares s p x v :
  running s p x v → length (p_ofile x) = Z.to_nat NOFILE → ftable_lock ∉ held s →
  (∀ f, open_file (p_ofile x) (s32 v) = Some f → ∃ y, ftable (k_files s) !! f = Some y ∧ 0 < f_ref y) →
  sys_dup s =
    match open_file (p_ofile x) (s32 v), free_slot (p_ofile x) with
    | Some f, Some n =>
        Ok (Z.of_nat n)
          (set_k_files (set_ftable (alter count_ref f (ftable (k_files s))) (k_files s)) (with_ofile p x n f s))
    | _, _ => Ok (-1) s
    end.
Proof.
  intros Hr Hlen Hl Hf. unfold sys_dup. rewrite (bind_Ok _ _ _ _ _ (argfd_ok s p x v Hr Hlen)).
  destruct (open_file (p_ofile x) (s32 v)) as [f|]; [|done]. destruct (Hf f eq_refl) as (y & Hy & Hyr).
  cbn [fmap option_fmap option_map]. unfold bind at 1. rewrite (fdalloc_ok s p x v f Hr Hlen).
  destruct (free_slot (p_ofile x)) as [n|]; [|done]. cbn [bind_res].
  destruct (Z.ltb_spec (Z.of_nat n) 0); [lia|].
  unfold bind, on_files, zoom. change (k_files (with_ofile p x n f s)) with (k_files s).
  by rewrite (filedup_ok f y (k_files s) Hl Hy Hyr).
Qed.
End descriptors.

(** ** A process with files 1 and 2 open as descriptors 0 and 2 *)

Definition dup_proc : proc :=
  Proc RUNNING 0 0 1 0 0 0 0 1 Saved [1; 0; 2; 0; 0; 0; 0; 0; 0; 0; 0; 0; 0; 0; 0; 0] [] 0 0 1.
Definition dup_files : filest flat_user :=
  set_ftable {[1 := set_fref 1 unused_file; 2 := set_fref 3 unused_file]} idle_files.
Definition dup_state (fd : Z) : kst flat_user :=
  Kst dup_files ∅ {[1 := dup_proc]} ∅ {[1 := {[tf_a0 := fd]}]} 1 1 true false 0.
Lemma sys_dup_shares_witness :
  (∃ s', sys_dup (dup_state 2) = Ok 1 s' ∧ (p_ofile <$> k_procs s' !! 1) = Some ([1; 2; 2] ++ replicate 13 0) ∧
     (f_ref <$> ftable (k_files s') !! 2) = Some 4) ∧
  sys_dup (dup_state 1) = Ok (-1) (dup_state 1).
Proof.
  split.
  - eexists. split.
    + rewrite (sys_dup_shares (dup_state 2) 1 dup_proc 2).
      * reflexivity.
      * split; [reflexivity|]. split; [reflexivity|]. eexists. split; reflexivity.
      * reflexivity.
      * by compute.
      * intros f [= <-]. eexists. split; reflexivity.
    + split; reflexivity.
  - rewrite (sys_dup_shares (dup_state 1) 1 dup_proc 1).
    + reflexivity.
    + split; [reflexivity|]. split; [reflexivity|]. eexists. split; reflexivity.
    + reflexivity.
    + by compute.
    + intros f [=].
Defined.
