(* ===== verification/Exec.v ===== *)
(** Loading programs (kernel/exec.c, the headers of kernel/elf.h, and the [exec]
    call of kernel/sysfile.c).

    [elf_at] and [ph_at] are the addresses of the local variables [readi] fills.
    The argument strings are lists of bytes; the pages they are kept in are
    allocated and freed as the code does. *)

From S2P Require Import Prelude Lists Riscv Mem CString Threads Pipe Bio Log Fs File Proc Sched Syscall Sysfile.
Local Open Scope Z_scope.

Definition ELF_MAGIC : Z := 0x464C457F.
Definition ELF_PROG_LOAD : Z := 1.
Definition sizeof_elfhdr : Z := 64.
Definition sizeof_proghdr : Z := 56.

(** The fields [exec] uses. *)
Record elfhdr := Elfhdr { e_magic : Z; e_entry : Z; e_phoff : Z; e_phnum : Z }.
Definition field (n : nat) (off : Z) (bs : list Z) : Z := le_decode (take n (drop (Z.to_nat off) bs)).
Definition get_elfhdr (bs : list Z) : elfhdr := Elfhdr (field 4 0 bs) (field 8 24 bs) (field 8 32 bs) (field 2 56 bs).
Record proghdr := Proghdr { ph_type : Z; ph_flags : Z; ph_off : Z; ph_vaddr : Z; ph_filesz : Z; ph_memsz : Z }.
Definition get_proghdr (bs : list Z) : proghdr :=
  Proghdr (field 4 0 bs) (field 4 4 bs) (field 8 8 bs) (field 8 16 bs) (field 8 32 bs) (field 8 40 bs).

Definition flags2perm (flags : Z) : Z :=
  let perm := if negb (Z.land flags 0x1 =? 0) then PTE_X else 0 in
  if negb (Z.land flags 0x2 =? 0) then Z.lor perm PTE_W else perm.

(** The last element of a path: [last] of the loop over it. *)
Fixpoint last_elem (s last : list Z) : list Z :=
  match s with
  | [] => last
  | c :: s => last_elem s (if c =? slash then s else last)
  end.

(** One argument on the stack: the new stack pointer. *)
Definition push_sp (sp n : Z) : Z := let sp := u64 (sp - n) in u64 (sp - sp `mod` 16).

Section exec.
Context {U : Type} `{UserMem U, PageAlloc U, AddressSpace U, UserStr U} (wakeups : nat) (de trampoline elf_at ph_at : Z).
Local Abbreviation St := (kst U).

(** [i += PGSIZE] wraps at 32 bits. *)
Fixpoint loadseg_loop (fuel : nat) (pagetable va ip offset sz i : Z) : M St Z :=
  if negb (i <? sz) then ret 0 else
  match fuel with
  | O => out_of_fuel
  | S fuel =>
      let! pa := on_space (as_walkaddr pagetable (u64 (va + i))) in
      if pa =? 0 then panic "loadseg: address should exist" else
      let n := if sz - i <? PGSIZE then sz - i else PGSIZE in
      let! r := on_fsst (readi wakeups ip false pa (u32 (offset + i)) n) in
      if negb (u32 r =? n) then ret (-1) else
      loadseg_loop fuel pagetable va ip offset sz (u32 (i + PGSIZE))
  end.
Definition loadseg (pagetable va ip offset sz : Z) : M St Z :=
  loadseg_loop (S (Z.to_nat (sz / PGSIZE))) pagetable va ip offset sz 0.

(** [bad:]; [ip] is 0 when the inode is released already. *)
Definition exec_bad (pagetable sz ip : Z) : M St Z :=
  when (negb (pagetable =? 0)) (proc_freepagetable pagetable sz);;;
  when (negb (ip =? 0)) (on_fsst (iunlockput wakeups ip);;; k_end_op wakeups);;;
  ret (-1).

(** Loads the segments from header [i] on: the new size, or the size when
    something failed. *)
Fixpoint exec_segments (n : nat) (pagetable ip off sz : Z) : M St (Z + Z) :=
  match n with
  | O => ret (inr sz)
  | S n =>
      let! r := on_fsst (readi wakeups ip false ph_at (u32 off) sizeof_proghdr) in
      if negb (r =? sizeof_proghdr) then ret (inl sz) else
      let! bs := on_fsst (on_umem (kernel_read ph_at (Z.to_nat sizeof_proghdr))) in
      let ph := get_proghdr bs in
      let off := s32 (off + sizeof_proghdr) in
      if negb (ph_type ph =? ELF_PROG_LOAD) then exec_segments n pagetable ip off sz else
      if ph_memsz ph <? ph_filesz ph then ret (inl sz) else
      if u64 (ph_vaddr ph + ph_memsz ph) <? ph_vaddr ph then ret (inl sz) else
      if negb (ph_vaddr ph `mod` PGSIZE =? 0) then ret (inl sz) else
      let! sz1 := on_space (as_alloc pagetable sz (u64 (ph_vaddr ph + ph_memsz ph)) (flags2perm (ph_flags ph))) in
      if sz1 =? 0 then ret (inl sz) else
      let! r := loadseg pagetable (ph_vaddr ph) ip (u32 (ph_off ph)) (u32 (ph_filesz ph)) in
      if r <? 0 then ret (inl sz1) else
      exec_segments n pagetable ip off sz1
  end.

(** Copies the argument strings: the stack pointer and their addresses. *)
Fixpoint exec_args (argv : list (list Z)) (pagetable argc sp stackbase : Z) : M St (option (Z * list Z)) :=
  match argv with
  | [] => ret (Some (sp, []))
  | a :: argv =>
      if MAXARG <=? argc then ret None else
      let sp := push_sp sp (Z.of_nat (length a) + 1) in
      if sp <? stackbase then ret None else
      let! ok := on_space (copyout_val pagetable sp (a ++ [0])) in
      if negb ok then ret None else
      let! r := exec_args argv pagetable (argc + 1) sp stackbase in
      ret (prod_map id (cons sp) <$> r)
  end.

(** The program is loaded: build the stack and commit to the new image. *)
Definition exec_stack (path : list Z) (argv : list (list Z)) (entry pagetable sz : Z) : M St Z :=
  let! p := myproc in
  let! x := deref_proc p in
  let oldsz := p_sz x in
  let sz := PGROUNDUP sz in
  let! sz1 := on_space (as_alloc pagetable sz (u64 (sz + 2 * PGSIZE)) PTE_W) in
  if sz1 =? 0 then exec_bad pagetable sz 0 else
  let sz := sz1 in
  on_space (as_clear pagetable (u64 (sz - 2 * PGSIZE)));;;
  let stackbase := u64 (sz - PGSIZE) in
  let! r := exec_args argv pagetable 0 sz stackbase in
  match r with
  | None => exec_bad pagetable sz 0
  | Some (sp, ustack) =>
      let argc := Z.of_nat (length ustack) in
      let sp := push_sp sp ((argc + 1) * 8) in
      if sp <? stackbase then exec_bad pagetable sz 0 else
      let! ok := on_space (copyout_val pagetable sp (concat (le_encode 8 <$> (ustack ++ [0])))) in
      if negb ok then exec_bad pagetable sz 0 else
      let! x := deref_proc p in
      set_tf_reg (p_trapframe x) tf_a1 sp;;;
      update_proc p (λ x, set_p_name (safestrcpy_buf (p_name x) (last_elem path path)) x);;;
      let! x := deref_proc p in
      let oldpagetable := p_pagetable x in
      update_proc p (set_p_pagetable pagetable);;;
      set_running p (p_pid x) pagetable;;;
      update_proc p (set_p_sz sz);;;
      set_tf_reg (p_trapframe x) tf_epc entry;;;
      set_tf_reg (p_trapframe x) tf_sp sp;;;
      proc_freepagetable oldpagetable oldsz;;;
      ret argc
  end.

Definition exec (path : list Z) (argv : list (list Z)) : M St Z :=
  let! p := myproc in
  k_begin_op wakeups;;;
  let! ip := on_fsst (namei wakeups de path) in
  if ip =? 0 then k_end_op wakeups;;; ret (-1) else
  on_fsst (ilock wakeups ip);;;
  let! r := on_fsst (readi wakeups ip false elf_at 0 sizeof_elfhdr) in
  if negb (r =? sizeof_elfhdr) then exec_bad 0 0 ip else
  let! bs := on_fsst (on_umem (kernel_read elf_at (Z.to_nat sizeof_elfhdr))) in
  let elf := get_elfhdr bs in
  if negb (e_magic elf =? ELF_MAGIC) then exec_bad 0 0 ip else
  let! pagetable := proc_pagetable trampoline p in
  if pagetable =? 0 then exec_bad 0 0 ip else
  let! r := exec_segments (Z.to_nat (e_phnum elf)) pagetable ip (s32 (e_phoff elf)) 0 in
  match r with
  | inl sz => exec_bad pagetable sz ip
  | inr sz =>
      on_fsst (iunlockput wakeups ip);;;
      k_end_op wakeups;;;
      exec_stack path argv (e_entry elf) pagetable sz
  end.

(** * The call *)

Fixpoint kfree_all (pages : list Z) : M St unit :=
  match pages with [] => ret tt | a :: pages => on_space (as_kfree a);;; kfree_all pages end.

(** The pages and strings fetched from entry [i] on, and whether all went well. *)
Fixpoint exec_argv (n : nat) (uargv i : Z) : M St (bool * list Z * list (list Z)) :=
  match n with
  | O => ret (false, [], [])
  | S n =>
      let! uarg := fetchaddr (u64 (uargv + 8 * i)) in
      match uarg with
      | None => ret (false, [], [])
      | Some uarg =>
          if uarg =? 0 then ret (true, [], []) else
          let! page := on_space as_kalloc in
          if page =? 0 then ret (false, [], []) else
          let! a := fetchstr uarg PGSIZE in
          match a with
          | None => ret (false, [page], [])
          | Some a =>
              let! r := exec_argv n uargv (i + 1) in
              let '(ok, pages, argv) := r in
              ret (ok, page :: pages, a :: argv)
          end
      end
  end.
Definition sys_exec : M St Z :=
  let! uargv := argaddr 1 in
  let! path := argstr 0 MAXPATH in
  match path with
  | None => ret (-1)
  | Some path =>
      let! r := exec_argv (Z.to_nat MAXARG) uargv 0 in
      let '(ok, pages, argv) := r in
      if ok : bool then
        let! r := exec path argv in
        kfree_all pages;;;
        ret r
      else kfree_all pages;;; ret (-1)
  end.
End exec.
