(* ===== verification/ExecTheorems.v ===== *)
(** The arguments of a new program: where [exec] puts them on its stack. *)

From S2P Require Import Prelude Lists Riscv Mem CString Threads Pipe Bio Log Fs FsIO File Proc Sched Syscall Sysfile Exec.
Local Open Scope Z_scope.

(** The addresses of the strings, from the top of the stack down. *)
Fixpoint arg_sps (argv : list (list Z)) (sp : Z) : list Z :=
  match argv with
  | [] => []
  | a :: argv => let sp := push_sp sp (Z.of_nat (length a) + 1) in sp :: arg_sps argv sp
  end.
(** There is room for them. *)
Definition args_fit (argv : list (list Z)) (argc sp base : Z) : Prop :=
  argc + Z.of_nat (length argv) ≤ MAXARG ∧ Forall (λ p, base ≤ p) (arg_sps argv sp).

Lemma push_sp_spec sp n base : 0 ≤ base → n ≤ base → base ≤ sp < 2 ^ 64 → 0 < n →
  let p := push_sp sp n in p `mod` 16 = 0 ∧ p + n ≤ sp ∧ 0 ≤ p < 2 ^ 64.
Proof.
  intros Hb Hn Hsp Hpos. unfold push_sp. rewrite (u64_small (sp - n)) by lia.
  pose proof (Z.mod_pos_bound (sp - n) 16). pose proof (Z.mod_le (sp - n) 16).
  rewrite u64_small by lia. split_and!; [|lia..].
  rewrite Zminus_mod, Zmod_mod, Z.sub_diag. done.
Qed.

Section exec_args.
Context {U : Type} `{UserBytes U}.
Local Abbreviation St := (kst U).
Implicit Types (s : St) (u : U) (a : list Z) (argv : list (list Z)) (pt sp base argc : Z).

Definition umem s : U := fs_mem (fl_fs (k_files s)).
Definition bytes_at pt u (p : Z) (bs : list Z) : Prop :=
  ∀ j b, bs !! j = Some b → ub_get pt true (p + Z.of_nat j) u = Some b.

Lemma wp_copyout pt p bs s :
  (∀ i, (i < length bs)%nat → is_Some (ub_get pt true (p + Z.of_nat i) (umem s))) → Forall is_byte bs →
  wp no_sleep (on_space (copyout_val pt p bs))
    (λ r s', r = true ∧ bytes_at pt (umem s') p bs ∧
       ∀ x, x < p ∨ p + Z.of_nat (length bs) ≤ x → ub_get pt true x (umem s') = ub_get pt true x (umem s)) s.
Proof.
  intros Hm Hb. unfold on_space, on_files, on_fs, on_umem.
  do 3 (eapply wp_zoom_returns; [|intros r t Ht; exact Ht]).
  exact (ub_copyout pt true p bs (umem s) Hm Hb).
Qed.

(** The strings of [argv] are at [us], each below what was there before. *)
Fixpoint args_at pt u sp argv (us : list Z) : Prop :=
  match argv, us with
  | [], [] => True
  | a :: argv, p :: us =>
      p `mod` 16 = 0 ∧ p + Z.of_nat (length a) < sp ∧ bytes_at pt u p (a ++ [0]) ∧ args_at pt u p argv us
  | _, _ => False
  end.
Definition lowest sp (us : list Z) : Z := List.last us sp.

Lemma lowest_cons us : ∀ sp p, lowest sp (p :: us) = lowest p us.
Proof. unfold lowest. induction us as [|q us IH]; intros sp p; [done|]. change (List.last (p :: q :: us) sp) with (List.last (q :: us) sp). by rewrite !IH. Qed.

Lemma args_at_frame pt u u' argv : ∀ sp us, (∀ x, lowest sp us ≤ x < sp → ub_get pt true x u' = ub_get pt true x u) →
  args_at pt u sp argv us → args_at pt u' sp argv us ∧ lowest sp us ≤ sp.
Proof.
  induction argv as [|a argv IH]; intros sp [|p us] Hx Ha; try done.
  destruct Ha as (H1 & H2 & H3 & H4). rewrite lowest_cons in Hx |- *.
  destruct (IH p us) as [H5 Hp]; [intros x ?; apply Hx; lia|done|].
  split; [|lia]. split_and!; [done..| |done]. intros j b Hj. rewrite Hx; [by apply H3|].
  pose proof (lookup_lt_Some _ _ _ Hj) as Hlt. rewrite length_app in Hlt. simpl in Hlt. lia.
Qed.

Definition args_post argv pt argc sp base s (r : option (Z * list Z)) s' : Prop :=
  match r with
  | Some (sp', us) =>
      args_fit argv argc sp base ∧ us = arg_sps argv sp ∧ sp' = lowest sp us ∧
      args_at pt (umem s') sp argv us ∧
      ∀ x, x < sp' ∨ sp ≤ x → ub_get pt true x (umem s') = ub_get pt true x (umem s)
  | None => ¬ args_fit argv argc sp base
  end.
Lemma exec_args_ok argv pt base : ∀ argc sp s, argc ≤ MAXARG → 0 ≤ base ≤ sp → sp < 2 ^ 64 →
  Forall (λ a, Forall is_byte a ∧ Z.of_nat (length a) < base) argv →
  (∀ x, base ≤ x < sp → is_Some (ub_get pt true x (umem s))) →
  wp no_sleep (exec_args argv pt argc sp base) (args_post argv pt argc sp base s) s.
Proof.
  induction argv as [|a argv IH]; intros argc sp s Hn Hsp Hmax Hargs Hmem; cbn [exec_args].
  - apply wp_ret. unfold args_post, args_fit. simpl. split_and!; [lia|constructor|done..].
  - apply Forall_cons in Hargs as [[Hb Hlen] Hargs].
    destruct (Z.leb_spec MAXARG argc) as [Hc|Hc]; [apply wp_ret; unfold args_post, args_fit; simpl; lia|].
    pose proof (push_sp_spec sp (Z.of_nat (length a) + 1) base) as Hp. cbn zeta in Hp.
    set (p := push_sp sp (Z.of_nat (length a) + 1)) in *. destruct Hp as (Hp1 & Hp2 & Hp3); [lia..|].
    destruct (Z.ltb_spec p base) as [Hlt|Hge].
    { apply wp_ret. unfold args_post, args_fit. cbn [arg_sps]. fold p. rewrite Forall_cons. lia. }
    assert (length (a ++ [0]) = S (length a)) as Hla by (rewrite length_app; simpl; lia).
    eapply wp_call; [apply (wp_copyout pt p (a ++ [0]) s)|].
    { intros i Hi. apply Hmem. lia. }
    { apply Forall_app. split; [done|]. by repeat constructor. }
    cbn beta. intros r s1 (-> & Hbytes & Hsame). cbn [negb].
    eapply wp_call; [apply (IH (argc + 1) p s1); [lia|lia|lia|done|]|].
    { intros x Hx. rewrite Hsame by lia. apply Hmem. lia. }
    cbn beta. intros r s2 Hr. apply wp_ret. unfold args_post in *. destruct r as [[sp' us]|]; cbn [fmap option_fmap option_map prod_map id].
    + destruct Hr as ([F1 F2] & -> & -> & Hat & Hout). cbn [arg_sps]. fold p.
      destruct (args_at_frame pt (umem s2) (umem s2) argv p _ (λ _ _, eq_refl) Hat) as [_ Hlow].
      rewrite lowest_cons.
      split_and!; [|done|done| |].
      * unfold args_fit. cbn [arg_sps length]. fold p. rewrite Forall_cons. split; [lia|by split].
      * split_and!; [done|lia| |done]. intros j b Hj. rewrite Hout; [by apply Hbytes|]. lia.
      * cbn [fst]. intros x Hx. rewrite Hout by lia. apply Hsame. lia.
    + intros [F1 F2]. apply Hr. cbn [arg_sps length] in F1, F2. fold p in F2. apply Forall_cons in F2 as [_ F2].
      split; [lia|done].
Qed.

(** C38: [exec] copies the argument strings below each other from the top of the
    stack, each NUL-terminated at an address that is a multiple of 16, and touches
    nothing else; it gives up exactly when there are too many of them or they do
    not fit above [stackbase]. *)
Theorem exec_args_stack argv pt sp base s :
  0 ≤ base ≤ sp → sp < 2 ^ 64 →
  Forall (λ a, Forall is_byte a ∧ Z.of_nat (length a) < base) argv →
  (∀ x, base ≤ x < sp → is_Some (ub_get pt true x (umem s))) →
  returns (exec_args argv pt 0 sp base)
    (λ r s', match r with
             | Some (sp', us) =>
                 args_fit argv 0 sp base ∧ us = arg_sps argv sp ∧ sp' = lowest sp us ∧
                 args_at pt (umem s') sp argv us ∧
                 ∀ x, x < sp' ∨ sp ≤ x → ub_get pt true x (umem s') = ub_get pt true x (umem s)
             | None => ¬ args_fit argv 0 sp base
             end) s.
Proof. intros Hsp Hmax Hargs Hmem. by apply (exec_args_ok argv pt base 0 sp s). Qed.
End exec_args.

(** ** Two arguments on a small stack *)

Definition stack_state : kst flat_user :=
  Kst (Filest (Fsst (fs_log idle_fs) (fs_sb idle_fs) ∅ ∅ (gset_to_gmap 0 (list_to_set (seqZ 64 64)) : gmap Z Z))
         ∅ (fl_uart idle_files) [] 0 true empty_ftable ∅) ∅ ∅ ∅ ∅ 0 0 false false 0.
Definition two_args : list (list Z) := [[108; 115]; [46]].
Lemma exec_args_stack_witness :
  ∃ s', exec_args two_args 0 0 128 64 stack_state = Ok (Some (96, [112; 96])) s' ∧
    args_at 0 (umem s') 128 two_args [112; 96].
Proof.
  assert (Forall (λ a, Forall is_byte a ∧ Z.of_nat (length a) < 64) two_args) as Ha by by_compute.
  assert (∀ x, 64 ≤ x < 128 → is_Some (ub_get 0 true x (umem stack_state))) as Hm.
  { intros x Hx. exists 0. apply lookup_gset_to_gmap_Some. split; [|done]. apply elem_of_list_to_set, elem_of_seqZ. lia. }
  pose proof (exec_args_stack two_args 0 128 64 stack_state ltac:(lia) ltac:(lia) Ha Hm) as Hw.
  apply wp_no_sleep in Hw as (r & s' & He & Hr).
  assert (∃ s1, exec_args two_args 0 0 128 64 stack_state = Ok (Some (96, [112; 96])) s1) as [s1 H1]
    by (eexists; vm_compute; reflexivity).
  rewrite H1 in He. injection He as <- <-. exists s1. split; [exact H1|]. apply Hr.
Defined.
