(* ===== verification/Trap.v ===== *)
(** Traps and the system call table (kernel/trap.c, kernel/syscall.c).

    The control registers a handler reads are arguments, those it leaves for
    the return are its result.  What the interrupt handlers of the devices do is a
    parameter here: [uartintr] is modelled in Console.v; the disk of Bio.v is
    synchronous. *)

From S2P Require Import Prelude Lists Riscv Mem CString Threads Pipe Bio Log Fs Printf Console File Proc Sched Syscall Sysfile Exec.
Local Open Scope Z_scope.

Definition SSTATUS_SPP : Z := Z.shiftl 1 8.
Definition SSTATUS_SPIE : Z := Z.shiftl 1 5.
Definition SSTATUS_SIE : Z := Z.shiftl 1 1.

(** [scause], [sepc], [stval] and [sstatus] when the trap is taken, and the
    interrupt the PLIC reports if it is asked. *)
Record csrs := Csrs { r_scause : Z; r_sepc : Z; r_stval : Z; r_sstatus : Z; plic_irq : Z }.
(** What [sret] and the trampoline go by. *)
Record uret := Uret { w_sstatus : Z; w_sepc : Z; w_satp : Z }.

Definition tf_kernel_satp : Z := 0.
Definition tf_kernel_sp : Z := 8.
Definition tf_kernel_trap : Z := 16.
Definition tf_kernel_hartid : Z := 32.

Section trap.
Context {U : Type} `{UserMem U, PageAlloc U, AddressSpace U, UserStr U}.
Context (wakeups : nat) (de trampoline elf_at ph_at : Z) (name0 stat_pad uproc_pad : list Z).
Context (cpuid kernel_satp usertrap_at : Z) (uartintr virtio_disk_intr : M (kst U) unit).
Local Abbreviation St := (kst U).

(** * The system call table *)

(** There is no entry for [SYS_pipec], 23. *)
Definition syscalls (num : Z) : option (M St Z) :=
  match num with
  | 1 => Some (sys_fork trampoline)
  | 2 => Some (sys_exit wakeups)
  | 3 => Some (sys_wait wakeups)
  | 4 => Some (sys_pipe wakeups)
  | 5 => Some (sys_read wakeups)
  | 6 => Some sys_kill
  | 7 => Some (sys_exec wakeups de trampoline elf_at ph_at)
  | 8 => Some (sys_fstat wakeups stat_pad)
  | 9 => Some (sys_chdir wakeups de)
  | 10 => Some sys_dup
  | 11 => Some sys_getpid
  | 12 => Some sys_sbrk
  | 13 => Some (sys_sleep wakeups)
  | 14 => Some sys_uptime
  | 15 => Some (sys_open wakeups de name0)
  | 16 => Some (sys_write wakeups)
  | 17 => Some (sys_mknod wakeups de name0)
  | 18 => Some (sys_unlink wakeups de name0)
  | 19 => Some (sys_link wakeups de name0)
  | 20 => Some (sys_mkdir wakeups de name0)
  | 21 => Some (sys_close wakeups)
  | 22 => Some sys_sbrksz
  | 24 => Some sys_sname
  | 25 => Some (sys_sproc uproc_pad)
  | 26 => Some sys_consw
  | 27 => Some (sys_cfork wakeups de trampoline)
  | 28 => Some sys_cinfo
  | _ => None
  end.

Definition syscall : M St unit :=
  let! p := myproc in
  let! x := deref_proc p in
  let! t := deref_tf (p_trapframe x) in
  let! a7 := get_some (λ _, t !! tf_a7) in
  match syscalls (s32 a7) with
  | Some f => let! r := f in set_tf_reg (p_trapframe x) tf_a0 (u64 r)
  | None =>
      kprint (lit "%d %s: unknown sys call %d" ++ [10])
        [VInt (p_pid x); VStr (Some (cstr (p_name x))); VInt (s32 a7)];;;
      set_tf_reg (p_trapframe x) tf_a0 (u64 (-1))
  end.

(** * Interrupts *)

Definition clockintr : M St unit :=
  acquire tickslock;;;
  let! ticks := gets k_ticks in
  modify (set_k_ticks (u32 (ticks + 1)));;;
  Sched.wakeup ticks_chan;;;
  release tickslock.

Definition devintr (c : csrs) : M St Z :=
  if negb (Z.land (r_scause c) 0x8000000000000000 =? 0) && (Z.land (r_scause c) 0xff =? 9) then
    (if plic_irq c =? UART0_IRQ then uartintr
     else if plic_irq c =? VIRTIO0_IRQ then virtio_disk_intr
     else when (negb (plic_irq c =? 0)) (kprint (lit "unexpected interrupt irq=%d" ++ [10]) [VInt (plic_irq c)]));;;
    ret 1
  else if r_scause c =? 0x8000000000000001 then
    when (cpuid =? 0) clockintr;;;
    ret 2
  else ret 0.

(** A tick of process [p] and of its container, whose count is an [int]. *)
Definition count_tick (p : Z) : M St unit :=
  update_proc p (λ x, set_p_nticks (u64 (p_nticks x + 1)) x);;;
  let! x := deref_proc p in
  update_cont (p_contp x) (λ y, set_c_nticks (s32 (c_nticks y + 1)) y).

(** * Traps from user space *)

(** [sret] with these registers returns to the process. *)
Definition usertrapret (sstatus : Z) : M St uret :=
  let! p := myproc in
  let! x := deref_proc p in
  set_tf_reg (p_trapframe x) tf_kernel_satp kernel_satp;;;
  set_tf_reg (p_trapframe x) tf_kernel_sp (u64 (p_kstack x + PGSIZE));;;
  set_tf_reg (p_trapframe x) tf_kernel_trap usertrap_at;;;
  set_tf_reg (p_trapframe x) tf_kernel_hartid cpuid;;;
  let! t := deref_tf (p_trapframe x) in
  let! epc := get_some (λ _, t !! tf_epc) in
  ret (Uret (Z.lor (Z.land sstatus (u64 (Z.lnot SSTATUS_SPP))) SSTATUS_SPIE) epc (MAKE_SATP (p_pagetable x))).

Definition usertrap (c : csrs) : M St uret :=
  if negb (Z.land (r_sstatus c) SSTATUS_SPP =? 0) then panic "usertrap: not from user mode" else
  let! p := myproc in
  let! x := deref_proc p in
  set_tf_reg (p_trapframe x) tf_epc (r_sepc c);;;
  let! which_dev := (
    if r_scause c =? 8 then
      let! k := killed p in
      when k (exit wakeups (-1));;;
      set_tf_reg (p_trapframe x) tf_epc (u64 (r_sepc c + 4));;;
      syscall;;;
      ret 0
    else
      let! dev := devintr c in
      when (dev =? 0) (
        kprint (lit "usertrap(): unexpected scause %p pid=%d" ++ [10]) [VLong (r_scause c); VInt (p_pid x)];;;
        kprint (lit "            sepc=%p stval=%p" ++ [10]) [VLong (r_sepc c); VLong (r_stval c)];;;
        setkilled p);;;
      ret dev) in
  let! k := killed p in
  when k (exit wakeups (-1));;;
  when (which_dev =? 2) (count_tick p;;; yield);;;
  usertrapret (r_sstatus c).

(** * Traps from the kernel *)

(** Its result are the registers it restores, [sepc] and [sstatus]. *)
Definition kerneltrap (c : csrs) : M St (Z * Z) :=
  if Z.land (r_sstatus c) SSTATUS_SPP =? 0 then panic "kerneltrap: not from supervisor mode" else
  if negb (Z.land (r_sstatus c) SSTATUS_SIE =? 0) then panic "kerneltrap: interrupts enabled" else
  let! which_dev := devintr c in
  if which_dev =? 0 then
    kprint (lit "scause %p" ++ [10]) [VLong (r_scause c)];;;
    kprint (lit "sepc=%p stval=%p" ++ [10]) [VLong (r_sepc c); VLong (r_stval c)];;;
    panic "kerneltrap"
  else
  let! p := myproc in
  when ((which_dev =? 2) && negb (p =? 0)) (
    let! x := deref_proc p in
    when (bool_decide (p_state x = RUNNING)) (count_tick p;;; yield));;;
  ret (r_sepc c, r_sstatus c).
End trap.
