(* ===== verification/Boot.v ===== *)
(** Starting the machine (kernel/start.c, kernel/main.c, kernel/plic.c).

    [start] runs on every CPU in machine mode and ends in [main] in supervisor
    mode; in [main] the first CPU initialises the kernel while the others wait for
    it; the PLIC is told which interrupts each CPU takes. *)

From S2P Require Import Prelude Riscv.
Local Open Scope Z_scope.

(** * Machine mode *)

Definition MSTATUS_MPP_MASK : Z := Z.shiftl 3 11.
Definition MSTATUS_MPP_S : Z := Z.shiftl 1 11.
Definition MSTATUS_MIE : Z := Z.shiftl 1 3.
Definition SIE_SEIE : Z := Z.shiftl 1 9.
Definition SIE_STIE : Z := Z.shiftl 1 5.
Definition SIE_SSIE : Z := Z.shiftl 1 1.
Definition MIE_MTIE : Z := Z.shiftl 1 7.
Definition CLINT : Z := 0x2000000.
Definition CLINT_MTIMECMP (hartid : Z) : Z := CLINT + 0x4000 + 8 * hartid.
Definition CLINT_MTIME : Z := CLINT + 0xBFF8.

(** The control registers of a CPU, and its mode and program counter. *)
Record cpuregs := Cpuregs {
  mode : Z;   (* 0 user, 1 supervisor, 3 machine *)
  pc : Z;
  mhartid : Z;
  mstatus : Z; mepc : Z; satp : Z; medeleg : Z; mideleg : Z; sie : Z;
  pmpaddr0 : Z; pmpcfg0 : Z; mscratch : Z; mtvec : Z; mie : Z;
  tp : Z;
}.
(** The registers, and the 64-bit words of memory [start] writes by address: the
    CLINT and [timer_scratch]. *)
Definition boot := (cpuregs * gmap Z Z)%type.

Section start.
(** The addresses of [main], [timervec] and [timer_scratch]. *)
Context (main timervec timer_scratch : Z).

Definition scratch_at (id k : Z) : Z := timer_scratch + 8 * (5 * id + k).
Definition timerinit (s : boot) : option boot :=
  let '(r, m) := s in
  let id := mhartid r in
  let interval := 1000000 in
  match m !! CLINT_MTIME with
  | None => None
  | Some t =>
      let m := <[CLINT_MTIMECMP id := u64 (t + interval)]> m in
      let m := <[scratch_at id 3 := CLINT_MTIMECMP id]> m in
      let m := <[scratch_at id 4 := interval]> m in
      Some (Cpuregs (mode r) (pc r) id
        (Z.lor (mstatus r) MSTATUS_MIE) (mepc r) (satp r) (medeleg r) (mideleg r) (sie r)
        (pmpaddr0 r) (pmpcfg0 r) (scratch_at id 0) timervec (Z.lor (mie r) MIE_MTIE) (tp r), m)
  end.
(** To the mode in [mstatus.MPP] and the address in [mepc]. *)
Definition mret (s : boot) : boot :=
  let '(r, m) := s in
  (Cpuregs (Z.land (Z.shiftr (mstatus r) 11) 3) (mepc r) (mhartid r) (mstatus r) (mepc r) (satp r) (medeleg r) (mideleg r)
     (sie r) (pmpaddr0 r) (pmpcfg0 r) (mscratch r) (mtvec r) (mie r) (tp r), m).
Definition start (s : boot) : option boot :=
  let '(r, m) := s in
  let x := Z.lor (Z.land (mstatus r) (u64 (Z.lnot MSTATUS_MPP_MASK))) MSTATUS_MPP_S in
  let r := Cpuregs (mode r) (pc r) (mhartid r) x main 0 0xffff 0xffff
    (Z.lor (sie r) (Z.lor (Z.lor SIE_SEIE SIE_STIE) SIE_SSIE)) 0x3fffffffffffff 0xf (mscratch r) (mtvec r) (mie r) (tp r) in
  match timerinit (r, m) with
  | None => None
  | Some (r, m) =>
      let r := Cpuregs (mode r) (pc r) (mhartid r) (mstatus r) (mepc r) (satp r) (medeleg r) (mideleg r) (sie r)
        (pmpaddr0 r) (pmpcfg0 r) (mscratch r) (mtvec r) (mie r) (mhartid r) in
      Some (mret (r, m))
  end.
End start.

(** * The interrupt controller *)

Definition PLIC_SENABLE (hart : Z) : Z := PLIC + 0x2080 + hart * 0x100.
Definition PLIC_SPRIORITY (hart : Z) : Z := PLIC + 0x201000 + hart * 0x2000.
Definition PLIC_SCLAIM (hart : Z) : Z := PLIC + 0x201004 + hart * 0x2000.

(** The last value written to each 32-bit register. *)
Notation plicst := (gmap Z Z).
Definition plicinit (s : plicst) : plicst := <[PLIC + VIRTIO0_IRQ * 4 := 1]> (<[PLIC + UART0_IRQ * 4 := 1]> s).
Definition plicinithart (hart : Z) (s : plicst) : plicst :=
  <[PLIC_SPRIORITY hart := 0]>
    (<[PLIC_SENABLE hart := Z.lor (Z.shiftl 1 UART0_IRQ) (Z.shiftl 1 VIRTIO0_IRQ)]> s).
(** What the device answers a read of a register with. *)
Definition plic_claim (device : Z → Z) (hart : Z) : Z := s32 (device (PLIC_SCLAIM hart)).
Definition plic_complete (hart irq : Z) (s : plicst) : plicst := <[PLIC_SCLAIM hart := u32 irq]> s.

(** * main *)

Inductive init :=
| Iconsoleinit | Iprintfinit | Iprintf | Ikinit | Ikvminit | Ikvminithart | Iprocinit | Itrapinit | Itrapinithart
| Iplicinit | Iplicinithart | Ibinit | Iiinit | Ifileinit | Ivirtio_disk_init | Iuserinit | Ischeduler.
#[export] Instance init_eq_dec : EqDecision init.
Proof. solve_decision. Defined.

(** A CPU calls a function, sets [started], or waits for it. *)
Inductive instr := Call (f : init) | SetStarted | Await.
Definition main (cpuid : nat) : list instr :=
  match cpuid with
  | O =>
      [Call Iconsoleinit; Call Iprintfinit; Call Iprintf; Call Iprintf; Call Iprintf; Call Ikinit; Call Ikvminit;
       Call Ikvminithart; Call Iprocinit; Call Itrapinit; Call Itrapinithart; Call Iplicinit; Call Iplicinithart;
       Call Ibinit; Call Iiinit; Call Ifileinit; Call Ivirtio_disk_init; Call Iuserinit; SetStarted; Call Ischeduler]
  | _ => [Await; Call Iprintf; Call Ikvminithart; Call Itrapinithart; Call Iplicinithart; Call Ischeduler]
  end.

(** What is left to each CPU, [started], and the calls made so far. *)
Record mainst := Mainst { todo : list (list instr); started : bool; calls : list (nat * init) }.
Inductive main_step : mainst → mainst → Prop :=
| step_call rs b l h f r : rs !! h = Some (Call f :: r) →
    main_step (Mainst rs b l) (Mainst (<[h := r]> rs) b (l ++ [(h, f)]))
| step_set rs b l h r : rs !! h = Some (SetStarted :: r) →
    main_step (Mainst rs b l) (Mainst (<[h := r]> rs) true l)
| step_await rs l h r : rs !! h = Some (Await :: r) →
    main_step (Mainst rs true l) (Mainst (<[h := r]> rs) true l)
| step_spin rs l h r : rs !! h = Some (Await :: r) →
    main_step (Mainst rs false l) (Mainst rs false l).
Definition main_start (ncpu : nat) : mainst := Mainst (main <$> seq 0 ncpu) false [].

(** * Every CPU ends in supervisor mode *)

Lemma mpp_supervisor x :
  Z.land (Z.shiftr (Z.lor (Z.lor (Z.land x (u64 (Z.lnot MSTATUS_MPP_MASK))) MSTATUS_MPP_S) MSTATUS_MIE) 11) 3 = 1.
Proof.
  rewrite !Z.shiftr_lor, Z.shiftr_land.
  change (Z.shiftr MSTATUS_MPP_S 11) with 1. change (Z.shiftr MSTATUS_MIE 11) with 0.
  rewrite Z.lor_0_r, Z.land_lor_distr_l, <- Z.land_assoc.
  change (Z.land (Z.shiftr (u64 (Z.lnot MSTATUS_MPP_MASK)) 11) 3) with 0. by rewrite Z.land_0_r.
Qed.

Lemma sie_bits x n : 0 ≤ n →
  Z.testbit (Z.lor x (Z.lor (Z.lor SIE_SEIE SIE_STIE) SIE_SSIE)) n = Z.testbit x n || bool_decide (n ∈ [1; 5; 9]).
Proof.
  intros Hn. change (Z.lor (Z.lor SIE_SEIE SIE_STIE) SIE_SSIE) with (Z.lor (2 ^ 9) (Z.lor (2 ^ 5) (2 ^ 1))).
  rewrite !Z.lor_spec, !Z.pow2_bits_eqb by lia. f_equal. apply eq_true_iff_eq.
  rewrite !orb_true_iff, !Z.eqb_eq, bool_decide_eq_true, !elem_of_cons, elem_of_nil. naive_solver.
Qed.

Section starting.
Context (main timervec timer_scratch : Z).

(** The registers [start] leaves. *)
Definition start_regs (r : cpuregs) : cpuregs :=
  let x := Z.lor (Z.lor (Z.land (mstatus r) (u64 (Z.lnot MSTATUS_MPP_MASK))) MSTATUS_MPP_S) MSTATUS_MIE in
  Cpuregs (Z.land (Z.shiftr x 11) 3) main (mhartid r) x main 0 0xffff 0xffff
    (Z.lor (sie r) (Z.lor (Z.lor SIE_SEIE SIE_STIE) SIE_SSIE)) 0x3fffffffffffff 0xf
    (scratch_at timer_scratch (mhartid r) 0) timervec (Z.lor (mie r) MIE_MTIE) (mhartid r).
Lemma start_result r m t : m !! CLINT_MTIME = Some t →
  start main timervec timer_scratch (r, m) =
  Some (start_regs r, <[scratch_at timer_scratch (mhartid r) 4 := 1000000]>
    (<[scratch_at timer_scratch (mhartid r) 3 := CLINT_MTIMECMP (mhartid r)]>
      (<[CLINT_MTIMECMP (mhartid r) := u64 (t + 1000000)]> m))).
Proof. intros Ht. unfold start, timerinit. cbn [mhartid]. by rewrite Ht. Qed.

(** [start] takes every CPU to [main] in supervisor mode, with paging off, its id in
    [tp], software, timer and external interrupts enabled besides those that were, and a
    timer interrupt one interval ahead; [timervec] finds in its scratch area the address
    of the compare register of this CPU and the interval, and what belongs to the
    other CPUs is left alone. *)
Theorem start_supervisor r m t :
  0 ≤ mhartid r < NCPU → KERNBASE ≤ timer_scratch → m !! CLINT_MTIME = Some t →
  ∃ r' m', start main timervec timer_scratch (r, m) = Some (r', m') ∧
    mode r' = 1 ∧ pc r' = main ∧ tp r' = mhartid r ∧ satp r' = 0 ∧ mtvec r' = timervec ∧
    (∀ n, 0 ≤ n → Z.testbit (sie r') n = Z.testbit (sie r) n || bool_decide (n ∈ [1; 5; 9])) ∧
    Z.testbit (mstatus r') 3 = true ∧ Z.testbit (mie r') 7 = true ∧
    m' !! CLINT_MTIMECMP (mhartid r) = Some (u64 (t + 1000000)) ∧
    m' !! (mscratch r' + 24) = Some (CLINT_MTIMECMP (mhartid r)) ∧ m' !! (mscratch r' + 32) = Some 1000000 ∧
    ∀ id k, 0 ≤ id < NCPU → id ≠ mhartid r → 0 ≤ k < 5 →
      m' !! CLINT_MTIMECMP id = m !! CLINT_MTIMECMP id ∧
      m' !! scratch_at timer_scratch id k = m !! scratch_at timer_scratch id k.
Proof.
  intros Hid Hts Ht. rewrite (start_result _ _ _ Ht). do 2 eexists. split; [reflexivity|].
  unfold start_regs; cbn [mode pc tp satp mtvec sie mstatus mie mscratch]. unfold NCPU, KERNBASE in *. set (id := mhartid r) in *.
  split; [|split; [reflexivity|split; [reflexivity|split; [reflexivity|split; [reflexivity|]]]]]; [|split_and!].
  - apply mpp_supervisor.
  - apply sie_bits.
  - rewrite Z.lor_spec. by rewrite orb_true_r.
  - rewrite Z.lor_spec. by rewrite orb_true_r.
  - unfold scratch_at, CLINT_MTIMECMP, CLINT in *. rewrite !lookup_insert_ne by lia. by rewrite lookup_insert_eq.
  - unfold scratch_at. rewrite lookup_insert_ne by lia. by replace (_ + 24) with (timer_scratch + 8 * (5 * id + 3)) by lia; rewrite lookup_insert_eq.
  - unfold scratch_at. by replace (_ + 32) with (timer_scratch + 8 * (5 * id + 4)) by lia; rewrite lookup_insert_eq.
  - intros id' k Hid' Hne Hk. unfold scratch_at, CLINT_MTIMECMP, CLINT in *. by split; rewrite !lookup_insert_ne by lia.
Qed.
End starting.

(** * Every CPU takes the interrupts of the serial port and the disk *)

Definition plic_ready (hart : Z) (s : plicst) : Prop :=
  s !! PLIC_SENABLE hart = Some (2 ^ UART0_IRQ + 2 ^ VIRTIO0_IRQ) ∧ s !! PLIC_SPRIORITY hart = Some 0 ∧
  s !! (PLIC + UART0_IRQ * 4) = Some 1 ∧ s !! (PLIC + VIRTIO0_IRQ * 4) = Some 1.
Definition plic_setup_all (harts : list Z) (s : plicst) : plicst := foldl (λ s h, plicinithart h s) (plicinit s) harts.

Lemma plicinithart_other hart a s : a ≠ PLIC_SENABLE hart → a ≠ PLIC_SPRIORITY hart → plicinithart hart s !! a = s !! a.
Proof. intros. unfold plicinithart. by rewrite !lookup_insert_ne. Qed.
Lemma plic_other harts a s :
  Forall (λ h, a ≠ PLIC_SENABLE h ∧ a ≠ PLIC_SPRIORITY h) harts → plic_setup_all harts s !! a = plicinit s !! a.
Proof.
  intros Hh. unfold plic_setup_all. induction harts as [|h harts IH] using rev_ind; [done|].
  apply Forall_app in Hh as [Hh [H1 H2]%Forall_singleton]. rewrite foldl_app. cbn [foldl].
  rewrite plicinithart_other by done. by apply IH.
Qed.
Ltac plic_addresses := unfold PLIC_SENABLE, PLIC_SPRIORITY, UART0_IRQ, VIRTIO0_IRQ, NCPU in *.
Lemma plic_own harts h s : Forall (λ h, 0 ≤ h < NCPU) harts → h ∈ harts →
  plic_setup_all harts s !! PLIC_SENABLE h = Some (2 ^ UART0_IRQ + 2 ^ VIRTIO0_IRQ) ∧
  plic_setup_all harts s !! PLIC_SPRIORITY h = Some 0.
Proof.
  unfold plic_setup_all. intros Hh Hin. induction harts as [|h' harts IH] using rev_ind; [by apply not_elem_of_nil in Hin|].
  apply Forall_app in Hh as [Hh Hh'%Forall_singleton]. rewrite foldl_app. cbn [foldl].
  destruct (decide (h' = h)) as [->|Hne].
  - unfold plicinithart. split; [|apply lookup_insert_eq]. rewrite lookup_insert_ne by (plic_addresses; lia).
    by rewrite lookup_insert_eq.
  - rewrite elem_of_app, list_elem_of_singleton in Hin. destruct Hin as [Hin|]; [|done].
    assert (0 ≤ h < NCPU) by (rewrite Forall_forall in Hh; auto).
    rewrite !plicinithart_other by (plic_addresses; lia). auto.
Qed.

(** In whatever order the CPUs set up the interrupt controller after plicinit, each of
    them takes the interrupts of the serial port and of the disk, at any priority, and
    no other; the registers of a CPU that has not done so are not touched. *)
Theorem plic_setup harts s :
  Forall (λ h, 0 ≤ h < NCPU) harts →
  (∀ h, h ∈ harts → plic_ready h (plic_setup_all harts s)) ∧
  (∀ h, 0 ≤ h < NCPU → h ∉ harts →
     plic_setup_all harts s !! PLIC_SENABLE h = s !! PLIC_SENABLE h ∧
     plic_setup_all harts s !! PLIC_SPRIORITY h = s !! PLIC_SPRIORITY h).
Proof.
  intros Hh. split.
  - intros h Hin. destruct (plic_own harts h s Hh Hin). rewrite Forall_forall in Hh.
    split_and!; [done..| |]; (rewrite plic_other by (apply Forall_forall; intros h' Hin'; specialize (Hh h' Hin'); plic_addresses; lia)); unfold plicinit;
      [rewrite lookup_insert_ne by (plic_addresses; lia)|]; by rewrite lookup_insert_eq.
  - intros h Hr Hin. rewrite Forall_forall in Hh.
    split; (rewrite plic_other; [unfold plicinit; by rewrite !lookup_insert_ne by (plic_addresses; lia)|]);
      apply Forall_forall; intros h' Hin'; specialize (Hh h' Hin'); (assert (h' ≠ h) by congruence); plic_addresses; lia.
Qed.

(** * No CPU runs ahead of the initialisation *)

Definition call_of (i : instr) : option init := match i with Call f => Some f | _ => None end.
Definition calls_by (h : nat) (l : list (nat * init)) : list init :=
  omap (λ p, if decide (p.1 = h) then Some p.2 else None) l.
(** What the first CPU does before it sets [started]. *)
Definition inits : list init := omap call_of (take 18 (main 0)).

(** The first calls [l1] were in order when CPU [h] called [f]. *)
Definition in_order (l1 : list (nat * init)) (h : nat) (f : init) : Prop :=
  (h ≠ 0%nat → inits `prefix_of` calls_by 0 l1) ∧
  (f = Ischeduler → ∀ g, g ∈ [Ikvminithart; Itrapinithart; Iplicinithart] → (h, g) ∈ l1).
Record main_inv (s : mainst) : Prop := {
  mi_prog h r : todo s !! h = Some r → ∃ p, main h = p ++ r ∧ calls_by h (calls s) = omap call_of p ∧
    (h ≠ 0%nat → p ≠ [] → started s = true);
  mi_started : started s = true → inits `prefix_of` calls_by 0 (calls s);
  mi_order l1 h f l2 : calls s = l1 ++ (h, f) :: l2 → in_order l1 h f;
}.

Lemma calls_by_snoc h h' f l : calls_by h (l ++ [(h', f)]) = calls_by h l ++ (if decide (h' = h) then [f] else []).
Proof. unfold calls_by. rewrite omap_app. simpl. by destruct (decide (h' = h)). Qed.
Lemma calls_by_elem h f l : f ∈ calls_by h l → (h, f) ∈ l.
Proof.
  unfold calls_by. rewrite list_elem_of_omap. intros ([h' f'] & Hin & Heq). simpl in Heq. by destruct (decide (h' = h)); simplify_eq.
Qed.

(** Where the instructions are. *)
Lemma main_at h p i r : main h = p ++ i :: r → main h !! length p = Some i ∧ p = take (length p) (main h).
Proof. intros ->. by rewrite lookup_app_r, Nat.sub_diag, take_app_length by lia. Qed.
(** The two programs, by looking at them. *)
Lemma main_calls h p f r : main h = p ++ Call f :: r →
  (h ≠ 0%nat → p ≠ []) ∧
  (f = Ischeduler → Forall (.∈ omap call_of p) [Ikvminithart; Itrapinithart; Iplicinithart]).
Proof.
  intros [Hl Hp]%main_at. rewrite Hp. clear Hp. revert Hl. generalize (length p). intros k Hl.
  assert (k < 20)%nat as Hk by (apply lookup_lt_Some in Hl; destruct h; simpl in Hl; lia).
  destruct h; do 20 (destruct k as [|k];
    [simpl in Hl; simplify_eq; try (split; [done|intros ?; simplify_eq; by_compute])|]); lia.
Qed.
Lemma main_sets h p r : main h = p ++ SetStarted :: r → h = 0%nat ∧ omap call_of p = inits.
Proof.
  intros [Hl Hp]%main_at. rewrite Hp. clear Hp. revert Hl. generalize (length p). intros k Hl.
  assert (k < 20)%nat as Hk by (apply lookup_lt_Some in Hl; destruct h; simpl in Hl; lia).
  destruct h; do 20 (destruct k as [|k]; [simpl in Hl; simplify_eq; try done|]); lia.
Qed.

Lemma main_inv_start n : main_inv (main_start n).
Proof.
  constructor; [|done|].
  - intros h r Hr. exists []. simpl in Hr. apply list_lookup_fmap_Some in Hr as (x & -> & Hx).
    apply lookup_seq in Hx as [? _]. by subst.
  - intros [] ? ? ? ?; done.
Qed.

Lemma prefix_snoc_calls h f l (k : nat) xs : xs `prefix_of` calls_by k l → xs `prefix_of` calls_by k (l ++ [(h, f)]).
Proof. rewrite calls_by_snoc. apply prefix_app_r. Qed.

Lemma main_inv_step s s' : main_step s s' → main_inv s → main_inv s'.
Proof.
  destruct 1 as [rs b l h f r Hh|rs b l h r Hh|rs l h r Hh|rs l h r Hh]; intros [Hprog Hst Hord]; cbn [todo started calls] in *.
  - destruct (Hprog h _ Hh) as (p & Hp & Hc & Hb). destruct (main_calls _ _ _ _ Hp) as [Hf1 Hf2]. constructor; cbn [todo started calls].
    + intros h' r' Hr'. rewrite calls_by_snoc. destruct (decide (h = h')) as [<-|Hne].
      * rewrite list_lookup_insert_eq in Hr' by (by eapply lookup_lt_Some). injection Hr' as <-.
        exists (p ++ [Call f]). rewrite Hp, <- app_assoc, Hc, omap_app. split_and!; [done..|]. auto.
      * rewrite list_lookup_insert_ne in Hr' by done. rewrite app_nil_r. by apply Hprog.
    + intros Hb'. by apply prefix_snoc_calls, Hst.
    + intros l1 h' f' l2 Heq. destruct l2 as [|x l2 _] using rev_ind.
      * apply app_inj_tail in Heq as [<- [= <- <-]]. split; [auto|]. intros -> g Hg. specialize (Hf2 eq_refl).
        rewrite Forall_forall in Hf2. apply calls_by_elem. rewrite Hc. auto.
      * rewrite app_comm_cons, app_assoc in Heq. apply app_inj_tail in Heq as [-> _]. by eapply Hord.
  - destruct (Hprog h _ Hh) as (p & Hp & Hc & Hb). destruct (main_sets _ _ _ Hp) as [-> Hi]. constructor; cbn [todo started calls]; [| |done].
    + intros h' r' Hr'. destruct (decide (0%nat = h')) as [<-|Hne].
      * rewrite list_lookup_insert_eq in Hr' by (by eapply lookup_lt_Some). injection Hr' as <-.
        exists (p ++ [SetStarted]). rewrite Hp, <- app_assoc, Hc, omap_app, app_nil_r. done.
      * rewrite list_lookup_insert_ne in Hr' by done. destruct (Hprog _ _ Hr') as (p' & ? & ? & _). by exists p'.
    + intros _. by rewrite Hc, Hi.
  - constructor; cbn [todo started calls]; [|done..]. intros h' r' Hr'. destruct (decide (h = h')) as [<-|Hne].
    + destruct (Hprog h _ Hh) as (p & Hp & Hc & Hb). rewrite list_lookup_insert_eq in Hr' by (by eapply lookup_lt_Some).
      injection Hr' as <-. exists (p ++ [Await]). rewrite Hp, <- app_assoc, Hc, omap_app, app_nil_r. done.
    + rewrite list_lookup_insert_ne in Hr' by done. by apply Hprog.
  - by constructor.
Qed.

(** C17: however the CPUs interleave, none runs ahead of the initialisation: when a CPU
    other than the first calls anything, the first has done all of its
    initialisation, in order, up to the first process; and a CPU that enters the
    scheduler has turned on paging, installed its trap vector and set up its
    interrupts. *)
Theorem boot_order n s l1 h f l2 :
  rtc main_step (main_start n) s → calls s = l1 ++ (h, f) :: l2 → in_order l1 h f.
Proof.
  intros Hr. assert (main_inv s) as Hs; [|by apply (mi_order s Hs)].
  pose proof (main_inv_start n) as H0. induction Hr; [done|]. eauto using main_inv_step.
Qed.

(** * Witnesses *)

Definition demo_regs : cpuregs := Cpuregs 3 0x80000000 2 0x1880 0 5 0 0 1 0 0 0 0 0 0.
Lemma start_supervisor_witness :
  let m := {[CLINT_MTIME := 7]} in
  ∃ r' m', start 0x80001000 0x80002000 0x80009000 (demo_regs, m) = Some (r', m') ∧
    mode r' = 1 ∧ pc r' = 0x80001000 ∧ tp r' = 2 ∧ satp r' = 0 ∧ mtvec r' = 0x80002000 ∧
    (∀ n, 0 ≤ n → Z.testbit (sie r') n = Z.testbit 1 n || bool_decide (n ∈ [1; 5; 9])) ∧
    Z.testbit (mstatus r') 3 = true ∧ Z.testbit (mie r') 7 = true ∧
    m' !! CLINT_MTIMECMP 2 = Some 1000007 ∧
    m' !! (mscratch r' + 24) = Some (CLINT_MTIMECMP 2) ∧ m' !! (mscratch r' + 32) = Some 1000000 ∧
    ∀ id k, 0 ≤ id < NCPU → id ≠ 2 → 0 ≤ k < 5 →
      m' !! CLINT_MTIMECMP id = m !! CLINT_MTIMECMP id ∧
      m' !! scratch_at 0x80009000 id k = m !! scratch_at 0x80009000 id k.
Proof.
  intros m. apply (start_supervisor 0x80001000 0x80002000 0x80009000 demo_regs m 7).
  - vm_compute. split; [discriminate|reflexivity].
  - vm_compute. discriminate.
  - reflexivity.
Defined.
Lemma plic_setup_witness :
  (∀ h, h ∈ [1; 0] → plic_ready h (plic_setup_all [1; 0] ∅)) ∧
  (∀ h, 0 ≤ h < NCPU → h ∉ [1; 0] →
     plic_setup_all [1; 0] ∅ !! PLIC_SENABLE h = (∅ : plicst) !! PLIC_SENABLE h ∧
     plic_setup_all [1; 0] ∅ !! PLIC_SPRIORITY h = (∅ : plicst) !! PLIC_SPRIORITY h).
Proof. apply (plic_setup [1; 0] ∅). by_compute. Defined.

(** The first CPU initialises the kernel, the second prints its message. *)
Definition demo_state : mainst :=
  Mainst [[Call Ischeduler]; drop 2 (main 1)] true (((λ f, (0%nat, f)) <$> inits) ++ [(1%nat, Iprintf)]).
Lemma demo_boot : rtc main_step (main_start 2) demo_state.
Proof.
  unfold main_start. simpl.
  do 18 (eapply rtc_l; [by apply (step_call _ _ _ 0)|simpl]).
  eapply rtc_l; [by apply (step_set _ _ _ 0)|simpl]. eapply rtc_l; [by apply (step_await _ _ 1)|simpl].
  eapply rtc_l; [by apply (step_call _ _ _ 1)|]. apply rtc_refl.
Qed.
Lemma boot_order_witness : in_order ((λ f, (0%nat, f)) <$> inits) 1 Iprintf.
Proof. apply (boot_order 2 demo_state _ _ _ []); [apply demo_boot|reflexivity]. Defined.
