(* ===== verification/Ulib.v ===== *)
(** The user library (user/ulib.c) and the system calls the user programs are
    written against.

    The string and memory routines run over the byte memory of [Mem]; a loop
    without a bound has fuel.  The programs that read and write files use
    the class [Sys]; [world] is the instance their theorems are about: files are
    byte sequences, a read may return less than it was asked for, and what is
    written to a descriptor accumulates. *)

From S2P Require Import Prelude Mem.
Local Open Scope Z_scope.

(** * Strings and memory *)

Fixpoint strcpy_loop (fuel : nat) (s t : Z) : M mem unit :=
  match fuel with
  | O => out_of_fuel
  | S fuel =>
      let! b := load8 t in
      store8 s b;;;
      if b =? 0 then ret tt else strcpy_loop fuel (s + 1) (t + 1)
  end.
Definition strcpy (fuel : nat) (s t : Z) : M mem Z := strcpy_loop fuel s t;;; ret s.

Fixpoint strcmp (fuel : nat) (p q : Z) : M mem Z :=
  match fuel with
  | O => out_of_fuel
  | S fuel =>
      let! a := load8 p in
      let! b := load8 q in
      if negb (a =? 0) && (a =? b) then strcmp fuel (p + 1) (q + 1) else ret (a - b)
  end.

Fixpoint ustrlen_loop (fuel : nat) (s n : Z) : M mem Z :=
  match fuel with
  | O => out_of_fuel
  | S fuel =>
      let! b := load8 (s + n) in
      if b =? 0 then ret n else ustrlen_loop fuel s (s32 (n + 1))
  end.
Definition ustrlen (fuel : nat) (s : Z) : M mem Z := let! n := ustrlen_loop fuel s 0 in ret (u32 n).

Fixpoint umemset_loop (fuel : nat) (cdst c n i : Z) : M mem unit :=
  match fuel with
  | O => out_of_fuel
  | S fuel =>
      if u32 i <? n then store8 (cdst + i) c;;; umemset_loop fuel cdst c n (s32 (i + 1)) else ret tt
  end.
Definition umemset (dst c n : Z) : M mem Z := umemset_loop (S (Z.to_nat n)) dst c n 0;;; ret dst.

Fixpoint strchr (fuel : nat) (s c : Z) : M mem Z :=
  match fuel with
  | O => out_of_fuel
  | S fuel =>
      let! b := load8 s in
      if b =? 0 then ret 0 else if b =? c then ret s else strchr fuel (s + 1) c
  end.

(** [n*10 + *s++ - '0'] is computed with 32 bits. *)
Fixpoint atoi_loop (fuel : nat) (s n : Z) : M mem Z :=
  match fuel with
  | O => out_of_fuel
  | S fuel =>
      let! b := load8 s in
      if (48 <=? b) && (b <=? 57) then atoi_loop fuel (s + 1) (s32 (n * 10 + b - 48)) else ret n
  end.
Definition atoi (fuel : nat) (s : Z) : M mem Z := atoi_loop fuel s 0.

Fixpoint umemmove_up (n : nat) (dst src : Z) : M mem unit :=
  match n with
  | O => ret tt
  | S n => let! b := load8 src in store8 dst b;;; umemmove_up n (dst + 1) (src + 1)
  end.
Fixpoint umemmove_down (n : nat) (dst src : Z) : M mem unit :=
  match n with
  | O => ret tt
  | S n => let! b := load8 (src - 1) in store8 (dst - 1) b;;; umemmove_down n (dst - 1) (src - 1)
  end.
(** [n] is an [int]: nothing is copied if it is negative. *)
Definition umemmove (vdst vsrc n : Z) : M mem Z :=
  (if vdst <? vsrc then umemmove_up (Z.to_nat n) vdst vsrc
   else umemmove_down (Z.to_nat n) (vdst + n) (vsrc + n));;;
  ret vdst.

Fixpoint umemcmp_loop (n : nat) (p1 p2 : Z) : M mem Z :=
  match n with
  | O => ret 0
  | S n =>
      let! a := load8 p1 in
      let! b := load8 p2 in
      if negb (a =? b) then ret (a - b) else umemcmp_loop n (p1 + 1) (p2 + 1)
  end.
Definition umemcmp (s1 s2 n : Z) : M mem Z := umemcmp_loop (Z.to_nat n) s1 s2.
(** [memcpy] takes an unsigned count and hands it on as an [int]. *)
Definition umemcpy (dst src n : Z) : M mem Z := umemmove dst src (s32 n).

(** * System calls *)

(** [u_read fd n] is [None] for -1. *)
Class Sys (St : Type) := {
  u_open : list Z → Z → M St Z;
  u_read : Z → nat → M St (option (list Z));
  u_write : Z → list Z → M St Z;
  u_close : Z → M St Z;
}.

Record world := World {
  w_files : gmap (list Z) (list Z);   (* what the files that can be opened hold *)
  w_fds : gmap Z (list Z);            (* what is left to read of a descriptor *)
  w_sizes : list nat;                 (* by how much the coming reads fall short *)
  w_out : gmap Z (list Z);            (* what was written *)
}.
Definition set_fds (f : gmap Z (list Z)) (s : world) : world := World (w_files s) f (w_sizes s) (w_out s).
Definition out_of (fd : Z) (s : world) : list Z := default [] (w_out s !! fd).

(** The lowest descriptor from [fd] on that is free. *)
Fixpoint free_fd (n : nat) (fd : Z) (fds : gmap Z (list Z)) : Z :=
  match n with
  | O => -1
  | S n => match fds !! fd with None => fd | Some _ => free_fd n (fd + 1) fds end
  end.
(** What a read of at most [n] bytes returns when it falls short by [k]: never
    nothing before the end. *)
Definition short_read (n k : nat) (bs : list Z) : list Z := take (Nat.min n (Nat.max 1 (n - k))) bs.

#[export] Instance world_sys : Sys world := {|
  u_open := λ path _ s,
    match w_files s !! path with
    | None => Ok (-1) s
    | Some bs => let fd := free_fd 16 0 (w_fds s) in
                 if fd =? -1 then Ok (-1) s else Ok fd (set_fds (<[fd := bs]> (w_fds s)) s)
    end;
  u_read := λ fd n s,
    match w_fds s !! fd with
    | None => Ok None s
    | Some bs =>
        let r := short_read n (hd 0%nat (w_sizes s)) bs in
        Ok (Some r) (World (w_files s) (<[fd := drop (length r) bs]> (w_fds s)) (tl (w_sizes s)) (w_out s))
    end;
  u_write := λ fd bs s,
    Ok (Z.of_nat (length bs)) (World (w_files s) (w_fds s) (w_sizes s) (<[fd := out_of fd s ++ bs]> (w_out s)));
  u_close := λ fd s, Ok 0 (set_fds (delete fd (w_fds s)) s);
|}.

Section ulib.
Context {St : Type} `{Sys St}.

(** The line [gets] leaves in a buffer of [max] bytes, without the NUL; [i] bytes
    are there already. *)
Fixpoint gets_loop (fuel : nat) (max i : Z) : M St (list Z) :=
  match fuel with
  | O => out_of_fuel
  | S fuel =>
      if negb (i + 1 <? max) then ret [] else
      let! r := u_read 0 1 in
      match r with
      | Some [c] =>
          if (c =? 10) || (c =? 13) then ret [c] else
          let! cs := gets_loop fuel max (i + 1) in
          ret (c :: cs)
      | _ => ret []
      end
  end.
Definition gets (max : Z) : M St (list Z) := gets_loop (S (Z.to_nat max)) max 0.
End ulib.

(** * Reading and writing in the world *)

Lemma short_read_prefix n k s : ∃ s', s = short_read n k s ++ s' ∧ s' = drop (length (short_read n k s)) s.
Proof.
  exists (drop (length (short_read n k s)) s). split; [|done]. unfold short_read. rewrite length_take.
  generalize (Nat.min n (Nat.max 1 (n - k))). intros m. destruct (Nat.le_gt_cases m (length s)).
  - rewrite Nat.min_l by done. by rewrite take_drop.
  - rewrite Nat.min_r, take_ge, drop_ge, app_nil_r by lia. done.
Qed.

Lemma short_read_nil n k s : short_read n k s = [] → s = [] ∨ n = 0%nat.
Proof. unfold short_read. destruct s as [|c s]; [auto|]. destruct n as [|n]; [auto|]. by destruct (Nat.max 1 (S n - k)) eqn:?; [lia|]. Qed.

(** [written o w] is [w] with [o] written to the standard output. *)
Definition written (o : list Z) (w : world) : world :=
  World (w_files w) (w_fds w) (w_sizes w) (if decide (o = []) then w_out w else <[1 := out_of 1 w ++ o]> (w_out w)).

Lemma written_app o1 o2 w : written o2 (written o1 w) = written (o1 ++ o2) w.
Proof.
  unfold written, out_of. destruct w as [fs fds sz out]. simpl. f_equal.
  destruct (decide (o1 = [])) as [->|H1]; [done|].
  destruct (decide (o2 = [])) as [->|H2].
  - rewrite app_nil_r. by rewrite decide_False.
  - rewrite decide_False by (destruct o1; done). rewrite lookup_insert_eq, insert_insert_eq. simpl. by rewrite app_assoc.
Qed.

Lemma written_none w : written [] w = w.
Proof. by destruct w. Qed.
Lemma out_written o w : out_of 1 (written o w) = out_of 1 w ++ o.
Proof.
  unfold out_of at 1, written. simpl. destruct (decide (o = [])) as [->|]; [by rewrite app_nil_r|].
  by rewrite lookup_insert_eq.
Qed.

(** [exit] in a routine: a value or the exit status. *)
Inductive outcome (A : Type) := Value (a : A) | Exited (status : Z).
Arguments Value {A} _.
Arguments Exited {A} _.
Definition obind {St A B} (m : M St (outcome A)) (f : A → M St (outcome B)) : M St (outcome B) :=
  let! r := m in match r with Value a => f a | Exited st => ret (Exited st) end.
Notation "'let?' x := m 'in' k" := (obind m (λ x, k)) (at level 200, x name, k at level 200).
Lemma wp_obind {St A B} (E : env St) (m : M St (outcome A)) (f : A → M St (outcome B)) Q P s :
  wp E m P s → (∀ s', (∀ st, P (Exited st) s' → Q (Exited st) s')) → (∀ a s', P (Value a) s' → wp E (f a) Q s') →
  wp E (obind m f) Q s.
Proof. intros Hm He Hf. eapply wp_call; [exact Hm|]. intros [a|st] s' H; [by apply Hf|by apply He]. Qed.

(** [printf] of the user library writes to the standard output. *)
Section uputs.
Context {St : Type} `{Sys St}.
Definition uputc (fd c : Z) : M St unit := let! _ := u_write fd [c] in ret tt.
End uputs.
