(* ===== verification/Grep.v ===== *)
(** The pattern matcher and the filter of user/grep.c.

    A string is the list of its bytes before the NUL.  [matches] is the
    language the patterns denote; the matcher is proved equivalent to it, and the
    filter prints the complete lines that match, however the reads cut up the
    input. *)

From S2P Require Import Prelude Printf Ulib.
Local Open Scope Z_scope.

(** * The matcher *)

Definition star : Z := 42.
Definition dot : Z := 46.
Definition caret : Z := 94.
Definition dollar : Z := 36.

(** [matchstar(c, re, text)], given [matchhere(re, _)]. *)
Definition matchstar (here : list Z → bool) (c : Z) : list Z → bool :=
  fix go (text : list Z) : bool :=
    here text ||
    match text with
    | t :: text => ((t =? c) || (c =? dot)) && go text
    | [] => false
    end.
Fixpoint matchhere (re text : list Z) : bool :=
  match re with
  | [] => true
  | c :: re1 =>
      let one := match text with
                 | t :: text => ((c =? dot) || (c =? t)) && matchhere re1 text
                 | [] => false
                 end in
      match re1 with
      | s :: re2 => if s =? star then matchstar (matchhere re2) c text else one
      | [] => if c =? dollar then bool_decide (text = []) else one
      end
  end.
(** The loop looks at every suffix, the empty one included. *)
Fixpoint match_from (re text : list Z) : bool :=
  matchhere re text || match text with _ :: text => match_from re text | [] => false end.
Definition gmatch (re text : list Z) : bool :=
  match re with
  | c :: re1 => if c =? caret then matchhere re1 text else match_from re text
  | [] => match_from re text
  end.

(** * The language of the patterns *)

Inductive token := One (c : Z) | Star (c : Z) | End.
(** A character followed by a star is a repetition, a dollar at the end is the end
    of the text, everything else is a character. *)
Fixpoint parse (re : list Z) : list token :=
  match re with
  | [] => []
  | c :: re1 =>
      match re1 with
      | s :: re2 => if s =? star then Star c :: parse re2 else One c :: parse re1
      | [] => if c =? dollar then [End] else [One c]
      end
  end.
Definition char_ok (c t : Z) : Prop := c = dot ∨ c = t.
(** The text starts with what the tokens denote. *)
Inductive matches : list token → list Z → Prop :=
| matches_nil text : matches [] text
| matches_end : matches [End] []
| matches_one c t ts text : char_ok c t → matches ts text → matches (One c :: ts) (t :: text)
| matches_star c reps ts text : Forall (char_ok c) reps → matches ts text → matches (Star c :: ts) (reps ++ text).

(** [^] anchors the pattern at the start of the line. *)
Definition pattern_matches (re text : list Z) : Prop :=
  match re with
  | c :: re1 => if c =? caret then matches (parse re1) text
                else ∃ pre post, text = pre ++ post ∧ matches (parse re) post
  | [] => True
  end.

Section matcher.
Implicit Types (re text : list Z) (c t : Z).

Lemma matchstar_cons (here : list Z → bool) c t text :
  matchstar here c (t :: text) = here (t :: text) || (((t =? c) || (c =? dot)) && matchstar here c text).
Proof. done. Qed.

Lemma char_ok_eqb c t : (t =? c) || (c =? dot) = true ↔ char_ok c t.
Proof. unfold char_ok. rewrite orb_true_iff, !Z.eqb_eq. naive_solver. Qed.

Lemma matchstar_spec (here : list Z → bool) c ts text :
  (∀ text, here text = true ↔ matches ts text) →
  matchstar here c text = true ↔ matches (Star c :: ts) text.
Proof.
  intros Hh. split.
  - induction text as [|t text IH].
    + simpl. rewrite orb_false_r, Hh. intros Hm. by apply (matches_star c []).
    + rewrite matchstar_cons, orb_true_iff, andb_true_iff, Hh, char_ok_eqb.
      intros [Hm|[Hc Hm%IH]]; [by apply (matches_star c [])|].
      inversion Hm as [| | |? reps ? text' Hr Hm']; subst.
      apply (matches_star c (t :: reps)); [by constructor|done].
  - intros Hm. inversion Hm as [| | |? reps ? text' Hr Hm']; subst. clear Hm.
    induction Hr as [|t reps Ht _ IH]; simpl app.
    + destruct text'; simpl; by rewrite (proj2 (Hh _) Hm').
    + rewrite matchstar_cons, orb_true_iff, andb_true_iff, char_ok_eqb. auto.
Qed.

Lemma one_spec c ts re text :
  (∀ text, matchhere re text = true ↔ matches ts text) →
  match text with t :: text => ((c =? dot) || (c =? t)) && matchhere re text | [] => false end = true ↔
  matches (One c :: ts) text.
Proof.
  intros Hre. destruct text as [|t text].
  - split; [done|]. intros Hm. inversion Hm.
  - rewrite andb_true_iff, orb_true_iff, !Z.eqb_eq, Hre. split.
    + intros [Hc Hm]. by apply matches_one.
    + intros Hm. inversion Hm. auto.
Qed.

Lemma matchhere_spec n : ∀ re, (length re < n)%nat → ∀ text, matchhere re text = true ↔ matches (parse re) text.
Proof.
  induction n as [|n IH]; [lia|]. intros re Hn text. destruct re as [|c re1]; [split; [constructor|done]|].
  simpl in Hn. destruct re1 as [|s re2].
  - cbn [matchhere parse]. destruct (Z.eqb_spec c dollar) as [->|_].
    + rewrite bool_decide_eq_true. split; [intros ->; constructor|]. intros Hm. by inversion Hm.
    + apply (one_spec c [] [] text). intros text'. split; [constructor|done].
  - cbn [matchhere parse]. fold matchhere. destruct (s =? star).
    + apply matchstar_spec. intros text'. apply IH. simpl in Hn. lia.
    + apply (one_spec c (parse (s :: re2)) (s :: re2) text). intros text'. apply IH. lia.
Qed.

Lemma match_from_spec re text :
  match_from re text = true ↔ ∃ pre post, text = pre ++ post ∧ matches (parse re) post.
Proof.
  assert (∀ text, matchhere re text = true ↔ matches (parse re) text) as Hh.
  { intros t. apply (matchhere_spec (S (length re))). lia. }
  induction text as [|t text IH]; cbn [match_from]; rewrite orb_true_iff, Hh.
  - split; [intros [Hm|?]; [by exists [], []|done]|]. intros ([|??] & [|??] & ? & Hm); try done. by left.
  - rewrite IH. split.
    + intros [Hm|(pre & post & -> & Hm)]; [by exists [], (t :: text)|by exists (t :: pre), post].
    + intros ([|x pre] & post & Ht & Hm); [left; simpl in Ht; by subst|].
      injection Ht as -> ->. right. by exists pre, post.
Qed.

(** C9: the matcher is equivalent to the language of the patterns: a literal, [.],
    a starred character, [$] at the end, and [^] at the start. *)
Theorem gmatch_iff re text : gmatch re text = true ↔ pattern_matches re text.
Proof.
  unfold gmatch, pattern_matches. destruct re as [|c re1].
  - split; [done|]. intros _. by destruct text.
  - destruct (c =? caret); [|apply match_from_spec]. apply (matchhere_spec (S (length re1))). lia.
Qed.
End matcher.

(** * The filter *)

(** [strchr(p, '\n')]: the line up to it, and what follows. *)
Fixpoint next_line (s : list Z) : option (list Z * list Z) :=
  match s with
  | [] => None
  | c :: s =>
      if c =? 0 then None else
      if c =? 10 then Some ([], s) else
      match next_line s with Some (l, rest) => Some (c :: l, rest) | None => None end
  end.

Section grep.
Context {St : Type} `{Sys St}.

(** Prints the complete lines of [s] that match; the value is the rest. *)
Fixpoint grep_lines (fuel : nat) (pattern s : list Z) : M St (list Z) :=
  match next_line s with
  | None => ret s
  | Some (l, rest) =>
      match fuel with
      | O => out_of_fuel
      | S fuel =>
          (if gmatch pattern l then let! _ := u_write 1 (l ++ [10]) in ret tt else ret tt);;;
          grep_lines fuel pattern rest
      end
  end.
(** [b] are the [m] bytes the buffer holds. *)
Fixpoint grep_loop (fuel : nat) (pattern : list Z) (fd : Z) (b : list Z) : M St unit :=
  let! r := u_read fd (1023 - length b) in
  match r with
  | Some (c :: d) =>
      match fuel with
      | O => out_of_fuel
      | S fuel =>
          let s := b ++ c :: d in
          let! rest := grep_lines (length s) pattern s in
          grep_loop fuel pattern fd rest
      end
  | _ => ret tt
  end.
Definition grep (fuel : nat) (pattern : list Z) (fd : Z) : M St unit := grep_loop fuel pattern fd [].

(** The exit status. *)
Fixpoint grep_files (fuel : nat) (pattern : list Z) (args : list (list Z)) : M St Z :=
  match args with
  | [] => ret 0
  | a :: args =>
      let! fd := u_open a 0 in
      if fd <? 0 then let! _ := u_write 1 (lit "grep: cannot open " ++ a ++ [10]) in ret 1 else
      grep fuel pattern fd;;;
      let! _ := u_close fd in
      grep_files fuel pattern args
  end.
Definition grep_main (fuel : nat) (argv : list (list Z)) : M St Z :=
  match argv with
  | _ :: pattern :: args =>
      match args with
      | [] => grep fuel pattern 0;;; ret 0
      | _ => grep_files fuel pattern args
      end
  | _ => let! _ := u_write 2 (lit "usage: grep pattern [file ...]" ++ [10]) in ret 1
  end.
End grep.

(** * What the filter prints *)

(** The lines of [s] that match, with their newlines; and what follows the last
    newline. *)
Fixpoint split_lines (cur s : list Z) : list (list Z) * list Z :=
  match s with
  | [] => ([], cur)
  | c :: s => if c =? 10 then let '(ls, r) := split_lines [] s in (cur :: ls, r) else split_lines (cur ++ [c]) s
  end.
Definition lines_of (s : list Z) : list (list Z) := fst (split_lines [] s).
Definition tail_of_text (s : list Z) : list Z := snd (split_lines [] s).
Definition filtered (pattern s : list Z) : list Z :=
  concat ((λ l, l ++ [10]) <$> filter (λ l, gmatch pattern l = true) (lines_of s)).

Section filter.
Implicit Types (pattern s b cur l : list Z) (w : world).

Definition no_nul s : Prop := 0 ∉ s.

Lemma split_lines_cur cur s :
  split_lines cur s = match split_lines [] s with
                      | (l :: ls, r) => ((cur ++ l) :: ls, r)
                      | ([], r) => ([], cur ++ r)
                      end.
Proof.
  revert cur. induction s as [|c s IH]; intros cur; simpl; [by rewrite app_nil_r|].
  destruct (c =? 10).
  - destruct (split_lines [] s). by rewrite app_nil_r.
  - rewrite IH, (IH [c]). destruct (split_lines [] s) as [[|l ls] r]; by rewrite <- app_assoc.
Qed.

Lemma split_lines_cons c s :
  split_lines [] (c :: s) = if c =? 10 then let '(ls, r) := split_lines [] s in ([] :: ls, r) else
    match split_lines [] s with
    | (l :: ls, r) => ((c :: l) :: ls, r)
    | ([], r) => ([], c :: r)
    end.
Proof. simpl. destruct (c =? 10); [done|]. by rewrite split_lines_cur. Qed.

Lemma next_line_split s :
  no_nul s →
  match next_line s with
  | None => lines_of s = [] ∧ tail_of_text s = s
  | Some (l, rest) => lines_of s = l :: lines_of rest ∧ tail_of_text s = tail_of_text rest ∧ s = l ++ 10 :: rest
  end.
Proof.
  unfold no_nul, lines_of, tail_of_text. induction s as [|c s IH]; intros Hn; [done|].
  cbn [next_line]. rewrite (proj2 (Z.eqb_neq c 0)) by set_solver. rewrite split_lines_cons.
  destruct (Z.eqb_spec c 10) as [->|Hc]; [by destruct (split_lines [] s)|].
  specialize (IH ltac:(set_solver)). destruct (next_line s) as [[l rest]|].
  - destruct IH as (H1 & H2 & ->). destruct (split_lines [] (l ++ 10 :: rest)) as [[|l' ls] r]; simpl in *; [done|].
    injection H1 as -> ->. done.
  - destruct IH as [H1 H2]. destruct (split_lines [] s) as [[|l' ls] r]; simpl in *; [|done]. by subst.
Qed.

(** The text before and after a cut. *)
Lemma split_lines_app s1 s2 :
  split_lines [] (s1 ++ s2) =
  let '(ls, r) := split_lines [] s1 in let '(ls', r') := split_lines [] (r ++ s2) in (ls ++ ls', r').
Proof.
  induction s1 as [|c s1 IH]; [simpl; by destruct (split_lines [] s2)|].
  rewrite <- app_comm_cons, !split_lines_cons, IH. destruct (c =? 10) eqn:Hc.
  - destruct (split_lines [] s1) as [ls r]. by destruct (split_lines [] (r ++ s2)).
  - destruct (split_lines [] s1) as [[|l ls] r].
    + rewrite <- app_comm_cons, split_lines_cons, Hc. by destruct (split_lines [] (r ++ s2)) as [[|??] ?].
    + by destruct (split_lines [] (r ++ s2)).
Qed.

Lemma tail_no_newline s : next_line s = None → no_nul s → lines_of s = [].
Proof. intros Hl Hn. pose proof (next_line_split s Hn) as Hs. rewrite Hl in Hs. apply Hs. Qed.

Lemma filtered_app pattern s1 s2 : filtered pattern (s1 ++ s2) = filtered pattern s1 ++ filtered pattern (tail_of_text s1 ++ s2).
Proof.
  unfold filtered, lines_of, tail_of_text. rewrite split_lines_app.
  destruct (split_lines [] s1) as [ls r]. simpl. destruct (split_lines [] (r ++ s2)) as [ls' r']. simpl.
  by rewrite filter_app, fmap_app, concat_app.
Qed.

Lemma grep_lines_spec E fuel pattern s w :
  no_nul s → (length s ≤ fuel)%nat →
  wp E (grep_lines fuel pattern s) (λ rest w', rest = tail_of_text s ∧ w' = written (filtered pattern s) w) w.
Proof.
  revert s w. induction fuel as [|fuel IH]; intros s w Hn Hl; cbn [grep_lines]; pose proof (next_line_split s Hn) as Hs;
    destruct (next_line s) as [[l rest]|].
  - destruct Hs as (_ & _ & ->). rewrite length_app in Hl. simpl in Hl. lia.
  - destruct Hs as [H1 H2]. apply wp_ret. split; [done|]. unfold filtered. rewrite H1. by destruct w.
  - destruct Hs as (H1 & H2 & ->). rewrite length_app in Hl. simpl in Hl.
    eapply (wp_call _ _ _ (λ _ w1, w1 = written (if gmatch pattern l then l ++ [10] else []) w)).
    + destruct (gmatch pattern l); [|apply wp_ret; by destruct w].
      apply wp_bind. eapply wp_ok; [reflexivity|]. apply wp_ret. unfold written. rewrite decide_False; [done|].
      by destruct l.
    + intros _ w1 ->. eapply wp_mono; [apply IH; [unfold no_nul in *; set_solver|lia]|].
      cbn beta. intros r w2 [-> ->]. split; [done|]. rewrite written_app. f_equal.
      unfold filtered. rewrite H1, filter_cons. by destruct (gmatch pattern l).
  - destruct Hs as [H1 H2]. apply wp_ret. split; [done|]. unfold filtered. rewrite H1. by destruct w.
Qed.

Lemma lines_app s1 s2 : lines_of (s1 ++ s2) = lines_of s1 ++ lines_of (tail_of_text s1 ++ s2).
Proof.
  unfold lines_of, tail_of_text. rewrite split_lines_app.
  destruct (split_lines [] s1) as [ls r]. simpl. by destruct (split_lines [] (r ++ s2)).
Qed.

Lemma tail_fix s : tail_of_text (tail_of_text s) = tail_of_text s ∧ lines_of (tail_of_text s) = [].
Proof.
  unfold tail_of_text, lines_of. induction s as [|c s IH]; [done|]. rewrite split_lines_cons.
  destruct (c =? 10) eqn:Hc; [by destruct (split_lines [] s)|].
  destruct (split_lines [] s) as [[|l ls] r]; simpl in *; [|done]. rewrite Hc, split_lines_cur.
  destruct (split_lines [] r) as [[|??] ?]; simpl in *; [by destruct IH as [-> _]|by destruct IH].
Qed.

Lemma tail_sub s x : x ∈ tail_of_text s → x ∈ s.
Proof.
  unfold tail_of_text. induction s as [|c s IH]; [done|]. rewrite split_lines_cons, elem_of_cons.
  destruct (c =? 10); [destruct (split_lines [] s); simpl in *; auto|].
  destruct (split_lines [] s) as [[|??] r]; simpl in *; [rewrite elem_of_cons; tauto|auto].
Qed.

(** The first line of a text that starts without a newline. *)
Lemma first_line_long b s l ls : lines_of b = [] → lines_of (b ++ s) = l :: ls → (length b ≤ length l)%nat.
Proof.
  intros Hb. assert (split_lines [] b = ([], b)) as Hs.
  { unfold lines_of in Hb. destruct (split_lines [] b) as [[|??] r] eqn:Hs; [|done]. f_equal. clear Hb s.
    revert r Hs. induction b as [|c b IH]; intros r; [by intros [= ->]|]. rewrite split_lines_cons.
    destruct (c =? 10); [by destruct (split_lines [] b)|]. destruct (split_lines [] b) as [[|??] r']; [|done].
    intros [= <-]. f_equal. by apply IH. }
  clear Hb. unfold lines_of. revert l ls. induction b as [|c b IH]; intros l ls; [simpl; lia|].
  rewrite split_lines_cons in Hs. destruct (c =? 10) eqn:Hc; [by destruct (split_lines [] b)|].
  rewrite <- app_comm_cons, split_lines_cons, Hc.
  destruct (split_lines [] b) as [[|??] r'] eqn:Hb; [|done]. injection Hs as ->. specialize (IH eq_refl).
  destruct (split_lines [] (b ++ s)) as [[|l' ls'] r'']; simpl in *; [done|]. intros [= <- _]. simpl.
  specialize (IH l' ls' eq_refl). lia.
Qed.

(** A complete line with its newline fits in the buffer. *)
Definition lines_fit (s : list Z) : Prop := Forall (λ l, (length l ≤ 1022)%nat) (lines_of s).

Lemma grep_loop_spec E fuel : ∀ pattern fd b s w,
  w_fds w !! fd = Some s → lines_of b = [] → tail_of_text b = b → no_nul (b ++ s) → lines_fit (b ++ s) → (length s ≤ fuel)%nat →
  wp E (grep_loop fuel pattern fd b)
    (λ _ w', w_out w' = w_out (written (filtered pattern (b ++ s)) w) ∧ w_files w' = w_files w) w.
Proof.
  induction fuel as [|fuel IH]; intros pattern fd b s w Hfd Hb Htb Hn Hf Hl; cbn [grep_loop]; apply wp_bind;
    (eapply wp_ok; [simpl; rewrite Hfd; reflexivity|]);
    set (d := short_read (1023 - length b) (hd 0%nat (w_sizes w)) s);
    destruct (short_read_prefix (1023 - length b) (hd 0%nat (w_sizes w)) s) as (s' & Hs & Hs'); fold d in Hs, Hs'.
  { destruct s; [|simpl in Hl; lia]. destruct d; [|done]. apply wp_ret. split; [|done].
    rewrite app_nil_r. unfold filtered. by rewrite Hb. }
  destruct d as [|c d'] eqn:Hd.
  - apply wp_ret. split; [|done]. assert (lines_of (b ++ s) = []) as Hno; [|unfold filtered; by rewrite Hno].
    apply short_read_nil in Hd as [->|Hz]; [by rewrite app_nil_r|].
    destruct (lines_of (b ++ s)) as [|l ls] eqn:Hls; [done|]. pose proof (first_line_long b s l ls Hb Hls).
    unfold lines_fit in Hf. rewrite Hls in Hf. apply Forall_cons in Hf as [? _]. lia.
  - rewrite <- Hs'. set (w1 := World _ _ _ _). rewrite Hs in Hn, Hf, Hl |- *. rewrite app_assoc in Hn, Hf |- *.
    set (b1 := b ++ c :: d') in *. eapply wp_call; [apply grep_lines_spec; [|done]|].
    { unfold no_nul in *. rewrite elem_of_app in Hn. tauto. }
    cbn beta. intros rest w2 [-> ->].
    destruct (tail_fix b1) as [Ht1 Ht2].
    eapply wp_mono; [apply (IH pattern fd (tail_of_text b1) s')|].
    + simpl. apply lookup_insert_eq.
    + done.
    + done.
    + unfold no_nul in *. rewrite !elem_of_app in *. intros [Hx%tail_sub|Hx]; tauto.
    + unfold lines_fit in *. rewrite lines_app in Hf. by apply Forall_app in Hf as [_ Hf].
    + rewrite length_app in Hl. simpl in Hl. lia.
    + cbn beta. intros _ w3 [Ho Hfs]. split; [|by rewrite Hfs].
      rewrite Ho, written_app, <- filtered_app. done.
Qed.

(** C14: [grep] prints, in order, exactly the complete lines that match the
    pattern, however the reads cut up its input, provided that the input has
    no NUL and no line longer than the buffer can hold. *)
Theorem grep_filters fuel pattern fd s w :
  w_fds w !! fd = Some s → no_nul s → lines_fit s → (length s ≤ fuel)%nat →
  returns (grep fuel pattern fd) (λ _ w', out_of 1 w' = out_of 1 w ++ filtered pattern s) w.
Proof.
  intros Hfd Hn Hf Hl. eapply wp_mono; [by apply (grep_loop_spec no_sleep fuel pattern fd [] s w)|].
  intros _ w' [Ho _]. unfold out_of at 1. rewrite Ho. unfold written. simpl.
  destruct (decide (filtered pattern s = [])) as [->|]; [by rewrite app_nil_r|]. by rewrite lookup_insert_eq.
Qed.
End filter.

(** "[a*b]" on three lines, read in pieces. *)
Definition demo_world : world :=
  World ∅ {[0 := lit "xaab" ++ [10] ++ lit "ccc" ++ [10] ++ lit "b" ++ [10] ++ lit "b"]} [1020; 1021; 1019]%nat ∅.
Lemma grep_filters_witness :
  returns (grep 20 (lit "a*b") 0) (λ _ w', out_of 1 w' = lit "xaab" ++ [10] ++ lit "b" ++ [10]) demo_world.
Proof.
  eapply wp_mono; [apply (grep_filters 20 (lit "a*b") 0 (lit "xaab" ++ [10] ++ lit "ccc" ++ [10] ++ lit "b" ++ [10] ++ lit "b"))|].
  - reflexivity.
  - unfold no_nul. by_compute.
  - unfold lines_fit. by_compute.
  - vm_compute. lia.
  - cbn beta. intros _ w' ->. vm_compute. reflexivity.
Defined.
