(* ===== verification/Umalloc.v ===== *)
(** The memory allocator of the user library (user/umalloc.c).

    The memory is a map from addresses to headers; what the blocks hold is not
    modelled.  A pointer is a byte address and [p + k] of the code is
    [p + 16 * k].  The free list is circular, in address order, and starts at the
    static header [base], which lies below the heap. *)

From S2P Require Import Prelude.
Local Open Scope Z_scope.

Record header := Header { h_ptr : Z; h_size : Z }.
Definition sizeof_header : Z := 16.
(** [p + k] for a [Header *p]. *)
Definition hdr_at (p k : Z) : Z := p + sizeof_header * k.

Record ust := Ust { hdrs : gmap Z header; freep : Z; brk : Z; brk_max : Z }.
Definition set_hdrs (h : gmap Z header) (s : ust) : ust := Ust h (freep s) (brk s) (brk_max s).
Definition set_freep (p : Z) (s : ust) : ust := Ust (hdrs s) p (brk s) (brk_max s).

Section umalloc.
Context (base : Z).

Definition hdr (p : Z) : M ust header := get_some (λ s, hdrs s !! p).
(** A store to one field of a header; the memory at [p] is there whether or not
    it was a header before. *)
Definition set_ptr (p v : Z) : M ust unit :=
  modify (λ s, set_hdrs (<[p := Header v (from_option h_size 0 (hdrs s !! p))]> (hdrs s)) s).
Definition set_size (p v : Z) : M ust unit :=
  modify (λ s, set_hdrs (<[p := Header (from_option h_ptr 0 (hdrs s !! p)) v]> (hdrs s)) s).
(** [sbrk] of the kernel: the old break, or -1. *)
Definition sbrk (n : Z) : M ust Z := λ s,
  if (0 <=? brk s + n) && (brk s + n <=? brk_max s) then Ok (brk s) (Ust (hdrs s) (freep s) (brk s + n) (brk_max s))
  else Ok (-1) s.

(** The loop of [free]: the free header [bp] goes after. *)
Fixpoint free_find (fuel : nat) (bp p : Z) : M ust Z :=
  let! x := hdr p in
  if (p <? bp) && (bp <? h_ptr x) then ret p else
  if (h_ptr x <=? p) && ((p <? bp) || (bp <? h_ptr x)) then ret p else
  match fuel with
  | O => out_of_fuel
  | S fuel => free_find fuel bp (h_ptr x)
  end.
Definition free (fuel : nat) (ap : Z) : M ust unit :=
  let bp := hdr_at ap (-1) in
  let! start := gets freep in
  let! p := free_find fuel bp start in
  let! b := hdr bp in
  let! x := hdr p in
  (if hdr_at bp (h_size b) =? h_ptr x then
     let! y := hdr (h_ptr x) in
     set_size bp (u32 (h_size b + h_size y));;;
     set_ptr bp (h_ptr y)
   else set_ptr bp (h_ptr x));;;
  let! b := hdr bp in
  let! x := hdr p in
  (if hdr_at p (h_size x) =? bp then
     set_size p (u32 (h_size x + h_size b));;;
     set_ptr p (h_ptr b)
   else set_ptr p bp);;;
  modify (set_freep p).

(** The argument of [sbrk] is an [int]. *)
Definition morecore (fuel : nat) (nu : Z) : M ust Z :=
  let nu := if nu <? 4096 then 4096 else nu in
  let! p := sbrk (s32 (nu * sizeof_header)) in
  if p =? -1 then ret 0 else
  set_size p nu;;;
  free fuel (hdr_at p 1);;;
  gets freep.

Definition nunits_of (nbytes : Z) : Z := u32 ((nbytes + sizeof_header - 1) / sizeof_header + 1).
(** The block at [p], with header [x], is large enough. *)
Definition malloc_take (nunits prevp p : Z) (x : header) : M ust Z :=
  let! q := (if h_size x =? nunits then set_ptr prevp (h_ptr x);;; ret p else
             set_size p (u32 (h_size x - nunits));;;
             let q := hdr_at p (u32 (h_size x - nunits)) in
             set_size q nunits;;; ret q) in
  modify (set_freep prevp);;;
  ret (hdr_at q 1).
Fixpoint malloc_loop (fuel ffuel : nat) (nunits prevp p : Z) : M ust Z :=
  let! x := hdr p in
  if nunits <=? h_size x then
    malloc_take nunits prevp p x
  else
    match fuel with
    | O => out_of_fuel
    | S fuel =>
        let! fp := gets freep in
        let! p := (if p =? fp then morecore ffuel nunits else ret p) in
        if p =? 0 then ret 0 else
        let! x := hdr p in
        malloc_loop fuel ffuel nunits p (h_ptr x)
    end.
Definition malloc (fuel : nat) (nbytes : Z) : M ust Z :=
  let nunits := nunits_of nbytes in
  let! fp := gets freep in
  (if fp =? 0 then set_ptr base base;;; modify (set_freep base);;; set_size base 0 else ret tt);;;
  let! prevp := gets freep in
  let! x := hdr prevp in
  malloc_loop fuel fuel nunits prevp (h_ptr x).
End umalloc.

(** * The free list *)

Abbreviation block := (Z * Z)%type.
Definition stop (b : block) : Z := b.1 + sizeof_header * b.2.
Definition head_addr (e : Z) (L : list block) : Z := match L with [] => e | b :: _ => b.1 end.
(** The headers of [L] are linked in this order, the last one to [e]. *)
Fixpoint seg (h : gmap Z header) (L : list block) (e : Z) : Prop :=
  match L with
  | [] => True
  | b :: L => h !! b.1 = Some (Header (head_addr e L) b.2) ∧ seg h L e
  end.
(** In address order, without touching each other. *)
Fixpoint gapped (lo : Z) (L : list block) : Prop :=
  match L with [] => True | b :: L => lo < b.1 ∧ 0 < b.2 ∧ gapped (stop b) L end.
Definition disjoint_blocks (b b' : block) : Prop := stop b ≤ b'.1 ∨ stop b' ≤ b.1.

(** What [free] makes of the list: blocks that touch become one. *)
Definition cons_merge (b : block) (L : list block) : list block :=
  match L with
  | b' :: L' => if stop b =? b'.1 then (b.1, b.2 + b'.2) :: L' else b :: L
  | [] => [b]
  end.
Fixpoint insert_block (b : block) (L : list block) : list block :=
  match L with
  | [] => [b]
  | x :: L' => if b.1 <? x.1 then cons_merge b L else cons_merge x (insert_block b L')
  end.

Section lists.
Implicit Types (h : gmap Z header) (L A B fr us : list block) (b x : block) (lo e p : Z).

Lemma seg_app h A B e : seg h (A ++ B) e ↔ seg h A (head_addr e B) ∧ seg h B e.
Proof.
  induction A as [|a A IH]; simpl; [tauto|]. rewrite IH.
  assert (head_addr e (A ++ B) = head_addr (head_addr e B) A) as -> by by destruct A. tauto.
Qed.

Lemma seg_insert_other h L e p v : p ∉ L.*1 → seg h L e → seg (<[p := v]> h) L e.
Proof.
  induction L as [|b L IH]; simpl; [done|]. rewrite not_elem_of_cons. intros [Hn Hp] [Hb Hs].
  split; [by rewrite lookup_insert_ne|]. by apply IH.
Qed.

Lemma gapped_weaken lo lo' L : lo' ≤ lo → gapped lo L → gapped lo' L.
Proof. destruct L; simpl; [done|]. intros ? (? & ? & ?). split_and!; [lia|done..]. Qed.

Lemma gapped_elem lo L b : gapped lo L → b ∈ L → lo < b.1 ∧ 0 < b.2.
Proof.
  revert lo. induction L as [|x L IH]; intros lo; simpl; [intros _ Hb; by apply elem_of_nil in Hb|].
  intros (H1 & H2 & H3) [->|Hb]%elem_of_cons; [done|]. destruct (IH _ H3 Hb) as [H4 ?]. split; [|done].
  unfold stop, sizeof_header in H4. lia.
Qed.

Lemma gapped_app lo A b B : gapped lo (A ++ b :: B) ↔ gapped lo A ∧ (∀ a, a ∈ A → stop a < b.1) ∧ lo < b.1 ∧ 0 < b.2 ∧ gapped (stop b) B.
Proof.
  revert lo. induction A as [|a A IH]; intros lo; simpl.
  - split; [|tauto]. intros ?. split_and!; try tauto. intros x Hx. by apply elem_of_nil in Hx.
  - rewrite IH. split.
    + intros (H1 & H2 & H3 & H4 & H5 & H6 & H7). split_and!; try done.
      * intros x [->|Hx]%elem_of_cons; auto.
      * unfold stop, sizeof_header in H5. lia.
    + intros ((H1 & H2 & H3) & H4 & H5 & H6 & H7). split_and!; try done.
      * intros x Hx. apply H4. rewrite elem_of_cons. auto.
      * apply H4. rewrite elem_of_cons. auto.
Qed.

Lemma gapped_drop lo A x B : gapped lo (A ++ x :: B) → gapped lo (A ++ B).
Proof.
  revert lo. induction A as [|a A IH]; intros lo; simpl.
  - intros (? & ? & ?). eapply gapped_weaken; [|done]. unfold stop, sizeof_header. lia.
  - intros (? & ? & ?). split_and!; auto.
Qed.

Lemma gapped_NoDup lo L : gapped lo L → NoDup L.*1.
Proof.
  revert lo. induction L as [|b L IH]; intros lo; simpl; [constructor|]. intros (H1 & H2 & H3).
  constructor; [|by eapply IH]. intros (x & Hx & Hin)%list_elem_of_fmap.
  destruct (gapped_elem _ _ x H3 Hin) as [Hlt _]. unfold stop, sizeof_header in Hlt. lia.
Qed.

Lemma seg_lookup h L e b : seg h L e → b ∈ L → ∃ q, h !! b.1 = Some (Header q b.2).
Proof.
  induction L as [|x L IH]; simpl; [intros _ Hb; by apply elem_of_nil in Hb|].
  intros [Hx Hs] [->|Hb]%elem_of_cons; eauto.
Qed.

(** Where a new block goes. *)
Lemma gapped_split lo L p :
  gapped lo L → p ∉ L.*1 → ∃ A B, L = A ++ B ∧ (∀ b, b ∈ A → b.1 < p) ∧ (∀ b, b ∈ B → p < b.1).
Proof.
  revert lo. induction L as [|x L IH]; intros lo; simpl.
  { intros _ _. exists [], []. split_and!; [done|..]; intros b Hb; by apply elem_of_nil in Hb. }
  intros (H1 & H2 & H3) [Hne Hp]%not_elem_of_cons. destruct (Z.lt_total p x.1) as [Hlt|[?|Hlt]]; [|done|].
  - exists [], (x :: L). split_and!; [done|intros b Hb; by apply elem_of_nil in Hb|].
    intros b [->|Hb]%elem_of_cons; [done|]. destruct (gapped_elem _ _ _ H3 Hb) as [? _]. unfold stop, sizeof_header in *. lia.
  - destruct (IH _ H3 Hp) as (A & B & -> & HA & HB). exists (x :: A), B. split_and!; [done| |done].
    intros b [->|Hb]%elem_of_cons; auto.
Qed.
End lists.

(** * The search of [free] *)

Section find.
Context (base : Z).
Implicit Types (h : gmap Z header) (L A B X Y : list block) (b x : block) (p bp : Z) (s : ust).

(** From a node before the place, the loop reaches the place. *)
Lemma find_up E s A X p sp Y bp fuel :
  seg (hdrs s) (A ++ X ++ (p, sp) :: Y) base → base < bp →
  (∀ b, b ∈ X → b.1 < bp) → p < bp → (∀ b, b ∈ Y → bp < b.1) → (base ≤ p) → (length X ≤ fuel)%nat →
  (∀ b, b ∈ X → base ≤ b.1) → (∀ b x U V, X ++ [(p, sp)] = U ++ b :: x :: V → b.1 < x.1) →
  wp E (free_find fuel bp (head_addr p X)) (λ r s', r = p ∧ s' = s) s.
Proof.
  intros Hs Hbp HX Hp HY Hbase Hf HXb Hasc. revert A fuel Hs Hf. induction X as [|x X IH]; intros A fuel Hs Hf; simpl head_addr.
  - apply seg_app in Hs as [_ Hs]. simpl in Hs. destruct Hs as [Hx _].
    destruct fuel; cbn [free_find]; apply wp_bind; (eapply wp_get_some; [exact Hx|]); simpl h_ptr.
    all: destruct Y as [|y Y]; simpl head_addr;
      [rewrite (proj2 (Z.ltb_lt p bp)), (proj2 (Z.ltb_ge bp base)), (proj2 (Z.leb_le base p)) by lia; simpl; by apply wp_ret
      |assert (bp < y.1) by (apply HY; rewrite elem_of_cons; auto);
       rewrite (proj2 (Z.ltb_lt p bp)), (proj2 (Z.ltb_lt bp y.1)) by lia; simpl; by apply wp_ret].
  - pose proof Hs as Hs'. apply seg_app in Hs as [_ Hs]. simpl in Hs. destruct Hs as [Hx _].
    assert (x.1 < bp) by (apply HX; rewrite elem_of_cons; auto).
    assert (x.1 < head_addr base (X ++ (p, sp) :: Y) ≤ bp) as [Hlt Hle].
    { destruct X as [|x' X]; simpl.
      - split; [apply (Hasc x (p, sp) [] []); done|lia].
      - split; [apply (Hasc x x' [] (X ++ [(p, sp)])); done|].
        assert (x'.1 < bp) by (apply HX; rewrite !elem_of_cons; auto). lia. }
    destruct fuel as [|fuel]; [simpl in Hf; lia|]. cbn [free_find]. apply wp_bind.
    eapply wp_get_some; [exact Hx|]. simpl h_ptr.
    rewrite (proj2 (Z.ltb_ge bp _) Hle), andb_false_r, (proj2 (Z.leb_gt _ x.1) Hlt). simpl.
    replace (head_addr base (X ++ (p, sp) :: Y)) with (head_addr p X) by by destruct X.
    apply (IH ltac:(intros; apply HX; rewrite elem_of_cons; auto) ltac:(intros; apply HXb; rewrite elem_of_cons; auto)
      ltac:(intros b b' U V He; apply (Hasc b b' (x :: U) V); simpl; by rewrite He) (A ++ [x])).
    + by rewrite <- app_assoc.
    + simpl in Hf. lia.
Qed.

(** From a node after the place, the loop reaches the start of the list. *)
Lemma find_down E s A y Y bp fuel Q :
  seg (hdrs s) (A ++ y :: Y) base → base < bp → (∀ b, b ∈ y :: Y → bp < b.1) →
  (∀ b x U V, y :: Y = U ++ b :: x :: V → b.1 < x.1) → (S (length Y) ≤ fuel)%nat →
  (∀ fuel', fuel' = (fuel - S (length Y))%nat → wp E (free_find fuel' bp base) Q s) →
  wp E (free_find fuel bp y.1) Q s.
Proof.
  revert A y fuel. induction Y as [|z Y IH]; intros A y fuel Hs Hbp HY Hasc Hf HQ;
    (destruct fuel as [|fuel]; [simpl in Hf; lia|]);
    pose proof Hs as Hs'; apply seg_app in Hs as [_ Hs]; simpl in Hs; destruct Hs as [Hy _];
    assert (bp < y.1) by (apply HY; rewrite elem_of_cons; auto);
    cbn [free_find]; apply wp_bind; (eapply wp_get_some; [exact Hy|]); simpl h_ptr; rewrite (proj2 (Z.ltb_ge y.1 bp)) by lia; simpl.
  - rewrite (proj2 (Z.ltb_ge bp base)) by lia. rewrite andb_false_r. apply HQ. simpl. lia.
  - assert (y.1 < z.1) by (apply (Hasc y z [] Y); done). rewrite (proj2 (Z.leb_gt z.1 y.1)) by lia. simpl.
    apply (IH (A ++ [y])).
    + by rewrite <- app_assoc.
    + done.
    + intros b Hb. apply HY. rewrite elem_of_cons. auto.
    + intros b x U V He. apply (Hasc b x (y :: U) V). simpl. by rewrite He.
    + simpl in Hf. lia.
    + intros fuel' ->. apply HQ. simpl. lia.
Qed.

Lemma gapped_asc lo L b x U V : gapped lo L → L = U ++ b :: x :: V → b.1 < x.1.
Proof.
  intros Hg ->. apply gapped_app in Hg as (_ & _ & _ & Hb & Hg). simpl in Hg. destruct Hg as [Hg _].
  unfold stop, sizeof_header in Hg. lia.
Qed.

(** The ring: the static header, then the free blocks. *)
Definition ring (fr : list block) : list block := (base, 0) :: fr.

Lemma ring_asc fr b x U V : gapped base fr → ring fr = U ++ b :: x :: V → b.1 < x.1.
Proof.
  intros Hg He. destruct U as [|u U]; simpl in He; injection He as He1 He2.
  - subst b fr. simpl in *. lia.
  - by eapply gapped_asc.
Qed.

(** [fr] is cut where the block at [bp] belongs. *)
Lemma free_find_spec E s fr A p sp Y bp start fuel :
  seg (hdrs s) (ring fr) base → gapped base fr → ring fr = A ++ (p, sp) :: Y → base < bp →
  (∀ b, b ∈ A → b.1 < bp) → p < bp → (∀ b, b ∈ Y → bp < b.1) → start ∈ (ring fr).*1 → (2 * length (ring fr) ≤ fuel)%nat →
  wp E (free_find fuel bp start) (λ r s', r = p ∧ s' = s) s.
Proof.
  intros Hs Hg He Hbp HA Hp HY (b & -> & Hb)%list_elem_of_fmap Hf.
  assert (∀ x, x ∈ ring fr → base ≤ x.1) as Hbase.
  { intros x [->|Hx]%elem_of_cons; [simpl; lia|]. destruct (gapped_elem _ _ _ Hg Hx). lia. }
  assert (∀ A1 X fuel', A = A1 ++ X → (length X ≤ fuel')%nat →
    wp E (free_find fuel' bp (head_addr p X)) (λ r s', r = p ∧ s' = s) s) as Hup.
  { intros A1 X fuel' -> Hf'. eapply (find_up E s A1 X p sp Y); try done.
    - by rewrite He, <- app_assoc in Hs.
    - intros x Hx. apply HA. rewrite elem_of_app. auto.
    - apply (Hbase (p, sp)). rewrite He, !elem_of_app, elem_of_cons. auto.
    - intros x Hx. apply Hbase. rewrite He, !elem_of_app. auto.
    - intros x x' U V Hx. eapply (ring_asc fr x x' (A1 ++ U) (V ++ Y) Hg). rewrite He.
      rewrite <- (app_assoc A1 X), (cons_middle (p, sp)), (app_assoc X), Hx. by rewrite <- !app_assoc, <- !app_comm_cons. }
  rewrite He in Hb. rewrite He, length_app in Hf. simpl in Hf.
  apply elem_of_app in Hb as [Hb|[->|Hb]%elem_of_cons].
  - apply list_elem_of_split in Hb as (A1 & A2 & ->). rewrite length_app in Hf. simpl in Hf.
    apply (Hup A1 (b :: A2)); [done|simpl; lia].
  - apply (Hup A []); [by rewrite app_nil_r|simpl; lia].
  - apply list_elem_of_split in Hb as (Y1 & Y2 & ->). rewrite length_app in Hf. simpl in Hf.
    eapply (find_down E s (A ++ (p, sp) :: Y1) b Y2).
    + rewrite He in Hs. by rewrite <- app_assoc.
    + done.
    + intros x Hx. apply HY. rewrite elem_of_app. auto.
    + intros x x' U V Hx. eapply (ring_asc fr x x' (A ++ (p, sp) :: Y1 ++ U) V Hg). rewrite He, Hx. by rewrite <- app_assoc, <- app_comm_cons, <- app_assoc.
    + lia.
    + intros fuel' ->. assert (base = head_addr p A) as ->.
      { destruct A as [|a A]; simpl in *; [by injection He as <- _ _|by injection He as <- _]. }
      apply (Hup [] A); [done|lia].
Qed.
End find.

(** * Linking a block in *)

Section link.
Implicit Types (h : gmap Z header) (L A B Y : list block) (b x y : block) (p : Z).

(** The new block, joined with the one after it if they touch. *)
Lemma link_next E base s A x Y b (k : M ust unit) Q :
  seg (hdrs s) (A ++ x :: Y) base → NoDup (b.1 :: (A ++ x :: Y).*1) → h_size <$> hdrs s !! b.1 = Some b.2 →
  (∀ y, y ∈ Y → 0 ≤ y.2 ∧ stop b ≤ y.1) → stop b ≠ base → 0 ≤ b.2 →
  (∀ y, y ∈ b :: Y → 0 < y.1 ∧ stop y < 2 ^ 36) →
  (∀ s' b' Y', cons_merge b Y = b' :: Y' → b'.1 = b.1 →
     s' = set_hdrs (<[b.1 := Header (head_addr base Y') b'.2]> (hdrs s)) s → wp E k Q s') →
  wp E (let! c := hdr b.1 in
        let! z := hdr x.1 in
        (if hdr_at b.1 (h_size c) =? h_ptr z then
           let! w := hdr (h_ptr z) in
           set_size b.1 (u32 (h_size c + h_size w));;;
           set_ptr b.1 (h_ptr w)
         else set_ptr b.1 (h_ptr z));;; k) Q s.
Proof.
  intros Hs Hnd Hb HY Hbase Hb0 Hbnd HQ. apply NoDup_cons in Hnd as [Hn Hnd].
  destruct (hdrs s !! b.1) as [[bq bs]|] eqn:Hbh; [|done]. simpl in Hb. injection Hb as ->.
  apply seg_app in Hs as [_ Hs]. simpl in Hs. destruct Hs as [Hx Hs].
  apply wp_bind. eapply wp_get_some; [exact Hbh|]. apply wp_bind. eapply wp_get_some; [exact Hx|]. simpl h_size. simpl h_ptr. apply wp_bind.
  change (hdr_at b.1 b.2) with (stop b). destruct Y as [|y Y]; simpl head_addr.
  - rewrite (proj2 (Z.eqb_neq _ _) Hbase). apply wp_modify. apply (HQ _ b []); [done|done|]. rewrite Hbh. done.
  - simpl in Hs. destruct Hs as [Hy Hs]. simpl cons_merge in HQ.
    destruct (Z.eqb_spec (stop b) y.1) as [He|Hne].
    + apply wp_bind. eapply wp_get_some; [exact Hy|]. simpl h_size. simpl h_ptr.
      destruct (HY y) as [Hy0 _]; [rewrite elem_of_cons; auto|].
      destruct (Hbnd b) as [? _]; [rewrite elem_of_cons; auto|].
      destruct (Hbnd y) as [_ ?]; [rewrite !elem_of_cons; auto|].
      assert (u32 (b.2 + y.2) = b.2 + y.2) as Hu.
      { apply u32_small. unfold stop, sizeof_header in *. lia. }
      rewrite Hu. apply wp_bind, wp_modify, wp_modify. simpl. rewrite lookup_insert_eq, insert_insert_eq. simpl.
      apply (HQ _ (b.1, b.2 + y.2) Y); [done|done|done].
    + apply wp_modify. apply (HQ _ b (y :: Y)); [done|done|]. by rewrite Hbh.
Qed.

(** The block before it, joined with the result if they touch. *)
Lemma link_prev E base s A x Y b (k : M ust unit) Q :
  seg (hdrs s) A x.1 → h_size <$> hdrs s !! x.1 = Some x.2 →
  hdrs s !! b.1 = Some (Header (head_addr base Y) b.2) → seg (hdrs s) Y base →
  NoDup (b.1 :: (A ++ x :: Y).*1) → 0 ≤ x.2 → 0 ≤ b.2 → 0 < x.1 → stop b < 2 ^ 36 →
  (∀ s', seg (hdrs s') (A ++ cons_merge x (b :: Y)) base →
     (∀ a, a ∉ x.1 :: b.1 :: (A ++ Y).*1 → hdrs s' !! a = hdrs s !! a) →
     freep s' = freep s → brk s' = brk s → brk_max s' = brk_max s → wp E k Q s') →
  wp E (let! c := hdr b.1 in
        let! z := hdr x.1 in
        (if hdr_at x.1 (h_size z) =? b.1 then
           set_size x.1 (u32 (h_size z + h_size c));;;
           set_ptr x.1 (h_ptr c)
         else set_ptr x.1 b.1);;; k) Q s.
Proof.
  intros HA Hx Hb HY Hnd Hx0 Hb0 Hx1 Hbnd HQ.
  destruct (hdrs s !! x.1) as [[xq xs]|] eqn:Hxh; [|done]. simpl in Hx. injection Hx as ->.
  apply NoDup_cons in Hnd as [Hn Hnd]. rewrite fmap_app, fmap_cons in Hn, Hnd. apply NoDup_middle in Hnd as [Hnx Hnd].
  rewrite !elem_of_app, elem_of_cons in *.
  assert (∀ v, seg (<[x.1 := v]> (hdrs s)) A x.1) as HA' by (intros v; apply seg_insert_other; tauto).
  assert (∀ v, seg (<[x.1 := v]> (hdrs s)) Y base) as HY' by (intros v; apply seg_insert_other; tauto).
  apply wp_bind. eapply wp_get_some; [exact Hb|]. apply wp_bind. eapply wp_get_some; [exact Hxh|]. simpl h_size. simpl h_ptr. apply wp_bind.
  change (hdr_at x.1 x.2) with (stop x). simpl cons_merge in HQ. destruct (Z.eqb_spec (stop x) b.1) as [He|Hne].
  - assert (u32 (x.2 + b.2) = x.2 + b.2) as Hu by (apply u32_small; unfold stop, sizeof_header in *; lia).
    rewrite Hu. apply wp_bind, wp_modify, wp_modify. simpl. rewrite lookup_insert_eq, insert_insert_eq. simpl.
    apply HQ; [|intros a Ha; simpl; apply lookup_insert_ne; intros <-; apply Ha; rewrite !elem_of_cons; auto|done..].
    apply seg_app. simpl. split; [apply HA'|]. split; [apply lookup_insert_eq|apply HY'].
  - apply wp_modify. rewrite Hxh. simpl.
    apply HQ; [|intros a Ha; simpl; apply lookup_insert_ne; intros <-; apply Ha; rewrite !elem_of_cons; auto|done..].
    apply seg_app. simpl. split; [apply HA'|]. split_and!; [apply lookup_insert_eq| |apply HY'].
    rewrite lookup_insert_ne; [done|]. intros He. apply Hn. auto.
Qed.

End link.

(** * Insertion *)

Section insert.
Implicit Types (L A B Y fr us : list block) (b x y z u : block) (p lo : Z).

Lemma insert_block_here b L : (∀ x, x ∈ L → b.1 < x.1) → insert_block b L = cons_merge b L.
Proof. destruct L as [|x L]; [done|]. intros Hx. simpl. by rewrite (proj2 (Z.ltb_lt _ _) (Hx x ltac:(rewrite elem_of_cons; auto))). Qed.

Lemma cons_merge_far x L : (∀ y, y ∈ L → stop x < y.1) → cons_merge x L = x :: L.
Proof.
  destruct L as [|y L]; [done|]. intros Hy. simpl. rewrite (proj2 (Z.eqb_neq _ _)); [done|].
  specialize (Hy y ltac:(rewrite elem_of_cons; auto)). lia.
Qed.

Lemma cons_merge_head b L : ∃ n L', cons_merge b L = (b.1, n) :: L'.
Proof. destruct L as [|x L]; simpl; [destruct b; eauto|]. destruct (_ =? _); [eauto|]. destruct b; eauto. Qed.

Lemma insert_block_after lo b A p sp Y :
  gapped lo (A ++ (p, sp) :: Y) → (∀ x, x ∈ A → x.1 ≤ b.1) → p ≤ b.1 → (∀ x, x ∈ Y → b.1 < x.1) →
  insert_block b (A ++ (p, sp) :: Y) = A ++ cons_merge (p, sp) (cons_merge b Y).
Proof.
  revert lo. induction A as [|a A IH]; intros lo Hg HA Hp HY.
  - simpl. rewrite (proj2 (Z.ltb_ge b.1 p) Hp). by rewrite insert_block_here.
  - simpl in Hg. destruct Hg as (H1 & H2 & Hg). simpl.
    rewrite (proj2 (Z.ltb_ge b.1 a.1)) by (apply HA; rewrite elem_of_cons; auto).
    rewrite (IH _ Hg) by (done || (intros x Hx; apply HA; rewrite elem_of_cons; auto)).
    destruct A as [|a' A]; simpl in Hg; destruct Hg as (Hg & _).
    + destruct (cons_merge_head (p, sp) (cons_merge b Y)) as (n & L' & ->). simpl.
      rewrite (proj2 (Z.eqb_neq (stop a) p)); [done|]. simpl in Hg. lia.
    + simpl. rewrite (proj2 (Z.eqb_neq (stop a) a'.1)); [done|]. lia.
Qed.

(** The same with the static header in front. *)
Lemma insert_block_ring lo b fr A p sp Y :
  gapped lo fr → (lo, 0) :: fr = A ++ (p, sp) :: Y → lo < b.1 → (∀ x, x ∈ A → x.1 ≤ b.1) → p ≤ b.1 →
  (∀ x, x ∈ Y → b.1 < x.1) → (lo, 0) :: insert_block b fr = A ++ cons_merge (p, sp) (cons_merge b Y).
Proof.
  intros Hg He Hlo HA Hp HY. destruct A as [|a A]; simpl in He.
  - injection He as E1 E2 E3. subst p sp Y. rewrite insert_block_here by done. destruct (cons_merge_head b fr) as (n & L' & ->). simpl.
    unfold stop. simpl. rewrite (proj2 (Z.eqb_neq _ _)); [done|]. lia.
  - injection He as <- ->. simpl. f_equal. eapply insert_block_after; [exact Hg| |done|done]. intros x Hx. apply HA. rewrite elem_of_cons. auto.
Qed.

Lemma gapped_cons_merge lo b L : lo < b.1 → 0 < b.2 → gapped (stop b - 1) L → gapped lo (cons_merge b L).
Proof.
  intros H1 H2. destruct L as [|x L]; simpl; [done|]. intros (H3 & H4 & H5). destruct (Z.eqb_spec (stop b) x.1) as [He|].
  - simpl. split_and!; [done|lia|]. eapply gapped_weaken; [|exact H5]. unfold stop, sizeof_header in *. simpl. lia.
  - simpl. split_and!; [done|done|lia|done|done].
Qed.

Lemma gapped_insert lo b fr :
  gapped lo fr → lo < b.1 → 0 < b.2 → (∀ x, x ∈ fr → disjoint_blocks x b) → gapped lo (insert_block b fr).
Proof.
  revert lo. induction fr as [|x fr IH]; intros lo Hg H1 H2 Hd; simpl; [done|].
  simpl in Hg. destruct Hg as (H3 & H4 & Hg).
  assert (disjoint_blocks x b) as Hx by (apply Hd; rewrite elem_of_cons; auto). unfold disjoint_blocks in Hx.
  destruct (Z.ltb_spec b.1 x.1) as [Hlt|Hge].
  - assert (stop b ≤ x.1) by (unfold stop, sizeof_header in *; lia).
    apply (gapped_cons_merge lo b (x :: fr)); [done|done|]. simpl. split_and!; [lia|done|done].
  - assert (stop x ≤ b.1) by (unfold stop, sizeof_header in *; lia). apply gapped_cons_merge; [done|done|].
    apply IH; [eapply gapped_weaken; [|exact Hg]; lia|lia|done|]. intros y Hy. apply Hd. rewrite elem_of_cons. auto.
Qed.

Lemma insert_block_all (P : block → Prop) b fr :
  (∀ x y, P x → P y → stop x = y.1 → P (x.1, x.2 + y.2)) → P b → (∀ x, x ∈ fr → P x) → ∀ x, x ∈ insert_block b fr → P x.
Proof.
  intros Hm Hb. assert (∀ y L, P y → (∀ x, x ∈ L → P x) → ∀ x, x ∈ cons_merge y L → P x) as Hc.
  { intros y [|z L] Hy HL x; simpl; [by intros ->%list_elem_of_singleton|].
    destruct (Z.eqb_spec (stop y) z.1); rewrite !elem_of_cons.
    - intros [->|Hx]; [|apply HL; rewrite elem_of_cons; auto]. apply Hm; [done| |done]. apply HL. rewrite elem_of_cons. auto.
    - intros [->|[->|Hx]]; [done|apply HL; rewrite elem_of_cons; auto..]. }
  induction fr as [|y fr IH]; intros Hf x; cbn [insert_block]; [by intros ->%list_elem_of_singleton|].
  destruct (b.1 <? y.1); [by apply Hc|]. apply Hc.
  - apply Hf. rewrite elem_of_cons. auto.
  - apply IH. intros z Hz. apply Hf. rewrite elem_of_cons. auto.
Qed.

(** Nothing gets smaller. *)
Lemma insert_block_big b fr : (∀ x, x ∈ fr → 0 ≤ x.2) → ∃ x, x ∈ insert_block b fr ∧ b.2 ≤ x.2.
Proof.
  assert (∀ y L z, 0 ≤ y.2 → z ∈ L → ∃ x, x ∈ cons_merge y L ∧ z.2 ≤ x.2) as Hc.
  { intros y [|w L] z Hy Hz; [by apply elem_of_nil in Hz|]. simpl. destruct (_ =? _).
    - apply elem_of_cons in Hz as [->|Hz]; [exists (y.1, y.2 + w.2)|exists z]; rewrite elem_of_cons; simpl; split; auto; lia.
    - exists z. rewrite elem_of_cons. split; [auto|lia]. }
  assert (∀ L, (∀ x, x ∈ L → 0 ≤ x.2) → ∃ x, x ∈ cons_merge b L ∧ b.2 ≤ x.2) as Hh.
  { intros [|w L] HL; simpl; [exists b; rewrite list_elem_of_singleton; split; [done|lia]|].
    specialize (HL w ltac:(rewrite elem_of_cons; auto)).
    destruct (_ =? _); [exists (b.1, b.2 + w.2)|exists b]; rewrite elem_of_cons; simpl; split; auto; lia. }
  induction fr as [|y fr IH]; intros Hf; cbn [insert_block]; [exists b; rewrite list_elem_of_singleton; split; [done|lia]|].
  destruct (b.1 <? y.1); [by apply Hh|].
  destruct IH as (x & Hx & Hle); [intros z Hz; apply Hf; rewrite elem_of_cons; auto|].
  destruct (Hc y (insert_block b fr) x) as (z & Hz & ?); [apply Hf; rewrite elem_of_cons; auto|done|]. exists z. split; [done|lia].
Qed.
End insert.

(** * The invariant *)

Section alloc.
Context (base : Z) (Hbase : 0 < base).
Implicit Types (L A B Y fr us : list block) (b x y u : block) (p : Z) (s : ust).

(** The free blocks are [fr], in address order and none next to another; [us] are
    the blocks handed out. *)
Record alloc_ok s fr us : Prop := {
  ok_freep : freep s ∈ (ring base fr).*1;
  ok_seg : seg (hdrs s) (ring base fr) base;
  ok_gap : gapped base fr;
  ok_size b : b ∈ us → h_size <$> hdrs s !! b.1 = Some b.2;
  ok_range b : b ∈ fr ++ us → base < b.1 ∧ 0 < b.2 ∧ stop b ≤ brk s;
  ok_free_used b u : b ∈ fr → u ∈ us → disjoint_blocks b u;
  ok_used : NoDup us ∧ ∀ u u', u ∈ us → u' ∈ us → u ≠ u' → disjoint_blocks u u';
  ok_brk : base < brk s ∧ brk s ≤ brk_max s ∧ brk_max s < 2 ^ 36;
}.

Lemma ring_sizes s fr us b : alloc_ok s fr us → b ∈ ring base fr → 0 ≤ b.2 ∧ base ≤ b.1 ∧ stop b ≤ brk s.
Proof.
  intros T [->|Hb]%elem_of_cons.
  - pose proof (ok_brk _ _ _ T). unfold stop. simpl. lia.
  - destruct (ok_range _ _ _ T b) as (? & ? & ?); [rewrite elem_of_app; auto|]. lia.
Qed.

Lemma alloc_ok_perm s fr us us' : us ≡ₚ us' → alloc_ok s fr us → alloc_ok s fr us'.
Proof.
  intros Hp T. assert (∀ b, b ∈ us' ↔ b ∈ us) as Hin by (intros; by rewrite Hp). split; try apply T.
  - intros b Hb%Hin. exact (ok_size _ _ _ T b Hb).
  - intros b Hb. apply (ok_range _ _ _ T b). rewrite elem_of_app in *. by rewrite <- Hin.
  - intros b u Hb Hu%Hin. exact (ok_free_used _ _ _ T b u Hb Hu).
  - destruct (ok_used _ _ _ T) as [Hn Hd]. split; [by rewrite <- Hp|]. intros u u' Hu%Hin Hu'%Hin. by apply Hd.
Qed.

(** Where the block [b] goes in the ring. *)
Lemma ring_place fr b :
  gapped base fr → base < b.1 → b.1 ∉ fr.*1 →
  ∃ A p sp Y, ring base fr = A ++ (p, sp) :: Y ∧ (∀ x, x ∈ A → x.1 < b.1) ∧ p < b.1 ∧ (∀ x, x ∈ Y → b.1 < x.1).
Proof.
  intros Hg Hb Hn. destruct (gapped_split base fr b.1 Hg Hn) as (A0 & Y & -> & HA & HY).
  assert (∃ A p sp, (base, 0) :: A0 = A ++ [(p, sp)]) as (A & p & sp & He).
  { destruct (exists_last (l := (base, 0) :: A0)) as (A & [p sp] & He); [done|]. by exists A, p, sp. }
  assert (∀ x, x ∈ A ++ [(p, sp)] → x.1 < b.1) as Hlt.
  { intros x Hx. rewrite <- He in Hx. apply elem_of_cons in Hx as [->|Hx]; [done|by apply HA]. }
  exists A, p, sp, Y. split_and!; [|intros x Hx; apply Hlt; rewrite elem_of_app; auto|apply (Hlt (p, sp)); rewrite elem_of_app, list_elem_of_singleton; auto|done].
  unfold ring. rewrite app_comm_cons, He, <- app_assoc. done.
Qed.

Lemma fst_not_in b L : (∀ x, x ∈ L → x.1 ≠ b.1) → b.1 ∉ L.*1.
Proof. intros Hx (x & He & Hin)%list_elem_of_fmap. by eapply Hx. Qed.

Lemma disjoint_ne b x : 0 < b.2 → 0 < x.2 → disjoint_blocks x b → x.1 ≠ b.1.
Proof. unfold disjoint_blocks, stop, sizeof_header. lia. Qed.

Lemma ring_NoDup fr : gapped base fr → NoDup (ring base fr).*1.
Proof using.
  intros Hg. simpl. constructor; [|by eapply gapped_NoDup]. intros (x & Hx & Hin)%list_elem_of_fmap.
  destruct (gapped_elem _ _ _ Hg Hin). lia.
Qed.

Lemma cons_merge_tail b Y b' Y' : cons_merge b Y = b' :: Y' → ∃ Y0, Y = Y0 ++ Y'.
Proof using.
  destruct Y as [|y Y]; simpl; [intros [= <- <-]; by exists []|]. destruct (_ =? _); intros [= <- <-]; [by exists [y]|by exists []].
Qed.

(** What the headers are after a free: the ring with the block in it, and the
    headers of the blocks still in use as they were. *)
Lemma free_links E s fr us b fuel Q :
  alloc_ok s fr (b :: us) → (2 * S (length fr) ≤ fuel)%nat →
  (∀ s' p, seg (hdrs s') (ring base (insert_block b fr)) base → p ∈ (ring base (insert_block b fr)).*1 →
     (∀ a, a ≠ b.1 → a ∉ (ring base fr).*1 → hdrs s' !! a = hdrs s !! a) →
     freep s' = p → brk s' = brk s → brk_max s' = brk_max s → Q tt s') →
  wp E (free fuel (hdr_at b.1 1)) Q s.
Proof.
  intros T Hf HQ. unfold free. replace (hdr_at (hdr_at b.1 1) (-1)) with b.1 by (unfold hdr_at, sizeof_header; lia). cbv zeta.
  destruct (ok_range _ _ _ T b) as (Hb1 & Hb2 & Hb3); [rewrite elem_of_app, elem_of_cons; auto|].
  pose proof (ok_brk _ _ _ T) as (Hk1 & Hk2 & Hk3). pose proof (ok_gap _ _ _ T) as Hg. pose proof (ok_seg _ _ _ T) as Hs.
  assert (∀ x, x ∈ fr → disjoint_blocks x b) as Hdis.
  { intros x Hx. apply (ok_free_used _ _ _ T x b Hx). rewrite elem_of_cons. auto. }
  assert (b.1 ∉ fr.*1) as Hnb.
  { apply fst_not_in. intros x Hx. apply disjoint_ne; [done| |by apply Hdis].
    apply (ok_range _ _ _ T x). rewrite elem_of_app. auto. }
  destruct (ring_place fr b Hg Hb1 Hnb) as (A & p & sp & Y & He & HA & Hp & HY).
  assert (∀ x, x ∈ A ++ (p, sp) :: Y → 0 ≤ x.2 ∧ base ≤ x.1 ∧ stop x ≤ brk s) as Hin.
  { intros x Hx. rewrite <- He in Hx. exact (ring_sizes _ _ _ _ T Hx). }
  pose proof (ring_NoDup fr Hg) as Hnd. rewrite He in Hnd, Hs.
  assert (NoDup (b.1 :: (A ++ (p, sp) :: Y).*1)) as Hnd'.
  { constructor; [|done]. rewrite <- He. simpl. rewrite not_elem_of_cons. split; [lia|done]. }
  apply wp_bind, wp_gets. eapply wp_call.
  { eapply (free_find_spec base E s fr A p sp Y b.1); try done; [by rewrite He|exact (ok_freep _ _ _ T)]. }
  cbn beta. intros r s0 [-> ->].
  eapply (link_next E base s A (p, sp) Y b); [exact Hs|exact Hnd'|apply (ok_size _ _ _ T); rewrite elem_of_cons; auto| |unfold stop, sizeof_header; lia|lia| |].
  { intros y Hy. destruct (Hin y) as (? & ? & _); [rewrite elem_of_app, elem_of_cons; auto|]. split; [done|].
    assert (y ∈ ring base fr) as Hyr by (rewrite He, elem_of_app, elem_of_cons; auto).
    pose proof (HY y Hy). apply elem_of_cons in Hyr as [->|Hyr]; [simpl in *; lia|].
    destruct (Hdis y Hyr) as [Hd|Hd]; [|done]. unfold stop, sizeof_header in *. lia. }
  { intros y [->|Hy]%elem_of_cons; [lia|]. destruct (Hin y); [rewrite elem_of_app, elem_of_cons; auto|]. lia. }
  intros s1 b' Y' Hm Hb' Hs1. destruct (cons_merge_tail _ _ _ _ Hm) as [Y0 HY0]. subst Y.
  assert (stop b' < 2 ^ 36 ∧ 0 ≤ b'.2) as [Hsb' Hb'2].
  { clear -Hm Hin Hb2 Hb3 Hk2 Hk3. destruct (Y0 ++ Y') as [|y Y]; simpl in Hm; [by injection Hm as <- _; lia|].
    destruct (Hin y) as (? & ? & ?); [rewrite elem_of_app, !elem_of_cons; auto|].
    destruct (Z.eqb_spec (stop b) y.1); injection Hm as <- _; unfold stop, sizeof_header in *; simpl; lia. }
  rewrite app_comm_cons, app_assoc in Hs. apply seg_app in Hs as [Hs Hs3].
  apply NoDup_cons in Hnd' as [Hnb' _]. rewrite !fmap_app, !fmap_cons, fmap_app, !elem_of_app, elem_of_cons, elem_of_app in Hnb'.
  assert (hdrs s1 = <[b.1 := Header (head_addr base Y') b'.2]> (hdrs s)) as Hh1 by by rewrite Hs1.
  rewrite <- Hb'. eapply (link_prev E base s1 A (p, sp) Y' b').
  - rewrite Hh1. apply seg_insert_other; [tauto|]. apply seg_app in Hs as [Hs _]. exact Hs.
  - rewrite Hh1. simpl. rewrite lookup_insert_ne by (intros Hx; apply Hnb'; rewrite Hx; auto).
    apply seg_app in Hs as [_ Hs]. simpl in Hs. destruct Hs as [-> _]. done.
  - rewrite Hh1, Hb'. apply lookup_insert_eq.
  - rewrite Hh1. apply seg_insert_other; [tauto|done].
  - constructor; [rewrite Hb', fmap_app, fmap_cons, elem_of_app, elem_of_cons; tauto|].
    rewrite !fmap_app, !fmap_cons, fmap_app in Hnd. rewrite fmap_app, fmap_cons. apply NoDup_middle in Hnd as [Hd1 Hd2].
    rewrite !elem_of_app in Hd1. rewrite !NoDup_app in Hd2. setoid_rewrite elem_of_app in Hd2.
    apply NoDup_middle. rewrite elem_of_app, NoDup_app. split; [tauto|]. split_and!; [tauto| |tauto].
    intros x Hx ?. destruct Hd2 as (_ & Hd2 & _). apply (Hd2 x Hx). auto.
  - simpl. destruct (Hin (p, sp)) as [? _]; [rewrite elem_of_app, elem_of_cons; auto|done].
  - done.
  - simpl. destruct (Hin (p, sp)) as (_ & ? & _); [rewrite elem_of_app, elem_of_cons; auto|]. simpl in *. lia.
  - done.
  - intros s' Hs' Hother Hfp Hbk Hbm. apply wp_modify.
    assert (ring base (insert_block b fr) = A ++ cons_merge (p, sp) (b' :: Y')) as Hring.
    { unfold ring. rewrite <- Hm. eapply insert_block_ring; [exact Hg|exact He|done| |lia|done]. intros x Hx. specialize (HA x Hx). lia. }
    eapply (HQ _ p); [by rewrite Hring| | |done|change (brk s' = brk s); by rewrite Hbk, Hs1|change (brk_max s' = brk_max s); by rewrite Hbm, Hs1].
    + rewrite Hring, fmap_app, elem_of_app. right. destruct (cons_merge_head (p, sp) (b' :: Y')) as (n & L' & ->).
      simpl. rewrite elem_of_cons. auto.
    + intros a Hab Har. simpl. rewrite Hother.
      * rewrite Hh1. by apply lookup_insert_ne.
      * rewrite He in Har. rewrite !fmap_app, fmap_cons, fmap_app in Har. rewrite !elem_of_app, elem_of_cons, elem_of_app in Har.
        rewrite Hb', fmap_app, !elem_of_cons, elem_of_app. simpl in *. tauto.
Qed.

Lemma free_spec E s fr us b fuel :
  alloc_ok s fr (b :: us) → (2 * S (length fr) ≤ fuel)%nat →
  wp E (free fuel (hdr_at b.1 1))
    (λ _ s', alloc_ok s' (insert_block b fr) us ∧ brk s' = brk s ∧ brk_max s' = brk_max s) s.
Proof.
  intros T Hf. eapply free_links; [exact T|exact Hf|]. intros s' p Hs Hp Hother Hfp Hbk Hbm.
  destruct (ok_range _ _ _ T b) as (Hb1 & Hb2 & Hb3); [rewrite elem_of_app, elem_of_cons; auto|].
  destruct (ok_used _ _ _ T) as [Hnd Hus]. apply NoDup_cons in Hnd as [Hnb Hnd].
  assert (∀ u, u ∈ us → disjoint_blocks b u) as Hbu.
  { intros u Hu. apply Hus; [rewrite elem_of_cons; auto..|]. intros ->. done. }
  assert (∀ x, x ∈ fr → disjoint_blocks x b) as Hdis.
  { intros x Hx. apply (ok_free_used _ _ _ T x b Hx). rewrite elem_of_cons. auto. }
  assert (∀ x, x ∈ fr → base < x.1 ∧ 0 < x.2 ∧ stop x ≤ brk s) as Hfr.
  { intros x Hx. apply (ok_range _ _ _ T). rewrite elem_of_app. auto. }
  assert (∀ u, u ∈ us → base < u.1 ∧ 0 < u.2 ∧ stop u ≤ brk s) as Hur.
  { intros u Hu. apply (ok_range _ _ _ T). rewrite elem_of_app, elem_of_cons. auto. }
  assert (∀ x, x ∈ insert_block b fr → (base < x.1 ∧ 0 < x.2 ∧ stop x ≤ brk s) ∧ ∀ u, u ∈ us → disjoint_blocks x u) as Hall.
  { apply insert_block_all; [|done|].
    - intros x y [Hx1 Hx2] [Hy1 Hy2] He. unfold stop, disjoint_blocks, sizeof_header in *. simpl. split; [lia|].
      intros u Hu. specialize (Hx2 u Hu). specialize (Hy2 u Hu). specialize (Hur u Hu). unfold stop, sizeof_header in *. simpl. lia.
    - intros x Hx. split; [by apply Hfr|]. intros u Hu. apply (ok_free_used _ _ _ T x u Hx). rewrite elem_of_cons. auto. }
  split_and!; [|done|done]. split.
  - by rewrite Hfp.
  - exact Hs.
  - apply gapped_insert; [exact (ok_gap _ _ _ T)|done|done|done].
  - intros u Hu. rewrite Hother.
    + apply (ok_size _ _ _ T). rewrite elem_of_cons. auto.
    + apply disjoint_ne; [done|by apply Hur|]. specialize (Hbu u Hu). unfold disjoint_blocks in *. tauto.
    + simpl. rewrite not_elem_of_cons. split; [specialize (Hur u Hu); lia|]. apply fst_not_in. intros x Hx.
      apply disjoint_ne; [by apply Hur|by apply Hfr|]. apply (ok_free_used _ _ _ T x u Hx). rewrite elem_of_cons. auto.
  - intros x [Hx|Hx]%elem_of_app; rewrite Hbk; [by apply Hall|by apply Hur].
  - intros x u Hx Hu. by apply Hall.
  - split; [done|]. intros u u' Hu Hu'. apply Hus; rewrite elem_of_cons; auto.
  - rewrite Hbk, Hbm. exact (ok_brk _ _ _ T).
Qed.

(** * malloc *)

Lemma morecore_spec E s fr us nu fuel :
  alloc_ok s fr us → 0 < nu → nu < 2 ^ 27 → (2 * S (length fr) ≤ fuel)%nat →
  let nu' := nu `max` 4096 in
  wp E (morecore fuel nu)
    (λ r s', (r = 0 ∧ s' = s ∧ brk_max s < brk s + 16 * nu') ∨
             (r ≠ 0 ∧ r = freep s' ∧ alloc_ok s' (insert_block (brk s, nu') fr) us ∧ brk s' = brk s + 16 * nu' ∧ brk_max s' = brk_max s)) s.
Proof.
  intros T H1 H2 Hf nu'. unfold morecore.
  replace (if nu <? 4096 then 4096 else nu) with nu' by (unfold nu'; destruct (Z.ltb_spec nu 4096); lia).
  cbv zeta. assert (0 < nu' < 2 ^ 27) as Hnu by (unfold nu'; lia). clearbody nu'.
  rewrite s32_small by (unfold sizeof_header; lia). destruct (ok_brk _ _ _ T) as (Hk1 & Hk2 & Hk3). apply wp_bind. unfold sbrk, wp.
  destruct (Z.leb_spec 0 (brk s + nu' * sizeof_header)) as [_|?]; [|unfold sizeof_header in *; lia].
  destruct (Z.leb_spec (brk s + nu' * sizeof_header) (brk_max s)) as [Hle|Hgt]; cbn [andb safe].
  2:{ left. split_and!; [done|done|]. unfold sizeof_header in Hgt. lia. }
  rewrite (proj2 (Z.eqb_neq (brk s) (-1))) by lia. apply wp_bind, wp_modify. unfold set_hdrs. cbn [hdrs freep brk brk_max].
  set (s1 := Ust _ _ _ _). set (b := (brk s, nu')).
  assert (∀ x, x ∈ fr ++ us → base < x.1 ∧ 0 < x.2 ∧ stop x ≤ brk s) as Hr by exact (ok_range _ _ _ T).
  assert (alloc_ok s1 fr (b :: us)) as T1.
  { destruct (ok_used _ _ _ T) as [Hnd Hus].
    assert (∀ x, x ∈ fr ++ us → disjoint_blocks x b) as Hd by (intros x Hx; left; by apply Hr).
    split.
    - exact (ok_freep _ _ _ T).
    - simpl. assert (brk s ∉ (ring base fr).*1) as Hn.
      { simpl. rewrite not_elem_of_cons. split; [lia|]. intros (x & Hx & Hin)%list_elem_of_fmap.
        destruct (Hr x) as (_ & ? & ?); [rewrite elem_of_app; auto|]. unfold stop, sizeof_header in *. lia. }
      apply (seg_insert_other _ (ring base fr)); [exact Hn|exact (ok_seg _ _ _ T)].
    - exact (ok_gap _ _ _ T).
    - intros u [->|Hu]%elem_of_cons; simpl; [by rewrite lookup_insert_eq|].
      rewrite lookup_insert_ne; [exact (ok_size _ _ _ T u Hu)|].
      destruct (Hr u) as (_ & ? & ?); [rewrite elem_of_app; auto|]. unfold stop, sizeof_header in *. lia.
    - intros x [Hx|[->|Hx]%elem_of_cons]%elem_of_app; [|unfold stop, sizeof_header in *; simpl; lia|];
        (destruct (Hr x) as (? & ? & ?); [rewrite elem_of_app; auto|]); simpl; unfold sizeof_header in *; lia.
    - intros x u Hx [->|Hu]%elem_of_cons; [apply Hd; rewrite elem_of_app; auto|exact (ok_free_used _ _ _ T x u Hx Hu)].
    - split.
      + constructor; [|done]. intros Hb. destruct (Hr b) as (_ & ? & ?); [rewrite elem_of_app; auto|].
        unfold stop, sizeof_header in *. simpl in *. lia.
      + intros u u' [->|Hu]%elem_of_cons [->|Hu']%elem_of_cons Hne; [done| | |by apply Hus].
        * assert (disjoint_blocks u' b) as Hd' by (apply Hd; rewrite elem_of_app; auto). unfold disjoint_blocks in *. tauto.
        * apply Hd. rewrite elem_of_app. auto.
    - simpl. unfold sizeof_header in *. lia. }
  change (brk s) with b.1. eapply wp_call; [apply (free_spec E s1 fr us b fuel T1 Hf)|].
  cbn beta. intros _ s2 (T2 & Hb2 & Hm2). apply wp_gets. right. split_and!; [|done|exact T2|rewrite Hb2; simpl; unfold sizeof_header; lia|done].
  destruct (proj1 (list_elem_of_fmap _ _ _) (ok_freep _ _ _ T2)) as (x & -> & Hx).
  destruct (ring_sizes _ _ _ _ T2 Hx) as (_ & ? & _). lia.
Qed.

(** ** The walk around the ring *)

Fixpoint linked (h : gmap Z header) (x : block) (P : list block) : Prop :=
  match P with
  | [] => True
  | y :: P => h !! x.1 = Some (Header y.1 x.2) ∧ linked h y P
  end.

Lemma linked_app h x P y P' : linked h x (P ++ y :: P') ↔ linked h x (P ++ [y]) ∧ linked h y P'.
Proof using. revert x. induction P as [|z P IH]; intros x; simpl; [tauto|]. rewrite IH. tauto. Qed.

Lemma seg_linked h x L e n : seg h (x :: L) e ↔ linked h x (L ++ [(e, n)]).
Proof using.
  revert x. induction L as [|y L IH]; intros x; [simpl; tauto|]. rewrite <- app_comm_cons.
  change (linked h x (y :: L ++ [(e, n)])) with (h !! x.1 = Some (Header y.1 x.2) ∧ linked h y (L ++ [(e, n)])). rewrite <- IH. simpl. tauto.
Qed.

(** The ring as it is seen from one of its nodes. *)
Lemma ring_walk h fr f :
  seg h (ring base fr) base → f ∈ ring base fr → NoDup (ring base fr).*1 →
  ∃ P, linked h f (P ++ [f]) ∧ (∀ x, x ∈ f :: P ↔ x ∈ ring base fr) ∧ (∀ x, x ∈ P → x.1 ≠ f.1) ∧ (length P = length fr)%nat.
Proof using.
  intros Hs Hf Hnd. apply list_elem_of_split in Hf as (A & B & He). rewrite He in Hs, Hnd. apply seg_app in Hs as [HA HB].
  assert (∀ x, x ∈ B ++ A → x.1 ≠ f.1) as Hne.
  { intros x Hx Hxf. rewrite fmap_app, fmap_cons in Hnd. apply NoDup_middle in Hnd as [Hn _]. apply Hn.
    rewrite <- Hxf, <- fmap_app. apply list_elem_of_fmap. exists x. split; [done|]. rewrite elem_of_app in *. tauto. }
  assert (length (B ++ A) = length fr) as Hlen.
  { apply (f_equal length) in He. rewrite length_app in *. simpl in *. lia. }
  exists (B ++ A). split_and!; [|intros x; rewrite He, elem_of_cons, !elem_of_app, elem_of_cons; tauto|done|done].
  destruct A as [|a A]; simpl in He.
  - injection He as <- _. rewrite app_nil_r. by apply (seg_linked h (base, 0) B base 0).
  - injection He as Ha _. subst a. simpl in HA. rewrite <- app_assoc. simpl. apply linked_app. split.
    + by apply seg_linked.
    + destruct f as [fa fs]. by apply (seg_linked h (base, 0) A fa fs).
Qed.

(** From [prev] on, either a block that is large enough comes up, or [f], where
    the search started, does, and no block is. *)
Lemma malloc_walk E s f n fuel ffuel P Q : ∀ prev,
  linked (hdrs s) prev (P ++ [f]) → (∃ q, hdrs s !! f.1 = Some (Header q f.2)) → freep s = f.1 →
  (∀ x, x ∈ P → x.1 ≠ f.1 ∧ x.1 ≠ 0) → (S (length P) ≤ fuel)%nat →
  (∀ pv x, hdrs s !! pv.1 = Some (Header x.1 pv.2) → pv ∈ prev :: P → x ∈ P ++ [f] → n ≤ x.2 →
     ∀ q, hdrs s !! x.1 = Some (Header q x.2) → wp E (malloc_take n pv.1 x.1 (Header q x.2)) Q s) →
  ((∀ x, x ∈ P ++ [f] → x.2 < n) → ∀ fuel', (fuel = fuel' + S (length P))%nat →
     wp E (let! p := morecore ffuel n in
           if p =? 0 then ret 0 else
           let! c := hdr p in
           malloc_loop fuel' ffuel n p (h_ptr c)) Q s) →
  wp E (malloc_loop fuel ffuel n prev.1 (head_addr f.1 P)) Q s.
Proof using.
  revert fuel. induction P as [|x P IH]; intros fuel prev Hl [q Hf] Hfp Hne Hfu Hok Hmore.
  - simpl in Hl. destruct Hl as [Hp _]. simpl head_addr.
    destruct fuel as [|fuel]; [simpl in Hfu; lia|]. cbn [malloc_loop]. apply wp_bind. eapply wp_get_some; [exact Hf|].
    cbn [h_size]. destruct (Z.leb_spec n f.2) as [Hle|Hgt].
    + eapply (Hok prev f); [exact Hp|rewrite elem_of_cons; auto|by apply list_elem_of_singleton|done|exact Hf].
    + apply wp_bind, wp_gets. rewrite Hfp, Z.eqb_refl. apply Hmore; [|simpl; lia].
      intros y ->%list_elem_of_singleton. done.
  - rewrite <- app_comm_cons in Hl. destruct Hl as [Hp Hl]. simpl head_addr.
    destruct fuel as [|fuel]; [simpl in Hfu; lia|]. cbn [malloc_loop].
    assert (∃ y P', P ++ [f] = y :: P') as (y & P' & HP) by (destruct P; simpl; eauto).
    assert (hdrs s !! x.1 = Some (Header y.1 x.2)) as Hx by (rewrite HP in Hl; apply Hl).
    assert (y.1 = head_addr f.1 P) as Hy by (destruct P; simpl in HP; by injection HP as -> _).
    apply wp_bind. eapply wp_get_some; [exact Hx|]. cbn [h_size]. destruct (Z.leb_spec n x.2) as [Hle|Hgt].
    + eapply (Hok prev x); [exact Hp|rewrite elem_of_cons; auto|rewrite elem_of_app, elem_of_cons; auto|done|exact Hx].
    + apply wp_bind, wp_gets. rewrite Hfp, (proj2 (Z.eqb_neq _ _)) by (apply Hne; rewrite elem_of_cons; auto).
      apply wp_bind, wp_ret. rewrite (proj2 (Z.eqb_neq x.1 0)) by (apply Hne; rewrite elem_of_cons; auto).
      apply wp_bind. eapply wp_get_some; [exact Hx|]. cbn [h_ptr]. rewrite Hy. apply (IH fuel x); try done.
      * by exists q.
      * intros z Hz. apply Hne. rewrite elem_of_cons. auto.
      * simpl in Hfu. lia.
      * intros pv z Hpv Hin Hz. apply (Hok pv z Hpv); rewrite ?elem_of_cons in *; [tauto|]. rewrite <- app_comm_cons, elem_of_cons. auto.
      * intros Hall fuel' ->. apply Hmore; [|simpl; lia]. intros z. rewrite <- app_comm_cons, elem_of_cons. intros [->|Hz]; auto.
Qed.

Lemma split_unique A B A' B' x x' :
  NoDup (A ++ x :: B).*1 → A ++ x :: B = A' ++ x' :: B' → x.1 = x'.1 → A = A'.
Proof using.
  revert A'. induction A as [|a A IH]; intros [|a' A'] Hnd He Hx; simpl in *; [done|..].
  - injection He as -> ->. exfalso. apply NoDup_cons in Hnd as [Hn _]. apply Hn. rewrite Hx.
    apply list_elem_of_fmap. exists x'. split; [done|]. rewrite elem_of_app, elem_of_cons. auto.
  - injection He as -> <-. exfalso. apply NoDup_cons in Hnd as [Hn _]. apply Hn. rewrite <- Hx.
    apply list_elem_of_fmap. exists x. split; [done|]. rewrite elem_of_app, elem_of_cons. auto.
  - injection He as -> He. f_equal. apply NoDup_cons in Hnd as [_ Hnd]. by eapply IH.
Qed.

(** Only its predecessor points to a block. *)
Lemma seg_pred h L e R w x V v :
  seg h L e → NoDup L.*1 → L = R ++ w :: x :: V → v ∈ L → h !! v.1 = Some (Header x.1 v.2) → e ≠ x.1 → v = w.
Proof using.
  intros Hs Hnd HL Hv Hp He. apply list_elem_of_split in Hv as (A & B & HB). rewrite HB in Hs.
  apply seg_app in Hs as [_ Hs]. simpl in Hs. destruct Hs as [Hv _]. rewrite Hv in Hp. injection Hp as Hp.
  destruct B as [|y B]; simpl in Hp; [done|].
  assert (R ++ [w] = A ++ [v]) as Heq.
  { eapply (split_unique (R ++ [w]) V (A ++ [v]) B x y); [|by rewrite <- !app_assoc; simpl; congruence|done].
    rewrite <- app_assoc. simpl. by rewrite <- HL. }
  apply app_inj_tail in Heq as [_ ->]. done.
Qed.

Lemma malloc_take_spec E s fr us n pv x q :
  alloc_ok s fr us → 0 < n → n ≤ x.2 → x ∈ ring base fr → pv ∈ ring base fr →
  hdrs s !! pv.1 = Some (Header x.1 pv.2) → hdrs s !! x.1 = Some (Header q x.2) →
  wp E (malloc_take n pv.1 x.1 (Header q x.2))
    (λ r s', ∃ fr' b, r = hdr_at b.1 1 ∧ b.2 = n ∧ alloc_ok s' fr' (b :: us) ∧ brk s' = brk s ∧ brk_max s' = brk_max s) s.
Proof.
  intros T Hn Hle Hx Hpv Hp Hxq. pose proof (ok_gap _ _ _ T) as Hg. pose proof (ok_seg _ _ _ T) as Hs. pose proof (ring_NoDup fr Hg) as Hnd.
  assert (x ∈ fr) as Hxf by (apply elem_of_cons in Hx as [->|Hx]; [simpl in Hle; lia|done]).
  destruct (ok_range _ _ _ T x) as (Hx1 & Hx2 & Hx3); [rewrite elem_of_app; auto|].
  pose proof (ok_brk _ _ _ T) as (Hk1 & Hk2 & Hk3).
  apply list_elem_of_split in Hxf as (L1 & L2 & Hfr).
  destruct (exists_last (l := (base, 0) :: L1)) as (R & w & HR); [done|].
  assert (ring base fr = R ++ w :: x :: L2) as HL.
  { unfold ring. rewrite Hfr, app_comm_cons, HR, <- app_assoc. done. }
  assert (pv = w) as -> by (eapply (seg_pred _ _ base R w x L2); try done; lia).
  rewrite HL in Hs, Hnd. apply seg_app in Hs as [HsR Hs]. simpl in Hs. destruct Hs as (Hw & Hxh & HsL).
  rewrite Hxq in Hxh. injection Hxh as Hq.
  rewrite fmap_app, !fmap_cons in Hnd. apply NoDup_middle in Hnd as [Hnw Hnd]. apply NoDup_middle in Hnd as [Hnx Hnd].
  rewrite !elem_of_app, elem_of_cons in Hnw. rewrite elem_of_app in Hnx.
  destruct (ok_used _ _ _ T) as [Hud Hus]. rewrite Hfr in Hg. pose proof Hg as Hg'. apply gapped_app in Hg as (HgA & HA & _ & _ & HgB).
  assert (∀ u, u ∈ us → base < u.1 ∧ 0 < u.2 ∧ stop u ≤ brk s) as Hur by (intros u Hu; apply (ok_range _ _ _ T); rewrite elem_of_app; auto).
  assert (∀ u, u ∈ us → disjoint_blocks x u) as Hxu.
  { intros u Hu. apply (ok_free_used _ _ _ T); [|done]. rewrite Hfr, elem_of_app, elem_of_cons. auto. }
  assert (∀ u, u ∈ us → u.1 ≠ w.1) as Huw.
  { intros u Hu He. assert (w ∈ ring base fr) as [->|Hin]%elem_of_cons by done; [simpl in He; specialize (Hur u Hu); lia|].
    eapply (disjoint_ne u w); [by apply Hur|apply (ok_range _ _ _ T); rewrite elem_of_app; auto|by apply (ok_free_used _ _ _ T)|done]. }
  unfold malloc_take. cbn [h_size h_ptr]. apply wp_bind. destruct (Z.eqb_spec x.2 n) as [Heq|Hne].
  - apply wp_bind, wp_modify, wp_ret. apply wp_bind, wp_modify, wp_ret. rewrite Hw. cbn [from_option h_size].
    exists (L1 ++ L2), x. split_and!; [done|done| |done|done].
    assert (ring base (L1 ++ L2) = R ++ w :: L2) as HL'.
    { unfold ring. rewrite app_comm_cons, HR, <- app_assoc. done. }
    split.
    + simpl freep. rewrite HL', fmap_app, elem_of_app, fmap_cons, elem_of_cons. auto.
    + simpl hdrs. rewrite HL'. apply seg_app. simpl. split; [by apply seg_insert_other; [tauto|]|].
      split; [rewrite lookup_insert_eq; by rewrite Hq|by apply seg_insert_other; [tauto|]].
    + by eapply gapped_drop.
    + intros u [->|Hu]%elem_of_cons; simpl.
      * rewrite lookup_insert_ne by tauto. by rewrite Hxq.
      * rewrite lookup_insert_ne by (intros ?; by eapply Huw). exact (ok_size _ _ _ T u Hu).
    + intros b Hb. apply (ok_range _ _ _ T). rewrite Hfr. rewrite !elem_of_app, ?elem_of_cons in *. tauto.
    + intros b u Hb [->|Hu]%elem_of_cons.
      * apply elem_of_app in Hb as [Hb|Hb]; [left; specialize (HA b Hb); lia|right].
        destruct (gapped_elem _ _ _ HgB Hb). lia.
      * apply (ok_free_used _ _ _ T); [|done]. rewrite Hfr. rewrite elem_of_app, elem_of_cons in *. tauto.
    + split.
      * constructor; [|done]. intros Hin. specialize (Hxu x Hin). unfold disjoint_blocks, stop, sizeof_header in Hxu. lia.
      * intros u u' [->|Hu]%elem_of_cons [->|Hu']%elem_of_cons Hd; [done|by apply Hxu| |by apply Hus].
        specialize (Hxu u Hu). unfold disjoint_blocks in *. tauto.
    + done.
  - assert (u32 (x.2 - n) = x.2 - n) as Hu by (apply u32_small; unfold stop, sizeof_header in *; lia).
    rewrite Hu. set (m := x.2 - n). assert (0 < m ∧ m + n = x.2) as [Hm Hmn] by (unfold m; lia).
    apply wp_bind, wp_modify. apply wp_bind, wp_modify, wp_ret. apply wp_bind, wp_modify, wp_ret.
    set (q' := hdr_at x.1 m). simpl hdrs. rewrite Hxq. cbn [from_option h_ptr].
    assert (x.1 < q' ∧ stop (q', n) = stop x ∧ stop (x.1, m) = q') as (Hq1 & Hq2 & Hq3).
    { unfold q', hdr_at, stop, sizeof_header. simpl. lia. }
    assert (∀ y, y ∈ L1 ++ L2 → stop y < x.1 ∨ stop x < y.1) as Hfar.
    { intros y [Hy|Hy]%elem_of_app; [left; by apply HA|right; by apply (gapped_elem _ _ _ HgB)]. }
    assert (∀ y, y ∈ L1 ++ L2 → 0 < y.2 ∧ base < y.1) as Hpos.
    { intros y Hy. destruct (ok_range _ _ _ T y) as (? & ? & _); [rewrite Hfr; rewrite !elem_of_app, ?elem_of_cons in *; tauto|done]. }
    assert (∀ y, y ∈ us → y.1 ≠ q' ∧ y.1 ≠ x.1) as Huq.
    { intros y Hy. specialize (Hxu y Hy). specialize (Hur y Hy). unfold disjoint_blocks, stop, sizeof_header in *. simpl in *. lia. }
    assert (stop x = q' + 16 * n) as Hst by (rewrite <- Hq2; done).
    exists (L1 ++ (x.1, m) :: L2), (q', n). split_and!; [done|done| |done|done].
    assert (ring base (L1 ++ (x.1, m) :: L2) = R ++ w :: (x.1, m) :: L2) as HL'.
    { unfold ring. rewrite app_comm_cons, HR, <- app_assoc. done. }
    assert (q' ∉ (R ++ w :: L2).*1) as Hqn.
    { apply (fst_not_in (q', n)). intros y Hy. assert (y = (base, 0) ∨ y ∈ L1 ++ L2) as [->|Hy'].
      - rewrite cons_middle, app_assoc, <- HR, elem_of_app, elem_of_cons in Hy. rewrite elem_of_app. tauto.
      - simpl. lia.
      - specialize (Hfar y Hy'). specialize (Hpos y Hy'). simpl. unfold stop, sizeof_header in *. lia. }
    rewrite fmap_app, fmap_cons, elem_of_app, elem_of_cons in Hqn.
    split.
    + simpl freep. rewrite HL', fmap_app, elem_of_app, fmap_cons, elem_of_cons. auto.
    + simpl hdrs. rewrite HL'. apply seg_app. simpl. split; [do 2 (apply seg_insert_other; [tauto|]); done|].
      split_and!.
      * rewrite !lookup_insert_ne by (intros He; rewrite He in *; tauto). done.
      * rewrite lookup_insert_ne by lia. rewrite lookup_insert_eq. by rewrite Hq.
      * do 2 (apply seg_insert_other; [tauto|]). done.
    + apply gapped_app. simpl. split_and!; [done|exact HA|lia|lia|]. eapply gapped_weaken; [|exact HgB]. lia.
    + intros u [->|Hu']%elem_of_cons; simpl; [by rewrite lookup_insert_eq|].
      destruct (Huq u Hu') as [Hu1 Hu2]. rewrite !lookup_insert_ne by (intros He; rewrite He in *; done). exact (ok_size _ _ _ T u Hu').
    + intros b. rewrite !elem_of_app, !elem_of_cons. simpl brk.
      intros [[Hb|[->|Hb]]|[->|Hb]]; try (apply (ok_range _ _ _ T); rewrite Hfr, !elem_of_app, elem_of_cons; tauto); simpl; [lia|].
      rewrite Hq2. lia.
    + intros b u Hb Hu'. rewrite elem_of_app, elem_of_cons in Hb. apply elem_of_cons in Hu' as [->|Hu'].
      * destruct Hb as [Hb|[->|Hb]]; unfold disjoint_blocks.
        -- left. specialize (HA b Hb). simpl. lia.
        -- left. simpl. lia.
        -- right. destruct (gapped_elem _ _ _ HgB Hb). lia.
      * destruct Hb as [Hb|[->|Hb]].
        -- apply (ok_free_used _ _ _ T); [|done]. rewrite Hfr, elem_of_app. auto.
        -- specialize (Hxu u Hu'). unfold disjoint_blocks in *. simpl in *. lia.
        -- apply (ok_free_used _ _ _ T); [|done]. rewrite Hfr, elem_of_app, elem_of_cons. auto.
    + assert (∀ u, u ∈ us → disjoint_blocks (q', n) u) as Hqu.
      { intros u Hu'. specialize (Hxu u Hu'). unfold disjoint_blocks in *. simpl in *. lia. }
      split.
      * constructor; [|done]. intros Hin. by destruct (Huq _ Hin).
      * intros u u' [->|Hu1]%elem_of_cons [->|Hu2]%elem_of_cons Hd; [done|by apply Hqu| |by apply Hus].
        specialize (Hqu u Hu1). unfold disjoint_blocks in *. tauto.
    + done.
Qed.

Lemma insert_block_length b fr : (length (insert_block b fr) ≤ S (length fr))%nat.
Proof using.
  assert (∀ y L, (length (cons_merge y L) ≤ S (length L))%nat) as Hc.
  { intros y [|z L]; simpl; [done|]. destruct (_ =? _); simpl; lia. }
  induction fr as [|x fr IH]; cbn [insert_block]; [done|]. destruct (b.1 <? x.1); [apply Hc|].
  pose proof (Hc x (insert_block b fr)). simpl. lia.
Qed.

(** The search of [malloc] in a consistent state. *)
Lemma malloc_search E s fr us n fuel ffuel f Q :
  alloc_ok s fr us → 0 < n → f ∈ ring base fr → freep s = f.1 → (S (length fr) ≤ fuel)%nat →
  (∀ r s' fr' b, r = hdr_at b.1 1 → b.2 = n → alloc_ok s' fr' (b :: us) → Q r s') →
  ((∀ x, x ∈ fr → x.2 < n) → ∀ fuel', (fuel = fuel' + S (length fr))%nat →
     wp E (let! p := morecore ffuel n in
           if p =? 0 then ret 0 else
           let! c := hdr p in
           malloc_loop fuel' ffuel n p (h_ptr c)) Q s) →
  ∃ q, hdrs s !! f.1 = Some (Header q f.2) ∧ wp E (malloc_loop fuel ffuel n f.1 q) Q s.
Proof.
  intros T Hn Hf Hfp Hfu Hok Hmore. pose proof (ring_NoDup fr (ok_gap _ _ _ T)) as Hnd.
  destruct (seg_lookup _ _ _ f (ok_seg _ _ _ T) Hf) as [q Hq].
  destruct (ring_walk _ fr f (ok_seg _ _ _ T) Hf Hnd) as (P & Hl & Hin & Hne & Hlen).
  assert (q = head_addr f.1 P) as Hqe.
  { destruct P as [|y P]; simpl in Hl; destruct Hl as [Hl _]; rewrite Hq in Hl; by injection Hl as ->. }
  exists q. split; [exact Hq|]. rewrite Hqe. apply malloc_walk; [exact Hl|by exists q|done| |by rewrite Hlen| |].
  - intros x Hx. split; [by apply Hne|]. destruct (ring_sizes _ _ _ x T) as (_ & ? & _); [apply Hin; rewrite elem_of_cons; auto|]. lia.
  - intros pv x Hpv Hpin Hx Hle q' Hxq. eapply wp_mono.
    + eapply (malloc_take_spec E s fr us n pv x q'); [exact T|done|done| |by apply Hin|exact Hpv|exact Hxq].
      apply Hin. rewrite elem_of_app, list_elem_of_singleton in Hx. rewrite elem_of_cons. tauto.
    + cbn beta. intros r s' (fr' & b & -> & Hb & T' & _). by eapply Hok.
  - rewrite Hlen. intros Hall. apply Hmore. intros x Hx. apply Hall.
    assert (x ∈ f :: P) as Hx' by (apply Hin; unfold ring; rewrite elem_of_cons; auto).
    rewrite elem_of_app, list_elem_of_singleton. rewrite elem_of_cons in Hx'. tauto.
Qed.

(** What a call of [malloc] may do. *)
Definition malloc_post nbytes s fr us (r : Z) s' : Prop :=
  (r = 0 ∧ alloc_ok s' fr us ∧ brk_max s < brk s + 16 * (nunits_of nbytes `max` 4096)) ∨
  (∃ fr' b, r = hdr_at b.1 1 ∧ nbytes ≤ 16 * (b.2 - 1) ∧ alloc_ok s' fr' (b :: us)).

Lemma nunits_spec nbytes : 0 ≤ nbytes < 2 ^ 31 - 64 → 0 < nunits_of nbytes < 2 ^ 27 ∧ nbytes ≤ 16 * (nunits_of nbytes - 1).
Proof using.
  intros Hn. unfold nunits_of, sizeof_header. pose proof (Z.div_mod (nbytes + 16 - 1) 16). pose proof (Z.mod_pos_bound (nbytes + 16 - 1) 16).
  rewrite u32_small; lia.
Qed.

(** The state before the first call, or a consistent one. *)
Definition heap_ok s fr us : Prop :=
  alloc_ok s fr us ∨ (freep s = 0 ∧ fr = [] ∧ us = [] ∧ base < brk s ∧ brk s ≤ brk_max s ∧ brk_max s < 2 ^ 36).

Lemma malloc_rest E s fr us nbytes fuel :
  alloc_ok s fr us → 0 ≤ nbytes < 2 ^ 31 - 64 → (2 * length fr + 3 ≤ fuel)%nat →
  wp E (let! prevp := gets freep in let! c := hdr prevp in malloc_loop fuel fuel (nunits_of nbytes) prevp (h_ptr c))
    (malloc_post nbytes s fr us) s.
Proof.
  intros T Hnb Hfu. destruct (nunits_spec nbytes Hnb) as [Hn Hnn]. set (n := nunits_of nbytes) in *.
  destruct (proj1 (list_elem_of_fmap _ _ _) (ok_freep _ _ _ T)) as (f & Hfp & Hf).
  destruct (ring_sizes _ _ _ f T Hf) as (_ & Hfb & _).
  apply wp_bind, wp_gets. rewrite Hfp.
  assert (∀ s1 fr1 (r : Z) s' fr' b, r = hdr_at b.1 1 → b.2 = n → alloc_ok s' fr' (b :: us) → malloc_post nbytes s1 fr1 us r s') as Hdone.
  { intros s1 fr1 r s' fr' b Hr Hb T'. right. exists fr', b. split_and!; [done|by rewrite Hb|done]. }
  destruct (malloc_search E s fr us n fuel fuel f (malloc_post nbytes s fr us) T) as (q & Hq & Hwp); [lia|done|done|lia|apply Hdone| |].
  2:{ apply wp_bind. eapply wp_get_some; [exact Hq|]. exact Hwp. }
  intros _ fuel' ->. eapply wp_call; [apply (morecore_spec E s fr us n _ T); lia|].
  cbn beta. intros r s1 [(-> & -> & Hout)|(Hr & Hrf & T1 & _)]; [apply wp_ret; by left|].
  rewrite (proj2 (Z.eqb_neq r 0) Hr). set (fr1 := insert_block _ fr) in *.
  destruct (proj1 (list_elem_of_fmap _ _ _) (ok_freep _ _ _ T1)) as (g & Hgp & Hg).
  destruct (malloc_search E s1 fr1 us n fuel' (fuel' + S (length fr)) g (malloc_post nbytes s fr us) T1) as (q1 & Hq1 & Hwp); [lia|done|done| |apply Hdone| |].
  - pose proof (insert_block_length (brk s, n `max` 4096) fr). unfold fr1. lia.
  - intros Hall. exfalso. destruct (insert_block_big (brk s, n `max` 4096) fr) as (x & Hx & Hbig).
    + intros x Hx. destruct (ok_range _ _ _ T x) as (_ & ? & _); [rewrite elem_of_app; auto|lia].
    + specialize (Hall x Hx). simpl in Hbig. lia.
  - rewrite Hrf, Hgp. apply wp_bind. eapply wp_get_some; [exact Hq1|]. exact Hwp.
Qed.

Lemma malloc_spec E s fr us nbytes fuel :
  heap_ok s fr us → 0 ≤ nbytes < 2 ^ 31 - 64 → (2 * length fr + 3 ≤ fuel)%nat →
  wp E (malloc base fuel nbytes) (malloc_post nbytes s fr us) s.
Proof.
  intros [T|(Hfp & -> & -> & Hk)] Hnb Hfu; unfold malloc; cbv zeta; apply wp_bind, wp_gets.
  - rewrite (proj2 (Z.eqb_neq (freep s) 0)).
    + apply wp_bind, wp_ret. by apply malloc_rest.
    + destruct (proj1 (list_elem_of_fmap _ _ _) (ok_freep _ _ _ T)) as (f & -> & Hf).
      destruct (ring_sizes _ _ _ f T Hf) as (_ & ? & _). lia.
  - rewrite Hfp. simpl. apply wp_bind, wp_bind, wp_modify. apply wp_bind, wp_modify, wp_modify.
    set (s1 := set_hdrs _ _). assert (alloc_ok s1 [] []) as T1.
    { split; try done; try (intros x Hx; by apply elem_of_nil in Hx); try (intros x x' Hx; by apply elem_of_nil in Hx).
      - simpl. by apply list_elem_of_singleton.
      - split; [|done]. unfold s1. simpl. by rewrite !lookup_insert_eq.
      - split; [constructor|]. intros x x' Hx. by apply elem_of_nil in Hx. }
    exact (malloc_rest E s1 [] [] nbytes fuel T1 Hnb Hfu).
Qed.

(** C6: [malloc] finishes, and gives a block that is large enough and disjoint
    from every block in use, or 0 when the heap cannot grow by what it needs;
    the free list stays in address order and fully coalesced. *)
Theorem malloc_allocates s fr us nbytes fuel :
  heap_ok s fr us → 0 ≤ nbytes < 2 ^ 31 - 64 → (2 * length fr + 3 ≤ fuel)%nat →
  returns (malloc base fuel nbytes) (malloc_post nbytes s fr us) s.
Proof. apply malloc_spec. Qed.

(** C11: [free] of a block in use finishes, and puts it into the free list at its
    place in the address order, joined with its neighbours where they touch. *)
Theorem free_coalesces s fr us b fuel :
  alloc_ok s fr (b :: us) → (2 * S (length fr) ≤ fuel)%nat →
  returns (free fuel (hdr_at b.1 1)) (λ _ s', alloc_ok s' (insert_block b fr) us) s.
Proof. intros T Hf. eapply wp_mono; [by apply (free_spec no_sleep s fr us b fuel)|]. intros _ s' (T' & _). exact T'. Qed.
End alloc.

(** * A small heap *)

(** The static header at 64, free blocks at 4096 and 4160, used ones at 4128 and
    4192. *)
Definition demo_heap : ust :=
  Ust {[64 := Header 4096 0; 4096 := Header 4160 2; 4160 := Header 64 2; 4128 := Header 0 2; 4192 := Header 0 2]} 64 4224 8192.
Definition demo_free : list block := [(4096, 2); (4160, 2)].
Definition demo_used : list block := [(4128, 2); (4192, 2)].

Lemma demo_alloc_ok : alloc_ok 64 demo_heap demo_free demo_used.
Proof.
  split.
  - by_compute.
  - vm_compute. done.
  - vm_compute. done.
  - intros b [->|[->|Hb]%elem_of_cons]%elem_of_cons; [done|done|by apply elem_of_nil in Hb].
  - intros b Hb. unfold demo_free, demo_used in Hb. simpl in Hb. rewrite !elem_of_cons, elem_of_nil in Hb.
    destruct Hb as [->|[->|[->|[->|[]]]]]; vm_compute; split_and!; done.
  - intros b u Hb Hu. unfold demo_free, demo_used in *. rewrite !elem_of_cons, elem_of_nil in Hb, Hu.
    destruct Hb as [->|[->|[]]], Hu as [->|[->|[]]]; unfold disjoint_blocks, stop, sizeof_header; simpl; lia.
  - split; [by_compute|]. intros b u Hb Hu. unfold demo_used in *. rewrite !elem_of_cons, elem_of_nil in Hb, Hu.
    destruct Hb as [->|[->|[]]], Hu as [->|[->|[]]]; intros; try done; unfold disjoint_blocks, stop, sizeof_header; simpl; lia.
  - vm_compute. done.
Qed.

Lemma malloc_allocates_witness : returns (malloc 64 10 20) (malloc_post 64 20 demo_heap demo_free demo_used) demo_heap.
Proof. refine (malloc_allocates 64 _ demo_heap demo_free demo_used 20 10 (or_introl demo_alloc_ok) _ _); [lia|lia|simpl; lia]. Defined.

Lemma free_coalesces_witness :
  returns (free 10 (hdr_at 4128 1)) (λ _ s', alloc_ok 64 s' [(4096, 6)] [(4192, 2)]) demo_heap.
Proof. refine (free_coalesces 64 _ demo_heap demo_free [(4192, 2)] (4128, 2) 10 demo_alloc_ok _); [lia|simpl; lia]. Defined.
