(* ===== verification/Sh.v ===== *)
(** The command parser of the shell (user/sh.c).

    The line is the list [buf] of its bytes; a [char*] into it is an index, and
    reading at the end gives the NUL.  [*ps] is the state.  A word is the pair of
    its start and its end; [nulterminate] turns it into a string by a NUL at the
    end.  [panic] prints the message and exits. *)

From Stdlib Require Import Ascii.
From S2P Require Import Prelude CString Printf.
Local Open Scope Z_scope.

(** * Commands *)

(** [struct cmd] and its variants, over what stands for a word. *)
Inductive cmd (W : Type) :=
| EXEC (argv : list W)
| REDIR (c : cmd W) (file : W) (mode fd : Z)
| PIPE (left right : cmd W)
| LIST (left right : cmd W)
| BACK (c : cmd W).
Arguments EXEC {W} _.
Arguments REDIR {W} _ _ _ _.
Arguments PIPE {W} _ _.
Arguments LIST {W} _ _.
Arguments BACK {W} _.
Fixpoint cmd_map {W W'} (f : W → W') (c : cmd W) : cmd W' :=
  match c with
  | EXEC argv => EXEC (f <$> argv)
  | REDIR c w mode fd => REDIR (cmd_map f c) (f w) mode fd
  | PIPE l r => PIPE (cmd_map f l) (cmd_map f r)
  | LIST l r => LIST (cmd_map f l) (cmd_map f r)
  | BACK c => BACK (cmd_map f c)
  end.
Fixpoint cmd_words {W} (c : cmd W) : list W :=
  match c with
  | EXEC argv => argv
  | REDIR c w _ _ => cmd_words c ++ [w]
  | PIPE l r | LIST l r => cmd_words l ++ cmd_words r
  | BACK c => cmd_words c
  end.

Definition MAXARGS : Z := 256.
Definition O_RDONLY : Z := 0x000.
Definition O_WRONLY : Z := 0x001.
Definition O_CREATE : Z := 0x200.
Definition O_TRUNC : Z := 0x400.

(** * Tokens *)

Definition whitespace : list Z := [32; 9; 13; 10; 11].
Definition symbols : list Z := lit "<|>&;()".
Definition is_ws (c : Z) : bool := bool_decide (c ∈ whitespace).
Definition is_symbol (c : Z) : bool := bool_decide (c ∈ symbols).
Definition is_word (c : Z) : bool := negb (is_ws c) && negb (is_symbol c).

Abbreviation word := (nat * nat)%type.

Section parser.
Context (buf : list Z).

Definition char_at (s : nat) : Z := nth s buf 0.
(** [while(s < es && f( *s)) s++], from [s] with [n] bytes left. *)
Fixpoint skip_while (f : Z → bool) (n : nat) (s : nat) : nat :=
  match n with
  | O => s
  | S n => if f (char_at s) then skip_while f n (S s) else s
  end.
Definition skip_from (f : Z → bool) (s : nat) : nat := skip_while f (length buf - s) s.

(** The token and the word [q, eq]. *)
Definition gettoken : M nat (Z * word) := λ s,
  let q := skip_from is_ws s in
  let c := char_at q in
  let '(tok, eq) :=
    if c =? 0 then (0, q)
    else if c =? ch ">"%char then
      if char_at (S q) =? ch ">"%char then (ch "+"%char, S (S q)) else (c, S q)
    else if is_symbol c then (c, S q)
    else (ch "a"%char, skip_from is_word q) in
  Ok (tok, (q, eq)) (skip_from is_ws eq).

Definition peek (toks : list Z) : M nat bool := λ s,
  let s := skip_from is_ws s in
  Ok (negb (char_at s =? 0) && bool_decide (char_at s ∈ toks)) s.

(** * The parser *)

Fixpoint parseredirs (fuel : nat) (c : cmd word) : M nat (cmd word) :=
  let! more := peek (lit "<>") in
  if more : bool then
    match fuel with
    | O => out_of_fuel
    | S fuel =>
        let! r := gettoken in
        let '(tok, _) := r in
        let! w := gettoken in
        let '(t, w) := w in
        if negb (t =? ch "a"%char) then panic "missing file for redirection" else
        parseredirs fuel
          (if tok =? ch "<"%char then REDIR c w O_RDONLY 0
           else if tok =? ch ">"%char then REDIR c w (Z.lor (Z.lor O_WRONLY O_CREATE) O_TRUNC) 1
           else REDIR c w (Z.lor O_WRONLY O_CREATE) 1)
    end
  else ret c.

(** [cmd->argv[argc] = q] for the [execcmd] under the redirections of [c]. *)
Fixpoint add_arg (c : cmd word) (w : word) : cmd word :=
  match c with
  | EXEC argv => EXEC (argv ++ [w])
  | REDIR c f mode fd => REDIR (add_arg c w) f mode fd
  | c => c
  end.
Fixpoint parseargs (fuel : nat) (c : cmd word) (argc : Z) : M nat (cmd word) :=
  let! stop := peek (lit "|)&;") in
  if stop : bool then ret c else
  match fuel with
  | O => out_of_fuel
  | S fuel =>
      let! r := gettoken in
      let '(tok, w) := r in
      if tok =? 0 then ret c else
      if negb (tok =? ch "a"%char) then panic "syntax" else
      let c := add_arg c w in
      if MAXARGS <=? argc + 1 then panic "too many args" else
      let! c := parseredirs (length buf) c in
      parseargs fuel c (argc + 1)
  end.

Fixpoint back_loop (fuel : nat) (c : cmd word) : M nat (cmd word) :=
  let! more := peek (lit "&") in
  if more : bool then
    match fuel with
    | O => out_of_fuel
    | S fuel => let! _ := gettoken in back_loop fuel (BACK c)
    end
  else ret c.

(** The functions of the grammar call each other through the parentheses of
    parseblock: [line] is parseline as it is called there. *)
Definition parseblock (line : M nat (cmd word)) : M nat (cmd word) :=
  let! open := peek (lit "(") in
  if negb open then panic "parseblock" else
  let! _ := gettoken in
  let! c := line in
  let! close := peek (lit ")") in
  if negb close then panic "syntax - missing )" else
  let! _ := gettoken in
  parseredirs (length buf) c.

Definition parseexec (line : M nat (cmd word)) : M nat (cmd word) :=
  let! open := peek (lit "(") in
  if open : bool then parseblock line else
  let! c := parseredirs (length buf) (EXEC []) in
  parseargs (S (length buf)) c 0.

Fixpoint parsepipe (fuel : nat) (line : M nat (cmd word)) : M nat (cmd word) :=
  match fuel with
  | O => out_of_fuel
  | S fuel =>
      let! c := parseexec line in
      let! more := peek (lit "|") in
      if more : bool then
        let! _ := gettoken in
        let! r := parsepipe fuel line in
        ret (PIPE c r)
      else ret c
  end.

Fixpoint parseline (fuel : nat) : M nat (cmd word) :=
  match fuel with
  | O => out_of_fuel
  | S fuel =>
      let! c := parsepipe (S (length buf)) (parseline fuel) in
      let! c := back_loop (length buf) c in
      let! more := peek (lit ";") in
      if more : bool then
        let! _ := gettoken in
        let! r := parseline fuel in
        ret (LIST c r)
      else ret c
  end.

(** The buffer when all words of the command are terminated. *)
Definition nulterminate (c : cmd word) : list Z :=
  foldl (λ b (w : word), <[snd w := 0]> b) (buf ++ [0]) (cmd_words c).

(** The command, and the buffer its words point into. *)
Definition parsecmd : M nat (cmd word * list Z) :=
  let! c := parseline (S (length buf)) in
  let! _ := peek [] in
  let! s := gets id in
  if negb (Nat.eqb s (length buf)) then panic "syntax" else
  ret (c, nulterminate c).
(** What [parsecmd] complains about: the text after a complete command. *)
Definition leftovers : M nat (option (list Z)) :=
  let! _ := parseline (S (length buf)) in
  let! _ := peek [] in
  let! s := gets id in
  ret (if negb (Nat.eqb s (length buf)) then Some (drop s buf) else None).
End parser.

(** * Scanning *)

(** A routine that exits with a message or returns with [Q]. *)
Definition exits_or {A} (Q : A → nat → Prop) (m : M nat A) (s : nat) : Prop :=
  match m s with Ok a s' => Q a s' | Panic _ => True | _ => False end.
Lemma eo_ret {A} (a : A) Q s : Q a s → exits_or Q (ret a) s.
Proof. done. Qed.
Lemma eo_call {A B} (m : M nat A) (f : A → M nat B) (P : A → nat → Prop) Q s :
  exits_or P m s → (∀ a s', P a s' → exits_or Q (f a) s') → exits_or Q (bind m f) s.
Proof. unfold exits_or, bind. destruct (m s); simpl; intros HP Hf; solve [done | by apply Hf]. Qed.
Lemma eo_mono {A} (m : M nat A) (P Q : A → nat → Prop) s :
  exits_or P m s → (∀ a s', P a s' → Q a s') → exits_or Q m s.
Proof. unfold exits_or. destruct (m s); auto. Qed.

Section scanning.
Context (buf : list Z).
Notation len := (length buf).
Implicit Types (p q s e : nat) (f : Z → bool) (tk : list Z).

Lemma char_at_end p : (len ≤ p)%nat → char_at buf p = 0.
Proof. apply nth_overflow. Qed.
Lemma char_at_inside p : char_at buf p ≠ 0 → (p < len)%nat.
Proof. intros Hc. destruct (decide (p < len)%nat); [done|]. by rewrite char_at_end in Hc by lia. Qed.

Lemma skip_while_spec f n : ∀ s, let e := skip_while buf f n s in
  (s ≤ e ≤ s + n)%nat ∧ (∀ p, (s ≤ p < e)%nat → f (char_at buf p) = true) ∧
  (e = s + n ∨ f (char_at buf e) = false)%nat.
Proof.
  induction n as [|n IH]; intros s; simpl; [split_and!; [lia..|intros; lia|left; lia]|].
  destruct (f (char_at buf s)) eqn:Hf.
  - destruct (IH (S s)) as (H1 & H2 & H3). split_and!; [lia..| |destruct H3; [left; lia|by right]].
    intros p Hp. destruct (decide (p = s)) as [->|]; [done|]. apply H2. lia.
  - split_and!; [lia..|intros; lia|by right].
Qed.
Lemma skip_from_spec f s : (s ≤ len)%nat → let e := skip_from buf f s in
  (s ≤ e ≤ len)%nat ∧ (∀ p, (s ≤ p < e)%nat → f (char_at buf p) = true) ∧
  (e = len ∨ f (char_at buf e) = false).
Proof.
  intros Hs e. destruct (skip_while_spec f (len - s) s) as (H1 & H2 & H3). fold (skip_from buf f s) in *.
  split_and!; [lia..|done|]. destruct H3; [left; subst e; lia|by right].
Qed.

(** A word of the line: a run of word characters that ends where one cannot be. *)
Definition word_ok (w : word) : Prop :=
  (fst w < snd w ≤ len)%nat ∧ (∀ p, (fst w ≤ p < snd w)%nat → is_word (char_at buf p) = true) ∧
  (snd w = len ∨ is_word (char_at buf (snd w)) = false).

Lemma peek_moves tk s : (s ≤ len)%nat →
  exits_or (λ b s', (s ≤ s' ≤ len)%nat ∧ (b = true → char_at buf s' ≠ 0 ∧ is_ws (char_at buf s') = false))
    (peek buf tk) s.
Proof.
  intros Hs. destruct (skip_from_spec is_ws s Hs) as (H1 & H2 & H3).
  unfold exits_or, peek. split; [done|]. rewrite andb_true_iff, negb_true_iff, Z.eqb_neq. intros [Hc _].
  split; [done|]. destruct H3 as [H3|]; [|done]. rewrite H3, char_at_end in Hc; lia.
Qed.

(** Every token but the end of the line moves on, and a word is one. *)
Lemma gettoken_moves s : (s ≤ len)%nat →
  exits_or (λ (r : Z * word) s', (s ≤ s' ≤ len)%nat ∧
    (fst r = 0 ∨ (s < s')%nat) ∧ (char_at buf s ≠ 0 → is_ws (char_at buf s) = false → (s < s')%nat) ∧
    (fst r = ch "a" → word_ok (snd r))) (gettoken buf) s.
Proof.
  intros Hs. destruct (skip_from_spec is_ws s Hs) as (H1 & H2 & H3).
  unfold exits_or, gettoken. set (q := skip_from buf is_ws s) in *.
  assert (∀ e, (q ≤ e ≤ len)%nat → (e ≤ skip_from buf is_ws e ≤ len)%nat) as Hskip.
  { intros e He. apply (skip_from_spec is_ws e). lia. }
  assert (char_at buf s ≠ 0 → is_ws (char_at buf s) = false → q = s) as Hq.
  { intros _ Hw. destruct (decide (q = s)); [done|]. rewrite (H2 s) in Hw by lia. done. }
  destruct (Z.eqb_spec (char_at buf q) 0) as [Hc|Hc].
  - pose proof (Hskip q). split_and!; [lia..|by left| |done].
    intros Hc' Hw. rewrite (Hq Hc' Hw) in Hc. done.
  - pose proof (char_at_inside _ Hc) as Hlt.
    assert (∀ e c, (q < e ≤ len)%nat → c ≠ ch "a" ∨ (c = ch "a" ∧ word_ok (q, e)) →
      (s ≤ skip_from buf is_ws e ≤ len)%nat ∧ (c = 0 ∨ (s < skip_from buf is_ws e)%nat) ∧
      (char_at buf s ≠ 0 → is_ws (char_at buf s) = false → (s < skip_from buf is_ws e)%nat) ∧
      (c = ch "a" → word_ok (q, e))) as Hdone.
    { intros e c He Ha. pose proof (Hskip e). split_and!; [lia..|right; lia|lia|]. intros ->. tauto. }
    destruct (Z.eqb_spec (char_at buf q) (ch ">")) as [Hg|_].
    + destruct (Z.eqb_spec (char_at buf (S q)) (ch ">")) as [Hg'|_]; cbn [fst snd].
      * pose proof (char_at_inside (S q)). rewrite Hg' in *. apply Hdone; [|by left]. split; [lia|]. by apply H.
      * apply Hdone; [lia|]. left. by rewrite Hg.
    + destruct (is_symbol (char_at buf q)) eqn:Hsym; cbn [fst snd].
      * apply Hdone; [lia|]. left. intros Ha. by rewrite Ha in Hsym.
      * destruct (skip_from_spec is_word q) as (E1 & E2 & E3); [lia|].
        set (e := skip_from buf is_word q) in *.
        assert (is_ws (char_at buf q) = false) as Hw by (destruct H3; [lia|done]).
        assert (q ≠ e).
        { intros He. rewrite <- He in E3. destruct E3 as [|E3]; [lia|]. unfold is_word in E3. by rewrite Hw, Hsym in E3. }
        apply Hdone; [lia|]. right. split; [done|]. split_and!; simpl; [lia..|done|done].
Qed.
End scanning.

(** * Every line is parsed or refused *)

Section termination.
Context (buf : list Z).
Notation len := (length buf).
Implicit Types (s n fuel : nat) (c : cmd word) (tk : list Z).

Definition words_ok (c : cmd word) : Prop := Forall (word_ok buf) (cmd_words c).
(** The parser has moved on from [s], over well-formed words. *)
Definition parsed (s : nat) (c : cmd word) (s' : nat) : Prop := (s ≤ s' ≤ len)%nat ∧ words_ok c.

Lemma parsed_le s1 s2 c s' : (s1 ≤ s2)%nat → parsed s2 c s' → parsed s1 c s'.
Proof. unfold parsed. intros ? [??]. split; [lia|done]. Qed.

Lemma words_add_arg c (w : word) : words_ok c → word_ok buf w → words_ok (add_arg c w).
Proof.
  intros Hc Hw. induction c as [argv|c IH f mode fd| | |]; try done; unfold words_ok in *; simpl in *.
  - apply Forall_app. auto.
  - apply Forall_app in Hc as [??]. apply Forall_app. auto.
Qed.

(** What follows a [peek] that saw a token: the token. *)
Lemma peek_then {A} (Q : A → nat → Prop) tk (m1 m2 : M nat A) s : (s ≤ len)%nat →
  (∀ s', (s ≤ s' ≤ len)%nat → char_at buf s' ≠ 0 → is_ws (char_at buf s') = false → exits_or Q m1 s') →
  (∀ s', (s ≤ s' ≤ len)%nat → exits_or Q m2 s') →
  exits_or Q (let! b := peek buf tk in if b : bool then m1 else m2) s.
Proof.
  intros Hs H1 H2. eapply eo_call; [by apply peek_moves|]. intros [] s' [Hs' Hb]; [|by apply H2].
  destruct (Hb eq_refl). by apply H1.
Qed.

Lemma parseredirs_ok n : ∀ c s, (s ≤ len)%nat → (len - s ≤ n)%nat → words_ok c →
  exits_or (parsed s) (parseredirs buf n c) s.
Proof.
  induction n as [|n IH]; intros c s Hs Hn Hc; simpl; (apply peek_then; [done| |intros s' Hs'; by split; [lia|]]).
  - intros s' Hs' Hc' _. pose proof (char_at_inside _ _ Hc'). lia.
  - intros s1 Hs1 Hc1 Hw1. pose proof (char_at_inside _ _ Hc1).
    eapply eo_call; [by apply gettoken_moves; lia|]. intros [tok w1] s2 (Hs2 & _ & Hlt & _).
    specialize (Hlt Hc1 Hw1).
    eapply eo_call; [apply gettoken_moves; lia|]. intros [t w] s3 (Hs3 & _ & _ & Hw). simpl in Hw.
    destruct (Z.eqb_spec t (ch "a")) as [->|]; [|done]. cbn [negb].
    eapply eo_mono; [apply IH; [lia..|]|intros c' s'; apply parsed_le; lia].
    repeat destruct (_ =? _); (apply Forall_app; split; [done|]; constructor; [by apply Hw|done]).
Qed.

Lemma parseargs_ok n : ∀ c argc s, (s ≤ len)%nat → (len - s < n)%nat → words_ok c →
  exits_or (parsed s) (parseargs buf n c argc) s.
Proof.
  induction n as [|n IH]; intros c argc s Hs Hn Hc; [lia|]. cbn [parseargs].
  apply peek_then; [done|intros s' Hs' _ _; by split; [lia|]|]. intros s1 Hs1.
  eapply eo_call; [apply gettoken_moves; lia|]. intros [tok w] s2 (Hs2 & Hlt & _ & Hw). simpl in *.
  destruct (Z.eqb_spec tok 0) as [->|H0]; [by split; [lia|]|].
  destruct (Z.eqb_spec tok (ch "a")) as [->|]; [|done]. cbn [negb].
  destruct (MAXARGS <=? argc + 1); [done|].
  eapply eo_call; [apply parseredirs_ok; [lia..|apply words_add_arg; auto]|]. intros c' s3 [Hs3 Hc'].
  eapply eo_mono; [apply IH; [lia|destruct Hlt; [done|lia]|done]|intros c'' s'; apply parsed_le; lia].
Qed.

Lemma back_loop_ok n : ∀ c s, (s ≤ len)%nat → (len - s ≤ n)%nat → words_ok c →
  exits_or (parsed s) (back_loop buf n c) s.
Proof.
  induction n as [|n IH]; intros c s Hs Hn Hc; simpl; (apply peek_then; [done| |intros s' Hs'; by split; [lia|]]).
  - intros s' Hs' Hc' _. pose proof (char_at_inside _ _ Hc'). lia.
  - intros s1 Hs1 Hc1 Hw1. eapply eo_call; [apply gettoken_moves; lia|].
    intros _ s2 (Hs2 & _ & Hlt & _). specialize (Hlt Hc1 Hw1).
    eapply eo_mono; [by apply IH; [lia..|]|intros c' s'; apply parsed_le; lia].
Qed.

(** Every call of parseline but the first is past a character. *)
Definition line_ok (line : M nat (cmd word)) s : Prop :=
  ∀ s1, (s < s1 ≤ len)%nat → exits_or (parsed s1) line s1.

Lemma parseblock_ok line s : line_ok line s → (s ≤ len)%nat → exits_or (parsed s) (parseblock buf line) s.
Proof.
  intros Hline Hs. eapply eo_call; [by apply peek_moves|]. intros [] s1 [Hs1 Hb]; [|done]. cbn [negb].
  destruct (Hb eq_refl) as [Hc1 Hw1].
  eapply eo_call; [apply gettoken_moves; lia|]. intros _ s2 (Hs2 & _ & Hlt & _). specialize (Hlt Hc1 Hw1).
  eapply eo_call; [apply Hline; lia|]. intros c3 s3 [Hs3 Hc3].
  eapply eo_call; [apply peek_moves; lia|]. intros [] s4 [Hs4 _]; [|done]. cbn [negb].
  eapply eo_call; [apply gettoken_moves; lia|]. intros _ s5 (Hs5 & _).
  eapply eo_mono; [apply parseredirs_ok; [lia..|done]|intros c' s'; apply parsed_le; lia].
Qed.
Lemma parseexec_ok line s : line_ok line s → (s ≤ len)%nat → exits_or (parsed s) (parseexec buf line) s.
Proof.
  intros Hline Hs. apply peek_then; [done|intros s1 Hs1 _ _|intros s1 Hs1].
  - eapply eo_mono; [apply parseblock_ok; [intros s2 ?; apply Hline; lia|lia]|intros c' s'; apply parsed_le; lia].
  - eapply eo_call; [apply parseredirs_ok; [lia..|constructor]|]. intros c2 s2 [Hs2 Hc2].
    eapply eo_mono; [apply parseargs_ok; [lia..|done]|intros c' s'; apply parsed_le; lia].
Qed.
Lemma parsepipe_ok n line : ∀ s, line_ok line s → (s ≤ len)%nat → (len - s < n)%nat →
  exits_or (parsed s) (parsepipe buf n line) s.
Proof.
  induction n as [|n IH]; intros s Hline Hs Hn; [lia|]. cbn [parsepipe].
  eapply eo_call; [by apply parseexec_ok|]. intros c1 s1 [Hs1 Hc1].
  apply peek_then; [lia| |intros s' Hs'; by split; [lia|]]. intros s3 Hs3 Hc3 Hw3.
  eapply eo_call; [apply gettoken_moves; lia|]. intros _ s4 (Hs4 & _ & Hlt & _). specialize (Hlt Hc3 Hw3).
  eapply eo_call; [apply IH; [intros s5 ?; apply Hline; lia|lia..]|]. intros c5 s5 [Hs5 Hc5].
  split; [lia|]. apply Forall_app. by split.
Qed.
Lemma parseline_ok n : ∀ s, (s ≤ len)%nat → (len - s < n)%nat → exits_or (parsed s) (parseline buf n) s.
Proof.
  induction n as [|n IH]; intros s Hs Hn; [lia|]. cbn [parseline].
  eapply eo_call; [apply parsepipe_ok; [intros s1 ?; apply IH; lia|lia..]|]. intros c1 s1 [Hs1 Hc1].
  eapply eo_call; [apply back_loop_ok; [lia..|done]|]. intros c2 s2 [Hs2 Hc2].
  apply peek_then; [lia| |intros s' Hs'; by split; [lia|]]. intros s3 Hs3 Hc3 Hw3.
  eapply eo_call; [apply gettoken_moves; lia|]. intros _ s4 (Hs4 & _ & Hlt & _). specialize (Hlt Hc3 Hw3).
  eapply eo_call; [apply IH; lia|]. intros c5 s5 [Hs5 Hc5].
  split; [lia|]. apply Forall_app. by split.
Qed.
End termination.

(** * The strings of a command *)

Section strings.
Context (buf : list Z).
Notation len := (length buf).

(** The bytes of a word. *)
Definition slice (w : word) : list Z := take (snd w - fst w) (drop (fst w) buf).
(** The C string that starts at the word in the buffer [b]. *)
Definition string_at (b : list Z) (w : word) : list Z := cstr (drop (fst w) b).

Lemma cstr_take (xs : list Z) : ∀ n, (∀ i, (i < n)%nat → ∃ x, xs !! i = Some x ∧ x ≠ 0) → xs !! n = Some 0 →
  cstr xs = take n xs.
Proof.
  induction xs as [|x xs IH]; intros n Hi Hn; [done|]. destruct n as [|n]; simpl in *.
  - injection Hn as ->. done.
  - destruct (Hi O) as (x' & [= <-] & Hx); [lia|]. rewrite (proj2 (Z.eqb_neq _ _) Hx). f_equal.
    apply IH; [|done]. intros i Hi'. apply (Hi (S i)). lia.
Qed.

Definition cut (ws : list word) (b : list Z) : list Z := foldl (λ b (w : word), <[snd w := 0]> b) b ws.
Lemma cut_lookup (ws : list word) : ∀ (b : list Z) i, (∀ w, w ∈ ws → snd w < length b)%nat →
  cut ws b !! i = if decide (i ∈ (ws.*2)) then Some 0 else b !! i.
Proof.
  induction ws as [|w ws IH]; intros b i Hw; [done|]. cbn [cut foldl]. fold (cut ws (<[snd w:=0]> b)).
  rewrite IH; [|intros w' Hw'; rewrite length_insert; apply Hw; by right].
  rewrite fmap_cons. assert (i ∈ snd w :: ws.*2 ↔ i = snd w ∨ i ∈ ws.*2) as He by apply elem_of_cons.
  destruct (decide (i ∈ ws.*2)), (decide (i ∈ snd w :: ws.*2)); try tauto.
  - destruct (decide (i = snd w)) as [->|]; [|tauto]. apply list_lookup_insert_eq. apply Hw. left.
  - apply list_lookup_insert_ne. intros Hi. symmetry in Hi. tauto.
Qed.

(** After [nulterminate], every word of the command is a string. *)
Lemma nulterminate_string c w : Forall (λ x, x ≠ 0) buf → words_ok buf c → w ∈ cmd_words c →
  string_at (nulterminate buf c) w = slice w.
Proof.
  intros Hnul Hc Hw. rewrite Forall_forall in Hnul. unfold words_ok in Hc. rewrite Forall_forall in Hc.
  destruct (Hc w Hw) as ([Hw1 Hw2] & Hin & _).
  assert (∀ i, nulterminate buf c !! i = if decide (i ∈ (cmd_words c).*2) then Some 0 else (buf ++ [0]) !! i) as Hlk.
  { intros i. apply cut_lookup. intros w' (Hw' & _)%Hc. rewrite length_app. simpl. lia. }
  assert (∀ p, (fst w ≤ p < snd w)%nat → nulterminate buf c !! p = buf !! p) as Hpt.
  { intros p Hp. rewrite Hlk, (lookup_app_l buf [0]) by lia. destruct (decide _) as [Hi|]; [exfalso|done]. revert Hi.
    intros (w' & -> & Hw')%list_elem_of_fmap. destruct (Hc w' Hw') as (_ & _ & He).
    specialize (Hin _ Hp). destruct He as [He|He]; [lia|congruence]. }
  assert (∀ i, (i < snd w - fst w)%nat → drop (fst w) (nulterminate buf c) !! i = drop (fst w) buf !! i) as Heq.
  { intros i Hi. rewrite !lookup_drop. apply Hpt. lia. }
  unfold string_at, slice. rewrite (cstr_take _ (snd w - fst w)).
  - apply list_eq. intros i. destruct (decide (i < snd w - fst w)%nat) as [Hi|Hi].
    + rewrite !lookup_take_lt by done. by apply Heq.
    + by rewrite !lookup_take_ge by lia.
  - intros i Hi. rewrite Heq, lookup_drop by done. destruct (lookup_lt_is_Some_2 buf (fst w + i)) as [x Hx]; [lia|].
    exists x. split; [done|]. apply Hnul. by eapply list_elem_of_lookup_2.
  - rewrite lookup_drop, Hlk. replace (fst w + (snd w - fst w))%nat with (snd w) by lia.
    destruct (decide _) as [|Hi]; [done|]. destruct Hi. apply list_elem_of_fmap. by exists w.
Qed.

(** Every line is used up, or refused with a message. *)
Lemma parsecmd_exits :
  exits_or (λ r s', s' = len ∧ words_ok buf (fst r) ∧ snd r = nulterminate buf (fst r)) (parsecmd buf) O.
Proof.
  unfold parsecmd. eapply eo_call; [apply parseline_ok; lia|].
  intros c1 s1 [Hs1 Hc1]. eapply eo_call; [apply peek_moves; lia|]. intros _ s2 _.
  unfold exits_or, bind, gets, id; simpl. by destruct (Nat.eqb_spec s2 len).
Qed.

(** C37: the parser terminates on every line: it exits with a message, or it has used
    up the line and returns a command each word of which is a maximal run of word
    characters, which is what the NUL-terminated string of the word holds. *)
Theorem parsecmd_words :
  Forall (λ x, x ≠ 0) buf →
  (∃ msg, parsecmd buf O = Panic msg) ∨
  ∃ c b, parsecmd buf O = Ok (c, b) len ∧
    Forall (λ w, word_ok buf w ∧ string_at b w = slice w) (cmd_words c).
Proof.
  intros Hnul.
  pose proof parsecmd_exits as H.
  unfold exits_or in H. destruct (parsecmd buf O) as [[c b] s'|msg| | | |]; try done; [right|left; by exists msg].
  destruct H as (-> & Hc & Hb). simpl in *. subst b. exists c, (nulterminate buf c). split; [done|].
  unfold words_ok in Hc. rewrite Forall_forall in Hc |- *. intros w Hw. split; [by apply Hc|].
  apply nulterminate_string; [done| |done]. by apply Forall_forall.
Qed.
End strings.

Lemma parsecmd_words_witness :
  let line := lit "cat < a | (wc >>b; x)&" in
  Forall (λ x, x ≠ 0) line ∧
  ((∃ msg, parsecmd line O = Panic msg) ∨
   ∃ c b, parsecmd line O = Ok (c, b) (length line) ∧
     Forall (λ w, word_ok line w ∧ string_at b w = slice line w) (cmd_words c)).
Proof. intros line. split; [by_compute|]. apply (parsecmd_words line). by_compute. Defined.
