(* ===== verification/ShText.v ===== *)
(** The parser of the shell inverts the grammar: a command written out as text is
    parsed back to the command, with the strings of its words in the buffer.

    [text] writes a command, parenthesised where the grammar needs it. *)

From Stdlib Require Import Ascii.
From S2P Require Import Prelude CString Printf Sh.
Local Open Scope Z_scope.

(** * Commands as text *)

Definition word_text (w : list Z) : list Z := 32 :: w.
Definition redir_text (r : list Z * Z * Z) : list Z :=
  let '(f, mode, fd) := r in
  (if fd =? 0 then lit "<" else if Z.testbit mode 10 then lit ">" else lit ">>") ++ word_text f.
Definition paren (b : bool) (t : list Z) : list Z := if b then lit "(" ++ t ++ lit ")" else t.
(** At the levels 0 to 3 of parseexec, parsepipe, the [&] of parseline, parseline. *)
Fixpoint text (lvl : nat) (c : cmd (list Z)) : list Z :=
  match c with
  | EXEC argv => mjoin (word_text <$> argv)
  | REDIR c f mode fd => text 0 c ++ redir_text (f, mode, fd)
  | PIPE l r => paren (Nat.ltb lvl 1) (text 0 l ++ lit "|" ++ text 1 r)
  | BACK c => paren (Nat.ltb lvl 2) (text 2 c ++ lit "&")
  | LIST l r => paren (Nat.ltb lvl 3) (text 2 l ++ lit ";" ++ text 3 r)
  end.

(** What the grammar can say: words of word characters, fewer arguments than
    [MAXARGS], and the three redirections. *)
Definition word_chars (w : list Z) : Prop := w ≠ [] ∧ Forall (λ x, x ≠ 0 ∧ is_word x = true) w.
Definition redir_ok (r : list Z * Z * Z) : Prop :=
  let '(f, mode, fd) := r in
  word_chars f ∧ ((mode, fd) ∈ [(O_RDONLY, 0); (Z.lor (Z.lor O_WRONLY O_CREATE) O_TRUNC, 1); (Z.lor O_WRONLY O_CREATE, 1)]).
Fixpoint cmd_ok (c : cmd (list Z)) : Prop :=
  match c with
  | EXEC argv => Forall word_chars argv ∧ Z.of_nat (length argv) < MAXARGS
  | REDIR c f mode fd => cmd_ok c ∧ redir_ok (f, mode, fd)
  | PIPE l r | LIST l r => cmd_ok l ∧ cmd_ok r
  | BACK c => cmd_ok c
  end.

(** The redirections around a command, inside out; and repeated [&]. *)
Definition wrap {W} (c : cmd W) (rs : list (W * Z * Z)) : cmd W :=
  foldl (λ c '(f, mode, fd), REDIR c f mode fd) c rs.
Fixpoint backs {W} (k : nat) (c : cmd W) : cmd W :=
  match k with O => c | S k => backs k (BACK c) end.
Definition map_redir {W W'} (f : W → W') (r : W * Z * Z) : W' * Z * Z := (f r.1.1, r.1.2, r.2).

Lemma wrap_app {W} (c : cmd W) rs r : wrap c (rs ++ [r]) = REDIR (wrap c rs) r.1.1 r.1.2 r.2.
Proof. unfold wrap. rewrite foldl_app. by destruct r as [[??]?]. Qed.
Lemma cmd_map_wrap {W W'} (f : W → W') rs : ∀ c, cmd_map f (wrap c rs) = wrap (cmd_map f c) (map_redir f <$> rs).
Proof. induction rs as [|[[w m] d] rs IH]; intros c; [done|]. apply IH. Qed.
Lemma cmd_map_backs {W W'} (f : W → W') k : ∀ c, cmd_map f (backs k c) = backs k (cmd_map f c).
Proof. induction k as [|k IH]; intros c; [done|]. apply IH. Qed.
Lemma backs_S {W} k : ∀ c : cmd W, backs (S k) c = BACK (backs k c).
Proof. induction k as [|k IH]; intros c; [done|]. apply IH. Qed.

(** The shape of a command at each level. *)
Lemma shape0 c : cmd_ok c →
  ∃ b rs, c = wrap b rs ∧ text 0 c = text 0 b ++ mjoin (redir_text <$> rs) ∧ Forall redir_ok rs ∧ cmd_ok b ∧
    ((∃ argv, b = EXEC argv) ∨ text 0 b = lit "(" ++ text 3 b ++ lit ")").
Proof.
  induction c as [argv|c IH f mode fd|l IHl r IHr|l IHl r IHr|c IH]; intros Hc.
  - exists (EXEC argv), []. simpl. rewrite app_nil_r. eauto 10.
  - destruct Hc as [(b & rs & -> & Ht & Hrs & Hb & Hs)%IH Hr]. exists b, (rs ++ [(f, mode, fd)]).
    rewrite wrap_app, fmap_app, join_app. cbn [text]. rewrite Ht, <- app_assoc. simpl. rewrite app_nil_r.
    split_and!; [done..|apply Forall_app; auto|done|done].
  - exists (PIPE l r), []. simpl. rewrite app_nil_r. eauto 10.
  - exists (LIST l r), []. simpl. rewrite app_nil_r. eauto 10.
  - exists (BACK c), []. simpl. rewrite app_nil_r. eauto 10.
Qed.
Lemma shape1 c : (∃ l r, c = PIPE l r) ∨ text 1 c = text 0 c.
Proof. destruct c; eauto. Qed.
Lemma shape2 c : cmd_ok c →
  ∃ b k, c = backs k b ∧ text 2 c = text 1 b ++ replicate k (ch "&") ∧ cmd_ok b.
Proof.
  assert (∀ c, text 2 c = text 1 c → cmd_ok c → ∃ b k, c = backs k b ∧ text 2 c = text 1 b ++ replicate k (ch "&") ∧ cmd_ok b) as H0.
  { intros c' Ht Hc. exists c', O. simpl. by rewrite app_nil_r. }
  induction c as [argv|c IH f mode fd|l IHl r IHr|l IHl r IHr|c IH]; try by apply H0.
  intros (b & k & -> & Ht & Hb)%IH. exists b, (S k). rewrite backs_S. split_and!; [done| |done].
  cbn [text]. rewrite Ht. cbn [paren Nat.ltb Nat.leb]. rewrite <- app_assoc. f_equal.
  symmetry. apply (replicate_S_end k).
Qed.
Lemma shape3 c : (∃ l r, c = LIST l r) ∨ text 3 c = text 2 c.
Proof. destruct c; eauto. Qed.

(** * The scanner on what is left of the line *)

Fixpoint drop_while (f : Z → bool) (X : list Z) : list Z :=
  match X with [] => [] | x :: X' => if f x then drop_while f X' else X end.
Notation trim := (drop_while is_ws).

Definition follows (tk X : list Z) : Prop :=
  match trim X with [] => True | c :: _ => c ∈ tk end.
(** No word goes on at the start of [X]. *)
Definition word_ends (X : list Z) : Prop := match X with [] => True | c :: _ => is_word c = false end.

Lemma follows_mono tk tk' X : follows tk X → Forall (.∈ tk') tk → follows tk' X.
Proof. rewrite Forall_forall. unfold follows. destruct (trim X); [done|]. auto. Qed.
Lemma follows_word_ends tk X : follows tk X → Forall (.∈ symbols) tk → word_ends X.
Proof.
  rewrite Forall_forall.
  unfold follows, word_ends. destruct X as [|c X]; [done|]. simpl. unfold is_word.
  destruct (is_ws c); [done|]. intros Hc Htk. simpl. apply negb_false_iff, bool_decide_eq_true. auto.
Qed.

Lemma follows_symbol tk (x : Z) Y : is_ws x = false → x ∈ tk → follows tk (x :: Y).
Proof. intros Hx Htk. unfold follows. simpl. by rewrite Hx. Qed.

Section scan.
Context (buf : list Z).
Notation len := (length buf).
Implicit Types (s q e n : nat) (X Y B tk w : list Z).

Definition rest s X : Prop := (s ≤ len)%nat ∧ trim (drop s buf) = trim X.

Lemma drop_char s : (s < len)%nat → drop s buf = char_at buf s :: drop (S s) buf.
Proof. intros Hs. unfold char_at. destruct (lookup_lt_is_Some_2 buf s Hs) as [x Hx].
  rewrite (nth_lookup_Some _ _ _ _ Hx). by apply drop_S. Qed.

Lemma drop_skip_while f n : ∀ s, (s + n = len)%nat → drop (skip_while buf f n s) buf = drop_while f (drop s buf).
Proof.
  induction n as [|n IH]; intros s Hs; cbn [skip_while].
  - rewrite drop_ge by lia. done.
  - rewrite (drop_char s) by lia. cbn [drop_while]. destruct (f (char_at buf s)); [apply IH; lia|apply drop_char; lia].
Qed.
Lemma drop_skip f s : (s ≤ len)%nat → drop (skip_from buf f s) buf = drop_while f (drop s buf).
Proof. intros Hs. apply drop_skip_while. lia. Qed.
Lemma skip_le f s : (s ≤ len)%nat → (s ≤ skip_from buf f s ≤ len)%nat.
Proof. intros Hs. apply (skip_from_spec buf f s Hs). Qed.

Lemma char_drop s : char_at buf s = nth 0 (drop s buf) 0.
Proof. unfold char_at. by rewrite !nth_lookup, lookup_drop, Nat.add_0_r. Qed.

Lemma trim_trim X : trim (trim X) = trim X.
Proof. induction X as [|x X IH]; [done|]. simpl. destruct (is_ws x) eqn:Hx; [done|]. simpl. by rewrite Hx. Qed.
Lemma rest_skip s X : rest s X → rest (skip_from buf is_ws s) X ∧ drop (skip_from buf is_ws s) buf = trim X.
Proof.
  intros [Hs HX]. pose proof (skip_le is_ws s Hs). rewrite <- HX, <- (drop_skip is_ws s Hs).
  split; [|done]. split; [lia|]. by rewrite drop_skip, trim_trim.
Qed.
Lemma rest_drop s X : (s ≤ len)%nat → drop s buf = X → rest (skip_from buf is_ws s) X.
Proof. intros Hs <-. apply rest_skip. by split. Qed.

(** [peek] on what is left: the first character, if it is one of the tokens. *)
Lemma peek_rest tk s X : rest s X →
  ∃ s', (s ≤ s')%nat ∧ rest s' X ∧
    peek buf tk s = Ok (negb (nth 0 (trim X) 0 =? 0) && bool_decide (nth 0 (trim X) 0 ∈ tk)) s'.
Proof.
  intros HX. destruct (rest_skip s X HX) as [HX' Hd]. exists (skip_from buf is_ws s).
  split_and!; [apply skip_le, HX|done|]. unfold peek. by rewrite char_drop, Hd.
Qed.
Lemma peek_yes tk s X c Y : rest s X → trim X = c :: Y → c ≠ 0 → c ∈ tk →
  ∃ s', (s ≤ s')%nat ∧ rest s' X ∧ peek buf tk s = Ok true s'.
Proof.
  intros HX Ht Hc Htk. destruct (peek_rest tk s X HX) as (s' & ? & ? & Hp). exists s'.
  rewrite Hp, Ht. simpl. rewrite (proj2 (Z.eqb_neq _ _) Hc), bool_decide_true by done. done.
Qed.
Lemma peek_no tk tk' s X : rest s X → follows tk' X → Forall (λ c, c ∉ tk) tk' →
  ∃ s', (s ≤ s')%nat ∧ rest s' X ∧ peek buf tk s = Ok false s'.
Proof.
  intros HX Hf Hd. destruct (peek_rest tk s X HX) as (s' & ? & ? & Hp). exists s'.
  rewrite Hp. unfold follows in Hf. destruct (trim X) as [|c Y]; [done|]. simpl.
  rewrite Forall_forall in Hd. rewrite (bool_decide_false (c ∈ tk)) by auto. by rewrite andb_false_r.
Qed.

(** One symbol. *)
Lemma gettoken_symbol s X c Y : rest s X → trim X = c :: Y → c ∈ lit "<|&;()" →
  ∃ v s', gettoken buf s = Ok (c, v) s' ∧ rest s' Y ∧ (s < s')%nat.
Proof.
  intros HX Ht Hc. destruct (rest_skip s X HX) as [[Hle _] Hd]. pose proof (skip_le is_ws s (proj1 HX)).
  set (q := skip_from buf is_ws s) in *. rewrite Ht in Hd.
  assert (q < len)%nat as Hq by (apply (f_equal length) in Hd; rewrite length_drop in Hd; simpl in Hd; lia).
  rewrite (drop_char q Hq) in Hd. injection Hd as Hqc Hd.
  exists (q, S q), (skip_from buf is_ws (S q)). split_and!; [|by apply rest_drop|].
  - unfold gettoken. fold q. rewrite Hqc.
    assert (c =? 0 = false ∧ c =? ch ">" = false ∧ is_symbol c = true) as (-> & -> & ->); [|done].
    clear -Hc. cbn in Hc. rewrite !elem_of_cons in Hc.
    destruct Hc as [->|[->|[->|[->|[->|[->|Hc%elem_of_nil]]]]]]; done.
  - pose proof (skip_le is_ws (S q)). lia.
Qed.
Lemma gettoken_gt s X Y : rest s X → trim X = ch ">" :: Y → nth 0 Y 0 ≠ ch ">" →
  ∃ v s', gettoken buf s = Ok (ch ">", v) s' ∧ rest s' Y ∧ (s < s')%nat.
Proof.
  intros HX Ht Hc. destruct (rest_skip s X HX) as [[Hle _] Hd]. pose proof (skip_le is_ws s (proj1 HX)).
  set (q := skip_from buf is_ws s) in *. rewrite Ht in Hd.
  assert (q < len)%nat as Hq by (apply (f_equal length) in Hd; rewrite length_drop in Hd; simpl in Hd; lia).
  rewrite (drop_char q Hq) in Hd. injection Hd as Hqc Hd.
  exists (q, S q), (skip_from buf is_ws (S q)). split_and!; [|by apply rest_drop|].
  - unfold gettoken. fold q. rewrite Hqc, (char_drop (S q)), Hd. simpl.
    by rewrite (proj2 (Z.eqb_neq _ _) Hc).
  - pose proof (skip_le is_ws (S q)). lia.
Qed.
Lemma gettoken_gtgt s X Y : rest s X → trim X = ch ">" :: ch ">" :: Y →
  ∃ v s', gettoken buf s = Ok (ch "+", v) s' ∧ rest s' Y ∧ (s < s')%nat.
Proof.
  intros HX Ht. destruct (rest_skip s X HX) as [[Hle _] Hd]. pose proof (skip_le is_ws s (proj1 HX)).
  set (q := skip_from buf is_ws s) in *. rewrite Ht in Hd.
  assert (S q < len)%nat as Hq by (apply (f_equal length) in Hd; rewrite length_drop in Hd; simpl in Hd; lia).
  rewrite (drop_char q) in Hd by lia. injection Hd as Hqc Hd.
  pose proof Hd as Hd'. rewrite (drop_char (S q) Hq) in Hd'. injection Hd' as Hqc' Hd'.
  exists (q, S (S q)), (skip_from buf is_ws (S (S q))). split_and!; [|by apply rest_drop|].
  - unfold gettoken. fold q. by rewrite Hqc, Hqc'.
  - pose proof (skip_le is_ws (S (S q))). lia.
Qed.
(** A word. *)
Lemma drop_while_app f w Y : Forall (λ x, f x = true) w → match Y with [] => True | c :: _ => f c = false end →
  drop_while f (w ++ Y) = Y.
Proof. intros Hw HY. induction Hw as [|x w Hx _ IH]; simpl; [destruct Y; simpl; [done|by rewrite HY]|by rewrite Hx]. Qed.
Lemma gettoken_word s X w Y : rest s X → trim X = w ++ Y → word_chars w → word_ends Y →
  ∃ v s', gettoken buf s = Ok (ch "a", v) s' ∧ rest s' Y ∧ (s < s')%nat ∧ slice buf v = w.
Proof.
  intros HX Ht [Hne Hw] HY. destruct (rest_skip s X HX) as [[Hle _] Hd]. pose proof (skip_le is_ws s (proj1 HX)).
  set (q := skip_from buf is_ws s) in *. rewrite Ht in Hd.
  pose proof (skip_le is_word q Hle) as He. set (e := skip_from buf is_word q) in *.
  assert (drop e buf = Y) as HdY.
  { unfold e. rewrite drop_skip, Hd by done. apply drop_while_app; [|done].
    eapply Forall_impl; [exact Hw|]. by intros ? []. }
  assert (e = q + length w)%nat as Hlen.
  { apply (f_equal length) in Hd, HdY. rewrite length_drop in Hd, HdY. rewrite length_app in Hd. lia. }
  destruct w as [|c w]; [done|]. inversion Hw as [|?? [Hc0 Hcw] _]; subst.
  exists (q, e), (skip_from buf is_ws e). split_and!.
  - unfold gettoken. fold q e. rewrite (char_drop q), Hd. simpl. unfold is_word in Hcw.
    destruct (is_symbol c) eqn:Hs; [by rewrite andb_false_r in Hcw|].
    rewrite (proj2 (Z.eqb_neq _ _) Hc0).
    destruct (Z.eqb_spec c (ch ">")) as [->|]; [done|]. done.
  - apply rest_drop; [lia|done].
  - pose proof (skip_le is_ws e). simpl in Hlen. lia.
  - unfold slice. cbn [fst snd]. rewrite Hd. replace (e - q)%nat with (length (c :: w)) by (rewrite Hlen; lia).
    by apply take_app_length.
Qed.
End scan.

(** * The parser on what is left of the line *)

Section parse.
Context (buf : list Z).
Notation len := (length buf).
Notation rest := (rest buf).
Implicit Types (s n fuel k : nat) (X Y B tk : list Z) (c : cmd (list Z)).

(** The parser returns a command whose words read as [c], and leaves [B]. *)
Definition reads (r : res nat (cmd word)) s c B : Prop :=
  ∃ t s', r = Ok t s' ∧ cmd_map (slice buf) t = c ∧ rest s' B ∧ (s ≤ s')%nat.

Lemma reads_call (m : M nat (cmd word)) (f : cmd word → M nat (cmd word)) s c B c' B' :
  reads (m s) s c B →
  (∀ t s', cmd_map (slice buf) t = c → rest s' B → (s ≤ s')%nat → reads (f t s') s' c' B') →
  reads (bind m f s) s c' B'.
Proof.
  intros (t & s' & Hm & Ht & HB & Hs) Hf. destruct (Hf t s' Ht HB Hs) as (t2 & s2 & H2 & ? & ? & ?).
  exists t2, s2. rewrite (bind_Ok _ _ _ _ _ Hm). split_and!; [done..|lia].
Qed.
Lemma reads_le s s1 r c B : (s ≤ s1)%nat → reads r s1 c B → reads r s c B.
Proof. intros ? (t & s2 & ? & ? & ? & ?). exists t, s2. split_and!; [done..|lia]. Qed.
Lemma reads_step {A} (m : M nat A) (f : A → M nat (cmd word)) s a s1 c B :
  m s = Ok a s1 → (s ≤ s1)%nat → reads (f a s1) s1 c B → reads (bind m f s) s c B.
Proof. intros Hm Hs Hr. rewrite (bind_Ok _ _ _ _ _ Hm). by eapply reads_le. Qed.
Lemma reads_ret t s c B : cmd_map (slice buf) t = c → rest s B → reads (ret t s) s c B.
Proof. intros ??. by exists t, s. Qed.

Lemma rest_lt s X (x : Z) Y : rest s X → trim X = x :: Y → (s < len)%nat.
Proof.
  intros [Hs HX] Ht. rewrite Ht in HX. destruct (decide (s < len)%nat); [done|].
  rewrite drop_ge in HX by lia. done.
Qed.

Lemma word_trim w Y : word_chars w → trim (word_text w ++ Y) = w ++ Y.
Proof.
  intros [Hne Hw]. destruct w as [|x w]; [done|]. inversion Hw as [|?? [_ Hx] _]; subst. simpl.
  unfold is_word in Hx. destruct (is_ws x); [done|]. done.
Qed.
Lemma word_head w : word_chars w → ∃ x w', w = x :: w' ∧ x ≠ 0 ∧ x ∉ symbols.
Proof.
  intros [Hne Hw]. destruct w as [|x w]; [done|]. inversion Hw as [|?? [Hx Hx'] _]; subst.
  exists x, w. split_and!; [done..|]. unfold is_word in Hx'. intros Hs.
  apply andb_true_iff in Hx' as [_ Hx']. unfold is_symbol in Hx'. by rewrite bool_decide_true in Hx'.
Qed.

Notation redirs_text rs := (mjoin (redir_text <$> rs)).
Notation words_text ws := (mjoin (word_text <$> ws)).

(** The texts that end a simple command. *)
Lemma word_ends_redirs (rs : list (list Z * Z * Z)) B : word_ends B → word_ends (redirs_text rs ++ B).
Proof.
  destruct rs as [|[[f m] d] rs]; [done|]. intros _. rewrite fmap_cons.
  cbn [mjoin list_join redir_text]. destruct (d =? 0); [done|]. by destruct (Z.testbit m 10).
Qed.
Lemma word_ends_words (ws : list (list Z)) Y : word_ends Y → word_ends (words_text ws ++ Y).
Proof. by destruct ws. Qed.

Lemma parseredirs_reads (rs : list (list Z * Z * Z)) : ∀ n (t : cmd word) s B,
  Forall redir_ok rs → rest s (redirs_text rs ++ B) → follows (lit "|)&;") B → (len - s ≤ n)%nat →
  reads (parseredirs buf n t s) s (wrap (cmd_map (slice buf) t) rs) B.
Proof.
  induction rs as [|[[f m] d] rs IH]; intros n t s B Hrs HX HB Hn.
  - destruct (peek_no buf (lit "<>") _ s B HX HB) as (s' & Hs' & HX' & Hp).
    { by_compute. }
    destruct n; cbn [parseredirs]; (eapply reads_step; [exact Hp|done|]); by apply reads_ret.
  - apply Forall_cons in Hrs as [[Hf Hmd] Hrs']. rewrite fmap_cons in HX. cbn [mjoin list_join] in HX.
    set (op := if d =? 0 then lit "<" else if Z.testbit m 10 then lit ">" else lit ">>").
    assert (redirs_text ((f, m, d) :: rs) ++ B = op ++ word_text f ++ redirs_text rs ++ B) as He.
    { rewrite fmap_cons. cbn [mjoin list_join redir_text]. fold op. by rewrite <- !app_assoc. }
    change (redir_text (f, m, d) ++ redirs_text rs) with (redirs_text ((f, m, d) :: rs)) in HX. rewrite He in HX.
    assert (∃ Y, trim (op ++ word_text f ++ redirs_text rs ++ B) = ch (if d =? 0 then "<"%char else ">"%char) :: Y) as (Y & Ht).
    { unfold op. destruct (d =? 0); [by eexists|]. destruct (Z.testbit m 10); by eexists. }
    pose proof (rest_lt _ _ _ _ HX Ht). destruct n as [|n]; [lia|]. cbn [parseredirs].
    destruct (peek_yes buf (lit "<>") s _ _ _ HX Ht) as (s1 & Hs1 & HX1 & Hp).
    { by destruct (d =? 0). }
    { destruct (d =? 0); cbn; rewrite !elem_of_cons; auto. }
    eapply reads_step; [exact Hp|done|]. cbn beta iota.
    assert (∃ w s2, gettoken buf s1 = Ok (ch (if d =? 0 then "<"%char else if Z.testbit m 10 then ">"%char else "+"%char), w) s2 ∧
      rest s2 (word_text f ++ redirs_text rs ++ B) ∧ (s1 < s2)%nat) as (w & s2 & Hg & HX2 & Hs2).
    { unfold op in HX1. destruct (d =? 0); [|destruct (Z.testbit m 10)].
      - eapply gettoken_symbol; [exact HX1|reflexivity|by_compute].
      - eapply gettoken_gt; [exact HX1|reflexivity|done].
      - by apply (gettoken_gtgt buf s1 _ _ HX1 eq_refl). }
    eapply reads_step; [exact Hg|lia|]. cbn beta iota.
    destruct (gettoken_word buf s2 _ f _ HX2 (word_trim f _ Hf) Hf) as (v & s3 & Hg3 & HX3 & Hs3 & Hv).
    { apply word_ends_redirs. apply (follows_word_ends _ _ HB). by_compute. }
    eapply reads_step; [exact Hg3|lia|]. cbn beta iota.
    change (negb (ch "a" =? ch "a")) with false. cbn iota.
    set (t' := if _ =? ch "<" then _ else _).
    replace (wrap (cmd_map (slice buf) t) ((f, m, d) :: rs)) with (wrap (cmd_map (slice buf) t') rs);
      [apply IH; [done..|lia]|].
    cbn [wrap foldl]. f_equal. subst t' f. clear -Hmd.
    rewrite !elem_of_cons, elem_of_nil in Hmd. by destruct Hmd as [[= -> ->]|[[= -> ->]|[[= -> ->]|[]]]].
Qed.

Lemma parseredirs_none n (t : cmd word) s X : rest s X → nth 0 (trim X) 0 ∉ lit "<>" →
  ∃ s', (s ≤ s')%nat ∧ rest s' X ∧ parseredirs buf n t s = Ok t s'.
Proof.
  intros HX Hh. destruct (peek_rest buf (lit "<>") s X HX) as (s' & Hs' & HX' & Hp). exists s'.
  split_and!; [done..|]. rewrite bool_decide_false, andb_false_r in Hp by done.
  destruct n; cbn [parseredirs]; by rewrite (bind_Ok _ _ _ _ _ Hp).
Qed.

Lemma parseargs_end n (t : cmd word) argc s B : rest s B → follows (lit "|)&;") B → (len - s < n)%nat →
  reads (parseargs buf n t argc s) s (cmd_map (slice buf) t) B.
Proof.
  intros HB Hf Hn. destruct n as [|n]; [lia|]. cbn [parseargs].
  destruct (peek_rest buf (lit "|)&;") s B HB) as (s' & Hs' & HB' & Hp). unfold follows in Hf.
  eapply reads_step; [exact Hp|done|]. destruct (trim B) as [|x Y] eqn:Ht.
  - destruct (rest_skip buf s' B HB') as [HB1 Hd]. rewrite Ht in Hd.
    assert (gettoken buf s' = Ok (0, (skip_from buf is_ws s', skip_from buf is_ws s'))
              (skip_from buf is_ws (skip_from buf is_ws s'))) as Hg.
    { unfold gettoken. by rewrite (char_drop buf (skip_from buf is_ws s')), Hd. }
    destruct (rest_skip buf _ B HB1) as [HB2 _].
    eapply reads_step; [exact Hg| |by apply reads_ret].
    pose proof (skip_le buf is_ws s' (proj1 HB')). pose proof (skip_le buf is_ws _ (proj1 HB1)). lia.
  - rewrite bool_decide_true by done. cbn [nth].
    assert (Forall (λ y, y ≠ 0) (lit "|)&;")) as Hne by by_compute. rewrite Forall_forall in Hne.
    rewrite (proj2 (Z.eqb_neq _ _) (Hne _ Hf)). by apply reads_ret.
Qed.

Lemma parseargs_reads (ws : list (list Z)) (rs : list (list Z * Z * Z)) B :
  Forall redir_ok rs → follows (lit "|)&;") B → (ws = [] → rs = []) →
  ∀ n (vs : list word) argc s, Forall word_chars ws → argc + Z.of_nat (length ws) < MAXARGS →
    rest s (words_text ws ++ redirs_text rs ++ B) → (len - s < n)%nat →
    reads (parseargs buf n (EXEC vs) argc s) s (wrap (EXEC ((slice buf <$> vs) ++ ws)) rs) B.
Proof.
  intros Hrs HB. induction ws as [|w ws IH]; intros Hwr n vs argc s Hws Hargc HX Hn.
  { rewrite Hwr in HX |- * by done. rewrite app_nil_r. by apply parseargs_end. }
  apply Forall_cons in Hws as [Hw Hws]. rewrite fmap_cons in HX. cbn [mjoin list_join length] in HX, Hargc.
  rewrite <- app_assoc in HX. set (X := words_text ws ++ redirs_text rs ++ B) in *.
  destruct n as [|n]; [lia|]. cbn [parseargs]. destruct (word_head w Hw) as (x & w' & Hx & Hx0 & Hxs).
  destruct (peek_rest buf (lit "|)&;") s _ HX) as (s1 & Hs1 & HX1 & Hp).
  rewrite (word_trim w X Hw), Hx in Hp. cbn [nth] in Hp.
  rewrite (bool_decide_false (x ∈ _)), andb_false_r in Hp.
  2:{ assert (Forall (.∈ symbols) (lit "|)&;")) as Hsub by by_compute. rewrite Forall_forall in Hsub. auto. }
  eapply reads_step; [exact Hp|done|]. cbn iota.
  destruct (gettoken_word buf s1 _ w X HX1 (word_trim w X Hw) Hw) as (v & s2 & Hg & HX2 & Hs2 & Hv).
  { apply word_ends_words, word_ends_redirs, (follows_word_ends _ _ HB). by_compute. }
  eapply reads_step; [exact Hg|lia|]. cbn beta iota. change (ch "a" =? 0) with false.
  change (negb (ch "a" =? ch "a")) with false. cbn iota. cbn [add_arg].
  destruct (Z.leb_spec MAXARGS (argc + 1)); [lia|].
  assert ((slice buf <$> vs) ++ w :: ws = (slice buf <$> (vs ++ [v])) ++ ws) as Heq.
  { by rewrite fmap_app, <- app_assoc, <- Hv. }
  rewrite Heq. destruct ws as [|w1 ws].
  - rewrite app_nil_r. eapply reads_call; [apply parseredirs_reads; [done|exact HX2|done|lia]|].
    intros t s3 Ht HB3 Hs3. cbn [cmd_map] in Ht. rewrite <- Ht. pose proof (proj1 HB3). apply parseargs_end; [done..|lia].
  - destruct (parseredirs_none len (EXEC (vs ++ [v])) s2 _ HX2) as (s3 & Hs3 & HX3 & Hr).
    { apply Forall_cons in Hws as [Hw1 _]. unfold X. rewrite fmap_cons. cbn [mjoin list_join]. rewrite <- app_assoc.
      destruct (word_head w1 Hw1) as (x1 & w1' & Hx1 & _ & Hxs1). rewrite (word_trim w1 _ Hw1), Hx1. cbn [nth].
      assert (Forall (.∈ symbols) (lit "<>")) as Hsub by by_compute. rewrite Forall_forall in Hsub. auto. }
    pose proof (proj1 HX3). eapply reads_step; [exact Hr|done|]. apply IH; [done|done|simpl length in *; lia|done|lia].
Qed.

Lemma back_loop_reads k : ∀ n (t : cmd word) s B,
  rest s (replicate k (ch "&") ++ B) → follows (lit ");") B → (len - s ≤ n)%nat →
  reads (back_loop buf n t s) s (backs k (cmd_map (slice buf) t)) B.
Proof.
  induction k as [|k IH]; intros n t s B HX HB Hn.
  - destruct (peek_no buf (lit "&") _ s B HX HB) as (s' & Hs' & HX' & Hp); [by_compute|].
    destruct n; cbn [back_loop]; (eapply reads_step; [exact Hp|done|]); by apply reads_ret.
  - assert (trim (replicate (S k) (ch "&") ++ B) = ch "&" :: replicate k (ch "&") ++ B) as Ht by done.
    pose proof (rest_lt _ _ _ _ HX Ht). destruct n as [|n]; [lia|]. cbn [back_loop].
    destruct (peek_yes buf (lit "&") s _ _ _ HX Ht) as (s1 & Hs1 & HX1 & Hp); [done|by_compute|].
    eapply reads_step; [exact Hp|done|]. cbn iota.
    destruct (gettoken_symbol buf s1 _ _ _ HX1 Ht) as (v & s2 & Hg & HX2 & Hs2); [by_compute|].
    eapply reads_step; [exact Hg|lia|]. cbn beta. change (backs (S k) ?c) with (backs k (BACK c)).
    apply (IH n (BACK t)); [done..|lia].
Qed.

(** A symbol that is there: [peek] sees it and [gettoken] takes it. *)
Lemma take_symbol tk s (x : Z) Y : rest s (x :: Y) → is_ws x = false → x ∈ lit "<|&;()" → x ∈ tk →
  ∃ s1 w s2, peek buf tk s = Ok true s1 ∧ gettoken buf s1 = Ok (x, w) s2 ∧ rest s2 Y ∧ (s ≤ s1 < s2)%nat ∧ (s2 ≤ len)%nat.
Proof.
  intros HX Hw Hx Htk. assert (trim (x :: Y) = x :: Y) as Ht by (simpl; by rewrite Hw).
  assert (Forall (λ y, y ≠ 0) (lit "<|&;()")) as Hne by by_compute. rewrite Forall_forall in Hne.
  destruct (peek_yes buf tk s _ _ _ HX Ht (Hne _ Hx) Htk) as (s1 & Hs1 & HX1 & Hp).
  destruct (gettoken_symbol buf s1 _ _ _ HX1 Ht Hx) as (w & s2 & Hg & HX2 & Hs2).
  exists s1, w, s2. pose proof (proj1 HX2). split_and!; [done..|lia|lia|done].
Qed.

(** A simple command: words, then redirections. *)
Lemma simple_head (ws : list (list Z)) (rs : list (list Z * Z * Z)) B :
  Forall word_chars ws → follows (lit "|)&;") B →
  nth 0 (trim (words_text ws ++ redirs_text rs ++ B)) 0 ∉ lit "(".
Proof.
  intros Hws HB. destruct ws as [|w ws].
  - destruct rs as [|[[f m] d] rs].
    + simpl. unfold follows in HB. destruct (trim B) as [|x Y]; [by_compute|].
      assert (Forall (.∉ lit "(") (lit "|)&;")) as Hd by by_compute. rewrite Forall_forall in Hd. by apply Hd.
    + rewrite fmap_nil, fmap_cons. cbn [mjoin list_join redir_text app].
      destruct (d =? 0); [by_compute|]. destruct (Z.testbit m 10); by_compute.
  - apply Forall_cons in Hws as [Hw _]. rewrite fmap_cons. cbn [mjoin list_join]. rewrite <- app_assoc.
    destruct (word_head w Hw) as (x & w' & Hx & _ & Hxs). rewrite (word_trim w _ Hw), Hx. cbn [nth].
    assert (Forall (.∈ symbols) (lit "(")) as Hsub by by_compute. rewrite Forall_forall in Hsub. auto.
Qed.
Lemma simple_reads (ws : list (list Z)) (rs : list (list Z * Z * Z)) s B :
  Forall word_chars ws → Z.of_nat (length ws) < MAXARGS → Forall redir_ok rs → follows (lit "|)&;") B →
  rest s (words_text ws ++ redirs_text rs ++ B) →
  reads ((let! t := parseredirs buf len (EXEC []) in parseargs buf (S len) t 0) s) s (wrap (EXEC ws) rs) B.
Proof.
  intros Hws Hn Hrs HB HX. destruct ws as [|w ws].
  - eapply reads_call; [apply parseredirs_reads; [done|exact HX|done|lia]|].
    intros t s1 Ht HX1 Hs1. change (EXEC []) with (cmd_map (slice buf) (EXEC [])). rewrite <- Ht.
    apply parseargs_end; [done..|lia].
  - destruct (parseredirs_none len (EXEC []) s _ HX) as (s1 & Hs1 & HX1 & Hp).
    { pose proof Hws as [Hw _]%Forall_cons. rewrite fmap_cons. cbn [mjoin list_join]. rewrite <- app_assoc.
      destruct (word_head w Hw) as (x & w' & Hx & _ & Hxs). rewrite (word_trim w _ Hw), Hx. cbn [nth].
      assert (Forall (.∈ symbols) (lit "<>")) as Hsub by by_compute. rewrite Forall_forall in Hsub. auto. }
    eapply reads_step; [exact Hp|done|]. cbn beta.
    apply (parseargs_reads (w :: ws) rs B Hrs HB ltac:(done) (S len) [] 0); [done|lia|done|lia].
Qed.

(** parseline as it is called inside parentheses after [s]. *)
Definition line_reads (line : M nat (cmd word)) s : Prop :=
  ∀ c s1 B, cmd_ok c → (s < s1 ≤ len)%nat → rest s1 (text 3 c ++ B) → follows (lit ")") B →
    reads (line s1) s1 c B.

Lemma parseblock_reads line c (rs : list (list Z * Z * Z)) s B : line_reads line s → cmd_ok c →
  Forall redir_ok rs → rest s (lit "(" ++ text 3 c ++ lit ")" ++ redirs_text rs ++ B) → follows (lit "|)&;") B →
  reads (parseblock buf line s) s (wrap c rs) B.
Proof.
  intros Hline Hc Hrs HX HB. unfold parseblock.
  destruct (take_symbol (lit "(") s _ _ HX) as (s1 & w & s2 & Hp & Hg & HX2 & Hs & Hs2); [by_compute..|].
  eapply reads_step; [exact Hp|lia|]. cbn [negb]. eapply reads_step; [exact Hg|lia|]. cbn beta.
  eapply reads_call; [apply Hline; [exact Hc|lia|exact HX2|apply follows_symbol; by_compute]|].
  intros t s3 Ht HX3 Hs3. cbn beta.
  destruct (take_symbol (lit ")") s3 _ _ HX3) as (s4 & w4 & s5 & Hp4 & Hg4 & HX5 & Hs5 & Hs5'); [by_compute..|].
  eapply reads_step; [exact Hp4|lia|]. cbn [negb]. eapply reads_step; [exact Hg4|lia|]. cbn beta.
  rewrite <- Ht. apply parseredirs_reads; [done..|lia].
Qed.
Lemma parseexec_reads line c s B : line_reads line s → cmd_ok c →
  rest s (text 0 c ++ B) → follows (lit "|)&;") B → reads (parseexec buf line s) s c B.
Proof.
  intros Hline Hok HX HB. unfold parseexec. destruct (shape0 c Hok) as (b & rs & -> & Ht & Hrs & Hb & Hshape).
  rewrite Ht, <- app_assoc in HX. destruct Hshape as [[ws ->]|Htb].
  - destruct (peek_rest buf (lit "(") s _ HX) as (s1 & Hs1 & HX1 & Hp). cbn [text] in *.
    destruct Hb as [Hws Hn]. rewrite bool_decide_false, andb_false_r in Hp by by apply simple_head.
    eapply reads_step; [exact Hp|done|]. cbn iota. by apply simple_reads.
  - rewrite Htb, <- !app_assoc in HX.
    destruct (peek_yes buf (lit "(") s _ _ _ HX eq_refl) as (s1 & Hs1 & HX1 & Hp); [done|by_compute|].
    eapply reads_step; [exact Hp|done|]. cbn iota.
    apply parseblock_reads; [|done..]. intros c2 s2 B2 Hc2 Hs2. apply Hline; [done|lia].
Qed.
Lemma parsepipe_reads n line : ∀ c s B, line_reads line s → cmd_ok c →
  rest s (text 1 c ++ B) → follows (lit ")&;") B → (len - s < n)%nat → reads (parsepipe buf n line s) s c B.
Proof.
  induction n as [|n IH]; intros c s B Hline Hok HX HB Hn; [lia|]. cbn [parsepipe]. pose proof (proj1 HX).
  destruct (shape1 c) as [(l & r & ->)|Ht].
  - destruct Hok as [Hl Hr]. cbn [text paren Nat.ltb Nat.leb] in HX. rewrite <- !app_assoc in HX.
    eapply reads_call; [apply parseexec_reads; [done|exact Hl|exact HX|apply follows_symbol; by_compute]|].
    intros t2 s2 Ht2 HX2 Hs2. pose proof (proj1 HX2).
    destruct (take_symbol (lit "|") s2 _ _ HX2) as (s3 & w & s4 & Hp & Hg & HX4 & Hs & Hs4); [by_compute..|].
    eapply reads_step; [exact Hp|lia|]. cbn iota. eapply reads_step; [exact Hg|lia|]. cbn beta.
    eapply reads_call; [apply IH; [intros c5 s5 B5 ??; apply Hline; [done|lia]|exact Hr|exact HX4|done|lia]|].
    intros t5 s5 Ht5 HX5 Hs5. apply reads_ret; [|done]. cbn [cmd_map]. by rewrite Ht2, Ht5.
  - rewrite Ht in HX. eapply reads_call; [apply parseexec_reads; [done|exact Hok|exact HX|]|].
    { apply (follows_mono _ _ _ HB). by_compute. }
    intros t2 s2 Ht' HX2 Hs2.
    destruct (peek_no buf (lit "|") _ s2 B HX2 HB) as (s' & Hs' & HX' & Hp); [by_compute|].
    eapply reads_step; [exact Hp|done|]. by apply reads_ret.
Qed.
(** A pipe and the [&] behind it. *)
Lemma pipe_back_reads line c s B (f : cmd word → M nat (cmd word)) c' B' : line_reads line s → cmd_ok c →
  rest s (text 2 c ++ B) → follows (lit ");") B →
  (∀ t s', cmd_map (slice buf) t = c → rest s' B → (s ≤ s')%nat → reads (f t s') s' c' B') →
  reads ((let! t := parsepipe buf (S len) line in let! t := back_loop buf len t in f t) s) s c' B'.
Proof.
  intros Hline Hok HX HB Hf. destruct (shape2 c Hok) as (b & k & -> & Ht & Hb). rewrite Ht, <- app_assoc in HX.
  eapply reads_call; [apply parsepipe_reads; [done|exact Hb|exact HX| |lia]|].
  { destruct k; [|apply follows_symbol; by_compute]. apply (follows_mono _ _ _ HB). by_compute. }
  intros t1 s1 Ht1 HX1 Hs1.
  eapply reads_call; [apply back_loop_reads; [exact HX1|done|lia]|].
  intros t2 s2 Ht2 HX2 Hs2. apply Hf; [by rewrite Ht2, Ht1|done|lia].
Qed.
Lemma parseline_reads n : ∀ c s B, cmd_ok c →
  rest s (text 3 c ++ B) → follows (lit ")") B → (len - s < n)%nat → reads (parseline buf n s) s c B.
Proof.
  induction n as [|n IH]; intros c s B Hok HX HB Hn; [lia|]. cbn [parseline]. pose proof (proj1 HX).
  assert (line_reads (parseline buf n) s) as Hline by (intros c1 s1 B1 ? Hs1 ??; apply IH; [done..|lia]).
  destruct (shape3 c) as [(l & r & ->)|Ht].
  - destruct Hok as [Hl Hr]. cbn [text paren Nat.ltb Nat.leb] in HX. rewrite <- !app_assoc in HX.
    eapply pipe_back_reads; [done|exact Hl|exact HX|apply follows_symbol; by_compute|].
    intros t2 s2 Ht2 HX2 Hs2. pose proof (proj1 HX2).
    destruct (take_symbol (lit ";") s2 _ _ HX2) as (s3 & w & s4 & Hp & Hg & HX4 & Hs & Hs4); [by_compute..|].
    eapply reads_step; [exact Hp|lia|]. cbn iota. eapply reads_step; [exact Hg|lia|]. cbn beta.
    eapply reads_call; [apply IH; [exact Hr|exact HX4|done|lia]|].
    intros t5 s5 Ht5 HX5 Hs5. apply reads_ret; [|done]. cbn [cmd_map]. by rewrite Ht2, Ht5.
  - rewrite Ht in HX. eapply pipe_back_reads; [done|exact Hok|exact HX|apply (follows_mono _ _ _ HB); by_compute|].
    intros t2 s2 Ht' HX2 Hs2.
    destruct (peek_no buf (lit ";") _ s2 B HX2 HB) as (s' & Hs' & HX' & Hp); [by_compute|].
    eapply reads_step; [exact Hp|done|]. by apply reads_ret.
Qed.
End parse.

Lemma cmd_map_ext {W W'} (f g : W → W') c : (∀ w, w ∈ cmd_words c → f w = g w) → cmd_map f c = cmd_map g c.
Proof.
  induction c as [argv|c IH w m d|l IHl r IHr|l IHl r IHr|c IH]; simpl; intros Hw.
  - f_equal. by apply list_fmap_ext; intros ?? ?%list_elem_of_lookup_2; apply Hw.
  - rewrite IH by (intros; apply Hw, elem_of_app; by left). f_equal. apply Hw, elem_of_app. right. left.
  - rewrite IHl, IHr by (intros; apply Hw, elem_of_app; auto). done.
  - rewrite IHl, IHr by (intros; apply Hw, elem_of_app; auto). done.
  - by rewrite IH.
Qed.

Notation no_nul := (Forall (λ x : Z, x ≠ 0)).
Lemma word_text_no_nul w : word_chars w → no_nul (word_text w).
Proof. intros [_ Hw]. constructor; [done|]. eapply Forall_impl; [exact Hw|]. by intros ? []. Qed.
Lemma text_no_nul c : ∀ lvl, cmd_ok c → no_nul (text lvl c).
Proof.
  assert (∀ b X, no_nul X → no_nul (paren b X)) as Hp.
  { intros [] X HX; [|done]. simpl. constructor; [done|]. apply Forall_app. split; [done|by_compute]. }
  induction c as [argv|c IH w m d|l IHl r IHr|l IHl r IHr|c IH]; intros lvl Hc; cbn [text redir_text].
  - destruct Hc as [Hc _]. induction Hc as [|w ws Hw _ IH]; simpl; [done|]. apply (Forall_app _ (word_text w)).
    split; [by apply word_text_no_nul|done].
  - destruct Hc as [Hc [Hw _]]. repeat (apply Forall_app; split); [by apply IH| |by apply word_text_no_nul].
    destruct (d =? 0); [by_compute|]. destruct (Z.testbit m 10); by_compute.
  - destruct Hc. apply Hp. repeat (apply Forall_app; split); auto. by_compute.
  - destruct Hc. apply Hp. repeat (apply Forall_app; split); auto. by_compute.
  - apply Hp, Forall_app. split; [auto|by_compute].
Qed.

(** C7: the parser of the shell inverts the grammar: the line a command is written
    as is parsed to a command of the same form, whose words are, in the buffer the
    parser leaves, the strings of the words of the command. *)
Theorem parsecmd_text c : cmd_ok c →
  ∃ t b, parsecmd (text 3 c) O = Ok (t, b) (length (text 3 c)) ∧ cmd_map (string_at b) t = c.
Proof.
  intros Hc. set (buf := text 3 c). pose proof (text_no_nul c 3 Hc) as Hnul. fold buf in Hnul.
  destruct (parseline_reads buf (S (length buf)) c O [] Hc) as (t & s' & Hp & Ht & Hr & _); [|done|lia|].
  { rewrite app_nil_r. split; [lia|]. by rewrite drop_0. }
  exists t, (nulterminate buf t). destruct (rest_skip buf s' [] Hr) as [Hr1 Hd].
  assert (skip_from buf is_ws s' = length buf) as Hend.
  { apply (f_equal length) in Hd. rewrite length_drop in Hd. simpl in Hd. destruct Hr1 as [? _]. lia. }
  split.
  - unfold parsecmd. rewrite (bind_Ok _ _ _ _ _ Hp). unfold bind, peek. simpl. rewrite Hend.
    by rewrite Nat.eqb_refl.
  - rewrite <- Ht. apply cmd_map_ext. intros w Hw. apply nulterminate_string; [done| |done].
    pose proof (parseline_ok buf (S (length buf)) O) as Hok.
    unfold exits_or in Hok. rewrite Hp in Hok. apply Hok; lia.
Qed.

Definition sample : cmd (list Z) :=
  LIST (BACK (PIPE (EXEC [lit "grep"; lit "-x"; lit "a*b"])
                   (REDIR (LIST (EXEC [lit "wc"]) (EXEC [])) (lit "out") 0x201 1)))
       (REDIR (EXEC [lit "sh"]) (lit "script") 0 0).
Lemma parsecmd_text_witness :
  text 3 sample = lit " grep -x a*b|( wc;)>> out&; sh< script" ∧ cmd_ok sample ∧
  ∃ t b, parsecmd (text 3 sample) O = Ok (t, b) (length (text 3 sample)) ∧ cmd_map (string_at b) t = sample.
Proof.
  assert (cmd_ok sample) as Hok by (repeat split; by_compute).
  split; [reflexivity|]. split; [exact Hok|]. exact (parsecmd_text sample Hok).
Defined.
