(* ===== verification/ShRun.v ===== *)
(** The shell runs commands (user/sh.c): runcmd, fork1, panic, getcmd, main.

    A program is the tree of its system calls: a call is given what to do with each
    result, so that after [fork] the parent and the child go on with the same
    memory and a different result.  [step] is what the system calls do to a tree of
    processes, of which any may take the next step; a process has a table of
    descriptors, of which [open], [dup] and [pipe] take the lowest that is free. *)

From Stdlib Require Import Ascii.
From S2P Require Import Prelude CString Printf Sh.
Local Open Scope Z_scope.

(** * Programs *)

Inductive prog :=
| Exit (status : Z)
| Close (fd : Z) (k : Z → prog)
| Open (path : list Z) (mode : Z) (k : Z → prog)
| Dup (fd : Z) (k : Z → prog)
| Pipe (k : option (Z * Z) → prog)   (* the result and [p] *)
| Fork (k : Z → prog)
| Wait (k : Z → prog)
| Exec (path : list Z) (argv : list (list Z)) (k : Z → prog)
| Chdir (path : list Z) (k : Z → prog)
| Read (fd : Z) (n : nat) (k : option (list Z) → prog)
| Write (fd : Z) (bs : list Z) (k : Z → prog).

(** [fprintf] writes a byte at a time. *)
Definition fprintf (fd : Z) (bs : list Z) (p : prog) : prog := foldr (λ b p, Write fd [b] (λ _, p)) p bs.

Definition sh_panic (s : list Z) : prog := fprintf 2 (s ++ [10]) (Exit 1).
Definition fork1 (k : Z → prog) : prog := Fork (λ pid, if pid =? -1 then sh_panic (lit "fork") else k pid).

Fixpoint runcmd (c : cmd (list Z)) : prog :=
  match c with
  | EXEC argv =>
      match argv with
      | [] => Exit 1
      | a :: _ => Exec a argv (λ _, fprintf 2 (lit "exec " ++ a ++ lit " failed" ++ [10]) (Exit 0))
      end
  | REDIR c file mode fd =>
      Close fd (λ _, Open file mode (λ r,
        if r <? 0 then fprintf 2 (lit "open " ++ file ++ lit " failed" ++ [10]) (Exit 1) else
        runcmd c))
  | LIST l r => fork1 (λ pid, if pid =? 0 then runcmd l else Wait (λ _, runcmd r))
  | PIPE l r =>
      Pipe (λ p,
        match p with
        | None => sh_panic (lit "pipe")
        | Some (p0, p1) =>
            fork1 (λ pid,
              if pid =? 0 then Close 1 (λ _, Dup p1 (λ _, Close p0 (λ _, Close p1 (λ _, runcmd l)))) else
              fork1 (λ pid,
                if pid =? 0 then Close 0 (λ _, Dup p0 (λ _, Close p0 (λ _, Close p1 (λ _, runcmd r)))) else
                Close p0 (λ _, Close p1 (λ _, Wait (λ _, Wait (λ _, Exit 0))))))
        end)
  | BACK c => fork1 (λ pid, if pid =? 0 then runcmd c else Exit 0)
  end.

(** [gets(buf, n + 1)] after [acc] has been read. *)
Fixpoint gets (n : nat) (acc : list Z) (k : list Z → prog) : prog :=
  match n with
  | O => k acc
  | S n =>
      Read 0 1 (λ r,
        match r with
        | Some [c] => if (c =? 10) || (c =? 13) then k (acc ++ [c]) else gets n (acc ++ [c]) k
        | _ => k acc
        end)
  end.
(** The line, or -1. *)
Definition getcmd (nbuf : nat) (k : option (list Z) → prog) : prog :=
  Write 2 (lit "$ ") (λ _, gets (nbuf - 1) [] (λ buf, k (if nth 0 buf 0 =? 0 then None else Some buf))).

(** [parsecmd] is proved to return or to panic; before the panic for text after a
    complete command it prints that text. *)
Definition run_line (buf : list Z) : prog :=
  match parsecmd (cstr buf) O with
  | Ok (c, b) _ => runcmd (cmd_map (string_at b) c)
  | Panic msg =>
      match leftovers (cstr buf) O with
      | Ok (Some rest) _ => fprintf 2 (lit "leftovers: " ++ rest ++ [10]) (sh_panic (lit msg))
      | _ => sh_panic (lit msg)
      end
  | _ => Exit 1
  end.
Definition O_RDWR : Z := 0x002.
(** Every call of [open] takes another descriptor. *)
Fixpoint open_console (fuel : nat) (k : prog) : prog :=
  match fuel with
  | O => k
  | S fuel =>
      Open (lit "console") O_RDWR (λ fd,
        if fd <? 0 then k else if 3 <=? fd then Close fd (λ _, k) else open_console fuel k)
  end.
(** The loop over the lines, unrolled [n] times; [rest] is what comes after. *)
Fixpoint main_loop (n : nat) (rest : prog) : prog :=
  match n with
  | O => rest
  | S n =>
      getcmd 1000 (λ r,
        match r with
        | None => Exit 0
        | Some buf =>
            if (nth 0 buf 0 =? ch "c"%char) && (nth 1 buf 0 =? ch "d"%char) && (nth 2 buf 0 =? ch " "%char) then
              let dir := drop 3 (take (length (cstr buf) - 1) (cstr buf)) in
              Chdir dir (λ r,
                if r <? 0 then fprintf 2 (lit "cannot cd " ++ dir ++ [10]) (main_loop n rest) else main_loop n rest)
            else fork1 (λ pid, if pid =? 0 then run_line buf else Wait (λ _, main_loop n rest))
        end)
  end.
Definition sh_main (n : nat) (rest : prog) : prog := open_console 16 (main_loop n rest).

(** * Processes *)

(** What a descriptor stands for.  A pipe has the name of the process that made it,
    with the number of pipes and children the process had before. *)
Inductive obj :=
| Given (n : Z)
| Opened (path : list Z) (mode : Z)
| PipeR (name : list nat)
| PipeW (name : list nat).
Notation fdt := (gmap Z obj).
Definition NOFILE : Z := 16.
Definition lowest (T : fdt) : option Z := snd <$> list_find (λ fd, T !! fd = None) (seqZ 0 NOFILE).

Inductive status := Run (p : prog) | Image (argv : list (list Z)) | Zombie.
(** A process: its descriptors, its name, how many pipes and children it has made,
    and the children it has not waited for. *)
Inductive tree := Node (T : fdt) (name : list nat) (n : nat) (st : status) (children : list tree).
Definition start (T : fdt) (name : list nat) (p : prog) : tree := Node T name 0 (Run p) [].

Inductive event :=
| Tau
| Start (argv : list (list Z)) (T : fdt)
| Stop (argv : list (list Z)) (T : fdt)
| Failed.   (* a call returns an error *)

(** The calls that concern the process alone and have one result. *)
Definition local (T : fdt) (p : prog) : option (fdt * prog) :=
  match p with
  | Close fd k => Some (delete fd T, k (if T !! fd then 0 else -1))
  | Dup fd k =>
      match T !! fd, lowest T with
      | Some o, Some d => Some (<[d := o]> T, k d)
      | _, _ => Some (T, k (-1))
      end
  | Write fd bs k => Some (T, k (if T !! fd then Z.of_nat (length bs) else -1))
  | _ => None
  end.

(** A step of a process or a descendant of it; the last list are the processes that
    have lost their parent.  A program that has been started may stop at any time;
    what it does meanwhile is not part of the shell. *)
Inductive step : tree → event → tree → list tree → Prop :=
| step_local T nm n p T' p' cs :
    local T p = Some (T', p') → step (Node T nm n (Run p) cs) Tau (Node T' nm n (Run p') cs) []
| step_open T nm n f m k cs fd :
    lowest T = Some fd →
    step (Node T nm n (Run (Open f m k)) cs) Tau (Node (<[fd := Opened f m]> T) nm n (Run (k fd)) cs) []
| step_open_fails T nm n f m k cs :
    step (Node T nm n (Run (Open f m k)) cs) Failed (Node T nm n (Run (k (-1))) cs) []
| step_pipe T nm n k cs a b :
    lowest T = Some a → lowest (<[a := PipeR (nm ++ [n])]> T) = Some b →
    step (Node T nm n (Run (Pipe k)) cs) Tau
      (Node (<[b := PipeW (nm ++ [n])]> (<[a := PipeR (nm ++ [n])]> T)) nm (S n) (Run (k (Some (a, b)))) cs) []
| step_pipe_fails T nm n k cs :
    step (Node T nm n (Run (Pipe k)) cs) Failed (Node T nm n (Run (k None)) cs) []
| step_fork T nm n k cs pid :
    0 < pid →
    step (Node T nm n (Run (Fork k)) cs) Tau
      (Node T nm (S n) (Run (k pid)) (cs ++ [start T (nm ++ [n]) (k 0)])) []
| step_fork_fails T nm n k cs :
    step (Node T nm n (Run (Fork k)) cs) Failed (Node T nm n (Run (k (-1))) cs) []
| step_wait T nm n k cs i T' nm' n' pid :
    cs !! i = Some (Node T' nm' n' Zombie []) → 0 < pid →
    step (Node T nm n (Run (Wait k)) cs) Tau (Node T nm n (Run (k pid)) (delete i cs)) []
| step_wait_none T nm n k :
    step (Node T nm n (Run (Wait k)) []) Tau (Node T nm n (Run (k (-1))) []) []
| step_exec T nm n f argv k cs :
    step (Node T nm n (Run (Exec f argv k)) cs) (Start argv T) (Node T nm n (Image argv) cs) []
| step_exec_fails T nm n f argv k cs :
    step (Node T nm n (Run (Exec f argv k)) cs) Failed (Node T nm n (Run (k (-1))) cs) []
| step_chdir T nm n f k cs r :
    r = 0 ∨ r = -1 → step (Node T nm n (Run (Chdir f k)) cs) Tau (Node T nm n (Run (k r)) cs) []
| step_read T nm n fd m k cs r :
    (∀ bs, r = Some bs → (length bs ≤ m)%nat) →
    step (Node T nm n (Run (Read fd m k)) cs) Tau (Node T nm n (Run (k r)) cs) []
| step_exit T nm n st cs :
    step (Node T nm n (Run (Exit st)) cs) Tau (Node ∅ nm n Zombie []) cs
| step_stop T nm n argv cs :
    step (Node T nm n (Image argv) cs) (Stop argv T) (Node ∅ nm n Zombie []) cs
| step_child T nm n st cs i t e t' sp :
    cs !! i = Some t → step t e t' sp →
    step (Node T nm n st cs) e (Node T nm n st (<[i := t']> cs)) sp.

(** A pool of parties that take their steps in any order; every step is recorded,
    the silent ones as [Tau]. *)
Section pool.
Context {X : Type} (stp : X → event → X → list X → Prop).
Inductive runs : list X → list event → list X → Prop :=
| runs_nil xs : runs xs [] xs
| runs_step l x r e x' sp tr ys :
    stp x e x' sp → runs (l ++ x' :: r ++ sp) tr ys → runs (l ++ x :: r) (e :: tr) ys.
End pool.
Definition visible (e : event) : bool := match e with Tau => false | _ => true end.
Definition shown (tr : list event) : list event := filter visible tr.

(** * What is meant by a command *)

(** The programs of a command and the order among them: a program that is to be
    started with its arguments and its descriptors, one after the other, side by
    side, and in the background. *)
Inductive job :=
| Done
| Prog (argv : list (list Z)) (T : fdt)
| Live (argv : list (list Z)) (T : fdt)
| Seq (j1 j2 : job)
| Par (j1 j2 : job)
| Bg (j : job).
Fixpoint unstarted (j : job) : Prop :=
  match j with
  | Done | Prog _ _ => True
  | Live _ _ => False
  | Seq j1 j2 | Par j1 j2 => unstarted j1 ∧ unstarted j2
  | Bg j => unstarted j
  end.
(** A failure cancels what has not been started; what runs beside it then runs
    without being waited for. *)
Inductive jstep : job → event → job → list job → Prop :=
| j_start a T : jstep (Prog a T) (Start a T) (Live a T) []
| j_stop a T : jstep (Live a T) (Stop a T) Done []
| j_seq j1 j2 e j1' sp : jstep j1 e j1' sp → jstep (Seq j1 j2) e (Seq j1' j2) sp
| j_next j : jstep (Seq Done j) Tau j []
| j_par_l j1 j2 e j1' sp : jstep j1 e j1' sp → jstep (Par j1 j2) e (Par j1' j2) sp
| j_par_r j1 j2 e j2' sp : jstep j2 e j2' sp → jstep (Par j1 j2) e (Par j1 j2') sp
| j_left j : jstep (Par j Done) Tau j []
| j_right j : jstep (Par Done j) Tau j []
| j_bg j e j' sp : jstep j e j' sp → jstep (Bg j) e (Bg j') sp
| j_detach j : jstep (Bg j) Tau Done [j]
| j_fail j : unstarted j → jstep j Failed Done []
| j_fail_par j1 j2 : unstarted j2 → jstep (Par j1 j2) Failed (Bg j1) [].

(** The job of a command for a process with the descriptors [T]: a pipe is the
    standard output of the left side and the standard input of the right side and
    nothing else; a redirection is the descriptor it names. *)
Fixpoint jobs (nm : list nat) (n : nat) (T : fdt) (c : cmd (list Z)) : job :=
  match c with
  | EXEC [] => Done
  | EXEC argv => Prog argv T
  | REDIR c f mode fd => jobs nm n (<[fd := Opened f mode]> T) c
  | LIST l r => Seq (jobs (nm ++ [n]) 0 T l) (jobs nm (S n) T r)
  | PIPE l r =>
      Par (jobs (nm ++ [S n]) 0 (<[1 := PipeW (nm ++ [n])]> T) l)
          (jobs (nm ++ [S (S n)]) 0 (<[0 := PipeR (nm ++ [n])]> T) r)
  | BACK c => Bg (jobs (nm ++ [n]) 0 T c)
  end.
