(* ===== verification/ShJobs.v ===== *)
(** The shell runs what a command means (user/sh.c): every step of the processes of
    runcmd, in whatever order they take them, is a step of the job of the command.

    [rel] relates a process and its children to what is left of a job. *)

From Stdlib Require Import Ascii.
From S2P Require Import Prelude CString Printf Sh ShRun.
Local Open Scope Z_scope.

(** [n] times wait, and exit. *)
Inductive waits : fdt → nat → prog → Prop :=
| waits_local T n p T' p' : local T p = Some (T', p') → waits T' n p' → waits T n p
| waits_wait T n k : (∀ x, waits T n (k x)) → waits T (S n) (Wait k)
| waits_exit T st : waits T 0 (Exit st).

Inductive rel : tree → job → Prop :=
| rel_zombie T nm n : rel (Node T nm n Zombie []) Done
| rel_image T nm n argv : rel (Node T nm n (Image argv) []) (Live argv T)
| rel_local T nm n p T' p' j :
    local T p = Some (T', p') → rel (Node T' nm n (Run p') []) j → rel (Node T nm n (Run p) []) j
| rel_ends T nm n p : waits T 0 p → rel (Node T nm n (Run p) []) Done
| rel_exec T nm n f argv k :
    waits T 0 (k (-1)) → rel (Node T nm n (Run (Exec f argv k)) []) (Prog argv T)
| rel_open T nm n f m k j :
    (∀ fd, lowest T = Some fd → rel (Node (<[fd := Opened f m]> T) nm n (Run (k fd)) []) j) →
    waits T 0 (k (-1)) → unstarted j → rel (Node T nm n (Run (Open f m k)) []) j
| rel_seq T nm n k kw jl jr :
    rel (start T (nm ++ [n]) (k 0)) jl → (∀ pid, 0 < pid → k pid = Wait (kw pid)) →
    (∀ pid x, 0 < pid → rel (Node T nm (S n) (Run (kw pid x)) []) jr) →
    waits T 0 (k (-1)) → unstarted (Seq jl jr) → rel (Node T nm n (Run (Fork k)) []) (Seq jl jr)
| rel_seq_wait T nm n k t jl jr :
    rel t jl → (∀ x, rel (Node T nm n (Run (k x)) []) jr) → rel (Node T nm n (Run (Wait k)) [t]) (Seq jl jr)
| rel_pipe T nm n k j :
    (∀ a b, lowest T = Some a → lowest (<[a := PipeR (nm ++ [n])]> T) = Some b →
       rel (Node (<[b := PipeW (nm ++ [n])]> (<[a := PipeR (nm ++ [n])]> T)) nm (S n) (Run (k (Some (a, b)))) []) j) →
    waits T 0 (k None) → unstarted j → rel (Node T nm n (Run (Pipe k)) []) j
| rel_par T nm n k k2 j1 j2 :
    rel (start T (nm ++ [n]) (k 0)) j1 → (∀ pid, 0 < pid → k pid = Fork (k2 pid)) →
    (∀ pid, 0 < pid → rel (start T (nm ++ [S n]) (k2 pid 0)) j2) →
    (∀ pid pid', 0 < pid → 0 < pid' → waits T 2 (k2 pid pid')) →
    (∀ pid, 0 < pid → waits T 0 (k2 pid (-1))) →
    waits T 0 (k (-1)) → unstarted (Par j1 j2) → rel (Node T nm n (Run (Fork k)) []) (Par j1 j2)
| rel_par1 T nm n k t j1 j2 :
    rel t j1 → rel (start T (nm ++ [n]) (k 0)) j2 → (∀ pid, 0 < pid → waits T 2 (k pid)) →
    waits T 0 (k (-1)) → unstarted j2 → rel (Node T nm n (Run (Fork k)) [t]) (Par j1 j2)
| rel_par2 T nm n p t1 t2 j1 j2 :
    rel t1 j1 → rel t2 j2 → waits T 2 p → rel (Node T nm n (Run p) [t1; t2]) (Par j1 j2)
| rel_one T nm n p t j : rel t j → waits T 1 p → rel (Node T nm n (Run p) [t]) j
| rel_bg_fork T nm n k j :
    rel (start T (nm ++ [n]) (k 0)) j → (∀ pid, 0 < pid → waits T 0 (k pid)) →
    waits T 0 (k (-1)) → unstarted j → rel (Node T nm n (Run (Fork k)) []) (Bg j)
| rel_bg T nm n p t j : rel t j → waits T 0 p → rel (Node T nm n (Run p) [t]) (Bg j)
| rel_chdir T nm n f k j :
    (∀ r, rel (Node T nm n (Run (k r)) []) j) → rel (Node T nm n (Run (Chdir f k)) []) j.

(** A step of the job, or none. *)
Definition jstep0 (j : job) (e : event) (j' : job) (sp : list job) : Prop :=
  (e = Tau ∧ j' = j ∧ sp = []) ∨ jstep j e j' sp.
Lemma jstep0_none j : jstep0 j Tau j [].
Proof. by left. Qed.
#[local] Hint Resolve jstep0_none : core.
Lemma jstep0_map (f : job → job) j e j' sp :
  (∀ e j' sp, jstep j e j' sp → jstep (f j) e (f j') sp) → jstep0 j e j' sp → jstep0 (f j) e (f j') sp.
Proof. intros Hf [(-> & -> & ->)|Hs]; [by left|right; auto]. Qed.

Lemma waits_run T n p T' p' : waits T n p → local T p = Some (T', p') → waits T' n p'.
Proof. by inversion 1; intros; simplify_eq/=. Qed.
Lemma waits_S T n k x : waits T n (Wait k) → ∃ m, n = S m ∧ waits T m (k x).
Proof. inversion 1; simplify_eq/=; eauto. Qed.
Lemma waits_Exit T n st : waits T n (Exit st) → n = O.
Proof. by inversion 1; simplify_eq/=. Qed.
Definition calls (p : prog) : Prop :=
  match p with Close _ _ | Dup _ _ | Write _ _ _ | Wait _ | Exit _ => False | _ => True end.
Lemma waits_no_calls T n p : waits T n p → ¬ calls p.
Proof. inversion 1 as [? ? [] ? ? Hl| |]; simpl in *; simplify_eq/=; tauto. Qed.

Lemma rel_zombie_inv T nm n cs j : rel (Node T nm n Zombie cs) j → j = Done ∧ cs = [].
Proof. by inversion 1. Qed.

(** [t'] matches what the job becomes, with the processes it has lost. *)
Definition matched (j : job) (e : event) (t' : tree) (sp : list tree) : Prop :=
  ∃ j' sj, jstep0 j e j' sj ∧ rel t' j' ∧ Forall2 rel sp sj.
Lemma matched_none j t' : rel t' j → matched j Tau t' [].
Proof. intros H. by exists j, []. Qed.
Lemma matched_one j e j' t' : jstep j e j' [] → rel t' j' → matched j e t' [].
Proof. intros H1 H2. exists j', []. split_and!; [by right|done|done]. Qed.
Lemma matched_fail j t' T nm n p : unstarted j → waits T 0 p → t' = Node T nm n (Run p) [] → matched j Failed t' [].
Proof. intros Hu Hw ->. apply (matched_one _ _ Done); [by apply j_fail|by apply rel_ends]. Qed.
Lemma matched_map (f : job → job) (g : tree → tree) j e t' sp :
  (∀ e j' sp, jstep j e j' sp → jstep (f j) e (f j') sp) → (∀ j', rel t' j' → rel (g t') (f j')) →
  matched j e t' sp → matched (f j) e (g t') sp.
Proof. intros Hf Hg (j' & sj & Hs & Hr & Hsp). exists (f j'), sj. split_and!; [by apply jstep0_map|auto|done]. Qed.

Ltac rel_cases HR :=
  inversion HR; simplify_eq/=;
  try match goal with Hw : waits _ _ ?p |- _ => by (apply waits_no_calls in Hw; simpl in Hw) end.

Lemma match_local T nm n p T' p' cs j :
  local T p = Some (T', p') → rel (Node T nm n (Run p) cs) j → rel (Node T' nm n (Run p') cs) j.
Proof.
  intros Hl HR. inversion HR; simplify_eq/=; try done;
    match goal with Hw : waits _ _ _ |- _ => pose proof (waits_run _ _ _ _ _ Hw Hl) end.
  - by apply rel_ends.
  - by apply rel_par2.
  - by apply rel_one.
  - by apply rel_bg.
Qed.
Lemma match_fork T nm n k cs j pid : 0 < pid →
  rel (Node T nm n (Run (Fork k)) cs) j →
  rel (Node T nm (S n) (Run (k pid)) (cs ++ [start T (nm ++ [n]) (k 0)])) j.
Proof.
  intros Hpid HR. rel_cases HR.
  - match goal with Hk : ∀ pid, 0 < pid → k pid = _ |- _ => rewrite (Hk pid) by done end. apply rel_seq_wait; auto.
  - match goal with Hk : ∀ pid, 0 < pid → k pid = _ |- _ => rewrite (Hk pid) by done end. apply rel_par1; naive_solver.
  - apply rel_par2; auto.
  - apply rel_bg; auto.
Qed.
Lemma match_fork_fails T nm n k cs j :
  rel (Node T nm n (Run (Fork k)) cs) j → matched j Failed (Node T nm n (Run (k (-1))) cs) [].
Proof.
  intros HR. rel_cases HR; try by eapply matched_fail.
  eapply matched_one; [by apply j_fail_par|by apply rel_bg].
Qed.
Lemma match_wait T nm n k cs i t pid j :
  cs !! i = Some t → (∀ j, rel t j → j = Done) →
  rel (Node T nm n (Run (Wait k)) cs) j → matched j Tau (Node T nm n (Run (k pid)) (delete i cs)) [].
Proof.
  intros Hi Ht HR.
  inversion HR as [| | | | | | |? ? ? ? t1 jl jr H1 H2| | | |? ? ? ? t1 t2 j1 j2 H1 H2 Hw|? ? ? ? t1 ? H1 Hw| |? ? ? ? t1 j1 H1 Hw|];
    simplify_eq/=; try (apply (waits_S _ _ _ pid) in Hw as (m & [= <-] & Hw)).
  - destruct i as [|i]; simplify_eq/=. rewrite (Ht _ H1). eapply matched_one; [apply j_next|done].
  - destruct i as [|[|i]]; simplify_eq/=.
    + rewrite (Ht _ H1). eapply matched_one; [apply j_right|by apply rel_one].
    + rewrite (Ht _ H2). eapply matched_one; [apply j_left|by apply rel_one].
  - destruct i as [|i]; simplify_eq/=. rewrite (Ht _ H1). apply matched_none. by apply rel_ends.
Qed.

Lemma match_child T nm n st cs i t e t' sp j :
  cs !! i = Some t → (∀ j, rel t j → matched j e t' sp) →
  rel (Node T nm n st cs) j → matched j e (Node T nm n st (<[i := t']> cs)) sp.
Proof.
  intros Hi IH HR. inversion HR; simplify_eq/=; (destruct i as [|[|i]]; simplify_eq/=);
    lazymatch goal with
    | |- matched (Seq _ ?j2) _ _ _ => apply (matched_map (λ j, Seq j j2) (λ t, Node T nm n _ [t]))
    | H : rel t ?j1 |- matched (Par ?j1 ?j2) _ (Node _ _ _ _ [_]) _ => apply (matched_map (λ j, Par j j2) (λ t, Node T nm n _ [t]))
    | H : rel t ?j1 |- matched (Par ?j1 ?j2) _ (Node _ _ _ _ [t'; ?t2]) _ => apply (matched_map (λ j, Par j j2) (λ t, Node T nm n _ [t; t2]))
    | |- matched (Par ?j1 _) _ (Node _ _ _ _ [?t1; t']) _ => apply (matched_map (λ j, Par j1 j) (λ t, Node T nm n _ [t1; t]))
    | |- matched (Bg _) _ _ _ => apply (matched_map Bg (λ t, Node T nm n _ [t]))
    | |- _ => apply (matched_map id (λ t, Node T nm n _ [t]))
    end; auto using jstep; intros; by constructor.
Qed.

Lemma match_step t e t' sp : step t e t' sp → ∀ j, rel t j → matched j e t' sp.
Proof.
  induction 1 as [| | | | | | |? ? ? ? ? ? ? ? ? pid Hi| | | | | |? ? ? st cs| |]; intros j HR.
  - apply matched_none. by eapply match_local.
  - rel_cases HR. apply matched_none. auto.
  - rel_cases HR. by eapply matched_fail.
  - rel_cases HR. apply matched_none. auto.
  - rel_cases HR. by eapply matched_fail.
  - apply matched_none. by apply match_fork.
  - by apply match_fork_fails.
  - eapply match_wait; [done| |done]. intros j' Hj. by apply rel_zombie_inv in Hj as [-> _].
  - inversion HR as [| | |? ? ? ? Hw| | | | | | | | | | | |]; simplify_eq/=. by apply waits_S with (x := -1) in Hw as (? & ? & ?).
  - rel_cases HR. eapply matched_one; [constructor|constructor].
  - rel_cases HR. by eapply matched_fail.
  - rel_cases HR. apply matched_none. auto.
  - rel_cases HR.
  - inversion HR as [| | |? ? ? ? Hw| | | | | | | |? ? ? ? ? ? ? ? ? ? Hw|? ? ? ? ? ? ? Hw| |? ? ? ? t j1 Ht Hw|]; simplify_eq/=;
      try by apply waits_Exit in Hw.
    + apply matched_none. constructor.
    + exists Done, [j1]. split_and!; [right; constructor|constructor|by constructor].
  - inversion HR; simplify_eq/=. eapply matched_one; [constructor|constructor].
  - by eapply match_child.
Qed.

(** * The processes of a command *)

(** The three descriptors a shell keeps open. *)
Definition std_open (T : fdt) : Prop := ∀ fd, 0 ≤ fd ≤ 2 → is_Some (T !! fd).
Fixpoint redirs_std (c : cmd (list Z)) : Prop :=
  match c with
  | EXEC _ => True
  | REDIR c _ _ fd => 0 ≤ fd ≤ 2 ∧ redirs_std c
  | LIST l r | PIPE l r => redirs_std l ∧ redirs_std r
  | BACK c => redirs_std c
  end.

Lemma std_insert T fd o : std_open T → std_open (<[fd := o]> T).
Proof. intros HT x Hx. destruct (decide (x = fd)) as [->|]; [rewrite lookup_insert_eq; eauto|rewrite lookup_insert_ne by done; auto]. Qed.

Lemma lowest_delete T fd : 0 ≤ fd ≤ 2 → (∀ x, 0 ≤ x < fd → is_Some (T !! x)) → lowest (delete fd T) = Some fd.
Proof.
  intros Hfd HT. unfold lowest, NOFILE.
  assert (list_find (λ x, delete fd T !! x = None) (seqZ 0 16) = Some (Z.to_nat fd, fd)) as ->; [|done].
  apply list_find_Some. rewrite lookup_seqZ, lookup_delete_eq. split_and!; [lia..|done|].
  intros j y [-> Hj]%lookup_seqZ Hjk. rewrite lookup_delete_ne by lia.
  destruct (HT (0 + Z.of_nat j)) as [o ->]; [lia|done].
Qed.
Lemma lowest_free T fd : lowest T = Some fd → T !! fd = None ∧ 0 ≤ fd < NOFILE.
Proof.
  unfold lowest. intros ([i x] & Hf & ->)%fmap_Some. apply list_find_Some in Hf as ([-> Hi]%lookup_seqZ & Hn & _).
  simpl in *. split; [done|lia].
Qed.

Lemma waits_fprintf T n fd bs p : waits T n p → waits T n (fprintf fd bs p).
Proof. intros Hp. induction bs as [|b bs IH]; [done|]. by eapply waits_local. Qed.
Lemma waits_panic T s : waits T 0 (sh_panic s).
Proof. apply waits_fprintf, waits_exit. Qed.
#[local] Hint Resolve waits_fprintf waits_panic waits_exit : core.

Lemma jobs_unstarted c : ∀ nm n T, unstarted (jobs nm n T c).
Proof. induction c as [[|]| | | |]; simpl; auto. Qed.
#[local] Hint Resolve jobs_unstarted : core.

(** The descriptors of the children of a pipe: the end they use, and neither of
    the two [pipe] has returned; and those of the parent when it has closed both. *)
Lemma pipe_child (P : fdt → prog → Prop) T a b x fd o ra rb k :
  (∀ T p T' p', local T p = Some (T', p') → P T' p' → P T p) →
  std_open T → 0 ≤ fd ≤ 2 → T !! a = None → <[a := ra]> T !! b = None → x = a ∨ x = b →
  <[b := rb]> (<[a := ra]> T) !! x = Some o → P (<[fd := o]> T) k →
  P (<[b := rb]> (<[a := ra]> T)) (Close fd (λ _, Dup x (λ _, Close a (λ _, Close b (λ _, k))))).
Proof.
  intros HP HT Hfd Ha Hb Hx Ho Hk.
  assert (a ≠ b) as Hab by (intros ->; by rewrite lookup_insert_eq in Hb).
  rewrite lookup_insert_ne in Hb by done.
  assert (fd ≠ a ∧ fd ≠ b) as [Hfa Hfb].
  { destruct (HT fd Hfd). split; intros ->; congruence. }
  set (T2 := <[b := rb]> (<[a := ra]> T)) in *.
  assert (lowest (delete fd T2) = Some fd) as Hlow.
  { apply lowest_delete; [done|]. intros y Hy. apply (std_insert (<[a := ra]> T) b rb); [by apply std_insert|lia]. }
  eapply HP; [reflexivity|]. eapply HP.
  { unfold local. rewrite lookup_delete_ne by naive_solver. rewrite Ho, Hlow. reflexivity. }
  eapply HP; [reflexivity|]. eapply HP; [reflexivity|].
  replace (delete b (delete a _)) with (<[fd := o]> T); [done|].
  unfold T2. apply map_eq. intros y.
  destruct (decide (y = b)) as [->|Hyb]; [by rewrite lookup_delete_eq, lookup_insert_ne|].
  rewrite lookup_delete_ne by done.
  destruct (decide (y = a)) as [->|Hya]; [by rewrite lookup_delete_eq, lookup_insert_ne|].
  rewrite lookup_delete_ne by done.
  destruct (decide (y = fd)) as [->|Hyf]; [by rewrite !lookup_insert_eq|].
  by rewrite insert_delete_eq, !lookup_insert_ne.
Qed.
Lemma pipe_parent (T : fdt) a b ra rb : T !! a = None → <[a := ra]> T !! b = None →
  delete b (delete a (<[b := rb]> (<[a := ra]> T))) = T.
Proof.
  intros Ha Hb. assert (a ≠ b) as Hab by (intros ->; by rewrite lookup_insert_eq in Hb).
  rewrite lookup_insert_ne in Hb by done. rewrite (delete_insert_ne _ a b), !delete_insert_eq by done.
  by rewrite (delete_id T a), (delete_id T b).
Qed.

Lemma rel_runcmd c : ∀ T nm n, std_open T → redirs_std c → rel (Node T nm n (Run (runcmd c)) []) (jobs nm n T c).
Proof.
  induction c as [argv|c IH f mode fd|l IHl r IHr|l IHl r IHr|c IH]; intros T nm n HT Hc; simpl in Hc.
  - destruct argv as [|a argv]; [apply rel_ends, waits_exit|]. apply rel_exec, waits_fprintf, waits_exit.
  - destruct Hc as [Hfd Hc]. cbn [runcmd jobs]. eapply rel_local; [reflexivity|].
    apply rel_open; [|apply waits_fprintf, waits_exit|auto]. intros fd' Hl.
    rewrite lowest_delete in Hl by (done || (intros; apply HT; lia)). injection Hl as <-.
    rewrite insert_delete_eq, (proj2 (Z.ltb_ge fd 0)) by lia. apply IH; [by apply std_insert|done].
  - destruct Hc as [Hl Hr]. cbn [runcmd jobs]. apply rel_pipe; [|apply waits_panic|by simpl].
    intros a b Ha Hb. apply lowest_free in Ha as [Ha _]. apply lowest_free in Hb as [Hb _].
    eapply rel_par.
    + apply (pipe_child (λ T p, rel (start T _ p) _) T a b b 1 (PipeW (nm ++ [n]))); auto;
        [intros; by eapply rel_local|lia|apply lookup_insert_eq|]. apply IHl; [by apply std_insert|done].
    + intros pid Hpid. rewrite (proj2 (Z.eqb_neq pid (-1))), (proj2 (Z.eqb_neq pid 0)) by lia. reflexivity.
    + intros pid Hpid. simpl. apply (pipe_child (λ T p, rel (start T _ p) _) T a b a 0 (PipeR (nm ++ [n]))); auto;
        [intros; by eapply rel_local|lia| |].
      * rewrite lookup_insert_ne, lookup_insert_eq; [done|]. intros ->. by rewrite lookup_insert_eq in Hb.
      * apply IHr; [by apply std_insert|done].
    + intros pid pid' _ Hpid. cbv beta. rewrite (proj2 (Z.eqb_neq pid' (-1))), (proj2 (Z.eqb_neq pid' 0)) by lia.
      eapply waits_local; [reflexivity|]. eapply waits_local; [reflexivity|]. do 2 (apply waits_wait; intros _). auto.
    + intros pid _. apply waits_panic.
    + apply waits_panic.
    + by simpl.
  - destruct Hc as [Hl Hr]. cbn [runcmd jobs]. unfold fork1.
    apply (rel_seq _ _ _ _ (λ _ _, runcmd r)); [by apply IHl| |intros; by apply IHr|apply waits_panic|by simpl].
    intros pid Hpid. by rewrite (proj2 (Z.eqb_neq pid (-1))), (proj2 (Z.eqb_neq pid 0)) by lia.
  - cbn [runcmd jobs]. unfold fork1. apply rel_bg_fork; [by apply IH| |apply waits_panic|auto].
    intros pid Hpid. rewrite (proj2 (Z.eqb_neq pid (-1))), (proj2 (Z.eqb_neq pid 0)) by lia. auto.
Qed.

(** * Every order of the steps *)

Lemma match_runs ts tr ts' : runs step ts tr ts' → ∀ js, Forall2 rel ts js →
  ∃ tr' js', runs jstep js tr' js' ∧ shown tr' = shown tr ∧ Forall2 rel ts' js'.
Proof.
  induction 1 as [|l t r e t' sp tr ts' Hs _ IH]; intros js HR; [exists [], js; split_and!; [constructor|done..]|].
  apply Forall2_app_inv_l in HR as (jl & jr0 & Hl & HR & ->).
  apply Forall2_cons_inv_l in HR as (j & jr & Hj & Hr & ->).
  destruct (match_step _ _ _ _ Hs _ Hj) as (j' & sj & Hjs & Hj' & Hsp).
  destruct (IH (jl ++ j' :: jr ++ sj)) as (tr' & js' & Hruns & Htr & HR').
  { apply Forall2_app; [done|]. constructor; [done|]. by apply Forall2_app. }
  destruct Hjs as [(-> & -> & ->)|Hjs].
  - exists tr', js'. rewrite app_nil_r in Hruns. done.
  - exists (e :: tr'), js'. split_and!; [by eapply runs_step| |done].
    unfold shown in *. rewrite !filter_cons. by rewrite Htr.
Qed.

Definition ended (t : tree) : Prop := ∃ T nm n, t = Node T nm n Zombie [].

Lemma rel_ended t j : rel t j → ended t → j = Done.
Proof. intros Hj (T & nm & n & ->). by apply rel_zombie_inv in Hj as [-> _]. Qed.

Lemma runcmd_matches c T nm tr ts :
  std_open T → redirs_std c → runs step [start T nm (runcmd c)] tr ts →
  ∃ tr' js, runs jstep [jobs nm 0 T c] tr' js ∧ shown tr' = shown tr ∧ Forall2 (λ t j, ended t → j = Done) ts js.
Proof.
  intros HT Hc Hr. destruct (match_runs _ _ _ Hr [jobs nm 0 T c]) as (tr' & js & H1 & H2 & H3).
  { constructor; [by apply rel_runcmd|done]. }
  exists tr', js. split_and!; [done..|]. by eapply Forall2_impl; [|apply rel_ended].
Qed.

(** * Nothing is forgotten *)

(** The programs of a job that are still to be started, and those a run started. *)
Fixpoint todo (j : job) : list (list (list Z) * fdt) :=
  match j with
  | Done | Live _ _ => []
  | Prog a T => [(a, T)]
  | Seq j1 j2 | Par j1 j2 => todo j1 ++ todo j2
  | Bg j => todo j
  end.
Definition started (tr : list event) : list (list (list Z) * fdt) :=
  omap (λ e, match e with Start a T => Some (a, T) | _ => None end) tr.

Lemma jstep_todo j e j' sp : jstep j e j' sp → e ≠ Failed →
  todo j ≡ₚ started [e] ++ todo j' ++ mjoin (todo <$> sp).
Proof.
  induction 1 as [| |j1 j2 e j1' sp _ IH| |j1 j2 e j1' sp _ IH|j1 j2 e j1' sp _ IH| | |j e j' sp _ IH| | |];
    intros He; simpl in *; rewrite ?app_nil_r; try done; try (rewrite (IH He)); solve_Permutation.
Qed.
Lemma runs_todo js tr js' : runs jstep js tr js' → Failed ∉ tr →
  mjoin (todo <$> js) ≡ₚ started tr ++ mjoin (todo <$> js').
Proof.
  induction 1 as [|l j r e j' sp tr js' Hs _ IH]; intros Hf; [done|].
  rewrite not_elem_of_cons in Hf. destruct Hf as [He Hf].
  pose proof (jstep_todo _ _ _ _ Hs (not_eq_sym He)) as Hj. specialize (IH Hf).
  change (started (e :: tr)) with (omap (λ e, match e with Start a T => Some (a, T) | _ => None end) ([e] ++ tr)).
  rewrite omap_app. fold (started [e]) (started tr).
  rewrite <- app_assoc, <- IH, !fmap_app, !fmap_cons, !fmap_app, !join_app. simpl. rewrite Hj, join_app. solve_Permutation.
Qed.
Lemma started_shown tr : started (shown tr) = started tr.
Proof.
  unfold started, shown. induction tr as [|e tr IH]; [done|]. rewrite filter_cons.
  destruct (decide _) as [Hv|Hv]; destruct e; simpl in *; try apply IH; try (f_equal; apply IH); by destruct Hv.
Qed.
Lemma failed_shown tr : Failed ∈ shown tr ↔ Failed ∈ tr.
Proof. unfold shown. rewrite list_elem_of_filter. naive_solver. Qed.

(** C21: when all processes of a command have ended and nothing has failed, exactly the
    programs of the command have been started, each as often as it is written. *)
Theorem runcmd_starts c T nm tr ts :
  std_open T → redirs_std c → runs step [start T nm (runcmd c)] tr ts → Forall ended ts → Failed ∉ tr →
  started tr ≡ₚ todo (jobs nm 0 T c).
Proof.
  intros HT Hc Hr Hts Hf. destruct (runcmd_matches _ _ _ _ _ HT Hc Hr) as (tr' & js & Hj & Htr & Hd).
  rewrite <- failed_shown, <- Htr, failed_shown in Hf.
  assert (todo (jobs nm 0 T c) ≡ₚ started tr' ++ mjoin (todo <$> js)) as Ht.
  { pose proof (runs_todo _ _ _ Hj Hf) as Ht. simpl in Ht. by rewrite app_nil_r in Ht. }
  rewrite Ht, <- started_shown, <- Htr, started_shown.
  assert (mjoin (todo <$> js) = []) as ->; [|by rewrite app_nil_r].
  clear -Hts Hd. induction Hd as [|t j ts js Hj _ IH]; [done|].
  apply Forall_cons in Hts as [Ht Hts]. change (todo j ++ mjoin (todo <$> js) = []). by rewrite (Hj Ht), (IH Hts).
Qed.

(** * Witnesses: "a ; b" run to the end, and the job of a pipeline *)

Definition demo_fds : fdt := {[0 := Given 0; 1 := Given 1; 2 := Given 2]}.
Lemma demo_std : std_open demo_fds.
Proof. intros fd Hfd. assert (fd = 0 ∨ fd = 1 ∨ fd = 2) as [->|[->| ->]] by lia; by eexists. Qed.
Definition demo_cmd : cmd (list Z) := LIST (EXEC [lit "a"]) (EXEC [lit "b"]).
Definition demo_trace : list event :=
  [Tau; Start [lit "a"] demo_fds; Stop [lit "a"] demo_fds; Tau; Start [lit "b"] demo_fds; Stop [lit "b"] demo_fds].
Lemma demo_run : runs step [start demo_fds [] (runcmd demo_cmd)] demo_trace [Node ∅ [] 1 Zombie []].
Proof.
  eapply (runs_step _ [] _ [] _ _ []); [by apply (step_fork _ _ _ _ _ 7)|].
  eapply (runs_step _ [] _ [] _ _ []); [eapply (step_child _ _ _ _ _ 0%nat); [done|]; apply step_exec|].
  eapply (runs_step _ [] _ [] _ _ []); [eapply (step_child _ _ _ _ _ 0%nat); [done|]; apply step_stop|].
  eapply (runs_step _ [] _ [] _ _ []); [by apply (step_wait _ _ _ _ _ 0%nat ∅ [0%nat] 0 7)|].
  eapply (runs_step _ [] _ [] _ _ []); [apply step_exec|].
  eapply (runs_step _ [] _ [] _ _ []); [apply step_stop|]. constructor.
Qed.

Lemma runcmd_starts_witness : started demo_trace ≡ₚ todo (jobs [] 0 demo_fds demo_cmd).
Proof.
  apply (runcmd_starts demo_cmd demo_fds [] demo_trace [Node ∅ [] 1 Zombie []]).
  - apply demo_std.
  - done.
  - apply demo_run.
  - repeat constructor. by do 3 eexists.
  - unfold demo_trace. rewrite !not_elem_of_cons. split_and!; [done..|apply not_elem_of_nil].
Defined.

Example demo_pipe :
  jobs [] 0 demo_fds (PIPE (EXEC [lit "a"]) (REDIR (EXEC [lit "b"]) (lit "f") O_RDONLY 1)) =
  Par (Prog [lit "a"] (<[1 := PipeW [0%nat]]> demo_fds))
      (Prog [lit "b"] (<[1 := Opened (lit "f") O_RDONLY]> (<[0 := PipeR [0%nat]]> demo_fds))).
Proof. reflexivity. Qed.
