(* ===== verification/ShEnds.v ===== *)
(** Every run of a command ends, and none gets stuck (user/sh.c).

    A program may read its standard input to the end.  If that is a pipe, the end
    comes when no process has the other end open any more, so that a process that
    forgets to close it leaves the reader waiting for ever.  [tidy] says that
    runcmd forgets none: where a process waits, or runs a program, the ends of
    pipes it has open are those its place in the pipelines gives it. *)

From S2P Require Import Prelude CString Printf Sh ShRun ShJobs.
Local Open Scope Z_scope.

(** * Every run ends *)

(** At most [n] steps are left to a program and its descendants. *)
Inductive costs : nat → prog → Prop :=
| costs_exit n st : costs (S n) (Exit st)
| costs_close n fd k : (∀ r, costs n (k r)) → costs (S n) (Close fd k)
| costs_open n f m k : (∀ r, costs n (k r)) → costs (S n) (Open f m k)
| costs_dup n fd k : (∀ r, costs n (k r)) → costs (S n) (Dup fd k)
| costs_pipe n k : (∀ r, costs n (k r)) → costs (S n) (Pipe k)
| costs_fork n m k : costs n (k 0) → (∀ r, r ≠ 0 → costs m (k r)) → costs (S (n + m)) (Fork k)
| costs_wait n k : (∀ r, costs n (k r)) → costs (S n) (Wait k)
| costs_exec n f argv k : (∀ r, costs (S n) (k r)) → costs (S (S n)) (Exec f argv k)
| costs_chdir n f k : (∀ r, costs n (k r)) → costs (S n) (Chdir f k)
| costs_read n fd m k : (∀ r, costs n (k r)) → costs (S n) (Read fd m k)
| costs_write n fd bs k : (∀ r, costs n (k r)) → costs (S n) (Write fd bs k).
Definition status_costs (n : nat) (st : status) : Prop :=
  match st with Run p => costs n p | Image _ => (1 ≤ n)%nat | Zombie => True end.
Inductive tree_costs : nat → tree → Prop :=
| tree_costs_node n T nm c st ns cs :
    status_costs n st → Forall2 tree_costs ns cs → tree_costs (n + sum_list ns) (Node T nm c st cs).

Lemma costs_mono n p : costs n p → ∀ m, (n ≤ m)%nat → costs m p.
Proof.
  induction 1 as [| | | | |n1 n2 k H0 IH0 H IH| | | | |]; intros [|m'] Hm; try lia;
    try (constructor; intros; match goal with IH : ∀ r m, _ → costs m _ |- _ => apply IH; lia end).
  - replace m' with (n1 + (m' - n1))%nat by lia. constructor; [done|]. intros r Hr. apply IH; [done|lia].
  - destruct m' as [|m']; [lia|]. constructor. intros r.
    match goal with IH : ∀ r m, _ → costs m _ |- _ => apply IH; lia end.
Qed.

(** A step of a process uses up some of what it costs. *)
Definition cheaper (n : nat) (t : tree) (sp : list tree) : Prop :=
  ∃ m ns, tree_costs m t ∧ Forall2 tree_costs ns sp ∧ (m + sum_list ns < n)%nat.
Lemma cheaper_run n n' T nm c p cs ns :
  costs n' p → (n' + sum_list ns < n)%nat → Forall2 tree_costs ns cs → cheaper n (Node T nm c (Run p) cs) [].
Proof. intros Hp Hn Hcs. exists (n' + sum_list ns)%nat, []. split_and!; [by constructor|done|simpl; lia]. Qed.

Lemma local_costs n T p T' p' : local T p = Some (T', p') → costs n p → ∃ n', costs n' p' ∧ (n' < n)%nat.
Proof.
  intros Hl Hc. destruct Hc; simplify_eq/=; [by exists n; auto| |by exists n; auto].
  destruct (T !! fd), (lowest T); simplify_eq/=; by exists n; auto.
Qed.

Lemma sum_list_insert (ns : list nat) i n m : ns !! i = Some n → (sum_list (<[i := m]> ns) + n = sum_list ns + m)%nat.
Proof.
  revert i. induction ns as [|x ns IH]; intros [|i] Hi; simplify_eq/=; [lia|]. specialize (IH _ Hi). lia.
Qed.
Lemma sum_list_delete (ns : list nat) i : (sum_list (delete i ns) ≤ sum_list ns)%nat.
Proof. revert i. induction ns as [|x ns IH]; intros [|i]; simpl; [lia..|]. specialize (IH i). lia. Qed.

Lemma step_cheaper t e t' sp : step t e t' sp → ∀ n, tree_costs n t → cheaper n t' sp.
Proof.
  induction 1 as [? ? ? ? ? ? ? Hl| | | | |? ? ? ? ? pid| |? ? ? k ? i ? ? ? pid Hi| | | | | | | |? ? ? ? ? i ? ? ? ? Hi _ IH];
    intros N HN; inversion HN as [n0 ? ? ? ? ns ? Hst Hcs]; simplify_eq/=;
    try (inversion Hst; simplify_eq/=; eapply cheaper_run; [eauto| |done]; lia).
  - destruct (local_costs _ _ _ _ _ Hl Hst) as (n' & ? & ?). eapply cheaper_run; [done| |done]; lia.
  - inversion Hst as [| | | | |n1 n2 ? H0 H1| | | | |]; simplify_eq/=. exists (n2 + sum_list (ns ++ [n1]))%nat, [].
    split_and!; [constructor; [apply H1; lia|apply Forall2_app; [done|]]|done|rewrite sum_list_with_app; simpl; lia].
    constructor; [|done]. rewrite <- (Nat.add_0_r n1). by apply (tree_costs_node _ _ _ _ _ []).
  - inversion Hst as [| | | | | |n1 ? H1| | | |]; simplify_eq/=.
    exists (n1 + sum_list (delete i ns))%nat, []. pose proof (sum_list_delete ns i).
    split_and!; [constructor; [by apply H1|by apply Forall2_delete]|done|simpl; lia].
  - inversion Hst as [| | | | | | |n1 ? ? ? H1| | |]; simplify_eq/=. exists (1 + sum_list ns)%nat, [].
    split_and!; [constructor; [simpl; lia|done]|done|simpl; lia].
  - inversion Hst; simplify_eq/=. exists (0 + sum_list [])%nat, ns. split_and!; [by constructor|done|simpl; lia].
  - exists (0 + sum_list [])%nat, ns. split_and!; [by constructor|done|simpl; lia].
  - destruct (Forall2_lookup_r _ _ _ _ _ Hcs Hi) as (n1 & Hn1 & Ht).
    destruct (IH _ Ht) as (m & ms & Hm & Hms & Hlt). exists (n0 + sum_list (<[i := m]> ns))%nat, ms.
    pose proof (sum_list_insert _ _ _ m Hn1). split_and!; [constructor; [done|by apply Forall2_insert]|done|lia].
Qed.

Lemma runs_cost ts tr ts' : runs step ts tr ts' → ∀ ns, Forall2 tree_costs ns ts → (length tr ≤ sum_list ns)%nat.
Proof.
  induction 1 as [|l t r e t' sp tr ts' Hs _ IH]; intros ns Hns; simpl; [lia|].
  apply Forall2_app_inv_r in Hns as (nl & nr0 & Hl & Hns & ->).
  apply Forall2_cons_inv_r in Hns as (n & nr & Hn & Hr & ->).
  destruct (step_cheaper _ _ _ _ Hs _ Hn) as (m & ms & Hm & Hms & Hlt).
  assert (length tr ≤ sum_list (nl ++ m :: nr ++ ms))%nat.
  { apply IH, Forall2_app; [done|]. constructor; [done|]. by apply Forall2_app. }
  rewrite !sum_list_with_app in *. simpl in *. rewrite !sum_list_with_app in *. lia.
Qed.

(** What a command costs; a message is written a byte at a time. *)
Fixpoint cost (c : cmd (list Z)) : nat :=
  match c with
  | EXEC [] => 1
  | EXEC (a :: _) => 16 + length a
  | REDIR c f _ _ => 16 + length f + cost c
  | LIST l r => 9 + cost l + cost r
  | PIPE l r => 28 + cost l + cost r
  | BACK c => 8 + cost c
  end.
Lemma costs_fprintf fd bs n p : costs n p → costs (length bs + n) (fprintf fd bs p).
Proof. intros Hp. induction bs as [|b bs IH]; [done|]. simpl. by constructor. Qed.
Lemma costs_message fd bs n st : (length bs < n)%nat → costs n (fprintf fd bs (Exit st)).
Proof. intros Hn. apply (costs_mono (length bs + 1)); [apply costs_fprintf; constructor|lia]. Qed.
Lemma costs_fork1 n m N k : (n + m + 6 < N)%nat →
  costs n (k 0) → (∀ r, r ≠ 0 → costs m (k r)) → costs N (fork1 k).
Proof.
  intros HN H0 H1. apply (costs_mono (S (n + (m + 6)))); [|lia]. constructor; [done|]. intros r Hr.
  destruct (r =? -1); [apply costs_message; simpl; lia|]. apply (costs_mono m); [auto|lia].
Qed.
Lemma costs_runcmd c : costs (cost c) (runcmd c).
Proof.
  induction c as [argv|c IH f mode fd|l IHl r IHr|l IHl r IHr|c IH]; cbn [cost runcmd].
  - destruct argv as [|a argv]; [constructor|]. cbn [Nat.add]. constructor. intros _.
    apply costs_message. rewrite !length_app. simpl. lia.
  - cbn [Nat.add]. do 2 (constructor; intros ?). destruct (_ <? 0).
    + apply costs_message. rewrite !length_app. simpl. lia.
    + eapply costs_mono; [done|lia].
  - cbn [Nat.add]. constructor. intros [[p0 p1]|]; [|apply costs_message; simpl; lia].
    apply (costs_fork1 (4 + cost l) (5 + 7 + cost r + 4)); [lia| |].
    + do 4 (constructor; intros _). done.
    + intros pid Hpid. rewrite (proj2 (Z.eqb_neq pid 0)) by done.
      apply (costs_fork1 (4 + cost r) 5); [lia| |].
      * do 4 (constructor; intros _). done.
      * intros pid' Hpid'. rewrite (proj2 (Z.eqb_neq pid' 0)) by done. do 4 (constructor; intros _). constructor.
  - apply (costs_fork1 (cost l) (1 + cost r)); [lia|done|]. intros pid Hpid.
    rewrite (proj2 (Z.eqb_neq pid 0)) by done. by constructor.
  - apply (costs_fork1 (cost c) 1); [lia|done|]. intros pid Hpid.
    rewrite (proj2 (Z.eqb_neq pid 0)) by done. constructor.
Qed.

(** * No end of a pipe is forgotten *)

Definition table (t : tree) : fdt := match t with Node T _ _ _ _ => T end.
Definition tname (t : tree) : list nat := match t with Node _ nm _ _ _ => nm end.
Definition is_image (t : tree) : bool := match t with Node _ _ _ (Image _) _ => true | _ => false end.
Definition settled (t : tree) : Prop :=
  match t with Node _ _ _ (Image _) _ | Node _ _ _ (Run (Wait _)) _ => True | _ => False end.

(** The pipe [m ++ [k]] is between the processes below [m ++ [S k]], on its left,
    and those below [m ++ [S (S k)]]. *)
Definition left_of (p nm : list nat) : Prop := ∃ m k, p = m ++ [k] ∧ (m ++ [S k]) `prefix_of` nm.
Definition right_of (p nm : list nat) : Prop := ∃ m k, p = m ++ [k] ∧ (m ++ [S (S k)]) `prefix_of` nm.
Definition clean (nm : list nat) (T : fdt) : Prop := ∀ fd o, T !! fd = Some o →
  match o with
  | PipeW p => fd = 1 ∧ left_of p nm
  | PipeR p => fd = 0 ∧ right_of p nm
  | _ => True
  end.

(** Where the program waits or runs another one, the descriptors are clean. *)
Inductive tidy : fdt → list nat → nat → prog → Prop :=
| tidy_local T nm n p T' p' : local T p = Some (T', p') → tidy T' nm n p' → tidy T nm n p
| tidy_exit T nm n st : tidy T nm n (Exit st)
| tidy_open T nm n f m k :
    (∀ fd, lowest T = Some fd → tidy (<[fd := Opened f m]> T) nm n (k fd)) →
    tidy T nm n (k (-1)) → tidy T nm n (Open f m k)
| tidy_pipe T nm n k :
    (∀ a b, lowest T = Some a → lowest (<[a := PipeR (nm ++ [n])]> T) = Some b →
       tidy (<[b := PipeW (nm ++ [n])]> (<[a := PipeR (nm ++ [n])]> T)) nm (S n) (k (Some (a, b)))) →
    tidy T nm n (k None) → tidy T nm n (Pipe k)
| tidy_fork T nm n k :
    tidy T (nm ++ [n]) 0 (k 0) → (∀ pid, 0 < pid → tidy T nm (S n) (k pid)) → tidy T nm n (k (-1)) →
    tidy T nm n (Fork k)
| tidy_wait T nm n k : clean nm T → (∀ r, tidy T nm n (k r)) → tidy T nm n (Wait k)
| tidy_exec T nm n f argv k : clean nm T → tidy T nm n (k (-1)) → tidy T nm n (Exec f argv k).

Definition status_tidy (T : fdt) (nm : list nat) (n : nat) (st : status) : Prop :=
  match st with Run p => tidy T nm n p | Image _ => clean nm T | Zombie => T = ∅ end.
Inductive tree_tidy : tree → Prop :=
| tidy_node T nm n st cs :
    status_tidy T nm n st → Forall (λ t, nm `prefix_of` tname t) cs → Forall tree_tidy cs →
    tree_tidy (Node T nm n st cs).

Lemma clean_insert nm T fd o : clean nm T →
  match o with PipeW p => fd = 1 ∧ left_of p nm | PipeR p => fd = 0 ∧ right_of p nm | _ => True end →
  clean nm (<[fd := o]> T).
Proof. intros HT Ho x y [[<- <-]|[_ Hx]]%lookup_insert_Some; [done|]. by apply HT. Qed.
Lemma clean_below nm nm' T : clean nm T → nm `prefix_of` nm' → clean nm' T.
Proof.
  intros HT Hp fd o Ho. specialize (HT fd o Ho).
  destruct o; try done; destruct HT as (-> & m & k & -> & Hm); (split; [done|]); exists m, k; (split; [done|]); by etransitivity.
Qed.

Lemma tidy_fprintf T nm n fd bs p : tidy T nm n p → tidy T nm n (fprintf fd bs p).
Proof. intros Hp. induction bs as [|b bs IH]; [done|]. by eapply tidy_local. Qed.
Lemma tidy_panic T nm n s : tidy T nm n (sh_panic s).
Proof. apply tidy_fprintf, tidy_exit. Qed.
#[local] Hint Resolve tidy_fprintf tidy_panic tidy_exit : core.
Lemma tidy_fork1 T nm n k : tidy T (nm ++ [n]) 0 (k 0) → (∀ pid, 0 < pid → tidy T nm (S n) (k pid)) →
  tidy T nm n (fork1 k).
Proof.
  intros H0 H1. apply tidy_fork; [done| |apply tidy_panic].
  intros pid Hpid. rewrite (proj2 (Z.eqb_neq pid (-1))) by lia. auto.
Qed.

Lemma tidy_runcmd c : ∀ T nm n, std_open T → redirs_std c → clean nm T → tidy T nm n (runcmd c).
Proof.
  induction c as [argv|c IH f mode fd|l IHl r IHr|l IHl r IHr|c IH]; intros T nm n HT Hc Hcl; simpl in Hc; cbn [runcmd].
  - destruct argv as [|a argv]; [auto|]. apply tidy_exec; auto.
  - destruct Hc as [Hfd Hc]. eapply tidy_local; [reflexivity|]. apply tidy_open; [|apply tidy_fprintf, tidy_exit]. intros fd' Hl.
    rewrite lowest_delete in Hl by (done || (intros; apply HT; lia)). injection Hl as <-.
    rewrite insert_delete_eq, (proj2 (Z.ltb_ge fd 0)) by lia. apply IH; [by apply std_insert|done|by apply clean_insert].
  - destruct Hc as [Hl Hr]. apply tidy_pipe; [|apply tidy_panic]. intros a b Ha Hb.
    apply lowest_free in Ha as [Ha _]. apply lowest_free in Hb as [Hb _].
    apply tidy_fork1; [|intros pid Hpid; cbv beta; rewrite (proj2 (Z.eqb_neq pid 0)) by lia; apply tidy_fork1].
    + apply (pipe_child (λ T p, tidy T _ _ p) T a b b 1 (PipeW (nm ++ [n]))); auto;
        [intros; by eapply tidy_local|lia|apply lookup_insert_eq|].
      apply IHl; [by apply std_insert|done|]. apply clean_insert; [by eapply clean_below; [|apply prefix_app_r]|].
      split; [done|]. by exists nm, n.
    + apply (pipe_child (λ T p, tidy T _ _ p) T a b a 0 (PipeR (nm ++ [n]))); auto; [intros; by eapply tidy_local|lia| |].
      * rewrite lookup_insert_ne, lookup_insert_eq; [done|]. intros ->. by rewrite lookup_insert_eq in Hb.
      * apply IHr; [by apply std_insert|done|]. apply clean_insert; [by eapply clean_below; [|apply prefix_app_r]|].
        split; [done|]. by exists nm, n.
    + intros pid' Hpid'. cbv beta. rewrite (proj2 (Z.eqb_neq pid' 0)) by lia.
      eapply tidy_local; [reflexivity|]. eapply tidy_local; [reflexivity|]. rewrite pipe_parent by done.
      do 2 (apply tidy_wait; [done|intros _]). apply tidy_exit.
  - destruct Hc as [Hl Hr]. apply tidy_fork1; [by apply IHl; [| |eapply clean_below; [|apply prefix_app_r]]|].
    intros pid Hpid. cbv beta. rewrite (proj2 (Z.eqb_neq pid 0)) by lia. apply tidy_wait; auto.
  - apply tidy_fork1; [by apply IH; [| |eapply clean_below; [|apply prefix_app_r]]|].
    intros pid Hpid. cbv beta. rewrite (proj2 (Z.eqb_neq pid 0)) by lia. auto.
Qed.

Lemma step_tidy t e t' sp : step t e t' sp →
  tree_tidy t → tree_tidy t' ∧ tname t' = tname t ∧ Forall tree_tidy sp.
Proof.
  induction 1 as [? ? ? ? ? ? ? Hl| | | | |? ? ? ? ? pid| |? ? ? k ? i ? ? ? pid Hi| | | | | | | |? ? ? ? ? i ? ? ? ? Hi _ IH];
    intros HT; inversion HT as [? ? ? ? ? Hst Hpre Hcs]; simplify_eq/=;
    try (split_and!; [constructor; [|done..]|done|by constructor]; inversion Hst; simplify_eq/=; auto; fail).
  - split_and!; [|done|done]. inversion Hst; simplify_eq/=. constructor; [simpl; auto|..]; apply Forall_app; split; try done.
    + constructor; [by apply prefix_app_r|done].
    + constructor; [|done]. by constructor.
  - split_and!; [|done|done]. inversion Hst; simplify_eq/=. constructor; [simpl; auto|by apply Forall_delete..].
  - split_and!; [by constructor|done|done].
  - split_and!; [by constructor|done|done].
  - rewrite Forall_lookup in Hcs. destruct (IH (Hcs _ _ Hi)) as (Ht' & Hn & Hsp). rewrite <- Forall_lookup in Hcs.
    split_and!; [constructor; [done|..]|done|done]; apply Forall_insert; try done.
    rewrite Hn. rewrite Forall_lookup in Hpre. eauto.
Qed.

(** * No process waits for ever *)

Fixpoint procs (t : tree) : list tree := match t with Node _ _ _ _ cs => t :: flat_map procs cs end.
Definition all_procs (ts : list tree) : list tree := flat_map procs ts.
Lemma in_procs cs u : u ∈ all_procs cs ↔ ∃ t, t ∈ cs ∧ u ∈ procs t.
Proof. rewrite list_elem_of_In. unfold all_procs. rewrite in_flat_map. by setoid_rewrite list_elem_of_In. Qed.

Lemma tree_ind' (P : tree → Prop) :
  (∀ T nm n st cs, Forall P cs → P (Node T nm n st cs)) → ∀ t, P t.
Proof.
  intros HP. fix go 1. intros [T nm n st cs]. apply HP.
  induction cs as [|t cs IH]; constructor; [apply go|exact IH].
Qed.
Lemma procs_trans t : ∀ u x, u ∈ procs t → x ∈ procs u → x ∈ procs t.
Proof.
  induction t as [T nm n st cs IH] using tree_ind'. intros u x [->|Hu]%elem_of_cons; [done|]. intros Hx. right.
  apply in_procs in Hu as (t & Ht & Hu). apply in_procs. exists t. split; [done|].
  rewrite Forall_forall in IH. by eapply IH.
Qed.

(** A program whose input is a pipe stops only at the end of it: when no process
    has the other end open. *)
Definition unblocked (ts : list tree) (e : event) : Prop :=
  match e with
  | Stop _ T => ∀ p, T !! 0 = Some (PipeR p) → ∀ u fd, u ∈ all_procs ts → table u !! fd ≠ Some (PipeW p)
  | _ => True
  end.
Definition moves (ts : list tree) : Prop := ∃ t e t' sp, t ∈ ts ∧ step t e t' sp ∧ unblocked ts e.

(** A step that is not the end of a program. *)
Definition quick (t : tree) : Prop := ∃ e t' sp, step t e t' sp ∧ match e with Stop _ _ => False | _ => True end.
Lemma run_quick T nm n p cs : quick (Node T nm n (Run p) cs) ∨ ∃ k, p = Wait k.
Proof.
  destruct (local T p) as [[T' p']|] eqn:Hl; [left; by do 3 eexists; split; [by apply step_local|]|].
  destruct p; simpl in Hl; try done; try (by right; eexists);
    try (left; do 3 eexists; split; [first [apply step_exit | apply step_open_fails | apply step_pipe_fails | apply step_fork_fails
      | apply step_exec_fails | by apply step_chdir; left | by apply (step_read _ _ _ _ _ _ _ None)]|done]).
  destruct (T !! fd), (lowest T); done.
Qed.

Definition busy (t : tree) : Prop := ended t ∨ quick t ∨ ∃ u, u ∈ procs t ∧ is_image u.
Lemma node_busy T nm n p cs : Forall busy cs → busy (Node T nm n (Run p) cs).
Proof.
  intros Hcs. right. destruct (run_quick T nm n p cs) as [|[k ->]]; [by left|].
  destruct Hcs as [|t cs [(T' & nm' & n' & ->)|[(e & t' & sp & Ht & He)|(u & Hu & Hi)]] _].
  - left. do 3 eexists. split; [apply step_wait_none|done].
  - left. do 3 eexists. split; [by apply (step_wait _ _ _ _ _ 0%nat T' nm' n' 1)|done].
  - left. do 3 eexists. split; [by apply (step_child _ _ _ _ _ 0%nat t)|done].
  - right. exists u. split; [|done]. right. apply elem_of_app. by left.
Qed.
Lemma rel_busy t j : rel t j → busy t.
Proof.
  induction 1; try (apply node_busy; by repeat first [assumption | apply Forall_cons_2 | apply Forall_nil_2]).
  - left. by do 3 eexists.
  - right. right. eexists. split; [left|done].
Qed.

(** What a tree is made of. *)
Definition part_of (t u : tree) : Prop :=
  tree_tidy u ∧ (∃ j, rel u j) ∧ tname t `prefix_of` tname u ∧
  ∀ e u' sp, step u e u' sp → ∃ t', step t e t' sp.
Definition made_of_parts (t : tree) : Prop := tree_tidy t → ∀ u, u ∈ procs t → part_of t u.
Lemma node_parts T nm n st cs j : rel (Node T nm n st cs) j → Forall made_of_parts cs → made_of_parts (Node T nm n st cs).
Proof.
  intros HR Hcs HT u [->|Hu]%elem_of_cons; [split_and!; eauto|].
  apply in_procs in Hu as (t & Ht & Hu). inversion HT as [? ? ? ? ? _ Hpre Htidy]; subst.
  rewrite Forall_forall in Hcs, Hpre, Htidy. destruct (Hcs t Ht (Htidy t Ht) u Hu) as (? & ? & Hn & Hs). split_and!; try done.
  - etransitivity; [by apply Hpre|done].
  - intros e u' sp He. destruct (Hs _ _ _ He) as [t' Ht']. apply list_elem_of_lookup in Ht as [i Hi].
    eexists. by eapply step_child.
Qed.
Lemma rel_parts t j : rel t j → made_of_parts t.
Proof. induction 1; (eapply node_parts; [by econstructor|by repeat first [assumption | apply Forall_cons_2 | apply Forall_nil_2]]). Qed.

(** ** From right to left *)

Fixpoint before (x y : list nat) : bool :=
  match x, y with i :: x, j :: y => (i <? j)%nat || ((i =? j)%nat && before x y) | _, _ => false end.
Lemma before_irrefl x : before x x = false.
Proof. induction x as [|i x IH]; [done|]. simpl. by rewrite Nat.ltb_irrefl, Nat.eqb_refl. Qed.
Lemma before_trans x : ∀ y z, before x y → before y z → before x z.
Proof.
  induction x as [|i x IH]; intros [|j y] [|k z]; simpl; try done. unfold Is_true.
  destruct (Nat.ltb_spec i j), (Nat.ltb_spec j k), (Nat.eqb_spec i j), (Nat.eqb_spec j k), (Nat.ltb_spec i k), (Nat.eqb_spec i k);
    simpl; try lia; try done. apply IH.
Qed.
Lemma left_before p x y : left_of p x → right_of p y → before x y.
Proof.
  intros (m & k & -> & [x' ->]) (m' & k' & [-> [= ->]]%app_inj_tail & [y' ->]). rewrite <- !app_assoc.
  induction m' as [|i m IH]; simpl; [|by rewrite Nat.ltb_irrefl, Nat.eqb_refl].
  by rewrite (proj2 (Nat.ltb_lt _ _)) by lia.
Qed.
Lemma leftmost {A} (f : A → list nat) (xs : list A) a : a ∈ xs → ∃ x, x ∈ xs ∧ ∀ y, y ∈ xs → ¬ before (f y) (f x).
Proof.
  revert a. induction xs as [|b xs IH]; intros a Ha; [by apply elem_of_nil in Ha|].
  destruct xs as [|c xs]; [exists b; split; [left|]; intros y ->%list_elem_of_singleton; rewrite before_irrefl; by intros []|].
  destruct (IH c) as (x & Hx & Hmin); [left|]. destruct (decide (before (f b) (f x))) as [Hb|Hb].
  - exists b. split; [left|]. intros y [->|Hy]%elem_of_cons; [rewrite before_irrefl; by intros []|].
    intros Hyb. by apply (Hmin y Hy), (before_trans _ (f b)).
  - exists x. split; [by right|]. intros y [->|Hy]%elem_of_cons; [done|by apply Hmin].
Qed.

Definition healthy (t : tree) : Prop := tree_tidy t ∧ ∃ j, rel t j.

Definition images (ts : list tree) : list tree := filter (λ u, is_image u) (all_procs ts).
Lemma in_images ts u : u ∈ images ts ↔ u ∈ all_procs ts ∧ is_image u.
Proof. unfold images. rewrite list_elem_of_filter. tauto. Qed.

#[export] Instance obj_eq_dec : EqDecision obj.
Proof. solve_decision. Defined.
Lemma writer_dec ts p :
  (∃ u fd, u ∈ all_procs ts ∧ table u !! fd = Some (PipeW p)) ∨
  ∀ u fd, u ∈ all_procs ts → table u !! fd ≠ Some (PipeW p).
Proof.
  destruct (decide (Exists (λ u, map_Exists (λ _ o, o = PipeW p) (table u)) (all_procs ts))) as [Hw|Hw].
  - left. apply Exists_exists in Hw as (u & Hu & fd & o & Ho & ->). eauto.
  - right. intros u fd Hu Ho. apply Hw, Exists_exists. exists u. split; [done|]. by exists fd, (PipeW p).
Qed.

Lemma healthy_settled T nm n st cs : healthy (Node T nm n st cs) → settled (Node T nm n st cs) → clean nm T.
Proof.
  intros [HT _]. inversion HT as [? ? ? ? ? Hst _ _]; subst.
  destruct st as [[]| |]; try done; intros _. inversion Hst; by simplify_eq/=.
Qed.

Lemma quick_moves ts t : t ∈ ts → quick t → moves ts.
Proof. intros Ht (e & t' & sp & Hs & He). exists t, e, t', sp. split_and!; [done..|]. by destruct e. Qed.

(** Where a writer is: a program that runs on the left of its pipe, or a step. *)
Lemma writer_image ts p u fd : Forall healthy ts → u ∈ all_procs ts → table u !! fd = Some (PipeW p) →
  moves ts ∨ ∃ x, x ∈ images ts ∧ left_of p (tname x).
Proof.
  intros Hts Hu Hw. pose proof Hu as (t & Ht & Hut)%in_procs. rewrite Forall_forall in Hts.
  destruct (Hts t Ht) as [Htidy [j Hj]]. destruct (rel_parts _ _ Hj Htidy u Hut) as (HuT & [ju Hju] & _ & Hsteps).
  assert (quick u → moves ts) as Hq.
  { intros (e & u' & sp & Hs & He). destruct (Hsteps _ _ _ Hs) as [t' Ht']. apply (quick_moves ts t Ht). by do 3 eexists. }
  destruct u as [T nm n st cs]; simpl in Hw.
  assert (settled (Node T nm n st cs) → left_of p nm) as Hleft.
  { intros Hs. pose proof (healthy_settled _ _ _ _ _ (conj HuT (ex_intro _ _ Hju)) Hs fd _ Hw) as Hc. by apply Hc. }
  destruct st as [pr|argv|].
  - destruct (run_quick T nm n pr cs) as [|[k ->]]; [by left; apply Hq|].
    destruct (rel_busy _ _ Hju) as [(? & ? & ? & [=])|[|(x & Hx & Hi)]]; [by left; apply Hq|]. right. exists x.
    destruct (rel_parts _ _ Hju HuT x Hx) as (_ & _ & Hn & Hxs). split.
    + apply in_images. split; [|done]. apply in_procs. exists t. split; [done|]. by eapply procs_trans.
    + destruct (Hleft I) as (m & k' & -> & Hm). exists m, k'. split; [done|]. by etransitivity.
  - right. eexists. split; [by apply in_images|by apply Hleft].
  - inversion HuT as [? ? ? ? ? Hst _ _]; subst. simpl in Hst. subst T. by rewrite lookup_empty in Hw.
Qed.

(** As long as a process has not ended, one can take a step. *)
Lemma healthy_moves ts : Forall healthy ts → Forall ended ts ∨ moves ts.
Proof.
  intros Hts. assert (Forall ended ts ∨ moves ts ∨ ∃ u, u ∈ images ts) as [|[|[u Hu]]]; [|by left|by right|].
  { assert (∀ us, (∀ t, t ∈ us → t ∈ ts) → Forall ended us ∨ moves ts ∨ ∃ u, u ∈ images ts) as Hus; [|by apply Hus].
    induction us as [|t us IH]; intros Hin; [by left|]. rewrite Forall_forall in Hts.
    assert (t ∈ ts) as Ht by (apply Hin; left). destruct (Hts t Ht) as [_ [j Hj]].
    destruct (rel_busy _ _ Hj) as [He|[Hq|(u & Hu & Hi)]]; [|right; left; by eapply quick_moves|].
    - destruct IH as [|]; [intros x Hx; apply Hin; by right|left; by constructor|by right].
    - right. right. exists u. apply in_images. split; [|done]. apply in_procs. eauto. }
  right. destruct (leftmost tname _ _ Hu) as (x & Hx & Hmin). clear u Hu. apply in_images in Hx as [Hx Hi].
  pose proof Hx as (t & Ht & Hxt)%in_procs. pose proof Hts as Hts'. rewrite Forall_forall in Hts'.
  destruct (Hts' t Ht) as [Htidy [j Hj]]. destruct (rel_parts _ _ Hj Htidy x Hxt) as (HxT & [jx Hjx] & _ & Hsteps).
  destruct x as [T nm n [|argv|] cs]; try done. destruct (Hsteps _ _ _ (step_stop T nm n argv cs)) as [t' Ht'].
  assert (unblocked ts (Stop argv T) ∨ ∃ p, T !! 0 = Some (PipeR p) ∧
    ∃ u fd, u ∈ all_procs ts ∧ table u !! fd = Some (PipeW p)) as [Hub|(p & Hp & u & fd & Hu & Hw)].
  { destruct (T !! 0) as [[| |p|]|] eqn:H0; try (left; intros q Hq; by rewrite H0 in Hq).
    destruct (writer_dec ts p) as [Hw|Hw]; [right; eauto|left]. intros q Hq. rewrite H0 in Hq. by injection Hq as <-. }
  - by exists t, (Stop argv T), t', cs.
  - destruct (writer_image ts p u fd Hts Hu Hw) as [|(y & Hy & Hl)]; [done|]. exfalso. apply (Hmin y Hy).
    apply (left_before p); [done|]. by apply (healthy_settled _ _ _ _ _ (conj HxT (ex_intro _ _ Hjx)) I 0 _ Hp).
Qed.

Lemma runs_tidy ts tr ts' : runs step ts tr ts' → Forall tree_tidy ts → Forall tree_tidy ts'.
Proof.
  induction 1 as [|l t r e t' sp tr ts' Hs _ IH]; [done|]. rewrite Forall_app, Forall_cons. intros (Hl & Ht & Hr).
  destruct (step_tidy _ _ _ _ Hs Ht) as (Ht' & _ & Hsp). apply IH.
  apply Forall_app; split; [done|]. constructor; [done|]. by apply Forall_app.
Qed.

(** * No process is left behind *)

Fixpoint no_back (c : cmd (list Z)) : Prop :=
  match c with
  | EXEC _ => True
  | REDIR c _ _ _ => no_back c
  | LIST l r | PIPE l r => no_back l ∧ no_back r
  | BACK _ => False
  end.
Fixpoint no_bg (j : job) : Prop :=
  match j with
  | Done | Prog _ _ | Live _ _ => True
  | Seq j1 j2 | Par j1 j2 => no_bg j1 ∧ no_bg j2
  | Bg _ => False
  end.
Lemma jobs_no_bg c : ∀ nm n T, no_back c → no_bg (jobs nm n T c).
Proof. induction c as [[|]| | | |]; simpl; naive_solver. Qed.
Lemma jstep_no_bg j e j' sp : jstep j e j' sp → e ≠ Failed → no_bg j → no_bg j' ∧ sp = [].
Proof. induction 1; simpl; naive_solver. Qed.
Lemma runs_no_bg js tr js' : runs jstep js tr js' → Failed ∉ tr →
  ∀ j, js = [j] → no_bg j → ∃ j', js' = [j'].
Proof.
  induction 1 as [|l j1 r e j' sp tr js' Hs _ IH]; intros Hf j Hj Hb; [eauto|].
  rewrite not_elem_of_cons in Hf. destruct Hf as [He Hf].
  destruct l as [|? []]; simplify_eq/=. destruct (jstep_no_bg _ _ _ _ Hs (not_eq_sym He) Hb) as [Hb' ->]. by eapply IH.
Qed.

(** C13: a command that has been read is run to its end.  Every run has at most
    [cost c] steps; in every state of a run some process can go on until all have
    ended, even when every program reads its input to the end; for, where a process
    waits or runs a program, it has no end of a pipe open but the read end of the
    pipe on its left, as its input, and the write end of the pipe on its right, as
    its output.  In a command without [&], when no call fails, no process ends
    before its children, so that with the command all its programs have ended. *)
Theorem runcmd_ends c T nm tr ts :
  std_open T → redirs_std c → clean nm T → runs step [start T nm (runcmd c)] tr ts →
  (length tr ≤ cost c)%nat ∧ (Forall ended ts ∨ moves ts) ∧
  (∀ u, u ∈ all_procs ts → settled u → clean (tname u) (table u)) ∧
  (no_back c → Failed ∉ tr → ∃ t, ts = [t]).
Proof.
  intros HT Hc Hcl Hr.
  assert (Forall2 rel [start T nm (runcmd c)] [jobs nm 0 T c]) as HR by (constructor; [by apply rel_runcmd|done]).
  destruct (match_runs _ _ _ Hr _ HR) as (tr' & js & Hj & Htr & HR').
  assert (Forall healthy ts) as Hts.
  { assert (Forall tree_tidy ts) as Htidy.
    { eapply runs_tidy; [exact Hr|]. constructor; [|done]. constructor; [|done..]. by apply tidy_runcmd. }
    clear -HR' Htidy. induction HR' as [|t j ts js Ht _ IH]; constructor; apply Forall_cons in Htidy as [? ?];
      [split; eauto|by apply IH]. }
  split_and!.
  - rewrite <- (Nat.add_0_r (cost c)). apply (runs_cost _ _ _ Hr [cost c]). constructor; [|done].
    rewrite <- (Nat.add_0_r (cost c)). apply (tree_costs_node _ _ _ _ _ []); [apply costs_runcmd|done].
  - by apply healthy_moves.
  - intros u (t & Ht & Hu)%in_procs. rewrite Forall_forall in Hts. destruct (Hts t Ht) as [Htidy [j Hj']].
    destruct (rel_parts _ _ Hj' Htidy u Hu) as (HuT & Hju & _). destruct u as [Tu nmu nu st cs].
    by apply (healthy_settled _ _ nu st cs).
  - intros Hb Hf. rewrite <- failed_shown, <- Htr, failed_shown in Hf.
    destruct (runs_no_bg _ _ _ Hj Hf _ eq_refl (jobs_no_bg c nm 0 T Hb)) as [j ->].
    apply Forall2_cons_inv_r in HR' as (t & ts' & _ & Hnil & ->). apply Forall2_nil_inv_r in Hnil as ->. eauto.
Qed.

(** * A pipeline whose two programs run *)

Definition demo_pipeline : cmd (list Z) := PIPE (EXEC [lit "a"]) (EXEC [lit "b"]).
Lemma demo_clean : clean [] demo_fds.
Proof.
  intros fd o Ho. unfold demo_fds in Ho. rewrite !lookup_insert_Some, lookup_singleton_Some in Ho.
  by destruct Ho as [[_ <-]|(_ & [[_ <-]|(_ & [_ <-])])].
Qed.
Lemma demo_pipeline_run : ∃ tr ts, runs step [start demo_fds [] (runcmd demo_pipeline)] tr ts ∧
  length tr = 15%nat ∧ Failed ∉ tr.
Proof.
  do 2 eexists. split.
  { eapply (runs_step _ [] _ [] _ _ []); [by apply (step_pipe _ _ _ _ _ 3 4)|].
    do 2 (eapply (runs_step _ [] _ [] _ _ []); [by apply (step_fork _ _ _ _ _ 7)|]).
    do 2 (eapply (runs_step _ [] _ [] _ _ []); [by eapply step_local|]).
    do 4 (eapply (runs_step _ [] _ [] _ _ []); [eapply (step_child _ _ _ _ _ 0%nat); [done|]; by eapply step_local|]).
    eapply (runs_step _ [] _ [] _ _ []); [eapply (step_child _ _ _ _ _ 0%nat); [done|]; apply step_exec|].
    do 4 (eapply (runs_step _ [] _ [] _ _ []); [eapply (step_child _ _ _ _ _ 1%nat); [done|]; by eapply step_local|]).
    eapply (runs_step _ [] _ [] _ _ []); [eapply (step_child _ _ _ _ _ 1%nat); [done|]; apply step_exec|].
    constructor. }
  split; [done|]. rewrite !not_elem_of_cons. split_and!; try done. apply not_elem_of_nil.
Qed.
Lemma runcmd_ends_witness :
  ∃ tr ts, length tr = 15%nat ∧ runs step [start demo_fds [] (runcmd demo_pipeline)] tr ts ∧
    (15 ≤ cost demo_pipeline)%nat ∧ (Forall ended ts ∨ moves ts) ∧
    (∀ u, u ∈ all_procs ts → settled u → clean (tname u) (table u)) ∧ ∃ t, ts = [t].
Proof.
  destruct demo_pipeline_run as (tr & ts & Hr & Hl & Hf). exists tr, ts. split; [exact Hl|]. split; [exact Hr|].
  assert (redirs_std demo_pipeline) as H1 by (split; exact I). assert (no_back demo_pipeline) as H2 by (split; exact I).
  destruct (runcmd_ends demo_pipeline demo_fds [] tr ts demo_std H1 demo_clean Hr) as (Ha & Hb & Hc & Hd).
  rewrite Hl in Ha. split; [exact Ha|]. split; [exact Hb|]. split; [exact Hc|]. exact (Hd H2 Hf).
Defined.
