(* ===== verification/ShLine.v ===== *)
(** From the line to the processes (user/sh.c): the commands the parser returns
    redirect the standard input and output only, so that a line is run as the job of
    the command it is parsed to. *)

From S2P Require Import Prelude CString Printf Sh ShRun ShJobs.
Local Open Scope Z_scope.

Section line.
Context (buf : list Z).
Implicit Types (c : cmd word) (n : nat).

Fixpoint redirs_01 {W} (c : cmd W) : Prop :=
  match c with
  | EXEC _ => True
  | REDIR c _ _ fd => (fd = 0 ∨ fd = 1) ∧ redirs_01 c
  | LIST l r | PIPE l r => redirs_01 l ∧ redirs_01 r
  | BACK c => redirs_01 c
  end.
Lemma redirs_01_map {W W'} (f : W → W') (c : cmd W) : redirs_01 c → redirs_01 (cmd_map f c).
Proof. induction c; simpl; tauto. Qed.
Lemma redirs_01_std (c : cmd (list Z)) : redirs_01 c → redirs_std c.
Proof. induction c; simpl; intuition lia. Qed.

(** What holds of every value a routine returns. *)
Definition yields {A} (P : A → Prop) (m : M nat A) : Prop := ∀ s a s', m s = Ok a s' → P a.
Lemma yields_ret {A} (P : A → Prop) a : P a → yields P (ret a).
Proof. by intros HP s a' s' [= <- _]. Qed.
Lemma yields_panic {A} (P : A → Prop) msg : yields P (panic msg).
Proof. by intros s a s'. Qed.
Lemma yields_fuel {A} (P : A → Prop) : yields P out_of_fuel.
Proof. by intros s a s'. Qed.
Lemma yields_call {A B} (P : A → Prop) (Q : B → Prop) (m : M nat A) f :
  yields P m → (∀ a, P a → yields Q (f a)) → yields Q (bind m f).
Proof.
  intros Hm Hf s b s'. unfold bind. destruct (m s) as [a s1| | | | |] eqn:Hms; simpl; try done. by apply Hf, (Hm s a s1).
Qed.
Lemma yields_any {A B} (Q : B → Prop) (m : M nat A) f : (∀ a, yields Q (f a)) → yields Q (bind m f).
Proof. intros Hf. by apply (yields_call (λ _, True)); [done|]. Qed.
Ltac yield := first [apply yields_panic | apply yields_fuel | apply yields_ret | apply yields_any; intros ?].

Notation good := (yields redirs_01).
Lemma parseredirs_01 n : ∀ c, redirs_01 c → good (parseredirs buf n c).
Proof.
  induction n as [|n IH]; intros c Hc; cbn [parseredirs]; yield; (destruct a; [|by yield]); [yield|].
  yield. destruct a as [tok w0]. yield. destruct a as [t w]. destruct (negb _); [yield|].
  apply IH. repeat destruct (_ =? _); simpl; auto.
Qed.
Lemma add_arg_01 c w : redirs_01 c → redirs_01 (add_arg c w).
Proof. induction c; simpl; tauto. Qed.
Lemma parseargs_01 n : ∀ c argc, redirs_01 c → good (parseargs buf n c argc).
Proof.
  induction n as [|n IH]; intros c argc Hc; cbn [parseargs]; yield; (destruct a; [by yield|]); [yield|].
  yield. destruct a as [tok w]. destruct (tok =? 0); [by yield|]. destruct (negb _); [yield|].
  destruct (MAXARGS <=? _); [yield|]. eapply yields_call; [by apply parseredirs_01, add_arg_01|]. intros c' Hc'. by apply IH.
Qed.
Lemma back_loop_01 n : ∀ c, redirs_01 c → good (back_loop buf n c).
Proof.
  induction n as [|n IH]; intros c Hc; cbn [back_loop]; yield; (destruct a; [|by yield]); [yield|]. yield. by apply IH.
Qed.
Lemma parseexec_01 line : good line → good (parseexec buf line).
Proof.
  intros Hline. unfold parseexec. yield. destruct a.
  - unfold parseblock. yield. destruct (negb _); [yield|]. yield. eapply yields_call; [done|]. intros c Hc.
    yield. destruct (negb _); [yield|]. yield. by apply parseredirs_01.
  - eapply yields_call; [by apply parseredirs_01|]. intros c Hc. by apply parseargs_01.
Qed.
Lemma parsepipe_01 n line : good line → good (parsepipe buf n line).
Proof.
  intros Hline. induction n as [|n IH]; cbn [parsepipe]; [yield|].
  eapply yields_call; [by apply parseexec_01|]. intros c Hc. yield. destruct a; [|by yield]. yield.
  eapply yields_call; [done|]. intros r Hr. by yield.
Qed.
Lemma parseline_01 n : good (parseline buf n).
Proof.
  induction n as [|n IH]; cbn [parseline]; [yield|].
  eapply yields_call; [by apply parsepipe_01|]. intros c Hc.
  eapply yields_call; [by apply back_loop_01|]. intros c' Hc'. yield. destruct a; [|by yield]. yield.
  eapply yields_call; [done|]. intros r Hr. by yield.
Qed.
Lemma parsecmd_01 : yields (λ r, redirs_01 (fst r)) (parsecmd buf).
Proof.
  eapply yields_call; [apply parseline_01|]. intros c Hc. do 2 yield. destruct (negb _); [yield|]. by yield.
Qed.
End line.

(** The job of a line; nothing is run of a line with a syntax error. *)
Definition line_job (T : gmap Z obj) (nm : list nat) (buf : list Z) : option job :=
  match parsecmd (cstr buf) O with
  | Ok (c, b) _ => Some (jobs nm 0 T (cmd_map (string_at b) c))
  | Panic _ => Some Done
  | _ => None
  end.

Lemma rel_run_line T nm buf : std_open T → ∃ j, line_job T nm buf = Some j ∧ rel (start T nm (run_line buf)) j.
Proof.
  intros HT. pose proof (parsecmd_exits (cstr buf)) as Hex. pose proof (parsecmd_01 (cstr buf) O) as H01.
  unfold line_job, run_line, exits_or in *. destruct (parsecmd (cstr buf) O) as [[c b] s|msg| | | |]; try done.
  - eexists. split; [done|]. apply rel_runcmd; [done|]. by apply redirs_01_std, redirs_01_map, (H01 (c, b) s).
  - exists Done. split; [done|]. apply rel_ends.
    destruct (leftovers (cstr buf) O) as [[rest|] ?| | | | |]; try apply waits_panic. apply waits_fprintf, waits_panic.
Qed.
