(* ===== verification/ShMain.v ===== *)
(** The command loop of the shell (user/sh.c): the lines of the input are run one
    after the other, each to its end before the next.

    [feed] gives a program its standard input, for an input nobody else reads: what
    becomes of the reads of the process itself; its children are left as they are. *)

From Stdlib Require Import Ascii.
From S2P Require Import Prelude CString Printf Sh ShRun ShJobs ShLine.
Local Open Scope Z_scope.

Fixpoint feed (input : list Z) (p : prog) : prog :=
  match p with
  | Exit st => Exit st
  | Close fd k => Close fd (λ r, feed input (k r))
  | Open f m k => Open f m (λ r, feed input (k r))
  | Dup fd k => Dup fd (λ r, feed input (k r))
  | Pipe k => Pipe (λ r, feed input (k r))
  | Fork k => Fork (λ r, if r =? 0 then k 0 else feed input (k r))
  | Wait k => Wait (λ r, feed input (k r))
  | Exec f argv k => Exec f argv (λ r, feed input (k r))
  | Chdir f k => Chdir f (λ r, feed input (k r))
  | Read fd n k => feed (drop n input) (k (Some (take n input)))
  | Write fd bs k => Write fd bs (λ r, feed input (k r))
  end.

(** * What the loop means *)

(** The first line of the input, of at most [n] bytes, and what follows it. *)
Fixpoint take_line (n : nat) (input : list Z) : list Z * list Z :=
  match n, input with
  | S n, c :: input =>
      if (c =? 10) || (c =? 13) then ([c], input) else
      let '(l, rest) := take_line n input in (c :: l, rest)
  | _, _ => ([], input)
  end.
Definition is_cd (line : list Z) : bool := bool_decide (take 3 line = lit "cd ").
(** The job of at most [n] lines of the input: the shell ends at the end of it or
    at a line that starts with a NUL, changes its directory itself, and waits for
    every other line. *)
Fixpoint shell_job (n : nat) (nm : list nat) (count : nat) (T : gmap Z obj) (input : list Z) : job :=
  match n with
  | O => Done
  | S n =>
      let '(line, rest) := take_line 999 input in
      if nth 0 line 0 =? 0 then Done
      else if is_cd line then shell_job n nm count T rest
      else Seq (default Done (line_job T (nm ++ [count]) line)) (shell_job n nm (S count) T rest)
  end.

Section shell.
Implicit Types (T : gmap Z obj) (nm : list nat) (c n : nat) (input line : list Z).

Lemma feed_fprintf input fd bs p : feed input (fprintf fd bs p) = foldr (λ b q, Write fd [b] (λ _, q)) (feed input p) bs.
Proof. induction bs as [|b bs IH]; [done|]. simpl. by rewrite IH. Qed.
Lemma waits_feed T k input p : waits T k p → waits T k (feed input p).
Proof.
  induction 1 as [T k p T' p' Hl _ IH|T k kw _ IH|]; [|by constructor|constructor].
  destruct p as [|fd kk| |fd kk| | | | | | |fd bs kk]; simplify_eq/=; [by eapply waits_local| |by eapply waits_local].
  eapply waits_local; [|exact IH]. simpl. by destruct (T !! fd), (lowest T); simplify_eq/=.
Qed.

(** [gets] reads the line. *)
Lemma feed_gets n : ∀ acc k input,
  feed input (gets n acc k) = feed (snd (take_line n input)) (k (acc ++ fst (take_line n input))).
Proof.
  induction n as [|n IH]; intros acc k input; simpl; [by rewrite app_nil_r|].
  destruct input as [|c input]; simpl; [by rewrite app_nil_r|]. rewrite drop_0.
  destruct ((c =? 10) || (c =? 13)); [done|]. rewrite IH. destruct (take_line n input) as [l rest]. simpl.
  by rewrite <- app_assoc.
Qed.

Lemma is_cd_spec line :
  (nth 0 line 0 =? ch "c"%char) && (nth 1 line 0 =? ch "d"%char) && (nth 2 line 0 =? ch " "%char) = is_cd line.
Proof.
  unfold is_cd. change (lit "cd ") with [99; 100; 32]. change (ch "c"%char) with 99. change (ch "d"%char) with 100.
  change (ch " "%char) with 32.
  apply eq_true_iff_eq. rewrite !andb_true_iff, !Z.eqb_eq, bool_decide_eq_true.
  destruct line as [|x [|y [|z line]]]; simpl; rewrite ?take_0; (split; [intros [[? ?] ?]|intros ?]); by simplify_eq/=.
Qed.

Lemma line_unstarted T nm line j : line_job T nm line = Some j → unstarted j.
Proof.
  unfold line_job. destruct (parsecmd _ _) as [[? ?]| | | | |]; intros Hj; simplify_eq; [apply jobs_unstarted|done].
Qed.
Lemma shell_unstarted n : ∀ nm c T input, unstarted (shell_job n nm c T input).
Proof.
  induction n as [|n IH]; intros nm c T input; [done|]. cbn [shell_job]. destruct (take_line 999 input) as [line rest].
  destruct (nth 0 line 0 =? 0); [done|]. destruct (is_cd line); [done|]. split; [|done].
  destruct (line_job _ _ _) eqn:Hj; [by eapply line_unstarted|done].
Qed.

(** Writing a message goes on to the rest. *)
Lemma rel_message T nm c bs p j : rel (Node T nm c (Run p) []) j →
  rel (Node T nm c (Run (foldr (λ b q, Write 2 [b] (λ _, q)) p bs)) []) j.
Proof. intros Hp. induction bs as [|b bs IH]; [done|]. by eapply rel_local. Qed.

Lemma rel_main n : ∀ T nm c input, std_open T →
  rel (Node T nm c (Run (feed input (main_loop n (Exit 0)))) []) (shell_job n nm c T input).
Proof.
  induction n as [|n IH]; intros T nm c input HT; [apply rel_ends, waits_exit|].
  cbn [main_loop shell_job]. unfold getcmd. eapply rel_local; [reflexivity|]. cbv beta.
  change (1000 - 1)%nat with 999%nat. rewrite feed_gets. cbn [app].
  destruct (take_line 999 input) as [line rest]. cbn [fst snd].
  destruct (nth 0 line 0 =? 0); [apply rel_ends, waits_exit|]. rewrite is_cd_spec.
  destruct (is_cd line).
  - cbn [feed]. apply rel_chdir. intros r. destruct (r <? 0); [|by apply IH].
    rewrite feed_fprintf. by apply rel_message, IH.
  - destruct (rel_run_line T (nm ++ [c]) line HT) as (jl & Hline & Hjl). rewrite Hline. unfold fork1. cbn [feed default].
    apply (rel_seq _ _ _ _ (λ _ _, feed rest (main_loop n (Exit 0)))).
    + exact Hjl.
    + intros pid Hpid. by rewrite (proj2 (Z.eqb_neq pid 0)), (proj2 (Z.eqb_neq pid (-1))) by lia.
    + intros. by apply IH.
    + apply (waits_feed _ _ _ (sh_panic (lit "fork"))), waits_panic.
    + split; [|apply shell_unstarted]. by eapply line_unstarted.
Qed.
(** C4: the shell runs its input: in whatever order its processes take their steps, what
    is started (each program with its arguments and exactly its descriptors: no
    end of a pipe is left open), what ends and what fails are those of a run of the
    jobs of the lines, parsed and run one after the other, in the same order; and
    when all processes have ended so has the job. *)
Theorem shell_refines n T nm input tr ts :
  std_open T → runs step [start T nm (feed input (main_loop n (Exit 0)))] tr ts →
  ∃ tr' js, runs jstep [shell_job n nm 0 T input] tr' js ∧ shown tr' = shown tr ∧
    Forall2 (λ t j, ended t → j = Done) ts js.
Proof.
  intros HT Hr. destruct (match_runs _ _ _ Hr [shell_job n nm 0 T input]) as (tr' & js & H1 & H2 & H3).
  { constructor; [by apply rel_main|done]. }
  exists tr', js. split_and!; [done..|]. by eapply Forall2_impl; [|apply rel_ended].
Qed.
End shell.

(** One line. *)
Definition shell_trace : list event := [Tau; Tau; Start [lit "a"] demo_fds; Stop [lit "a"] demo_fds; Tau; Tau].
Lemma shell_run :
  runs step [start demo_fds [] (feed (lit "a" ++ [10]) (main_loop 1 (Exit 0)))] shell_trace [Node ∅ [] 1 Zombie []].
Proof.
  let p := eval vm_compute in (feed (lit "a" ++ [10]) (main_loop 1 (Exit 0))) in
  assert (feed (lit "a" ++ [10]) (main_loop 1 (Exit 0)) = p) as -> by (vm_compute; reflexivity).
  eapply (runs_step _ [] _ [] _ _ []); [by apply step_local|].
  eapply (runs_step _ [] _ [] _ _ []); [by apply (step_fork _ _ _ _ _ 7)|].
  eapply (runs_step _ [] _ [] _ _ []); [eapply (step_child _ _ _ _ _ 0%nat); [done|]; apply step_exec|].
  eapply (runs_step _ [] _ [] _ _ []); [eapply (step_child _ _ _ _ _ 0%nat); [done|]; apply step_stop|].
  eapply (runs_step _ [] _ [] _ _ []); [by apply (step_wait _ _ _ _ _ 0%nat ∅ [0%nat] 0 7)|].
  eapply (runs_step _ [] _ [] _ _ []); [apply step_exit|]. constructor.
Qed.
Lemma shell_refines_witness :
  ∃ tr' js, runs jstep [shell_job 1 [] 0 demo_fds (lit "a" ++ [10])] tr' js ∧ shown tr' = shown shell_trace ∧
    Forall2 (λ t j, ended t → j = Done) [Node ∅ [] 1 Zombie []] js.
Proof. apply (shell_refines 1 demo_fds [] (lit "a" ++ [10]) shell_trace); [apply demo_std|apply shell_run]. Defined.
