(* ===== verification/Wc.v ===== *)
(** Counting lines, words and bytes (user/wc.c).

    The counters run over the bytes as the reads return them; they are proved to be
    the numbers of the whole file, however the reads cut it up, and what is printed
    to be these numbers. *)

From Stdlib Require Import Ascii.
From S2P Require Import Prelude Printf Ulib.
Local Open Scope Z_scope.

(** [strchr(" \r\t\n\v", c)] is not null. *)
Definition blank (c : Z) : bool := bool_decide (c ∈ [32; 13; 9; 10; 11]).

(** The counters and [inword]. *)
Record counts := Counts { cl : Z; cw : Z; cc : Z; inword : bool }.
Definition wc_byte (k : counts) (c : Z) : counts :=
  let c1 := s32 (cc k + 1) in
  let l1 := if c =? 10 then s32 (cl k + 1) else cl k in
  if blank c then Counts l1 (cw k) c1 false
  else if negb (inword k) then Counts l1 (s32 (cw k + 1)) c1 true
  else Counts l1 (cw k) c1 (inword k).
Definition wc_bytes (k : counts) (b : list Z) : counts := foldl wc_byte k b.

Section wc.
Context {St : Type} `{Sys St}.

Definition uprintf (fmt : list Z) (ap : list va) : M St unit := vprintf (uputc 1) fmt ap.

Fixpoint wc_loop (fuel : nat) (fd : Z) (k : counts) : M St (outcome counts) :=
  let! r := u_read fd 512 in
  match r with
  | Some [] => ret (Value k)
  | None => uprintf (lit "wc: read error" ++ [10]) [];;; ret (Exited 1)
  | Some b =>
      match fuel with
      | O => out_of_fuel
      | S fuel => wc_loop fuel fd (wc_bytes k b)
      end
  end.
Definition wc (fuel : nat) (fd : Z) (name : list Z) (linesonly : bool) : M St (outcome unit) :=
  let? k := wc_loop fuel fd (Counts 0 0 0 false) in
  (if linesonly then uprintf (lit "%d %s" ++ [10]) [VInt (cl k); VStr (Some name)]
   else uprintf (lit "%d %d %d %s" ++ [10]) [VInt (cl k); VInt (cw k); VInt (cc k); VStr (Some name)]);;;
  ret (Value tt).

Fixpoint wc_files (fuel : nat) (linesonly : bool) (args : list (list Z)) : M St (outcome unit) :=
  match args with
  | [] => ret (Exited 0)
  | a :: args =>
      let! fd := u_open a 0 in
      if fd <? 0 then uprintf (lit "wc: cannot open %s" ++ [10]) [VStr (Some a)];;; ret (Exited 1) else
      let? _ := wc fuel fd a linesonly in
      let! _ := u_close fd in
      wc_files fuel linesonly args
  end.
(** A string is the list of its bytes before the NUL. *)
Definition wc_main (fuel : nat) (argv : list (list Z)) : M St (outcome unit) :=
  match argv with
  | [] | [_] => let? _ := wc fuel 0 [] false in ret (Exited 0)
  | _ :: a :: args =>
      let linesonly := (nth 0 a 0 =? ch "-"%char) && (nth 1 a 0 =? ch "l"%char) in
      if linesonly && Nat.eqb (length argv) 2 then let? _ := wc fuel 0 [] linesonly in ret (Exited 0) else
      wc_files fuel linesonly (if linesonly then args else a :: args)
  end.
End wc.

(** * The numbers of a text *)

Definition lines (s : list Z) : Z := Z.of_nat (length (filter (λ c, c = 10) s)).
(** A word starts at a byte that is not blank after one that is, or at the start. *)
Definition words (s : list Z) : Z :=
  Z.of_nat (length (filter (λ p, blank p.1 = true ∧ blank p.2 = false) (zip (32 :: s) s))).
(** [bs] is [x] in decimal. *)
Definition decimal (x : Z) (bs : list Z) : Prop :=
  ∃ vs, bs = digit udigits <$> vs ∧ Forall (λ v, 0 ≤ v < 10) vs ∧ vs ≠ [] ∧ digits_value 10 vs = x.

Section text.
Implicit Types (s t b : list Z).

Definition counted s : counts :=
  Counts (lines s) (words s) (Z.of_nat (length s)) (negb (blank (default 32 (last s)))).

Lemma lines_snoc s c : lines (s ++ [c]) = lines s + (if c =? 10 then 1 else 0).
Proof.
  unfold lines. rewrite filter_app, length_app, filter_cons, filter_nil.
  destruct (Z.eqb_spec c 10); [rewrite decide_True by done|rewrite decide_False by done]; simpl; lia.
Qed.
Lemma zip_snoc s c : zip (32 :: s ++ [c]) (s ++ [c]) = zip (32 :: s) s ++ [(default 32 (last s), c)].
Proof.
  assert (∀ x, zip (x :: s ++ [c]) (s ++ [c]) = zip (x :: s) s ++ [(default x (last s), c)]) as Hx; [|apply Hx].
  induction s as [|y s IH]; intros x; [done|]. simpl. f_equal. etrans; [apply IH|]. f_equal. f_equal. f_equal.
  rewrite last_cons. by destruct (last s).
Qed.
Lemma words_snoc s c :
  words (s ++ [c]) = words s + (if blank (default 32 (last s)) && negb (blank c) then 1 else 0).
Proof.
  unfold words. rewrite zip_snoc, filter_app, length_app, filter_cons, filter_nil.
  set (p := default 32 (last s)). cbn [fst snd].
  destruct (decide (blank p = true ∧ blank c = false)) as [[-> ->]|Hn]; simpl; [lia|].
  destruct (blank p), (blank c); simpl; try lia; by destruct Hn.
Qed.
Lemma words_bound s : 0 ≤ words s ≤ Z.of_nat (length s).
Proof.
  unfold words. split; [lia|]. apply Nat2Z.inj_le. etrans; [apply length_filter|].
  rewrite length_zip_with. apply Nat.le_min_r.
Qed.
Lemma lines_bound s : 0 ≤ lines s ≤ Z.of_nat (length s).
Proof. unfold lines. split; [lia|]. apply Nat2Z.inj_le, length_filter. Qed.

(** The counters after a prefix of the text. *)
Lemma wc_byte_counted s c : Z.of_nat (length s) + 1 < 2 ^ 31 → wc_byte (counted s) c = counted (s ++ [c]).
Proof.
  intros Hl. pose proof (words_bound s). pose proof (lines_bound s).
  unfold wc_byte, counted; cbn [cl cw cc inword]. rewrite lines_snoc, words_snoc, length_app, last_snoc, negb_involutive.
  simpl length. change (default 32 (Some c)) with c. rewrite !s32_small by lia.
  destruct (c =? 10), (blank c), (blank _); simpl; rewrite ?s32_small by lia; f_equal; lia.
Qed.
Lemma wc_bytes_counted b : ∀ s, Z.of_nat (length (s ++ b)) < 2 ^ 31 → wc_bytes (counted s) b = counted (s ++ b).
Proof.
  unfold wc_bytes. induction b as [|c b IH]; intros s Hl; simpl; [by rewrite app_nil_r|].
  rewrite length_app in Hl. simpl in Hl. rewrite wc_byte_counted by lia.
  rewrite IH, <- app_assoc; [done|]. rewrite !length_app. simpl. lia.
Qed.
End text.

(** * What is printed *)

#[export] Instance uputc_appends : Appends (St:=world) (uputc 1).
Proof.
  refine {| output := out_of 1; emit := written |}.
  - intros cs s. apply out_written.
  - intros cs cs' s. apply written_app.
  - apply written_none.
  - intros c s. unfold written. by rewrite decide_False.
Defined.

Section counting.
Implicit Types (s : list Z) (w : world).

Lemma print_decimal x w : 0 ≤ x < 2 ^ 31 →
  ∃ bs, decimal x bs ∧ uprintint (uputc 1) x 10 true w = Ok tt (written bs w).
Proof.
  intros Hx. destruct (uprintint_number (uputc 1) x 10 w) as (vs & Hp & Hvs & Hne & Hv); [by left|lia|].
  exists (digit udigits <$> vs). split; [exists vs; split_and!; [done..|]; lia|].
  rewrite Hp. by rewrite (proj2 (Z.ltb_ge x 0)) by lia.
Qed.

Lemma wc_loop_spec fuel : ∀ fd s0 s w, w_fds w !! fd = Some s → (length s ≤ fuel)%nat → Z.of_nat (length (s0 ++ s)) < 2 ^ 31 →
  returns (wc_loop fuel fd (counted s0)) (λ r w', r = Value (counted (s0 ++ s)) ∧ w_out w' = w_out w) w.
Proof.
  induction fuel as [|fuel IH]; intros fd s0 s w Hfd Hl Hs; cbn [wc_loop]; apply wp_bind;
    (eapply wp_ok; [simpl; rewrite Hfd; reflexivity|]);
    set (b := short_read 512 (hd 0%nat (w_sizes w)) s);
    destruct (short_read_prefix 512 (hd 0%nat (w_sizes w)) s) as (s' & Hss & Hs'); fold b in Hss, Hs';
    (destruct b as [|c b'] eqn:Hb; [apply short_read_nil in Hb as [->|?]; [|done]; apply wp_ret; by rewrite app_nil_r|]).
  - rewrite Hss in Hl. simpl in Hl. lia.
  - rewrite <- Hs'. rewrite Hss in Hs, Hl |- *. rewrite app_assoc in Hs |- *. rewrite length_app in Hl. simpl in Hl.
    rewrite wc_bytes_counted by (rewrite length_app in Hs; lia).
    eapply wp_mono; [apply (IH fd (s0 ++ c :: b') s'); [apply lookup_insert_eq|lia|done]|].
    intros r w' [-> ->]. done.
Qed.

#[local] Opaque uprintint put_all.
Lemma print_lines x name w : 0 ≤ x < 2 ^ 31 →
  ∃ d, decimal x d ∧ uprintf (lit "%d %s" ++ [10]) [VInt x; VStr (Some name)] w = Ok tt (written (d ++ [32] ++ name ++ [10]) w).
Proof.
  intros Hx. destruct (print_decimal x w Hx) as (d & Hd & Hp). exists d. split; [done|].
  unfold uprintf, vprintf. simpl. rewrite (bind_Ok _ _ _ _ _ Hp).
  rewrite (bind_Ok _ _ _ _ _ (putc_emit _ _)), (bind_Ok _ _ _ _ _ (put_all_emit _ _ _)), (bind_Ok _ _ _ _ _ (putc_emit _ _)).
  simpl. unfold ret. rewrite !written_app. by rewrite <- ?app_assoc.
Qed.
Lemma print_all x y z name w : 0 ≤ x < 2 ^ 31 → 0 ≤ y < 2 ^ 31 → 0 ≤ z < 2 ^ 31 →
  ∃ dx dy dz, decimal x dx ∧ decimal y dy ∧ decimal z dz ∧
    uprintf (lit "%d %d %d %s" ++ [10]) [VInt x; VInt y; VInt z; VStr (Some name)] w =
    Ok tt (written ((dx ++ [32] ++ dy ++ [32] ++ dz) ++ [32] ++ name ++ [10]) w).
Proof.
  intros Hx Hy Hz. destruct (print_decimal x w Hx) as (dx & Hdx & Hp).
  destruct (print_decimal y (written (dx ++ [32]) w) Hy) as (dy & Hdy & Hq).
  destruct (print_decimal z (written (dx ++ [32] ++ dy ++ [32]) w) Hz) as (dz & Hdz & Hr).
  exists dx, dy, dz. split_and!; [done..|]. unfold uprintf, vprintf. simpl. rewrite (bind_Ok _ _ _ _ _ Hp).
  rewrite (bind_Ok _ _ _ _ _ (putc_emit _ _)). simpl. rewrite written_app, (bind_Ok _ _ _ _ _ Hq).
  rewrite (bind_Ok _ _ _ _ _ (putc_emit _ _)). simpl. rewrite !written_app, <- !app_assoc.
  rewrite (bind_Ok _ _ _ _ _ Hr).
  rewrite (bind_Ok _ _ _ _ _ (putc_emit _ _)), (bind_Ok _ _ _ _ _ (put_all_emit _ _ _)), (bind_Ok _ _ _ _ _ (putc_emit _ _)).
  simpl. unfold ret. rewrite !written_app. rewrite <- ?app_assoc. simpl. by rewrite <- ?app_assoc.
Qed.

(** C28: [wc] prints the numbers of lines, words and bytes of its input, in decimal and
    followed by the name, or only the number of lines; however the reads cut up
    the input, if it has less than 2^31 bytes. *)
Theorem wc_counts fuel fd name linesonly s w :
  w_fds w !! fd = Some s → (length s ≤ fuel)%nat → Z.of_nat (length s) < 2 ^ 31 →
  returns (wc fuel fd name linesonly) (λ r w', r = Value tt ∧ ∃ dl dw dc,
    decimal (lines s) dl ∧ decimal (words s) dw ∧ decimal (Z.of_nat (length s)) dc ∧
    out_of 1 w' = out_of 1 w ++
      (if linesonly then dl else dl ++ [32] ++ dw ++ [32] ++ dc) ++ [32] ++ name ++ [10]) w.
Proof.
  intros Hfd Hf Hl. pose proof (lines_bound s). pose proof (words_bound s).
  eapply wp_obind; [by apply (wc_loop_spec fuel fd [] s)|intros ? ? []; done|].
  cbn beta. intros k w1 [[= ->] Hw1]. cbn [app counted cl cw cc].
  assert (∀ o, out_of 1 (written o w1) = out_of 1 w ++ o) as Ho.
  { intros o. rewrite out_written. unfold out_of. by rewrite Hw1. }
  destruct (print_all (lines s) (words s) (Z.of_nat (length s)) name w1) as (dl & dw & dc & Hdl & Hdw & Hdc & Hp); [lia..|].
  destruct linesonly; apply wp_bind.
  - destruct (print_lines (lines s) name w1) as (dl' & Hdl' & Hp'); [lia|]. eapply wp_ok; [exact Hp'|].
    apply wp_ret. split; [done|]. exists dl', dw, dc. by rewrite Ho.
  - eapply wp_ok; [exact Hp|]. apply wp_ret. split; [done|]. exists dl, dw, dc. by rewrite Ho.
Qed.
End counting.

(** Two lines, read in pieces. *)
Definition wc_text : list Z := lit "ab  c" ++ [10] ++ lit "d" ++ [10].
Definition wc_world : world := World ∅ {[0 := wc_text]} [510; 509; 511]%nat ∅.
Example wc_demo : (λ r, match r with Ok _ w => out_of 1 w | _ => [] end) (wc 20 0 (lit "f") false wc_world) = lit "2 3 8 f" ++ [10].
Proof. vm_compute. reflexivity. Qed.
Lemma wc_counts_witness :
  returns (wc 20 0 (lit "f") false) (λ r w', r = Value tt ∧ ∃ dl dw dc,
    decimal 2 dl ∧ decimal 3 dw ∧ decimal 8 dc ∧
    out_of 1 w' = (dl ++ [32] ++ dw ++ [32] ++ dc) ++ [32] ++ lit "f" ++ [10]) wc_world.
Proof. apply (wc_counts 20 0 (lit "f") false wc_text wc_world); [reflexivity|vm_compute; lia|reflexivity]. Defined.
