(* ===== verification/Cat.v ===== *)
(** Printing files line by line (user/cat.c).

    [buf] is the static buffer, which keeps what earlier lines have left in it.  The
    program copies a text whose lines fit in the buffer and all end in a newline;
    after a last line without one it prints a byte of the buffer that is not
    part of the text. *)

From Stdlib Require Import Ascii.
From S2P Require Import Prelude Printf Ulib.
Local Open Scope Z_scope.

Definition BUFSIZE : nat := 512.
Definition NUMSIZE : nat := 6.
Definition NUMWIDTH : nat := NUMSIZE + 2.

(** The digits of [value], lowest first, in an array of 32 bytes. *)
Fixpoint int_digits (fuel : nat) (value : Z) : list Z :=
  match fuel with
  | O => []
  | S fuel => if value =? 0 then [] else (48 + Z.rem value 10) :: int_digits fuel (Z.quot value 10)
  end.
Definition int_to_str (value : Z) : list Z :=
  let tmp := if value =? 0 then [48] else int_digits 32 value in
  replicate (NUMSIZE - length tmp) 32 ++ reverse tmp ++ [32; 32].

Section cat.
Context {St : Type} `{Sys St}.

(** [fprintf(2, ...)] of the user library writes a byte at a time. *)
Definition eputs (s : list Z) : M St unit := put_all (uputc 2) s.

(** The last result of [read], [i] and the buffer; [fuel] is what is left of
    [maxlen - 1]. *)
Fixpoint readline_loop (fuel : nat) (fd : Z) (buf : list Z) (i : nat) : M St (outcome (Z * nat * list Z)) :=
  match fuel with
  | O => eputs (lit "readline() - line too long" ++ [10]);;; ret (Exited (-1))
  | S fuel =>
      let! r := u_read fd 1 in
      match r with
      | None => ret (Value (-1, i, buf))
      | Some [] => ret (Value (0, i, buf))
      | Some (c :: _) =>
          let buf := <[i := c]> buf in
          if c =? 10 then ret (Value (1, i, buf)) else readline_loop fuel fd buf (S i)
      end
  end.
(** The value and the buffer. *)
Definition readline (fd : Z) (buf : list Z) (maxlen : nat) : M St (outcome (Z * list Z)) :=
  let? r := readline_loop (maxlen - 1) fd buf 0 in
  let '(n, i, buf) := r in
  if ((n =? 0) && Nat.eqb i 0) || (n <? 0) then ret (Value (n, buf)) else
  ret (Value (Z.of_nat (S i), <[S i := 0]> buf)).

Definition write_all (s : list Z) : M St (outcome unit) :=
  let! n := u_write 1 s in
  if negb (n =? Z.of_nat (length s)) then eputs (lit "cat: write error" ++ [10]);;; ret (Exited 1) else ret (Value tt).

Fixpoint cat_loop (fuel : nat) (fd : Z) (linenums : bool) (buf : list Z) (i : Z) : M St (outcome (list Z)) :=
  let? r := readline fd buf BUFSIZE in
  let '(n, buf) := r in
  if 0 <? n then
    match fuel with
    | O => out_of_fuel
    | S fuel =>
        let? _ := (if linenums then write_all (take NUMWIDTH (int_to_str i)) else ret (Value tt)) in
        let? _ := write_all (take (Z.to_nat n) buf) in
        cat_loop fuel fd linenums buf (s32 (i + 1))
    end
  else if n <? 0 then eputs (lit "cat: read error" ++ [10]);;; ret (Exited 1)
  else ret (Value buf).
Definition cat (fuel : nat) (fd : Z) (linenums : bool) (buf : list Z) : M St (outcome (list Z)) :=
  cat_loop fuel fd linenums buf 1.

Fixpoint cat_files (fuel : nat) (linenums : bool) (buf : list Z) (args : list (list Z)) : M St (outcome unit) :=
  match args with
  | [] => ret (Exited 0)
  | a :: args =>
      let! fd := u_open a 0 in
      if fd <? 0 then eputs (lit "cat: cannot open " ++ a ++ [10]);;; ret (Exited 1) else
      let? buf := cat fuel fd linenums buf in
      let! _ := u_close fd in
      cat_files fuel linenums buf args
  end.
Definition cat_main (fuel : nat) (argv : list (list Z)) : M St (outcome unit) :=
  let buf := replicate BUFSIZE 0 in
  match argv with
  | [] | [_] => let? _ := cat fuel 0 false buf in ret (Exited 0)
  | _ :: a :: args =>
      let linenums := (nth 0 a 0 =? ch "-"%char) && (nth 1 a 0 =? ch "n"%char) in
      if linenums && Nat.eqb (length argv) 2 then let? _ := cat fuel 0 linenums buf in ret (Exited 0) else
      cat_files fuel linenums buf (if linenums then args else a :: args)
  end.
End cat.

(** * What is printed *)

(** The buffer after the line [l] and what ends it. *)
Definition leaves (l : list Z) (buf : list Z) : list Z := l ++ 0 :: drop (S (length l)) buf.
Definition number (linenums : bool) (i : Z) : list Z := if linenums then take NUMWIDTH (int_to_str i) else [].
(** The lines [ls] with their newlines, numbered from [i], and then the last line
    [t] without one, after which a byte of the buffer follows. *)
Fixpoint printed (linenums : bool) (buf : list Z) (i : Z) (ls : list (list Z)) (t : list Z) : list Z :=
  match ls with
  | [] => match t with [] => [] | _ => number linenums i ++ t ++ [nth (length t) buf 0] end
  | l :: ls => number linenums i ++ l ++ [10] ++ printed linenums (leaves (l ++ [10]) buf) (s32 (i + 1)) ls t
  end.
Definition cat_line (l : list Z) : Prop := 10 ∉ l ∧ (length l < 511)%nat.
Definition cat_text (ls : list (list Z)) (t : list Z) : list Z := mjoin ((λ l, l ++ [10]) <$> ls) ++ t.

Section printing.
Implicit Types (fd : Z) (l t s buf : list Z) (w : world).

Definition reads (fd : Z) s w w' : Prop := w_fds w' !! fd = Some s ∧ w_out w' = w_out w.

Lemma read_byte fd s w : w_fds w !! fd = Some s →
  ∃ w', u_read fd 1 w = Ok (Some (take 1 s)) w' ∧ reads fd (drop 1 s) w w'.
Proof.
  intros Hfd. simpl. rewrite Hfd. unfold short_read. rewrite Nat.min_l by lia. eexists. split; [reflexivity|].
  split; [|done]. cbn [w_fds]. rewrite lookup_insert_eq. by destruct s.
Qed.
Lemma reads_trans fd s1 s2 w w1 w2 : reads fd s1 w w1 → reads fd s2 w1 w2 → reads fd s2 w w2.
Proof. intros [_ H1] [H2 H3]. split; [done|by rewrite H3]. Qed.

(** The bytes up to a newline, or all there are, go to the buffer. *)
Lemma readline_loop_spec l : ∀ fuel fd pre old nl rest w,
  10 ∉ l → (length l < fuel)%nat → (length l < length old)%nat →
  (nl = true ∨ rest = []) → w_fds w !! fd = Some (l ++ if nl then 10 :: rest else []) →
  returns (readline_loop fuel fd (pre ++ old) (length pre))
    (λ r w', r = Value (if nl : bool then 1 else 0, (length pre + length l)%nat, pre ++ l ++ if nl then 10 :: drop (S (length l)) old else drop (length l) old) ∧
       reads fd rest w w') w.
Proof.
  induction l as [|c l IH]; intros [|fuel] fd pre old nl rest w Hl Hf Ho Hnl Hfd; simpl in Hf; try lia;
    cbn [readline_loop]; destruct (read_byte _ _ _ Hfd) as (w1 & Hr & Hw1); (eapply wp_bind, wp_ok; [exact Hr|]).
  - rewrite Nat.add_0_r. destruct nl; simpl in Hr, Hw1 |- *.
    + apply wp_ret. split; [|done]. destruct old as [|x old]; [simpl in Ho; lia|].
      by rewrite <- (Nat.add_0_r (length pre)), insert_app_r, Nat.add_0_r.
    + destruct Hnl as [|Hnl]; [done|]. rewrite Hnl. by apply wp_ret.
  - rewrite not_elem_of_cons in Hl. destruct Hl as [Hc Hl]. simpl in Hw1 |- *.
    rewrite (proj2 (Z.eqb_neq c 10)) by done. destruct old as [|x old]; [simpl in Ho; lia|].
    rewrite <- (Nat.add_0_r (length pre)) at 1. rewrite insert_app_r. simpl.
    replace (pre ++ c :: old) with ((pre ++ [c]) ++ old) by by rewrite <- app_assoc.
    replace (S (length pre)) with (length (pre ++ [c])) by (rewrite length_app; simpl; lia).
    eapply wp_mono; [apply (IH fuel fd (pre ++ [c]) old nl rest w1); [done|simpl in *; lia..|done|]|].
    + destruct Hw1 as [Hw1 _]. by rewrite Hw1, drop_0.
    + cbn beta. intros r w' [-> Hw']. split; [|by eapply reads_trans].
      rewrite length_app. simpl. rewrite <- !app_assoc. simpl. do 3 f_equal. lia.
Qed.

Lemma leaves_length l buf : (length l < length buf)%nat → length (leaves l buf) = length buf.
Proof. intros Hl. unfold leaves. rewrite length_app. simpl. rewrite length_drop. lia. Qed.

Lemma readline_line fd buf l rest w : cat_line l → length buf = BUFSIZE → w_fds w !! fd = Some (l ++ 10 :: rest) →
  returns (readline fd buf BUFSIZE)
    (λ r w', r = Value (Z.of_nat (S (length l)), leaves (l ++ [10]) buf) ∧ reads fd rest w w') w.
Proof.
  unfold BUFSIZE. intros [Hl1 Hl2] Hb Hfd. unfold readline.
  eapply wp_obind; [apply (readline_loop_spec l 511 fd [] buf true rest w); [done|lia..|by left|done]|intros ? ? []; done|].
  cbn beta. intros a w' [[= ->] Hw']. cbn [app length Nat.add Z.eqb andb orb Z.ltb Z.compare].
  apply wp_ret. split; [|done]. f_equal. f_equal. unfold leaves.
  rewrite (drop_S buf (buf !!! S (length l)) (S (length l))) by (apply list_lookup_lookup_total_lt; lia).
  rewrite cons_middle, app_assoc, insert_app_r_alt by (rewrite length_app; simpl; lia).
  rewrite !length_app. simpl. replace (S (length l) - (length l + 1))%nat with O by lia. simpl.
  by replace (length l + 1)%nat with (S (length l)) by lia.
Qed.
(** At the end of the file: a last line without a newline, after which a byte of
    the buffer stays; or nothing. *)
Lemma insert_after (t buf : list Z) : (S (length t) < length buf)%nat →
  <[S (length t) := 0]> (t ++ drop (length t) buf) = t ++ nth (length t) buf 0 :: 0 :: drop (S (S (length t))) buf.
Proof.
  intros Hl. destruct (nth_lookup_or_length buf (length t) 0) as [Hx|]; [|lia].
  destruct (nth_lookup_or_length buf (S (length t)) 0) as [Hy|]; [|lia].
  rewrite (drop_S _ _ _ Hx), (drop_S _ _ _ Hy), insert_app_r_alt by lia.
  by replace (S (length t) - length t)%nat with 1%nat by lia.
Qed.
Lemma readline_end fd buf t w : cat_line t → length buf = BUFSIZE → w_fds w !! fd = Some t →
  returns (readline fd buf BUFSIZE)
    (λ r w', r = Value (if bool_decide (t = []) then (0, buf)
       else (Z.of_nat (S (length t)), t ++ nth (length t) buf 0 :: 0 :: drop (S (S (length t))) buf)) ∧ reads fd [] w w') w.
Proof.
  unfold BUFSIZE. intros [Ht1 Ht2] Hb Hfd. unfold readline.
  eapply wp_obind; [apply (readline_loop_spec t 511 fd [] buf false [] w); [done|lia..|by right|by rewrite app_nil_r]|intros ? ? []; done|].
  cbn beta. intros a w' [[= ->] Hw']. rewrite <- insert_after by lia. cbn [app length Nat.add].
  destruct t as [|c t]; (apply wp_ret; split; [|exact Hw']); simpl; [by rewrite drop_0|done].
Qed.

Lemma write_all_spec s w :
  returns (write_all s) (λ r w', r = Value tt ∧ w_fds w' = w_fds w ∧ out_of 1 w' = out_of 1 w ++ s) w.
Proof.
  unfold write_all. apply wp_bind. eapply wp_ok; [reflexivity|]. rewrite Z.eqb_refl. apply wp_ret.
  split_and!; [done..|]. unfold out_of at 1. simpl. by rewrite lookup_insert_eq.
Qed.

(** A line and its number are written. *)
Lemma write_line fd i (linenums : bool) s rest w1 w (f : unit → M world (outcome (list Z))) Q : reads fd rest w w1 →
  (∀ w2, w_fds w2 !! fd = Some rest → out_of 1 w2 = out_of 1 w ++ number linenums i ++ s → returns (f tt) Q w2) →
  returns (let? _ := (if linenums then write_all (take NUMWIDTH (int_to_str i)) else ret (Value tt)) in
           let? u := write_all s in f u) Q w1.
Proof.
  intros [Hw1 Ho1] Hf.
  eapply (wp_obind _ _ _ _ (λ r w', r = Value tt ∧ w_fds w' = w_fds w1 ∧ out_of 1 w' = out_of 1 w1 ++ number linenums i)).
  - destruct linenums; [apply write_all_spec|]. apply wp_ret. by rewrite app_nil_r.
  - by intros ? ? [].
  - intros _ w2 (_ & Hfd2 & Ho2). eapply wp_obind; [apply write_all_spec|by intros ? ? []|].
    intros [] w3 (_ & Hfd3 & Ho3). apply Hf; [by rewrite Hfd3, Hfd2|].
    rewrite Ho3, Ho2, <- app_assoc. f_equal. unfold out_of. by rewrite Ho1.
Qed.

Lemma cat_eof fuel fd linenums buf i w : length buf = BUFSIZE → w_fds w !! fd = Some [] →
  returns (cat_loop fuel fd linenums buf i) (λ r w', (∃ buf', r = Value buf') ∧ out_of 1 w' = out_of 1 w) w.
Proof.
  intros Hb Hfd. destruct fuel; cbn [cat_loop];
    (eapply wp_obind; [apply (readline_end fd buf [] w); [by split; [apply not_elem_of_nil|simpl; lia]|done..]|by intros ? ? []|];
     intros [n b] w1 [[= -> ->] [_ Hw1]]; apply wp_ret; split; [by eexists|by unfold out_of; rewrite Hw1]).
Qed.

Lemma take_line l t buf : take (length (l ++ t)) (l ++ t ++ buf) = l ++ t.
Proof. by rewrite app_assoc, take_app_length. Qed.

Lemma cat_loop_spec linenums ls : ∀ fuel fd buf i t w,
  Forall cat_line ls → cat_line t → length buf = BUFSIZE → (length ls < fuel)%nat →
  w_fds w !! fd = Some (cat_text ls t) →
  returns (cat_loop fuel fd linenums buf i)
    (λ r w', (∃ buf', r = Value buf') ∧ out_of 1 w' = out_of 1 w ++ printed linenums buf i ls t) w.
Proof.
  induction ls as [|l ls IH]; intros fuel fd buf i t w Hls Ht Hb Hf Hfd; (destruct fuel as [|fuel]; [simpl in Hf; lia|]).
  - change (cat_text [] t) with t in Hfd. destruct (decide (t = [])) as [->|Hne].
    { eapply wp_mono; [by apply cat_eof|]. cbn beta. intros r w' [Hr ->]. split; [done|]. by rewrite app_nil_r. }
    cbn [cat_loop]. eapply wp_obind; [by apply (readline_end fd buf t w)|by intros ? ? []|].
    rewrite bool_decide_false by done. intros [n b] w1 [[= -> ->] Hw1]. rewrite (proj2 (Z.ltb_lt 0 _)) by lia.
    destruct Ht as [_ Ht]. eapply write_line; [exact Hw1|]. intros w2 Hfd2 Ho2.
    eapply wp_mono; [apply cat_eof; [|done]|].
    + rewrite length_app. simpl. rewrite length_drop. unfold BUFSIZE in *. lia.
    + cbn beta. intros r w' [Hr ->]. split; [done|]. rewrite Ho2. f_equal. destruct t as [|c t]; [done|]. cbn [printed]. f_equal.
      rewrite Nat2Z.id, cons_middle, app_assoc, take_app_length'; [done|]. rewrite length_app. simpl. lia.
  - apply Forall_cons in Hls as [Hl Hls]. cbn [cat_loop].
    assert (cat_text (l :: ls) t = l ++ 10 :: cat_text ls t) as Htext.
    { unfold cat_text. rewrite fmap_cons. change (mjoin (?x :: ?y)) with (x ++ mjoin y). by rewrite <- !app_assoc. }
    rewrite Htext in Hfd.
    eapply wp_obind; [by apply (readline_line fd buf l (cat_text ls t) w)|by intros ? ? []|].
    intros [n b] w1 [[= -> ->] Hw1]. rewrite (proj2 (Z.ltb_lt 0 _)) by lia.
    eapply write_line; [exact Hw1|]. intros w2 Hfd2 Ho2. destruct Hl as [_ Hl]. simpl in Hf.
    eapply wp_mono; [apply (IH fuel fd _ (s32 (i + 1)) t w2); [done|done| |lia|done]|].
    + rewrite leaves_length; [done|]. rewrite length_app. simpl. unfold BUFSIZE in *. lia.
    + cbn beta. intros r w' [Hr Ho]. split; [done|]. rewrite Ho, Ho2, <- !app_assoc. f_equal. cbn [printed]. f_equal.
      rewrite (app_assoc l [10]). f_equal. unfold leaves. rewrite Nat2Z.id, take_app_length'; [done|]. rewrite length_app. simpl. lia.
Qed.
Lemma printed_plain ls t : ∀ buf i,
  printed false buf i ls t = cat_text ls t ++
    match t with [] => [] | _ => [nth (length t) (foldl (λ b l, leaves (l ++ [10]) b) buf ls) 0] end.
Proof.
  induction ls as [|l ls IH]; intros buf i; [by destruct t|]. cbn [printed foldl number]. rewrite IH.
  unfold cat_text. rewrite fmap_cons. change (mjoin (?x :: ?y)) with (x ++ mjoin y). by rewrite <- !app_assoc.
Qed.

(** C23: [cat] copies its input, if no line has more than 510 bytes.  A last line that
    does not end in a newline is followed by one byte more: what an earlier line
    has left at that place of the buffer. *)
Theorem cat_copies ls t fuel fd buf w :
  Forall cat_line ls → cat_line t → length buf = BUFSIZE → (length ls < fuel)%nat →
  w_fds w !! fd = Some (cat_text ls t) →
  returns (cat fuel fd false buf) (λ r w', (∃ buf', r = Value buf') ∧
    out_of 1 w' = out_of 1 w ++ cat_text ls t ++
      match t with [] => [] | _ => [nth (length t) (foldl (λ b l, leaves (l ++ [10]) b) buf ls) 0] end) w.
Proof. intros. rewrite <- (printed_plain ls t buf 1). by apply cat_loop_spec. Qed.

(** A longer line ends the program. *)
Lemma readline_long fuel : ∀ fd buf i s w,
  w_fds w !! fd = Some s → (fuel ≤ length s)%nat → 10 ∉ take fuel s →
  returns (readline_loop fuel fd buf i) (λ r w', r = Exited (-1) ∧ out_of 1 w' = out_of 1 w) w.
Proof.
  induction fuel as [|fuel IH]; intros fd buf i s w Hfd Hl Hn; cbn [readline_loop].
  - eapply (wp_call _ _ _ (λ _ w', out_of 1 w' = out_of 1 w)); [|intros _ w' Ho; by apply wp_ret].
    generalize (lit "readline() - line too long" ++ [10]). intros m. clear -w. unfold eputs.
    revert w. induction m as [|c m IHm]; intros w; [done|]. cbn [put_all]. apply wp_bind. eapply wp_ok; [reflexivity|].
    eapply wp_mono; [apply IHm|]. cbn beta. intros _ w' ->. unfold out_of. simpl. by rewrite lookup_insert_ne.
  - destruct s as [|c s]; [simpl in Hl; lia|]. simpl in Hl, Hn. rewrite not_elem_of_cons in Hn.
    destruct (read_byte _ _ _ Hfd) as (w1 & Hr & Hw1 & Ho1). eapply wp_bind, wp_ok; [exact Hr|]. simpl in Hw1 |- *.
    rewrite drop_0 in Hw1. rewrite (proj2 (Z.eqb_neq c 10)) by naive_solver.
    eapply wp_mono; [apply (IH fd _ _ s); [done|lia|tauto]|]. cbn beta. intros r w' [-> ->]. split; [done|].
    unfold out_of. by rewrite Ho1.
Qed.
End printing.

(** "hello", "a" and, without a newline, "bcd": an [l] of the first line is printed
    too. *)
Definition cat_world : world := World ∅ {[0 := lit "hello" ++ [10] ++ lit "a" ++ [10] ++ lit "bcd"]} [] ∅.
Lemma cat_copies_witness :
  returns (cat 5 0 false (replicate 512 0)) (λ r w', (∃ buf', r = Value buf') ∧
    out_of 1 w' = lit "hello" ++ [10] ++ lit "a" ++ [10] ++ lit "bcdl") cat_world.
Proof.
  eapply wp_mono; [apply (cat_copies [lit "hello"; lit "a"] (lit "bcd") 5 0 (replicate 512 0) cat_world)|].
  - do 2 (apply Forall_cons_2; [split; [by_compute|vm_compute; lia]|]). apply Forall_nil_2.
  - split; [by_compute|vm_compute; lia].
  - reflexivity.
  - vm_compute. lia.
  - reflexivity.
  - cbn beta. intros r w' [Hr ->]. split; [done|]. vm_compute. reflexivity.
Defined.
